(* ===== verification/_CoqProject ===== *)
-Q . S2P
Prelude.v
Text.v
Utf8.v
PluginNames.v
Trace.v
Errors.v
Ownership.v
Json.v
SkillLoad.v
Registry.v
Float64.v
LlmTypes.v
Codec.v
Events.v
Pricing.v
Optimization.v
Summary.v
Registries.v
ScopeStack.v
ContextState.v
Chains.v
Execution.v
World.v
LlmTransforms.v
LlmPayloads.v
WorldFacts.v
Context.v
Delivery.v
ScopeApi.v
Guardrails.v
LlmRequests.v
Continuation.v
ToolApi.v
LlmApi.v
Chunks.v
Stream.v
StreamApi.v
RegistryApi.v
Flush.v
DetailPool.v
DetailPoolFacts.v
DiagCatalogue.v
DiagTypes.v
DiagState.v
DiagRecording.v
DiagLifecycle.v
DiagInvariant.v
DiagHistory.v
DiagTables.v
DiagReclaim.v
DiagInstall.v
DiagService.v
DiagExtension.v
DiagObserve.v
Diagnostics.v
