(* ===== verification/Prelude.v ===== *)
(** * NeMo Relay: a verification development of the agent runtime

    ** The program

    NeMo Relay is a runtime that agent frameworks embed to observe and govern
    their work.  An application opens scopes, and calls tools and models
    through the runtime; registered middleware (guardrails, intercepts,
    injectors, sanitizers) decides about the calls and rewrites what is
    published, and subscribers receive the lifecycle events.  The parts
    modelled here are in [crates/runtime], [crates/types],
    [crates/diagnostics] and [crates/model-pricing], with the naming functions
    of [crates/plugin-host].

    - Middleware is registered by name and priority, globally or on a scope,
      in sorted registries ([registry.rs], [api/registry.rs],
      [context/registries.rs]).  An operation takes a snapshot of the entries
      in force and runs it after the locks are released.
    - Every task or thread has a scope stack ([api/runtime/scope_stack.rs])
      that owns the registries of its scopes, decides the parent and the trace
      of an event and can be exported to and imported from other processes.
    - The APIs ([api/scope.rs], [api/tool.rs], [api/llm.rs]) change the stack,
      build events ([api/runtime/state.rs]) and queue them with their
      middleware.  A streaming call hands the end of its span to a wrapper of
      the provider's stream ([stream.rs]).
    - One dispatcher thread ([api/runtime/subscriber_dispatcher.rs]) delivers
      the queue and answers flushes.
    - An LLM call carries a recorder of optimizations
      ([api/optimization.rs]), summarized with prices of the model catalog
      ([crates/model-pricing]).
    - One copy of the runtime owns a process ([shared_runtime.rs]).
    - The diagnostics service ([crates/diagnostics]) collects classified
      observations of components in memory that is reserved up front: fixed
      tables, a circular history and a pool of text blocks.

    ** The files

    Shared:
    - [Prelude]: outcomes ([Ok], [Err], [Panic]), the error monad, stable
      sorting (Rust's [sort_by_key]), [BTreeMap] iteration.
    - [Text], [Utf8]: the [str] functions of Rust on byte strings, and text
      cut at character boundaries.
    - [Float64]: the type [f64].
    - [Errors], [Json]: [types/src/error.rs], [runtime/src/json.rs] and the
      status metadata of [api/shared.rs].

    Data:
    - [PluginNames]: [types/src/plugin.rs] and the namespaces of
      [plugin-host/src/lib.rs].
    - [Trace]: [types/src/trace.rs] and the W3C headers of [scope_stack.rs];
      class [Otel] is the OpenTelemetry SDK, [OtelLaws] what is relied on.
    - [Events]: [types/src/api/{scope,event,tool,llm}.rs].
    - [LlmTypes], [Codec]: [types/src/codec/]: normalized requests, responses,
      usage and evidence; the codec traits as records of methods.
    - [SkillLoad]: [api/skill_load.rs]; the splitter of shell words is a
      parameter.
    - [Ownership]: [runtime/src/shared_runtime.rs] on the environment that
      the copies of the runtime in a process share.

    Registries and state:
    - [Registry]: [runtime/src/registry.rs].
    - [Registries]: [context/registries.rs] and the gates of
      [api/registry.rs]; [RegistryApi]: the registration functions (the
      instances of the macros of [api/registry.rs]), subscribers, discovery.
    - [ScopeStack], [Context]: the type [ScopeStack], [PropagationContext],
      binding, saving and capturing the current stack.
    - [ContextState]: [NemoRelayContextState] and the event builders.
    - [Chains], [Execution]: the middleware chains of [state.rs].
    - [World]: the shared state as one record and the state monad [M] over it:
      global registries, gates, scope stacks behind handles, the binding of
      the current thread or task, clocks, recorders, queue; the snapshot
      functions of [api/shared.rs] and the dispatch functions of the
      dispatcher.  [WorldFacts]: what these computations leave alone.

    Calls and delivery:
    - [ScopeApi]: [push_scope], [pop_scope], [event].
    - [Guardrails]: conditional guardrails and the drop guards of managed
      calls; [Continuation]: continuation and codec leases.
    - [ToolApi]: [tool_call], [tool_call_end], [tool_call_execute] and the
      partial pipelines.
    - [LlmRequests], [LlmTransforms], [LlmPayloads], [LlmApi]: the request
      side, what LLM events carry, and the manual and managed calls of
      [api/llm.rs].
    - [Chunks], [Stream], [StreamApi]: chunk marks, the stream wrapper and the
      managed streaming call.
    - [Delivery]: [deliver_event] and the pipeline before the subscribers.
    - [Flush]: the dispatcher loop, publication lineages and flushes as a step
      relation.

    Accounting:
    - [Optimization], [Summary]: [api/optimization.rs], the recorder with its
      interleavings and the summary.
    - [Pricing]: [types/src/codec/billing.rs] and [crates/model-pricing].

    Diagnostics ([crates/diagnostics], [types/src/diagnostics/]):
    - [DiagCatalogue], [DiagTypes]: codes, names, causes, classifiers; the
      records of the service.
    - [DetailPool], [DetailPoolFacts]: the block pool of [storage.rs].
    - [DiagState], [DiagRecording], [DiagLifecycle]: the operations of
      [state.rs], [recording.rs] and [lifecycle.rs].
    - [DiagInvariant], [DiagHistory], [DiagTables], [DiagReclaim],
      [DiagInstall], [DiagService], [DiagExtension], [DiagObserve]: the
      invariant of the store and that every operation keeps it.
    - [Diagnostics]: the facade of [context.rs], sequences of operations and
      the theorems about them.

    A file is a section or a module per part of the source; a definition has
    the name of the function it translates.  Where several functions share a
    body, or one function is long, helper definitions name its blocks.

    ** Effects

    Pure functions are functions.  Code on shared state is in the monad [M]:
    it takes the [World] and returns an outcome and the new world, also for an
    error or a panic, because what was done before stays done.  A callback is
    a handle ([Callback]); what it does is a parameter of the section that
    runs it, with the world before and after.  [catch_unwind] is a match on
    [Panic]; a drop guard is a computation that runs on every exit.  A future
    that is dropped before it resolves ends like a panic.  A stream answers
    polls; its wrapper is a state with a transition for each poll, close and
    drop.  Clocks and fresh uuids are sequences given as parameters.

    The diagnostics service has a monad of the same shape over its own store;
    specifications there are weakest preconditions ([wp]).  Its ring buffer is
    another package: class [CircularBuffer] has the operations, [CircularLaws]
    what its documentation says of them, and the theorems hold for every
    instance.

    Threads interleave in [Flush], [Optimization] and [Ownership], where the
    property is about interleaving, each critical section or access of shared
    state being a step; a wait on a condition variable ends by a notification; elsewhere a call runs to its end, and the operations
    of the diagnostics service run one at a time under its lock.

    ** What the theorems show

    - Registries: a registry refines a finite map, sorted by priority and
      name and independent of history ([registry_refines_map],
      [sorted_values_history_independent]); merging keeps the priority order,
      global entries before local ones ([merge_guardrail_entries_spec],
      [merge_execution_intercepts_equiv]); registering is exact, reversible
      and bounded by the life of its scope ([scope_registration_lifetime],
      [global_registration_exact], [gate_lifecycle]); discovery lists exactly
      what is registered ([listing_exact]).
    - Scope stack: the invariant of every reachable stack and freedom from
      panics ([scope_stack_invariant]); LIFO removal with classified errors
      ([remove_classification]); snapshots, agents and freshness
      ([snapshot_visible_prefix], [owning_agent_nearest],
      [agent_freshness_single_use]); traces ([child_joins_parent_trace],
      [propagation_import], [tracestate_grammar], [tracestate_canonical]).
    - Chains: payloads pass every sanitizer or are dropped
      ([payload_sanitize_fail_closed]); intercepts stop, nest, short-circuit
      and keep their marks in order ([break_chain_stops],
      [codec_protects_content], [execution_chain_nests],
      [execution_short_circuit], [marks_in_call_order]).
    - Delivery: the pipeline fails closed ([delivery_fail_closed]), and a
      delivery reaches every subscriber and leaves the thread as it was
      ([delivery_isolated]).
    - APIs: opening and closing a scope is a round trip with exactly its two
      events ([scope_api_roundtrip], [pop_scope_classified],
      [mark_event_published]); conditional guardrails decide in order and
      visibly ([conditional_chain_decides]); a managed tool call, LLM call or
      stream that starts ends exactly once, whatever happens in between
      ([managed_tool_ends_once], [managed_llm_ends_once],
      [managed_stream_handed_over], [stream_ends_once],
      [stream_end_published]); a continuation runs on a copy of the
      stack of its caller, or on the stack that an override names, and is
      revoked when its intercept settles ([continuation_isolated],
      [override_not_isolated]).
    - LLM events: payloads are sanitized or absent
      ([end_payload_fail_closed]), chunk marks are free of content
      ([chunk_mark_content_free]), outgoing headers are exact
      ([outgoing_headers_exact]).
    - Flushes: a flush delivers what was published before it and waits for
      the lineages that were open when it was asked for, and none is
      forgotten ([flush_is_barrier], [flush_always_acknowledged]), for every
      interleaving; a captured publication buffer can publish on a finished
      lineage again ([captured_buffer_reopens]).
    - Accounting: the recorder is bounded and loses nothing it accepted, and
      every schedule of it settles ([recorder_bounded_and_lossless],
      [recorder_settles]); summaries and estimates are exact or say what they
      lack ([complete_summary_exact], [token_totals_exact],
      [estimate_sound], [billed_usage_exact], [lookup_unambiguous]).
    - Ownership: once the claims of the copies of the runtime have settled,
      one owner holds the process for good ([runtime_owner_exclusive]); two
      copies that claim it at the same time can both succeed
      ([concurrent_claims_race]).
    - Diagnostics: the catalogue is well formed ([catalogue_well_formed]) and
      classifications are accepted exactly when they were checked
      ([classification_roundtrip]); the block pool is a store of texts
      ([detail_pool_store]); after any sequence of operations nothing panics
      ([diagnostics_never_panics]), observations are counted once and either
      retained, evicted or reported as omitted ([observation_counted_once],
      [evidence_conserved]), retained events read back what fitted of the text
      ([retained_events_readable], [recorded_text_reads_back]), the metadata
      account is exact ([metadata_exact]), handles are never reused and open
      components never displaced ([stale_handles_refused],
      [open_components_survive]), and registrations are complete
      ([registration_complete], [extension_usable]).
    - Names and data: [effective_name_roundtrip], [child_names_keep_owner],
      [skill_detection_sound], [traversal_complete], [merge_json_spec].

    Theorems about the APIs assume a [ready] (or [healthy]) world: the current
    stack is there and well formed and its lock is not poisoned; where a
    callback runs in between, they assume that it keeps the world so.
    Theorems about diagnostics assume limits that pass the validation of
    [settings.rs].  Each theorem with hypotheses has a witness that applies it
    to a concrete world ([demo_world]), store or input.

    ** Bounds and fuel

    Integers are [Z] or [N]; a UUID is its 128-bit value, an ordinal or an HTTP
    status is range-checked where the code parses it, priorities are [i32] values that
    are only compared, token counts and diagnostic counts are [u64] values
    whose checked and saturating arithmetic is written out.  Timestamps are
    nanoseconds without the range limit of [chrono].

    A loop that is not structural has fuel, and running out of it is a panic
    of the model, so that freedom from panics includes termination:
    - the traversal of tool arguments: the nodes of the value
      ([traversal_complete]);
    - the chains of the detail pool: one more than the blocks; cutting text
      into pieces: one more than its bytes;
    - admission: one more than the component slots, each round reclaims one;
      making room for a text: one more than the retained events; walks along
      the counters of a component: one more than the counters
      ([diagnostics_never_panics]).

    ** Not modelled

    Metric events, the fork hooks and the background executor of the
    dispatcher, the publication context that a continuation carries, and
    (de)serialisation by serde.  Of diagnostics: query pages and their
    serialization, memory inspection, and the subscription guards of
    projections, whose callbacks are an input here.  Of the other crates:
    provider codecs, the adaptive runtime, redaction, exporters, plugin
    loading and workers, the CLI, and the language bindings.  Logging has no
    effect in the model.

    ** Plan

    Next: the query pages of diagnostics ([read.rs]), the provider codecs as
    instances of the codec records, the plugin lifecycle of
    [crates/plugin-host], and the policies of redaction. *)

From stdpp Require Import base gmap strings list sorting.

#[global] Set Default Goal Selector "!".

(** ** Outcomes of fallible and panicking code

    A Rust function of type [Result<A, E>] either returns [Ok], returns [Err]
    or panics; [catch_unwind] turns the third case back into a value. *)
Inductive outcome (E A : Type) : Type :=
| Ok (a : A)
| Err (e : E)
| Panic.

Arguments Ok {E A} a.
Arguments Err {E A} e.
Arguments Panic {E A}.

Definition outcome_bind {E A B : Type} (m : outcome E A) (k : A → outcome E B) :
    outcome E B :=
  match m with
  | Ok a => k a
  | Err e => Err e
  | Panic => Panic
  end.

Definition outcome_map {E A B : Type} (f : A → B) (m : outcome E A) : outcome E B :=
  outcome_bind m (λ a, Ok (f a)).

Definition is_ok {E A : Type} (m : outcome E A) : bool :=
  match m with
  | Ok _ => true
  | Err _ | Panic => false
  end.

Declare Scope relay_scope.
Delimit Scope relay_scope with relay.

Notation "'let?' x ':=' m 'in' k" := (outcome_bind m (λ x, k))
  (at level 10, x pattern, m at level 100, k at level 200)
  : relay_scope.

(** ** Stable sorting

    [slice::sort_by] and [slice::sort_by_key] are stable.  [stable_sort R] is
    an executable stable sort for a decidable relation [R]; the lemmas below
    are the three facts the documentation of the standard library gives:
    the result is a permutation, it is sorted, and elements that compare
    equal keep their relative order. *)
Section StableSort.
Context {A : Type} (R : relation A) `{!RelDecision R}.

Fixpoint place (x : A) (l : list A) : list A :=
  match l with
  | [] => [x]
  | y :: l' => if decide (R x y) then x :: y :: l' else y :: place x l'
  end.

Fixpoint stable_sort (l : list A) : list A :=
  match l with
  | [] => []
  | x :: l' => place x (stable_sort l')
  end.

(** The elements of [l] that compare equal to [z], in order. *)
Definition same_class (z : A) (l : list A) : list A :=
  filter (λ y, R z y ∧ R y z) l.

Lemma place_Permutation x l : place x l ≡ₚ x :: l.
Proof.
  induction l as [|y l IH]; simpl; [done|].
  case_decide; [done|]. rewrite IH. by constructor.
Qed.

Lemma stable_sort_Permutation l : stable_sort l ≡ₚ l.
Proof.
  induction l as [|x l IH]; simpl; [done|].
  by rewrite place_Permutation, IH.
Qed.

Lemma elem_of_stable_sort x l : x ∈ stable_sort l ↔ x ∈ l.
Proof. by rewrite stable_sort_Permutation. Qed.

Lemma length_stable_sort l : length (stable_sort l) = length l.
Proof. by rewrite stable_sort_Permutation. Qed.

Lemma place_StronglySorted `{!Total R, !Transitive R} x l :
  StronglySorted R l → StronglySorted R (place x l).
Proof.
  induction 1 as [|y l Hl IH Hy]; simpl; [by repeat constructor|].
  case_decide as Hxy.
  - repeat constructor; [done..|].
    eapply Forall_impl; [exact Hy|]. intros z Hyz. by etrans.
  - assert (R y x) as Hyx by (by destruct (total R x y)).
    constructor; [done|]. rewrite place_Permutation. by constructor.
Qed.

Lemma stable_sort_StronglySorted `{!Total R, !Transitive R} l :
  StronglySorted R (stable_sort l).
Proof. induction l; simpl; [constructor|]. by apply place_StronglySorted. Qed.

Lemma place_same_class `{!Transitive R} z x l :
  same_class z (place x l) = same_class z (x :: l).
Proof.
  unfold same_class. induction l as [|y l IH]; [done|].
  cbn [place]. destruct (decide (R x y)) as [Hxy|Hxy]; [done|].
  rewrite filter_cons, IH, !filter_cons.
  destruct (decide (R z y ∧ R y z)) as [[Hzy Hyz]|]; [|done].
  destruct (decide (R z x ∧ R x z)) as [[Hzx Hxz]|]; [|done].
  destruct Hxy. by transitivity z.
Qed.

Lemma stable_sort_same_class `{!Transitive R} z l :
  same_class z (stable_sort l) = same_class z l.
Proof.
  induction l as [|x l IH]; simpl; [done|].
  rewrite place_same_class. unfold same_class in *. by rewrite !filter_cons, IH.
Qed.

Lemma stable_sort_id l : StronglySorted R l → stable_sort l = l.
Proof.
  induction 1 as [|x l Hl IH Hx]; simpl; [done|].
  rewrite IH. destruct l as [|y l]; simpl; [done|].
  rewrite decide_True; [done|]. by apply Forall_inv in Hx.
Qed.

(** With an antisymmetric relation the sorted list depends on the multiset of
    elements only. *)
Lemma stable_sort_Permutation_eq `{!Total R, !Transitive R, !AntiSymm (=) R} l1 l2 :
  l1 ≡ₚ l2 → stable_sort l1 = stable_sort l2.
Proof.
  intros Hl. apply (StronglySorted_unique R).
  - apply stable_sort_StronglySorted.
  - apply stable_sort_StronglySorted.
  - by rewrite !stable_sort_Permutation.
Qed.

End StableSort.

(** Sorting by a key commutes with a map that keeps the key. *)
Lemma stable_sort_fmap {A B : Type} (R : relation A) (S : relation B)
    `{!RelDecision R, !RelDecision S} (f : A → B) (l : list A) :
  (∀ x y, R x y ↔ S (f x) (f y)) →
  f <$> stable_sort R l = stable_sort S (f <$> l).
Proof.
  intros HRS.
  assert (∀ x l, f <$> place R x l = place S (f x) (f <$> l)) as Hplace.
  { intros x l'. induction l' as [|y l' IH]; [done|]. cbn.
    destruct (decide (R x y)), (decide (S (f x) (f y))); cbn; try (by rewrite ?IH).
    - exfalso. naive_solver.
    - exfalso. naive_solver. }
  induction l as [|x l IH]; [done|]. cbn. by rewrite Hplace, IH.
Qed.

(** ** Ordered maps

    A [BTreeMap<String, A>] iterates in ascending key order. *)
Definition key_order {A : Type} (kv1 kv2 : string * A) : Prop := String.le kv1.1 kv2.1.

#[global] Instance key_order_dec {A : Type} : RelDecision (@key_order A).
Proof. intros ? ?. unfold key_order. apply _. Defined.

Definition btree_iter {A : Type} (m : gmap string A) : list (string * A) :=
  stable_sort key_order (map_to_list m).

Lemma elem_of_btree_iter {A : Type} (m : gmap string A) k a :
  (k, a) ∈ btree_iter m ↔ m !! k = Some a.
Proof. unfold btree_iter. by rewrite elem_of_stable_sort, elem_of_map_to_list. Qed.

(** ** Hints of the development *)
Create HintDb relay discriminated.
#[export] Hint Resolve stable_sort_Permutation stable_sort_StronglySorted : relay.
