(* ===== verification/Text.v ===== *)
(** * Text functions of the Rust standard library

    A [String] or [&str] is its UTF-8 bytes: a [string] here is a sequence of
    bytes and [utf8_valid] is the validity check of [String::from_utf8].
    This file has the [str] and [u8] functions the sources call, with the
    facts about them that the components share. *)

From Stdlib Require Import Ascii DecimalString DecimalN DecimalFacts.
From stdpp Require Import base strings list.
From S2P Require Import Prelude.

(** ** Bytes *)

Definition byte_value (c : ascii) : nat := nat_of_ascii c.

(** [(lo..=hi).contains(&b)]. *)
Definition byte_between (lo hi : nat) (c : ascii) : bool :=
  (lo <=? byte_value c)%nat && (byte_value c <=? hi)%nat.

Definition is_ascii_digit : ascii → bool := byte_between 48 57.
Definition is_ascii_lowercase : ascii → bool := byte_between 97 122.
Definition is_ascii_uppercase : ascii → bool := byte_between 65 90.
Definition is_ascii_alphanumeric (c : ascii) : bool :=
  is_ascii_digit c || is_ascii_lowercase c || is_ascii_uppercase c.

(** ** Strings as byte sequences *)

Fixpoint str_all (p : ascii → bool) (s : string) : bool :=
  match s with
  | EmptyString => true
  | String c s' => p c && str_all p s'
  end.

Definition str_empty (s : string) : bool :=
  match s with
  | EmptyString => true
  | String _ _ => false
  end.

(** [s.split_once(c)] for a one-byte pattern. *)
Fixpoint split_once (c : ascii) (s : string) : option (string * string) :=
  match s with
  | EmptyString => None
  | String a s' =>
      if decide (a = c) then Some (EmptyString, s')
      else '(x, y) ← split_once c s'; Some (String a x, y)
  end.

(** [s.strip_prefix(p)]. *)
Fixpoint strip_prefix (p s : string) : option string :=
  match p with
  | EmptyString => Some s
  | String a p' =>
      match s with
      | EmptyString => None
      | String b s' => if decide (a = b) then strip_prefix p' s' else None
      end
  end.

(** [s.split_once(pat)] for a string pattern: the first occurrence. *)
Fixpoint split_once_str (pat s : string) : option (string * string) :=
  match strip_prefix pat s with
  | Some rest => Some (EmptyString, rest)
  | None =>
      match s with
      | EmptyString => None
      | String a s' => '(x, y) ← split_once_str pat s'; Some (String a x, y)
      end
  end.

(** [s.split(c)]: always at least one piece. *)
Fixpoint split_on (c : ascii) (s : string) : list string :=
  match s with
  | EmptyString => [EmptyString]
  | String a s' =>
      if decide (a = c) then EmptyString :: split_on c s'
      else
        match split_on c s' with
        | [] => [String a EmptyString]
        | x :: xs => String a x :: xs
        end
  end.

(** [s.trim_start_matches(p)] and [s.trim_matches(p)]. *)
Fixpoint trim_start_matches (p : ascii → bool) (s : string) : string :=
  match s with
  | EmptyString => EmptyString
  | String c s' => if p c then trim_start_matches p s' else s
  end.

Fixpoint trim_end_matches (p : ascii → bool) (s : string) : string :=
  match s with
  | EmptyString => EmptyString
  | String c s' =>
      match trim_end_matches p s' with
      | EmptyString => if p c then EmptyString else String c EmptyString
      | t => String c t
      end
  end.

Definition trim_matches (p : ascii → bool) (s : string) : string :=
  trim_end_matches p (trim_start_matches p s).

(** ** UTF-8 validity, after the table of [core::str::validations] *)

Definition is_continuation : ascii → bool := byte_between 128 191.

Fixpoint utf8_valid (s : string) : bool :=
  match s with
  | EmptyString => true
  | String b1 s1 =>
      if byte_between 0 127 b1 then utf8_valid s1
      else if byte_between 194 223 b1 then
        match s1 with
        | String b2 s2 => is_continuation b2 && utf8_valid s2
        | _ => false
        end
      else if byte_between 224 239 b1 then
        match s1 with
        | String b2 (String b3 s3) =>
            (if (byte_value b1 =? 224)%nat then byte_between 160 191 b2
             else if (byte_value b1 =? 237)%nat then byte_between 128 159 b2
             else is_continuation b2)
            && is_continuation b3 && utf8_valid s3
        | _ => false
        end
      else if byte_between 240 244 b1 then
        match s1 with
        | String b2 (String b3 (String b4 s4)) =>
            (if (byte_value b1 =? 240)%nat then byte_between 144 191 b2
             else if (byte_value b1 =? 244)%nat then byte_between 128 143 b2
             else is_continuation b2)
            && is_continuation b3 && is_continuation b4 && utf8_valid s4
        | _ => false
        end
      else false
  end.

(** ** Whitespace *)

(** [s.trim().is_empty()]: only characters with the Unicode White_Space
    property, here by their UTF-8 encodings. *)
Fixpoint is_blank_text (s : string) : bool :=
  match s with
  | EmptyString => true
  | String b1 s1 =>
      if byte_between 9 13 b1 || byte_between 32 32 b1 then is_blank_text s1
      else
        match s1 with
        | EmptyString => false
        | String b2 s2 =>
            if byte_between 194 194 b1 && (byte_between 133 133 b2 || byte_between 160 160 b2)
            then is_blank_text s2
            else
              match s2 with
              | EmptyString => false
              | String b3 s3 =>
                  if (byte_between 225 225 b1 && byte_between 154 154 b2
                      && byte_between 128 128 b3)
                     || (byte_between 226 226 b1 && byte_between 128 128 b2
                         && (byte_between 128 138 b3 || byte_between 168 169 b3
                             || byte_between 175 175 b3))
                     || (byte_between 226 226 b1 && byte_between 129 129 b2
                         && byte_between 159 159 b3)
                     || (byte_between 227 227 b1 && byte_between 128 128 b2
                         && byte_between 128 128 b3)
                  then is_blank_text s3
                  else false
              end
        end
  end.

(** [s.trim()]: the whitespace characters at either end go. *)
Fixpoint trim_start (s : string) : string :=
  match s with
  | EmptyString => EmptyString
  | String b1 s1 =>
      if byte_between 9 13 b1 || byte_between 32 32 b1 then trim_start s1
      else
        match s1 with
        | EmptyString => s
        | String b2 s2 =>
            if byte_between 194 194 b1 && (byte_between 133 133 b2 || byte_between 160 160 b2)
            then trim_start s2
            else
              match s2 with
              | EmptyString => s
              | String b3 s3 =>
                  if (byte_between 225 225 b1 && byte_between 154 154 b2
                      && byte_between 128 128 b3)
                     || (byte_between 226 226 b1 && byte_between 128 128 b2
                         && (byte_between 128 138 b3 || byte_between 168 169 b3
                             || byte_between 175 175 b3))
                     || (byte_between 226 226 b1 && byte_between 129 129 b2
                         && byte_between 159 159 b3)
                     || (byte_between 227 227 b1 && byte_between 128 128 b2
                         && byte_between 128 128 b3)
                  then trim_start s3
                  else s
              end
        end
  end.

Fixpoint trim_end (s : string) : string :=
  match s with
  | EmptyString => EmptyString
  | String c s' => if is_blank_text s then EmptyString else String c (trim_end s')
  end.

Definition trim (s : string) : string := trim_end (trim_start s).

(** ** More string functions *)

Definition str_any (p : ascii → bool) (s : string) : bool := negb (str_all (λ c, negb (p c)) s).

Definition starts_with (pat s : string) : bool := bool_decide (is_Some (strip_prefix pat s)).

(** [s.ends_with(p)] for a one-byte pattern. *)
Fixpoint ends_with_byte (p : ascii → bool) (s : string) : bool :=
  match s with
  | EmptyString => false
  | String c EmptyString => p c
  | String _ s' => ends_with_byte p s'
  end.

Definition starts_with_byte (p : ascii → bool) (s : string) : bool :=
  match s with
  | EmptyString => false
  | String c _ => p c
  end.

(** [s.contains(pat)] for a string pattern. *)
Definition contains_str (pat s : string) : bool := bool_decide (is_Some (split_once_str pat s)).

Definition to_ascii_lowercase_byte (c : ascii) : ascii :=
  if is_ascii_uppercase c then ascii_of_nat (byte_value c + 32) else c.

Fixpoint str_map (f : ascii → ascii) (s : string) : string :=
  match s with
  | EmptyString => EmptyString
  | String c s' => String (f c) (str_map f s')
  end.

Fixpoint str_filter (p : ascii → bool) (s : string) : string :=
  match s with
  | EmptyString => EmptyString
  | String c s' => if p c then String c (str_filter p s') else str_filter p s'
  end.

Definition to_ascii_lowercase : string → string := str_map to_ascii_lowercase_byte.

Definition eq_ignore_ascii_case (a b : string) : bool :=
  bool_decide (to_ascii_lowercase a = to_ascii_lowercase b).

(** [s.split(p)] for a predicate on bytes. *)
Fixpoint split_by (p : ascii → bool) (s : string) : list string :=
  match s with
  | EmptyString => [EmptyString]
  | String a s' =>
      if p a then EmptyString :: split_by p s'
      else
        match split_by p s' with
        | [] => [String a EmptyString]
        | x :: xs => String a x :: xs
        end
  end.

(** [s.split_once(p)] for a predicate on bytes. *)
Fixpoint split_once_by (p : ascii → bool) (s : string) : option (string * string) :=
  match s with
  | EmptyString => None
  | String a s' =>
      if p a then Some (EmptyString, s')
      else '(x, y) ← split_once_by p s'; Some (String a x, y)
  end.

(** [s.strip_suffix(pat)]. *)
Fixpoint strip_suffix (pat s : string) : option string :=
  if decide (s = pat) then Some EmptyString
  else
    match s with
    | EmptyString => None
    | String c s' => String c <$> strip_suffix pat s'
    end.

Definition one_of (set : string) (c : ascii) : bool := str_any (Ascii.eqb c) set.

(** ** Unsigned decimal numbers *)

(** [n.to_string()] for an unsigned integer. *)
Definition dec_of_N (n : N) : string := NilZero.string_of_uint (N.to_uint n).

(** [s.parse::<uN>()] with maximum [max]: an optional plus sign, at least one
    digit, no overflow. *)
Definition parse_unsigned (max : N) (s : string) : option N :=
  let digits := default s (strip_prefix "+" s) in
  d ← NilZero.uint_of_string digits;
  let n := N.of_uint d in
  if (n <=? max)%N then Some n else None.

Definition u16_max : N := 65535.
Definition u32_max : N := 4294967295.

(** ** Facts *)

Lemma append_nil_l s : EmptyString +:+ s = s.
Proof. done. Qed.

Lemma append_cons c s1 s2 : String c s1 +:+ s2 = String c (s1 +:+ s2).
Proof. done. Qed.

Lemma append_nil_r s : s +:+ EmptyString = s.
Proof. induction s as [|c s IH]; [done|]. by rewrite append_cons, IH. Qed.

Lemma append_assoc s1 s2 s3 : (s1 +:+ s2) +:+ s3 = s1 +:+ (s2 +:+ s3).
Proof. induction s1 as [|c s1 IH]; [done|]. by rewrite !append_cons, IH. Qed.

Lemma append_length s1 s2 : String.length (s1 +:+ s2) = String.length s1 + String.length s2.
Proof. induction s1 as [|c s1 IH]; [done|]. rewrite append_cons. cbn. by rewrite IH. Qed.

Lemma str_all_app p s1 s2 : str_all p (s1 +:+ s2) = str_all p s1 && str_all p s2.
Proof.
  induction s1 as [|c s1 IH]; [done|]. rewrite append_cons. cbn.
  by rewrite IH, andb_assoc.
Qed.

Lemma str_all_impl (p q : ascii → bool) s :
  (∀ c, p c = true → q c = true) → str_all p s = true → str_all q s = true.
Proof.
  intros Hpq. induction s as [|c s IH]; [done|]. cbn.
  rewrite !andb_true_iff. intros [? ?]. auto.
Qed.

Lemma split_once_app c s1 s2 :
  str_all (λ a, negb (Ascii.eqb a c)) s1 = true →
  split_once c (s1 +:+ String c s2) = Some (s1, s2).
Proof.
  induction s1 as [|a s1 IH]; [|rewrite append_cons]; cbn.
  - intros _. rewrite append_nil_l. cbn. by rewrite decide_True.
  - rewrite andb_true_iff, negb_true_iff, Ascii.eqb_neq. intros [Ha Hs].
    rewrite decide_False by done. by rewrite IH.
Qed.

Lemma split_on_app c s1 s2 :
  str_all (λ a, negb (Ascii.eqb a c)) s1 = true →
  split_on c (s1 +:+ String c s2) = s1 :: split_on c s2.
Proof.
  induction s1 as [|a s1 IH]; [|rewrite append_cons]; cbn.
  - intros _. by rewrite append_nil_l; cbn; rewrite decide_True.
  - rewrite andb_true_iff, negb_true_iff, Ascii.eqb_neq. intros [Ha Hs].
    rewrite decide_False by done. by rewrite IH.
Qed.

Lemma split_on_none c s :
  str_all (λ a, negb (Ascii.eqb a c)) s = true → split_on c s = [s].
Proof.
  induction s as [|a s IH]; [done|]. cbn.
  rewrite andb_true_iff, negb_true_iff, Ascii.eqb_neq. intros [Ha Hs].
  rewrite decide_False by done. by rewrite IH.
Qed.

Lemma split_once_Some c s x y :
  split_once c s = Some (x, y) →
  s = x +:+ String c y ∧ str_all (λ a, negb (Ascii.eqb a c)) x = true.
Proof.
  revert x y. induction s as [|a s IH]; intros x y; cbn; [done|].
  case_decide as Ha; [by intros [= <- <-]; subst|].
  destruct (split_once c s) as [[x' y']|] eqn:Hs; cbn; [|done].
  intros [= <- <-]. destruct (IH x' y' eq_refl) as [-> Hx].
  rewrite append_cons. split; [done|]. cbn.
  by rewrite Hx, andb_true_r, negb_true_iff, Ascii.eqb_neq.
Qed.

Lemma strip_prefix_app p s : strip_prefix p (p +:+ s) = Some s.
Proof.
  induction p as [|a p IH]; [done|]. rewrite append_cons. cbn. by rewrite decide_True.
Qed.

Lemma strip_prefix_Some p s r : strip_prefix p s = Some r → s = p +:+ r.
Proof.
  revert s. induction p as [|a p IH]; intros s; cbn; [by intros [= <-]|].
  destruct s as [|b s]; [done|]. case_decide; [|done]. subst. intros H. by rewrite (IH s H).
Qed.

(** *** Decimal numbers *)

Lemma dec_of_N_parse n max : (n ≤ max)%N → parse_unsigned max (dec_of_N n) = Some n.
Proof.
  intros Hmax. unfold parse_unsigned, dec_of_N.
  assert (∀ d, strip_prefix "+" (NilZero.string_of_uint d) = None) as -> by (by intros []).
  cbn [default].
  rewrite NilZero.usu.
  - cbn. rewrite DecimalN.Unsigned.of_to.
    by destruct (N.leb_spec n max); [|lia].
  - intros Hnil. assert (N.of_uint (N.to_uint n) = N.of_uint Decimal.Nil) as Heq by (by rewrite Hnil).
    rewrite DecimalN.Unsigned.of_to in Heq. cbn in Heq. subst n. done.
Qed.

Lemma parse_unsigned_le max s n : parse_unsigned max s = Some n → (n ≤ max)%N.
Proof.
  unfold parse_unsigned. destruct (NilZero.uint_of_string _) as [d|]; cbn; [|done].
  destruct (N.leb_spec (N.of_uint d) max); [|done]. by intros [= <-].
Qed.

Lemma string_of_uint_digits d : str_all is_ascii_digit (NilEmpty.string_of_uint d) = true.
Proof. induction d; [done|..]; exact IHd. Qed.

Lemma dec_of_N_digits n : str_all is_ascii_digit (dec_of_N n) = true.
Proof.
  unfold dec_of_N. destruct (N.to_uint n) eqn:Hd; [done|..]; rewrite <-Hd;
    unfold NilZero.string_of_uint; rewrite Hd; apply string_of_uint_digits.
Qed.

Create Rewrite HintDb relay_text.
#[export] Hint Rewrite append_nil_l append_cons append_nil_r append_assoc str_all_app :
  relay_text.
