(* ===== verification/Utf8.v ===== *)
(** * UTF-8 text cut at character boundaries

    The part of [str] that fixed-size storage relies on: slices,
    [is_char_boundary], and the facts that a valid text is a sequence of
    characters of one to four bytes and stays valid when cut at a boundary. *)

From Stdlib Require Import Ascii.
From stdpp Require Import base strings list.
From S2P Require Import Prelude Text.

Fixpoint str_take (n : nat) (s : string) : string :=
  match n, s with
  | S n, String c s => String c (str_take n s)
  | _, _ => EmptyString
  end.

Fixpoint str_drop (n : nat) (s : string) : string :=
  match n, s with
  | S n, String _ s => str_drop n s
  | 0, s => s
  | _, EmptyString => EmptyString
  end.

Fixpoint str_get (n : nat) (s : string) : option ascii :=
  match n, s with
  | 0, String c _ => Some c
  | S n, String _ s => str_get n s
  | _, EmptyString => None
  end.

(** [s.is_char_boundary(n)]. *)
Definition is_char_boundary (s : string) (n : nat) : bool :=
  (n =? 0)
  || match str_get n s with
     | Some c => negb (is_continuation c)
     | None => n =? String.length s
     end.

(** ** Slices *)

Lemma take_drop_str n s : str_take n s +:+ str_drop n s = s.
Proof.
  revert n. induction s as [|c s IH]; intros [|n]; cbn; [done..|]. by rewrite append_cons, IH.
Qed.

Lemma str_take_length n s : n ≤ String.length s → String.length (str_take n s) = n.
Proof.
  revert n. induction s as [|c s IH]; intros [|n]; cbn; [done|lia|done|]. intros Hn. rewrite IH; lia.
Qed.

Lemma str_drop_length n s : String.length (str_drop n s) = String.length s - n.
Proof. revert n. induction s as [|c s IH]; intros [|n]; cbn; [done..|]. apply IH. Qed.

Lemma str_take_app n s1 s2 :
  String.length s1 ≤ n → str_take n (s1 +:+ s2) = s1 +:+ str_take (n - String.length s1) s2.
Proof.
  revert n. induction s1 as [|c s IH]; intros n Hn; cbn in *.
  - by rewrite append_nil_l, Nat.sub_0_r.
  - destruct n as [|n]; [lia|]. rewrite !append_cons. cbn. rewrite IH by lia. done.
Qed.

Lemma str_drop_app n s1 s2 :
  String.length s1 ≤ n → str_drop n (s1 +:+ s2) = str_drop (n - String.length s1) s2.
Proof.
  revert n. induction s1 as [|c s IH]; intros n Hn; cbn in *.
  - by rewrite append_nil_l, Nat.sub_0_r.
  - destruct n as [|n]; [lia|]. rewrite append_cons. cbn. apply IH. lia.
Qed.

Lemma str_get_app n s1 s2 :
  str_get n (s1 +:+ s2)
  = if n <? String.length s1 then str_get n s1 else str_get (n - String.length s1) s2.
Proof.
  revert n. induction s1 as [|c s IH]; intros n; cbn [String.length].
  - by rewrite append_nil_l, Nat.sub_0_r.
  - rewrite append_cons. destruct n as [|n]; [done|]. cbn [str_get]. rewrite IH. done.
Qed.

Lemma str_get_lt n s c : str_get n s = Some c → n < String.length s.
Proof. revert n. induction s as [|a s IH]; intros [|n]; cbn; [done|done|lia|]. intros ?%IH. lia. Qed.

Lemma str_get_lt_is_Some n s : n < String.length s → is_Some (str_get n s).
Proof. revert n. induction s as [|a s IH]; intros [|n]; cbn; [lia|lia|done|]. intros H. apply IH. lia. Qed.

(** ** Characters *)

(** The encoding of one character. *)
Record utf8_char (c : string) : Prop := {
  uc_short : 1 ≤ String.length c ≤ 4;
  uc_lead : ∃ b s, c = String b s ∧ is_continuation b = false;
  uc_tail : ∀ n b, 0 < n → str_get n c = Some b → is_continuation b = true;
  uc_valid : ∀ s, utf8_valid (c +:+ s) = utf8_valid s;
}.

Lemma lead_not_continuation lo hi b :
  byte_between lo hi b = true → (hi < 128 ∨ 191 < lo)%nat → is_continuation b = false.
Proof.
  unfold is_continuation, byte_between. intros [H1%Nat.leb_le H2%Nat.leb_le]%andb_true_iff Hb.
  apply andb_false_iff. destruct Hb; [left|right]; apply Nat.leb_gt; lia.
Qed.

(** Continuation bytes with a narrower range. *)
Lemma narrow_continuation lo hi b :
  byte_between lo hi b = true → (128 ≤ lo ∧ hi ≤ 191)%nat → is_continuation b = true.
Proof.
  unfold is_continuation, byte_between. intros [H1%Nat.leb_le H2%Nat.leb_le]%andb_true_iff Hb.
  apply andb_true_iff. split; apply Nat.leb_le; lia.
Qed.

Lemma str_all_get p s n c : str_all p s = true → str_get n s = Some c → p c = true.
Proof.
  revert n. induction s as [|a s IH]; intros [|n]; cbn; [done..| |];
    intros [H1 H2]%andb_true_iff; [by intros [= <-]|by apply IH].
Qed.

Lemma utf8_char_intro b tail :
  is_continuation b = false → str_all is_continuation tail = true → String.length tail ≤ 3 →
  (∀ s, utf8_valid (String b tail +:+ s) = utf8_valid s) → utf8_char (String b tail).
Proof.
  intros Hb Ht Hl Hv. split; [cbn; lia|by exists b, tail| |done].
  intros [|n] c Hn; [lia|]. cbn. by apply str_all_get.
Qed.

Ltac byte_facts :=
  repeat match goal with
  | H : _ && _ = true |- _ => apply andb_true_iff in H as [? ?]
  end.

(** Every valid text is empty or starts with a character. *)
Lemma utf8_step s :
  utf8_valid s = true → s = EmptyString ∨ ∃ c s', s = c +:+ s' ∧ utf8_char c ∧ utf8_valid s' = true.
Proof.
  intros Hv. destruct s as [|b1 s1]; [by left|right]. revert Hv. cbn [utf8_valid].
  destruct (byte_between 0 127 b1) eqn:H1.
  { intros Hv. exists (String b1 ""), s1. split; [done|]. split; [|done].
    apply utf8_char_intro; [eapply lead_not_continuation; [eassumption|lia]|done|cbn; lia|].
    intros s. rewrite append_cons. cbn [utf8_valid]. by rewrite H1. }
  destruct (byte_between 194 223 b1) eqn:H2.
  { destruct s1 as [|b2 s2]; [done|]. intros Hv. byte_facts.
    exists (String b1 (String b2 "")), s2. split; [done|]. split; [|done].
    apply utf8_char_intro; [eapply lead_not_continuation; [eassumption|lia]| |cbn; lia|].
    - cbn. by rewrite andb_true_r.
    - intros s. rewrite !append_cons, append_nil_l. cbn [utf8_valid]. rewrite H1, H2.
      repeat match goal with H : _ = true |- _ => rewrite H end. done. }
  destruct (byte_between 224 239 b1) eqn:H3.
  { destruct s1 as [|b2 [|b3 s3]]; [done..|]. intros Hv. byte_facts.
    exists (String b1 (String b2 (String b3 ""))), s3. split; [done|]. split; [|done].
    assert (is_continuation b2 = true) as Hc2.
    { destruct (byte_value b1 =? 224), (byte_value b1 =? 237);
        first [done|eapply narrow_continuation; [eassumption|lia]]. }
    apply utf8_char_intro; [eapply lead_not_continuation; [eassumption|lia]| |cbn; lia|].
    - cbn -[is_continuation]. by rewrite Hc2, andb_true_r.
    - intros s. rewrite !append_cons, append_nil_l. cbn [utf8_valid]. rewrite H1, H2, H3.
      clear Hc2. repeat match goal with H : _ = true |- _ => rewrite H end. done. }
  destruct (byte_between 240 244 b1) eqn:H4; [|done].
  destruct s1 as [|b2 [|b3 [|b4 s4]]]; [done..|]. intros Hv. byte_facts.
  exists (String b1 (String b2 (String b3 (String b4 "")))), s4. split; [done|]. split; [|done].
  assert (is_continuation b2 = true) as Hc2.
  { destruct (byte_value b1 =? 240), (byte_value b1 =? 244);
      first [done|eapply narrow_continuation; [eassumption|lia]]. }
  apply utf8_char_intro; [eapply lead_not_continuation; [eassumption|lia]| |cbn; lia|].
  - cbn -[is_continuation]. rewrite Hc2. repeat match goal with H : _ = true |- _ => rewrite H end. done.
  - intros s. rewrite !append_cons, append_nil_l. cbn [utf8_valid]. rewrite H1, H2, H3, H4.
    clear Hc2. repeat match goal with H : _ = true |- _ => rewrite H end. done.
Qed.

(** Induction over the characters of a text. *)
Lemma utf8_ind (P : string → Prop) :
  P EmptyString →
  (∀ c s, utf8_char c → utf8_valid s = true → P s → P (c +:+ s)) →
  ∀ s, utf8_valid s = true → P s.
Proof.
  intros H0 Hc s. remember (String.length s) as n eqn:Hn. revert s Hn.
  induction (lt_wf n) as [n _ IH]. intros s -> Hs.
  destruct (utf8_step s Hs) as [->|(c & s' & -> & Hch & Hs')]; [done|].
  apply Hc; [done..|]. apply (IH (String.length s')); [|done..].
  rewrite append_length. pose proof (uc_short _ Hch). lia.
Qed.

Lemma utf8_app s1 s2 :
  utf8_valid s1 = true → utf8_valid s2 = true → utf8_valid (s1 +:+ s2) = true.
Proof.
  intros H1 H2. revert s1 H1. apply utf8_ind; [done|]. intros c s Hc Hs IH.
  by rewrite append_assoc, (uc_valid _ Hc).
Qed.

(** A boundary is before a character or at the end. *)
Lemma boundary_char c s n :
  utf8_char c → utf8_valid s = true → 0 < n → is_char_boundary (c +:+ s) n = true →
  String.length c ≤ n ∧ is_char_boundary s (n - String.length c) = true.
Proof.
  intros Hc Hs Hn. unfold is_char_boundary. rewrite str_get_app, append_length.
  destruct (Nat.eqb_spec n 0) as [|_]; [lia|]. cbn [orb].
  destruct (Nat.ltb_spec n (String.length c)) as [Hlt|Hge].
  - destruct (str_get_lt_is_Some n c Hlt) as [b Hb]. rewrite Hb, (uc_tail _ Hc n b); [done|lia|done].
  - intros Hb. split; [done|]. destruct (str_get _ s); [by rewrite Hb, orb_true_r|].
    apply Nat.eqb_eq in Hb. apply orb_true_iff. right. apply Nat.eqb_eq. lia.
Qed.

Lemma char_boundary c s :
  utf8_char c → utf8_valid s = true → is_char_boundary (c +:+ s) (String.length c) = true.
Proof.
  intros Hc Hs. unfold is_char_boundary. rewrite str_get_app, Nat.ltb_irrefl, Nat.sub_diag.
  apply orb_true_iff. right. destruct (utf8_step s Hs) as [->|(c' & s' & -> & Hc' & _)].
  - cbn. apply Nat.eqb_eq. by rewrite append_nil_r.
  - destruct (uc_lead _ Hc') as (b & t & -> & Hb). rewrite append_cons. cbn. by rewrite Hb.
Qed.

(** Both sides of a boundary are valid. *)
Lemma utf8_cut s n :
  utf8_valid s = true → is_char_boundary s n = true →
  utf8_valid (str_take n s) = true ∧ utf8_valid (str_drop n s) = true.
Proof.
  intros Hs. revert n. revert s Hs. apply (utf8_ind (λ s, ∀ n, is_char_boundary s n = true →
    utf8_valid (str_take n s) = true ∧ utf8_valid (str_drop n s) = true)); [by intros []|].
  intros c s Hc Hv IH n Hb. destruct n as [|n]; [cbn [str_take str_drop]; by rewrite (uc_valid _ Hc)|].
  destruct (boundary_char c s (S n) Hc Hv) as [Hle Hb']; [lia|done|].
  rewrite str_take_app, str_drop_app by done. destruct (IH _ Hb') as [H1 H2]. split; [|done].
  by rewrite (uc_valid _ Hc).
Qed.
