(* ===== verification/PluginNames.v ===== *)
(** * Plugin registration names and HTTP error messages
    ([crates/types/src/plugin.rs], [crates/plugin-host/src/lib.rs])

    A plugin component registers its middleware under an effective name that
    carries its kind, its one-based ordinal and the local name, percent
    encoded.  The plugin host builds the name ([component_namespace],
    [with_child_namespace], [qualify_name]); discovery decodes it
    ([decode_plugin_component_effective_name]). *)

From Stdlib Require Import Ascii NArith.
From stdpp Require Import base strings list.
From S2P Require Import Prelude Text.

(** ** Percent encoding of one field *)

Definition HEX (n : N) : ascii :=
  default "0"%char (String.get (N.to_nat n) "0123456789ABCDEF").

Definition unreserved (b : ascii) : bool :=
  is_ascii_alphanumeric b
  || Ascii.eqb b "-" || Ascii.eqb b "." || Ascii.eqb b "_" || Ascii.eqb b "~".

Fixpoint encode_plugin_component_field (value : string) : string :=
  match value with
  | EmptyString => EmptyString
  | String byte rest =>
      let encoded := encode_plugin_component_field rest in
      if unreserved byte then String byte encoded
      else
        String "%"
          (String (HEX (N.shiftr (N_of_ascii byte) 4))
            (String (HEX (N.land (N_of_ascii byte) 15)) encoded))
  end.

Definition hex_value (byte : ascii) : option N :=
  if byte_between 48 57 byte then Some (N_of_ascii byte - 48)%N
  else if byte_between 65 70 byte then Some (N_of_ascii byte - 65 + 10)%N
  else if byte_between 97 102 byte then Some (N_of_ascii byte - 97 + 10)%N
  else None.

(** The [while index < encoded.len()] loop. *)
Fixpoint decode_bytes (encoded : string) : option string :=
  match encoded with
  | EmptyString => Some EmptyString
  | String byte rest =>
      if Ascii.eqb byte "%" then
        match rest with
        | String high (String low rest) =>
            h ← hex_value high;
            l ← hex_value low;
            bytes ← decode_bytes rest;
            Some (String (ascii_of_N (N.lor (N.shiftl h 4) l)) bytes)
        | _ => None
        end
      else if unreserved byte then
        bytes ← decode_bytes rest; Some (String byte bytes)
      else None
  end.

Definition decode_plugin_component_field (encoded : string) : option string :=
  decoded ← decode_bytes encoded;
  if utf8_valid decoded
     && bool_decide (encode_plugin_component_field decoded = encoded)
  then Some decoded else None.

Definition PREFIX : string := "nemo-relay-plugin.v1.".

Definition decode_plugin_component_effective_name (effective_name : string) :
    option (string * N * string) :=
  rest ← strip_prefix PREFIX effective_name;
  '(encoded_kind, rest) ← split_once ":" rest;
  '(ordinal_text, encoded_local_name) ← split_once ":" rest;
  ordinal ← parse_unsigned u32_max ordinal_text;
  if negb (0 <? ordinal)%N then None
  else if negb (bool_decide (dec_of_N ordinal = ordinal_text)) then None
  else
    plugin_kind ← decode_plugin_component_field encoded_kind;
    local_name ← decode_plugin_component_field encoded_local_name;
    if negb (str_empty plugin_kind) && negb (str_empty local_name)
    then Some (plugin_kind, ordinal, local_name) else None.

(** ** Names the plugin host gives out *)

Inductive PluginRegistrationNamespace : Type :=
| Plain (namespace : string)
| PluginComponent (namespace : string).

(** [assert!(ordinal > 0)] panics on zero. *)
Definition component_namespace (kind : string) (ordinal : N) : outcome Empty_set string :=
  if (0 <? ordinal)%N then
    Ok (PREFIX +:+ encode_plugin_component_field kind
        +:+ ":" +:+ dec_of_N ordinal +:+ ":")
  else Panic.

Definition with_child_namespace (namespace : option PluginRegistrationNamespace)
    (local_namespace : string) : option PluginRegistrationNamespace :=
  Some
    match namespace with
    | Some (Plain namespace) => Plain (namespace +:+ local_namespace)
    | Some (PluginComponent namespace) =>
        PluginComponent (namespace +:+ encode_plugin_component_field local_namespace)
    | None => Plain local_namespace
    end.

Definition qualify_name (namespace : option PluginRegistrationNamespace) (name : string) :
    string :=
  match namespace with
  | Some (Plain namespace) => namespace +:+ name
  | Some (PluginComponent namespace) => namespace +:+ encode_plugin_component_field name
  | None => name
  end.

(** ** HTTP errors in string-based callbacks *)

Definition http_error_message (status : N) (message : string) : outcome string string :=
  if negb ((400 <=? status)%N && (status <=? 599)%N)
  then Err "plugin HTTP error status must be between 400 and 599"
  else Ok ("HTTP " +:+ dec_of_N status +:+ ": " +:+ message).

Definition parse_http_error_message (message : string) : option (N * string) :=
  suffix ← strip_prefix "HTTP " message;
  '(code, body) ← split_once_str ": " suffix;
  if negb (String.length code =? 3)%nat || negb (str_all is_ascii_digit code) then None
  else
    status ← parse_unsigned u16_max code;
    if (400 <=? status)%N && (status <=? 599)%N then Some (status, body) else None.

(** ** Lemmas *)

#[local] Arguments HEX : simpl never.
#[local] Arguments hex_value : simpl never.
#[local] Arguments unreserved : simpl never.
#[local] Arguments N.shiftr : simpl never.
#[local] Arguments N.shiftl : simpl never.
#[local] Arguments N.land : simpl never.
#[local] Arguments N.lor : simpl never.
#[local] Arguments N_of_ascii : simpl never.
#[local] Arguments ascii_of_N : simpl never.

Lemma hex_byte_roundtrip (b : ascii) :
  hex_value (HEX (N.shiftr (N_of_ascii b) 4)) = Some (N.shiftr (N_of_ascii b) 4)
  ∧ hex_value (HEX (N.land (N_of_ascii b) 15)) = Some (N.land (N_of_ascii b) 15)
  ∧ ascii_of_N (N.lor (N.shiftl (N.shiftr (N_of_ascii b) 4) 4) (N.land (N_of_ascii b) 15)) = b.
Proof. destruct b as [[] [] [] [] [] [] [] []]; repeat split; auto. Qed.

Lemma encode_app s1 s2 :
  encode_plugin_component_field (s1 +:+ s2)
  = encode_plugin_component_field s1 +:+ encode_plugin_component_field s2.
Proof.
  induction s1 as [|b s1 IH]; [done|]. rewrite append_cons. simpl. rewrite IH.
  by destruct (unreserved b).
Qed.

Lemma unreserved_not_percent b : unreserved b = true → Ascii.eqb b "%" = false.
Proof. destruct b as [[] [] [] [] [] [] [] []]; repeat split; auto. Qed.

Lemma decode_bytes_encode s : decode_bytes (encode_plugin_component_field s) = Some s.
Proof.
  induction s as [|b s IH]; [done|]. simpl. destruct (unreserved b) eqn:Hb.
  - simpl. by rewrite unreserved_not_percent, Hb, IH.
  - simpl. destruct (hex_byte_roundtrip b) as (-> & -> & Hb'). simpl. by rewrite IH, Hb'.
Qed.

Lemma decode_field_iff encoded decoded :
  decode_plugin_component_field encoded = Some decoded
  ↔ encoded = encode_plugin_component_field decoded ∧ utf8_valid decoded = true.
Proof.
  unfold decode_plugin_component_field. split.
  - destruct (decode_bytes encoded) as [d|]; cbn; [|done].
    destruct (utf8_valid d) eqn:Hu; cbn; [|done].
    case_bool_decide; [|done]. by intros [= <-].
  - intros [-> Hu]. rewrite decode_bytes_encode. cbn. rewrite Hu. cbn.
    by rewrite bool_decide_eq_true_2.
Qed.

Lemma decode_field_encode v :
  utf8_valid v = true →
  decode_plugin_component_field (encode_plugin_component_field v) = Some v.
Proof. intros Hv. by apply decode_field_iff. Qed.

(** No byte of an encoded field is the separator. *)
Definition not_colon (a : ascii) : bool := negb (Ascii.eqb a ":").

Lemma encode_byte_not_colon b :
  (unreserved b = true → not_colon b = true)
  ∧ not_colon (HEX (N.shiftr (N_of_ascii b) 4)) = true
  ∧ not_colon (HEX (N.land (N_of_ascii b) 15)) = true.
Proof. destruct b as [[] [] [] [] [] [] [] []]; repeat split; auto. Qed.

Lemma encode_not_colon s : str_all not_colon (encode_plugin_component_field s) = true.
Proof.
  induction s as [|b s IH]; [done|]. simpl.
  destruct (encode_byte_not_colon b) as (Hb & Hh & Hl).
  destruct (unreserved b); simpl; [by rewrite Hb|]. by rewrite Hh, Hl.
Qed.

Lemma digit_not_colon c : is_ascii_digit c = true → not_colon c = true.
Proof. destruct c as [[] [] [] [] [] [] [] []]; auto. Qed.

Lemma dec_of_N_not_colon n : str_all not_colon (dec_of_N n) = true.
Proof. eapply str_all_impl; [apply digit_not_colon|apply dec_of_N_digits]. Qed.

Lemma qualified_component_name kind ordinal name ns :
  component_namespace kind ordinal = Ok ns →
  qualify_name (Some (PluginComponent ns)) name
  = PREFIX +:+ (encode_plugin_component_field kind
      +:+ String ":" (dec_of_N ordinal
        +:+ String ":" (encode_plugin_component_field name)))
  ∧ (0 < ordinal)%N.
Proof.
  unfold component_namespace. destruct (N.ltb_spec 0 ordinal); [|done].
  intros [= <-]. cbn [qualify_name]. by rewrite !append_assoc.
Qed.

Lemma decode_effective_name_iff effective_name kind ordinal local_name :
  decode_plugin_component_effective_name effective_name = Some (kind, ordinal, local_name)
  ↔ effective_name
      = PREFIX +:+ (encode_plugin_component_field kind
          +:+ String ":" (dec_of_N ordinal
            +:+ String ":" (encode_plugin_component_field local_name)))
    ∧ (0 < ordinal ≤ u32_max)%N
    ∧ kind ≠ "" ∧ local_name ≠ ""
    ∧ utf8_valid kind = true ∧ utf8_valid local_name = true.
Proof.
  unfold decode_plugin_component_effective_name. split.
  - intros H. apply bind_Some in H as (rest & Hpre & H).
    apply bind_Some in H as ([ek r2] & Hs1 & H).
    apply bind_Some in H as ([ot el] & Hs2 & H).
    apply bind_Some in H as (o & Hparse & H).
    destruct (N.ltb_spec 0 o) as [Ho|]; [|done]. cbn [negb] in H.
    case_bool_decide as Hot; [|done]. cbn [negb] in H.
    apply bind_Some in H as (k & [-> Huk]%decode_field_iff & H).
    apply bind_Some in H as (l & [-> Hul]%decode_field_iff & H).
    destruct k as [|c k]; [done|]. destruct l as [|d l]; [done|].
    injection H as <- <- <-.
    apply strip_prefix_Some in Hpre as ->. apply split_once_Some in Hs1 as [-> _].
    apply split_once_Some in Hs2 as [-> _]. rewrite <-Hot.
    apply parse_unsigned_le in Hparse. split_and!; done.
  - intros (-> & Ho & Hk & Hl & Huk & Hul).
    rewrite strip_prefix_app. cbn [mbind option_bind].
    rewrite split_once_app by apply encode_not_colon. cbn [mbind option_bind].
    rewrite split_once_app by apply dec_of_N_not_colon. cbn [mbind option_bind].
    rewrite dec_of_N_parse by lia. cbn [mbind option_bind].
    destruct (N.ltb_spec 0 ordinal); [|lia]. cbn [negb].
    rewrite bool_decide_eq_true_2 by done. cbn [negb].
    rewrite !decode_field_encode by done. cbn [mbind option_bind].
    by destruct kind, local_name.
Qed.

(** Contexts derived from a component context by a chain of children. *)
Definition child_namespaces (ns : string) (children : list string) :
    option PluginRegistrationNamespace :=
  foldl with_child_namespace (Some (PluginComponent ns)) children.

Definition concat_names (names : list string) : string :=
  foldr String.append "" names.

Lemma child_namespaces_qualify ns children name :
  qualify_name (child_namespaces ns children) name
  = qualify_name (Some (PluginComponent ns)) (concat_names children +:+ name).
Proof.
  unfold child_namespaces. revert ns.
  induction children as [|c children IH]; intros ns; [done|].
  simpl. unfold with_child_namespace at 2. rewrite IH. simpl.
  by rewrite (append_assoc c), (encode_app c), append_assoc.
Qed.

(** ** HTTP prefixes *)

Lemma split_once_str_digits (code body : string) :
  str_all is_ascii_digit code = true →
  split_once_str ": " (code +:+ ": " +:+ body) = Some (code, body).
Proof.
  induction code as [|c code IH]; intros Hd.
  - done.
  - cbn in Hd. apply andb_true_iff in Hd as [Hc Hd]. rewrite append_cons.
    cbn [split_once_str strip_prefix]. rewrite decide_False.
    + by rewrite IH.
    + intros <-. done.
Qed.

Lemma split_once_str_Some pat s x y :
  split_once_str pat s = Some (x, y) → s = x +:+ pat +:+ y.
Proof.
  revert x y. induction s as [|c s IH]; intros x y; cbn.
  - destruct (strip_prefix pat "") as [r|] eqn:Hp; [|done].
    intros [= <- <-]. by apply strip_prefix_Some in Hp.
  - destruct (strip_prefix pat (String c s)) as [r|] eqn:Hp.
    { intros [= <- <-]. by apply strip_prefix_Some in Hp. }
    destruct (split_once_str pat s) as [[x' y']|]; [|done].
    intros [= <- <-]. by rewrite append_cons, <-(IH x' y').
Qed.

Definition digits : list ascii := String.list_ascii_of_string "0123456789".

Lemma digit_cases c : is_ascii_digit c = true → c ∈ digits.
Proof.
  destruct c as [[] [] [] [] [] [] [] []]; intros Hc; try discriminate Hc;
    apply (bool_decide_unpack _); reflexivity.
Qed.

(** A three-digit code of at least 400 has no leading zero, so it is the
    decimal form of the status it parses to. *)
Definition code_check (a b c : ascii) : bool :=
  let code := String a (String b (String c "")) in
  match parse_unsigned u16_max code with
  | Some n => negb (400 <=? n)%N || String.eqb (dec_of_N n) code
  | None => false
  end.

Lemma code_check_all :
  forallb (λ a, forallb (λ b, forallb (code_check a b) digits) digits) digits = true.
Proof. vm_compute. reflexivity. Qed.

Lemma status_code_canonical code n :
  String.length code = 3 → str_all is_ascii_digit code = true →
  parse_unsigned u16_max code = Some n → (400 ≤ n)%N → dec_of_N n = code.
Proof.
  intros Hlen Hd Hn Hle.
  destruct code as [|a [|b [|c [|]]]]; try discriminate Hlen.
  cbn [str_all] in Hd. rewrite !andb_true_iff in Hd. destruct Hd as (Ha & Hb & Hc & _).
  pose proof code_check_all as Hall. rewrite forallb_forall in Hall.
  specialize (Hall a (proj1 (list_elem_of_In _ _) (digit_cases a Ha))).
  rewrite forallb_forall in Hall.
  specialize (Hall b (proj1 (list_elem_of_In _ _) (digit_cases b Hb))).
  rewrite forallb_forall in Hall.
  specialize (Hall c (proj1 (list_elem_of_In _ _) (digit_cases c Hc))).
  unfold code_check in Hall. rewrite Hn in Hall.
  destruct (N.leb_spec 400 n); [|lia]. by apply String.eqb_eq in Hall.
Qed.

Lemma status_length n : (400 ≤ n ≤ 599)%N → String.length (dec_of_N n) = 3.
Proof.
  intros Hn.
  assert (forallb (λ k, Nat.eqb (String.length (dec_of_N (N.of_nat k))) 3) (seq 400 200) = true)
    as Hall by (vm_compute; reflexivity).
  rewrite forallb_forall in Hall. specialize (Hall (N.to_nat n)).
  rewrite N2Nat.id in Hall. apply Nat.eqb_eq, Hall, in_seq. lia.
Qed.

(** ** Properties *)

(** C39: the names of plugin registrations identify their owner: a name
    decodes to (kind, ordinal, local name) exactly when it is the name a
    component context of that kind and ordinal gives to that local name, for
    a non-empty UTF-8 kind and local name and an ordinal that fits a
    [u32]. *)
Theorem effective_name_roundtrip effective_name kind ordinal local_name :
  decode_plugin_component_effective_name effective_name = Some (kind, ordinal, local_name)
  ↔ (∃ ns, component_namespace kind ordinal = Ok ns
       ∧ effective_name = qualify_name (Some (PluginComponent ns)) local_name)
    ∧ (ordinal ≤ u32_max)%N
    ∧ kind ≠ "" ∧ local_name ≠ ""
    ∧ utf8_valid kind = true ∧ utf8_valid local_name = true.
Proof.
  rewrite decode_effective_name_iff. split.
  - intros (-> & Ho & ?). split; [|intuition lia].
    destruct (component_namespace kind ordinal) as [ns|[]|] eqn:Hns.
    + exists ns. split; [done|]. symmetry. by apply qualified_component_name.
    + unfold component_namespace in Hns. destruct (N.ltb_spec 0 ordinal); [done|lia].
  - intros ((ns & Hns & ->) & Ho & ?).
    destruct (qualified_component_name _ _ local_name _ Hns) as [-> ?]. intuition lia.
Qed.

(** Children of a component context stay inside the component: whatever
    chain of child namespaces qualified it, a registration decodes to the
    component's kind and ordinal and to the concatenated local name. *)
Theorem child_names_keep_owner kind ordinal ns children local_name :
  component_namespace kind ordinal = Ok ns →
  (ordinal ≤ u32_max)%N → kind ≠ "" → concat_names children +:+ local_name ≠ "" →
  utf8_valid kind = true → utf8_valid (concat_names children +:+ local_name) = true →
  decode_plugin_component_effective_name
    (qualify_name (child_namespaces ns children) local_name)
  = Some (kind, ordinal, concat_names children +:+ local_name).
Proof.
  intros Hns Ho Hk Hl Huk Hul. apply decode_effective_name_iff.
  rewrite child_namespaces_qualify.
  destruct (qualified_component_name _ _ (concat_names children +:+ local_name) _ Hns)
    as [-> ?]. intuition lia.
Qed.

Lemma child_names_keep_owner_witness :
  decode_plugin_component_effective_name
    (qualify_name
      (child_namespaces "nemo-relay-plugin.v1.pii%3Ared:12:" ["a/"; "b:"]) "tool")
  = Some ("pii:red", 12%N, "a/b:tool").
Proof.
  apply (child_names_keep_owner "pii:red" 12 "nemo-relay-plugin.v1.pii%3Ared:12:"
    ["a/"; "b:"] "tool"); vm_compute; done.
Defined.

(** HTTP errors survive the string transport: a message parses to
    (status, body) exactly when it is the message [http_error_message]
    produces for that status and body, and other statuses are refused. *)
Theorem http_error_roundtrip message status body :
  parse_http_error_message message = Some (status, body)
  ↔ http_error_message status body = Ok message.
Proof.
  unfold parse_http_error_message, http_error_message. split.
  - intros H. apply bind_Some in H as (suffix & ->%strip_prefix_Some & H).
    apply bind_Some in H as ([code b] & ->%split_once_str_Some & H).
    destruct (Nat.eqb_spec (String.length code) 3) as [Hlen|]; [|done].
    destruct (str_all is_ascii_digit code) eqn:Hd; [|done]. cbn [negb orb] in H.
    apply bind_Some in H as (n & Hn & H).
    destruct (N.leb_spec 400 n) as [Hlo|]; [|done].
    destruct (N.leb_spec n 599) as [Hhi|]; [|done]. injection H as <- <-.
    rewrite (status_code_canonical code n) by done.
    by rewrite !(proj2 (N.leb_le _ _)) by lia.
  - destruct (N.leb_spec 400 status) as [Hlo|]; [|done].
    destruct (N.leb_spec status 599) as [Hhi|]; [|done]. cbn [andb negb].
    intros [= <-]. rewrite strip_prefix_app. cbn [mbind option_bind].
    rewrite split_once_str_digits by apply dec_of_N_digits. cbn [mbind option_bind].
    rewrite status_length, dec_of_N_digits by lia. cbn [Nat.eqb negb orb].
    rewrite dec_of_N_parse by (unfold u16_max; lia). cbn [mbind option_bind].
    by rewrite !(proj2 (N.leb_le _ _)) by lia.
Qed.
