(* ===== verification/Trace.v ===== *)
(** * Trace identity and W3C trace state
    ([crates/types/src/trace.rs], the tracestate grammar of
    [crates/runtime/src/api/runtime/scope_stack.rs])

    Relay derives OpenTelemetry identifiers from its UUIDs: the trace id is
    the 16 bytes, the span id the last 8.  A UUID is its 128-bit value.  The
    [opentelemetry] crates are not part of the sources: [Otel] is the
    interface of the operations Relay calls and [OtelLaws] the documented
    behaviour it relies on. *)

From Stdlib Require Import Ascii.
From stdpp Require Import base strings list.
From S2P Require Import Prelude Text.

Abbreviation uuid := Z.

(** ** Bytes of a UUID *)

(** [uuid.as_bytes()[16 - n ..]]: the [n] low bytes, big-endian. *)
Fixpoint low_bytes (n : nat) (u : Z) : list Z :=
  match n with
  | O => []
  | S n => low_bytes n (Z.shiftr u 8) ++ [Z.land u 255]
  end.

Definition as_bytes (u : uuid) : list Z := low_bytes 16 u.

Definition uuid_in_range (u : uuid) : Prop := (0 ≤ u < 2 ^ 128)%Z.

(** The identifier made of big-endian bytes ([from_bytes]). *)
Definition from_bytes (bs : list Z) : Z := foldl (λ acc b, acc * 256 + b)%Z 0%Z bs.

Definition relay_trace_id (u : uuid) : Z := from_bytes (as_bytes u).
Definition relay_span_id (u : uuid) : Z := from_bytes (drop 8 (as_bytes u)).

Definition is_usable_relay_identifier (u : uuid) : bool :=
  existsb (λ byte, negb (byte =? 0)%Z) (drop 8 (as_bytes u)).

(** ** The traceparent header *)

Definition hex_digit (n : Z) : ascii :=
  default "0"%char (String.get (Z.to_nat n) "0123456789abcdef").

(** [format!("{byte:02x}")] for each byte. *)
Fixpoint hex_bytes (bs : list Z) : string :=
  match bs with
  | [] => EmptyString
  | b :: bs =>
      String (hex_digit (Z.shiftr b 4)) (String (hex_digit (Z.land b 15)) (hex_bytes bs))
  end.

Definition format_traceparent (trace_uuid span_uuid : uuid) : string :=
  let trace_id := hex_bytes (as_bytes trace_uuid) in
  let span_id := hex_bytes (drop 8 (as_bytes span_uuid)) in
  "00-" +:+ trace_id +:+ "-" +:+ span_id +:+ "-01".

(** ** The tracestate grammar *)

Definition is_blank (c : ascii) : bool := Ascii.eqb c " " || Ascii.eqb c "009".

Definition name_char (b : ascii) : bool :=
  is_ascii_lowercase b || is_ascii_digit b
  || Ascii.eqb b "_" || Ascii.eqb b "-" || Ascii.eqb b "*" || Ascii.eqb b "/".

Definition name_chars (n : string) : bool := str_all name_char n.

Definition first_byte (p : ascii → bool) (s : string) : bool :=
  match s with
  | EmptyString => false
  | String c _ => p c
  end.

Definition len_between (lo hi : nat) (s : string) : bool :=
  (lo <=? String.length s)%nat && (String.length s <=? hi)%nat.

Definition valid_key (key : string) : bool :=
  match split_once "@" key with
  | Some (tenant, system) =>
      len_between 1 241 tenant
      && first_byte is_ascii_alphanumeric tenant
      && name_chars tenant
      && len_between 1 14 system
      && first_byte is_ascii_lowercase system
      && name_chars system
  | None =>
      len_between 1 256 key && first_byte is_ascii_lowercase key && name_chars key
  end.

Definition value_char (b : ascii) : bool :=
  byte_between 32 126 b && negb (Ascii.eqb b "," || Ascii.eqb b "=").

Definition valid_value (value : string) : bool :=
  len_between 1 256 value && str_all value_char value.

(** The loop of [parse_w3c_tracestate]: [index] members seen, [keys] inserted. *)
Fixpoint parse_members (index : nat) (keys : list string) (pieces : list string) :
    option (list (string * string)) :=
  match pieces with
  | [] => Some []
  | member :: pieces =>
      if (32 <=? index)%nat then None
      else
        let member := trim_matches is_blank member in
        if str_empty member then parse_members (S index) keys pieces
        else
          '(key, value) ← split_once "=" member;
          if negb (valid_key key) || bool_decide (key ∈ keys) || negb (valid_value value)
          then None
          else
            members ← parse_members (S index) (key :: keys) pieces;
            Some ((key, value) :: members)
  end.

(** The members handed to [TraceState::from_key_value]. *)
Definition tracestate_members (header : string) : option (list (string * string)) :=
  parse_members 0 [] (split_on "," header).

(** ** The OpenTelemetry interface *)

Class Otel : Type := {
  SpanContext : Type;
  TraceState : Type;
  span_new : Z → Z → Z → bool → TraceState → SpanContext;
  trace_id : SpanContext → Z;
  span_id : SpanContext → Z;
  trace_flags : SpanContext → Z;
  trace_state : SpanContext → TraceState;
  is_valid : SpanContext → bool;
  trace_state_default : TraceState;
  from_key_value : list (string * string) → option TraceState;
  state_header : TraceState → string;
  (** [TraceContextPropagator::extract] on a carrier with these headers. *)
  propagator_extract : string → option string → SpanContext;
  (** [TraceContextPropagator::inject_context]: traceparent and tracestate. *)
  propagator_inject : SpanContext → option string * option string;
}.

(** [TraceFlags::SAMPLED]. *)
Definition SAMPLED : Z := 1.

Class OtelLaws `{!Otel} : Prop := {
  trace_id_new t s f r st : trace_id (span_new t s f r st) = t;
  span_id_new t s f r st : span_id (span_new t s f r st) = s;
  trace_flags_new t s f r st : trace_flags (span_new t s f r st) = f;
  trace_state_new t s f r st : trace_state (span_new t s f r st) = st;
  is_valid_new c : is_valid c = negb (trace_id c =? 0)%Z && negb (span_id c =? 0)%Z;
}.

Section Headers.
Context `{!Otel}.

Definition parse_w3c_tracestate (header : string) : option TraceState :=
  members ← tracestate_members header; from_key_value members.

Definition nonempty_header (h : option string) : option string :=
  match h with
  | Some EmptyString => None
  | h => h
  end.

Definition normalize_w3c_headers (traceparent tracestate : option string) :
    option string * option string * option SpanContext :=
  match traceparent with
  | None => (None, None, None)
  | Some traceparent =>
      let carrier_state :=
        tracestate ← tracestate;
        state ← parse_w3c_tracestate tracestate;
        Some (state_header state) in
      let context := propagator_extract traceparent carrier_state in
      if negb (is_valid context) then (None, None, None)
      else
        let '(tp, ts) := propagator_inject context in
        (tp, nonempty_header ts, Some context)
  end.

Definition w3c_span_context (traceparent tracestate : option string) :
    option SpanContext :=
  (normalize_w3c_headers traceparent tracestate).2.

Definition w3c_headers_for_parent (parent : SpanContext) (parent_uuid : uuid) :
    option string * option string :=
  let child := span_new (trace_id parent) (relay_span_id parent_uuid)
    (trace_flags parent) false (trace_state parent) in
  let '(tp, ts) := propagator_inject child in
  (tp, nonempty_header ts).

End Headers.

(** ** Lemmas: bytes *)

Lemma from_bytes_app bs b : from_bytes (bs ++ [b]) = (from_bytes bs * 256 + b)%Z.
Proof. unfold from_bytes. by rewrite foldl_app. Qed.

Lemma from_low_bytes n u : (0 ≤ u)%Z → from_bytes (low_bytes n u) = (u mod 2 ^ (8 * Z.of_nat n))%Z.
Proof.
  revert u. induction n as [|n IH]; intros u Hu; cbn [low_bytes].
  { by rewrite Z.mod_1_r. }
  rewrite from_bytes_app, IH by (by apply Z.shiftr_nonneg).
  rewrite Z.shiftr_div_pow2 by lia. change 255%Z with (Z.ones 8).
  rewrite Z.land_ones by lia. change (2 ^ 8)%Z with 256%Z.
  replace (8 * Z.of_nat (S n))%Z with (8 + 8 * Z.of_nat n)%Z by lia.
  rewrite Z.pow_add_r, Z.rem_mul_r by lia. change (2 ^ 8)%Z with 256%Z. lia.
Qed.

Lemma low_bytes_length n u : length (low_bytes n u) = n.
Proof. revert u. induction n as [|n IH]; intros u; [done|]. cbn. rewrite length_app, IH. cbn. lia. Qed.

Lemma low_bytes_range n u : Forall (λ b, 0 ≤ b < 256)%Z (low_bytes n u).
Proof.
  revert u. induction n as [|n IH]; intros u; [constructor|]. cbn [low_bytes].
  apply Forall_app. split; [done|]. constructor; [|constructor].
  change 255%Z with (Z.ones 8). rewrite Z.land_ones by lia. by apply Z.mod_pos_bound.
Qed.

Lemma drop_low_bytes u : drop 8 (as_bytes u) = low_bytes 8 u.
Proof. unfold as_bytes. by cbn [low_bytes app drop]. Qed.

Lemma relay_trace_id_value u : uuid_in_range u → relay_trace_id u = u.
Proof.
  intros [Hlo Hhi]. unfold relay_trace_id, as_bytes. rewrite from_low_bytes by done.
  by apply Z.mod_small.
Qed.

Lemma relay_span_id_value u : uuid_in_range u → relay_span_id u = (u mod 2 ^ 64)%Z.
Proof.
  intros [Hlo _]. unfold relay_span_id. rewrite drop_low_bytes. by rewrite from_low_bytes.
Qed.

Lemma from_bytes_nonneg bs : Forall (λ b, 0 ≤ b)%Z bs → (0 ≤ from_bytes bs)%Z.
Proof.
  induction bs as [|b bs IH] using rev_ind; [done|].
  rewrite Forall_app, Forall_singleton, from_bytes_app. intros [Hbs Hb].
  specialize (IH Hbs). lia.
Qed.

Lemma from_bytes_zero bs :
  Forall (λ b, 0 ≤ b)%Z bs → from_bytes bs = 0%Z ↔ Forall (λ b, b = 0)%Z bs.
Proof.
  induction bs as [|b bs IH] using rev_ind; [by split|].
  rewrite !Forall_app, !Forall_singleton, from_bytes_app. intros [Hbs Hb].
  specialize (IH Hbs). pose proof (from_bytes_nonneg bs Hbs). split.
  - intros H0. split; [apply IH; lia|]. lia.
  - intros [H0 ->]. apply IH in H0. lia.
Qed.

Lemma is_usable_span_id u :
  is_usable_relay_identifier u = negb (relay_span_id u =? 0)%Z.
Proof.
  unfold is_usable_relay_identifier, relay_span_id. rewrite drop_low_bytes.
  pose proof (low_bytes_range 8 u) as Hr. set (bs := low_bytes 8 u) in *. clearbody bs.
  assert (Forall (λ b, 0 ≤ b)%Z bs) as Hnn by (eapply Forall_impl; [exact Hr|]; cbn; lia).
  pose proof (from_bytes_zero bs Hnn) as Hz.
  destruct (Z.eqb_spec (from_bytes bs) 0) as [H0|H0]; cbn.
  - apply Hz in H0. clear Hz Hr Hnn. induction H0 as [|b l -> _ IH]; [done|]. exact IH.
  - apply existsb_exists.
    destruct (decide (Exists (λ b, b ≠ 0)%Z bs)) as [He|He].
    + apply Exists_exists in He as (b & Hb & Hb0). exists b.
      split; [by apply list_elem_of_In|]. by apply negb_true_iff, Z.eqb_neq.
    + exfalso. apply H0, Hz. apply not_Exists_Forall in He; [|apply _].
      eapply Forall_impl; [exact He|]. cbn. intros b Hb. by destruct (decide (b = 0%Z)).
Qed.

(** ** Lemmas: header text *)

Lemma hex_byte_inj b1 b2 :
  (0 ≤ b1 < 256)%Z → (0 ≤ b2 < 256)%Z →
  hex_digit (Z.shiftr b1 4) = hex_digit (Z.shiftr b2 4) →
  hex_digit (Z.land b1 15) = hex_digit (Z.land b2 15) → b1 = b2.
Proof.
  intros Hb1 Hb2 Hh Hl.
  set (value := λ c, find (λ n, Ascii.eqb (hex_digit (Z.of_nat n)) c) (seq 0 16)).
  assert (∀ n, (0 ≤ n < 16)%Z → value (hex_digit n) = Some (Z.to_nat n)) as Hv.
  { assert (forallb (λ k, match value (hex_digit (Z.of_nat k)) with
      | Some k' => Nat.eqb k' k | None => false end) (seq 0 16) = true) as Hall by reflexivity.
    intros n Hn. rewrite forallb_forall in Hall. specialize (Hall (Z.to_nat n)).
    rewrite Z2Nat.id in Hall by lia.
    destruct (value (hex_digit n)) as [k'|].
    - f_equal. apply Nat.eqb_eq, Hall, in_seq. lia.
    - discriminate Hall. apply in_seq. lia. }
  assert (∀ b, 0 ≤ b < 256 → 0 ≤ Z.shiftr b 4 < 16 ∧ 0 ≤ Z.land b 15 < 16
    ∧ b = 16 * Z.shiftr b 4 + Z.land b 15)%Z as Hsplit.
  { intros b Hb. rewrite Z.shiftr_div_pow2 by lia. change 15%Z with (Z.ones 4).
    rewrite Z.land_ones by lia. change (2 ^ 4)%Z with 16%Z.
    pose proof (Z.div_mod b 16). pose proof (Z.mod_pos_bound b 16). lia. }
  destruct (Hsplit b1 Hb1) as (? & ? & E1). destruct (Hsplit b2 Hb2) as (? & ? & E2).
  apply (f_equal value) in Hh, Hl. rewrite !Hv in Hh, Hl by done.
  injection Hh as Hh. injection Hl as Hl. lia.
Qed.

Lemma hex_bytes_inj bs1 bs2 :
  length bs1 = length bs2 →
  Forall (λ b, 0 ≤ b < 256)%Z bs1 → Forall (λ b, 0 ≤ b < 256)%Z bs2 →
  hex_bytes bs1 = hex_bytes bs2 → bs1 = bs2.
Proof.
  revert bs2. induction bs1 as [|b1 bs1 IH]; intros [|b2 bs2] Hlen H1 H2; cbn; try done.
  apply Forall_cons in H1 as [Hb1 H1]. apply Forall_cons in H2 as [Hb2 H2].
  intros [= Hh Hl Hbs]. f_equal; [by apply hex_byte_inj|]. by apply IH; [injection Hlen|..].
Qed.

Lemma hex_bytes_length bs : String.length (hex_bytes bs) = 2 * length bs.
Proof. induction bs as [|b bs IH]; [done|]. cbn. rewrite IH. lia. Qed.

Lemma append_inj (s1 s2 t1 t2 : string) :
  String.length s1 = String.length s2 → s1 +:+ t1 = s2 +:+ t2 → s1 = s2 ∧ t1 = t2.
Proof.
  revert s2. induction s1 as [|c s1 IH]; intros [|d s2] Hlen; cbn in Hlen; try done.
  rewrite !append_cons. intros [= -> H]. destruct (IH s2) as [-> ->]; [lia|done|done].
Qed.

Lemma format_traceparent_bytes t1 s1 t2 s2 :
  format_traceparent t1 s1 = format_traceparent t2 s2 →
  as_bytes t1 = as_bytes t2 ∧ drop 8 (as_bytes s1) = drop 8 (as_bytes s2).
Proof.
  unfold format_traceparent. rewrite !drop_low_bytes. unfold as_bytes. intros H.
  apply append_inj in H as [_ H]; [|done].
  apply append_inj in H as [Ht H]; [|by rewrite !hex_bytes_length, !low_bytes_length].
  apply append_inj in H as [_ H]; [|done].
  apply append_inj in H as [Hs _]; [|by rewrite !hex_bytes_length, !low_bytes_length].
  split; (apply hex_bytes_inj; [by rewrite !low_bytes_length|apply low_bytes_range..|done]).
Qed.

Lemma low_bytes_inj n u1 u2 :
  from_bytes (low_bytes n u1) = from_bytes (low_bytes n u2) →
  low_bytes n u1 = low_bytes n u2.
Proof.
  assert (∀ bs1 bs2 : list Z, length bs1 = length bs2 →
    Forall (λ b, 0 ≤ b < 256)%Z bs1 → Forall (λ b, 0 ≤ b < 256)%Z bs2 →
    from_bytes bs1 = from_bytes bs2 → bs1 = bs2) as Hinj.
  { intros bs1. induction bs1 as [|b1 bs1 IH] using rev_ind; intros bs2 Hlen H1 H2 Heq.
    - by destruct bs2.
    - destruct bs2 as [|b2 bs2 _] using rev_ind.
      { rewrite length_app in Hlen. cbn in Hlen. lia. }
      rewrite !from_bytes_app in Heq. rewrite !length_app in Hlen. cbn in Hlen.
      apply Forall_app in H1 as [H1 Hb1], H2 as [H2 Hb2].
      rewrite Forall_singleton in Hb1. rewrite Forall_singleton in Hb2.
      assert (b1 = b2) as -> by lia. rewrite (IH bs2); [done|lia|done|done|lia]. }
  apply Hinj; [by rewrite !low_bytes_length|apply low_bytes_range..].
Qed.

(** ** Lemmas: the tracestate grammar *)

Lemma trim_start_idem p s : trim_start_matches p (trim_start_matches p s) = trim_start_matches p s.
Proof. induction s as [|c s IH]; [done|]. cbn. destruct (p c) eqn:Hc; [done|]. cbn. by rewrite Hc. Qed.

Lemma trim_end_idem p s : trim_end_matches p (trim_end_matches p s) = trim_end_matches p s.
Proof.
  induction s as [|c s IH]; [done|]. cbn. destruct (trim_end_matches p s) as [|d t].
  - destruct (p c) eqn:Hc; [done|]. cbn. by rewrite Hc.
  - cbn in IH |- *. by rewrite IH.
Qed.

Lemma trim_start_end p s :
  trim_start_matches p s = s → trim_start_matches p (trim_end_matches p s) = trim_end_matches p s.
Proof.
  destruct s as [|c s]; [done|]. cbn. destruct (p c) eqn:Hc.
  - intros Hs. exfalso. assert (∀ t, String.length (trim_start_matches p t) ≤ String.length t) as Hle.
    { induction t as [|d t IHt]; [done|]. cbn. destruct (p d); cbn; lia. }
    specialize (Hle s). rewrite Hs in Hle. cbn in Hle. lia.
  - intros _. destruct (trim_end_matches p s); cbn; by rewrite Hc.
Qed.

Lemma trim_matches_idem p s : trim_matches p (trim_matches p s) = trim_matches p s.
Proof.
  unfold trim_matches. rewrite trim_start_end by apply trim_start_idem. apply trim_end_idem.
Qed.

Definition not_equals (a : ascii) : bool := negb (Ascii.eqb a "=").
Definition not_comma (a : ascii) : bool := negb (Ascii.eqb a ",").

Lemma name_char_plain c : name_char c = true → not_equals c && not_comma c = true.
Proof. destruct c as [[] [] [] [] [] [] [] []]; auto. Qed.

Lemma value_char_plain c : value_char c = true → not_equals c && not_comma c = true.
Proof. destruct c as [[] [] [] [] [] [] [] []]; auto. Qed.

Lemma str_all_andb p q s : str_all (λ c, p c && q c) s = str_all p s && str_all q s.
Proof. induction s as [|c s IH]; [done|]. cbn. rewrite IH. destruct (p c), (q c), (str_all p s); done. Qed.

Lemma valid_key_plain k : valid_key k = true → str_all not_equals k = true ∧ str_all not_comma k = true.
Proof.
  intros Hk. rewrite <-andb_true_iff, <-str_all_andb.
  unfold valid_key in Hk. destruct (split_once "@" k) as [[t s]|] eqn:Hs.
  - apply split_once_Some in Hs as [-> _]. rewrite !andb_true_iff in Hk.
    destruct Hk as (((((_ & _) & Ht) & _) & _) & Hs).
    rewrite str_all_app. cbn [str_all].
    rewrite (str_all_impl name_char _ t name_char_plain Ht).
    by rewrite (str_all_impl name_char _ s name_char_plain Hs).
  - rewrite !andb_true_iff in Hk. destruct Hk as (_ & Hn).
    by apply (str_all_impl name_char _ k name_char_plain).
Qed.

(** What one non-blank list member must be. *)
Definition member_of (piece : string) (m : string * string) : Prop :=
  piece = m.1 +:+ String "=" m.2 ∧ valid_key m.1 = true ∧ valid_value m.2 = true.

Definition live_pieces (pieces : list string) : list string :=
  filter (λ s, str_empty s = false) (trim_matches is_blank <$> pieces).

Lemma parse_members_iff pieces index keys ms :
  parse_members index keys pieces = Some ms
  ↔ (pieces = [] ∨ index + length pieces ≤ 32)
    ∧ Forall2 member_of (live_pieces pieces) ms
    ∧ NoDup ms.*1 ∧ (∀ k, k ∈ ms.*1 → k ∉ keys).
Proof.
  revert index keys ms. induction pieces as [|p pieces IH]; intros index keys ms; cbn [parse_members].
  { split.
    - intros [= <-]. split_and!; [by left|constructor|constructor|]. intros k. by rewrite elem_of_nil.
    - intros (_ & H & _). inversion H. done. }
  destruct (Nat.leb_spec 32 index) as [Hi|Hi].
  { split; [done|]. intros ([?|Hlen] & _); [done|]. cbn in Hlen. lia. }
  unfold live_pieces. rewrite fmap_cons, filter_cons.
  destruct (trim_matches is_blank p) as [|c t] eqn:Hp; cbn [str_empty].
  - rewrite decide_False by done. rewrite IH. cbn [length].
    assert ((pieces = [] ∨ S index + length pieces ≤ 32)
      ↔ (p :: pieces = [] ∨ index + S (length pieces) ≤ 32)) as ->.
    { split; [intros [->|?]; right; cbn; lia|]. intros [?|?]; [done|]. right. lia. }
    done.
  - rewrite decide_True by done. fold (live_pieces pieces). split.
    + intros H. apply bind_Some in H as ([k v] & Hs & H).
      destruct (valid_key k) eqn:Hk; [|done]. case_bool_decide as Hin; [done|].
      destruct (valid_value v) eqn:Hv; [|done]. cbn [negb orb] in H.
      apply bind_Some in H as (ms' & Hms & [= <-]).
      apply IH in Hms as (Hlen & HF & Hnd & Hnk).
      apply split_once_Some in Hs as [-> _]. split_and!.
      * right. cbn. destruct Hlen as [->|?]; cbn; lia.
      * by constructor.
      * cbn. apply NoDup_cons. split; [|done]. intros Hk'. apply (Hnk k Hk'). by left.
      * cbn. intros k'. rewrite elem_of_cons. intros [->|Hk']; [done|].
        intros Hk''. apply (Hnk k' Hk'). by right.
    + intros (Hlen & HF & Hnd & Hnk).
      inversion HF as [|? [k v] ? ms' (Heq & Hk & Hv) HF']; subst. cbn [fst snd] in *.
      rewrite Heq, split_once_app by (by apply valid_key_plain). cbn [mbind option_bind].
      rewrite Hk, Hv. rewrite bool_decide_eq_false_2 by (apply Hnk; by left).
      cbn [negb orb]. apply NoDup_cons in Hnd as [Hnin Hnd].
      rewrite (proj2 (IH (S index) (k :: keys) ms')); [done|]. split_and!; [|done|done|].
      * destruct Hlen as [?|?]; [done|]. right. cbn [length] in *. lia.
      * intros k' Hk' [->|Hin]%elem_of_cons; [done|]. apply (Hnk k'); [by right|done].
Qed.

Lemma split_on_nonempty c s : split_on c s ≠ [].
Proof. destruct s as [|a s]; [done|]. cbn. case_decide; [done|]. by destruct (split_on c s). Qed.

(** [members.join(",")] of the [key=value] forms. *)
Fixpoint join_members (ms : list (string * string)) : string :=
  match ms with
  | [] => EmptyString
  | [m] => m.1 +:+ String "=" m.2
  | m :: ms => (m.1 +:+ String "=" m.2) +:+ String "," (join_members ms)
  end.

Lemma member_plain piece m : member_of piece m → str_all not_comma piece = true.
Proof.
  intros (-> & Hk & Hv). rewrite str_all_app. cbn [str_all].
  apply andb_true_iff in Hv as [_ Hv].
  apply (str_all_impl _ _ _ value_char_plain) in Hv.
  rewrite str_all_andb, andb_true_iff in Hv.
  by rewrite (proj2 (valid_key_plain _ Hk)), (proj2 Hv).
Qed.

Lemma split_join_members pieces ms :
  Forall2 member_of pieces ms → pieces ≠ [] → split_on "," (join_members ms) = pieces.
Proof.
  induction 1 as [|p m pieces ms Hm HF IH]; [done|]. intros _.
  pose proof (member_plain p m Hm) as Hp. destruct Hm as (-> & _).
  destruct HF as [|p' m' pieces ms Hm' HF].
  - by apply split_on_none.
  - cbn [join_members]. rewrite split_on_app by done. f_equal. by apply IH.
Qed.

Lemma live_pieces_trimmed pieces :
  live_pieces (live_pieces pieces) = live_pieces pieces.
Proof.
  unfold live_pieces. induction pieces as [|p pieces IH]; [done|].
  rewrite fmap_cons, filter_cons.
  destruct (trim_matches is_blank p) as [|c t] eqn:Hp; cbn [str_empty].
  - by rewrite decide_False.
  - rewrite decide_True by done. rewrite fmap_cons, <-Hp, trim_matches_idem, Hp, filter_cons.
    cbn [str_empty]. rewrite decide_True by done. by rewrite IH.
Qed.

Lemma tracestate_members_iff header ms :
  tracestate_members header = Some ms
  ↔ length (split_on "," header) ≤ 32
    ∧ Forall2 member_of (live_pieces (split_on "," header)) ms
    ∧ NoDup ms.*1.
Proof.
  unfold tracestate_members. rewrite parse_members_iff. cbn [Nat.add].
  pose proof (split_on_nonempty "," header). split.
  { by intros ([?|?] & ? & ? & _). }
  intros (? & ? & ?). split_and!; auto. intros k _. apply not_elem_of_nil.
Qed.

(** ** Properties *)

(** The traceparent Relay derives from its identifiers loses nothing:
    the header has the 55 characters of the W3C version-00 form, and two
    headers agree exactly when the trace UUIDs are equal and the span UUIDs
    share their low 64 bits; the span field is usable (not all zero) exactly
    when [is_usable_relay_identifier] accepts the UUID. *)
Theorem format_traceparent_injective t1 s1 t2 s2 :
  uuid_in_range t1 → uuid_in_range s1 → uuid_in_range t2 → uuid_in_range s2 →
  String.length (format_traceparent t1 s1) = 55
  ∧ (format_traceparent t1 s1 = format_traceparent t2 s2
     ↔ t1 = t2 ∧ (s1 mod 2 ^ 64 = s2 mod 2 ^ 64)%Z)
  ∧ (is_usable_relay_identifier s1 = true ↔ (s1 mod 2 ^ 64 ≠ 0)%Z).
Proof.
  intros Ht1 Hs1 Ht2 Hs2. split_and!.
  - unfold format_traceparent.
    rewrite !append_length, !hex_bytes_length, drop_low_bytes. unfold as_bytes.
    by rewrite !low_bytes_length.
  - split.
    + intros [Ht Hs]%format_traceparent_bytes. split.
      * rewrite <-(relay_trace_id_value t1), <-(relay_trace_id_value t2) by done.
        unfold relay_trace_id. by rewrite Ht.
      * rewrite <-!relay_span_id_value by done. unfold relay_span_id. by rewrite Hs.
    + intros [-> Hs]. rewrite <-!relay_span_id_value in Hs by done.
      unfold relay_span_id in Hs. unfold format_traceparent.
      rewrite !drop_low_bytes in *. by rewrite (low_bytes_inj 8 s1 s2).
  - by rewrite is_usable_span_id, relay_span_id_value, negb_true_iff, Z.eqb_neq.
Qed.

Lemma format_traceparent_injective_witness :
  String.length (format_traceparent 1 (2 ^ 64)) = 55
  ∧ is_usable_relay_identifier (2 ^ 64) = false
  ∧ format_traceparent 1 (2 ^ 64) = "00-00000000000000000000000000000001-0000000000000000-01".
Proof.
  destruct (format_traceparent_injective 1 (2 ^ 64) 1 0) as (Hlen & _ & Hu);
    [split; vm_compute; done..|].
  split_and!; [exact Hlen| |vm_compute; reflexivity].
  destruct (is_usable_relay_identifier (2 ^ 64)); [|reflexivity].
  exfalso. apply Hu; reflexivity.
Defined.

(** The tracestate parser accepts exactly the W3C list grammar: at most
    32 comma-separated pieces, each blank or a [key=value] with a valid key
    and value once trimmed, no key twice; and it returns the members in
    order. *)
Theorem tracestate_grammar header ms :
  tracestate_members header = Some ms
  ↔ length (split_on "," header) ≤ 32
    ∧ Forall2 member_of (live_pieces (split_on "," header)) ms
    ∧ NoDup ms.*1.
Proof. apply tracestate_members_iff. Qed.

(** Accepted trace state is canonical after one pass: the joined header
    of the parsed members is accepted again and parses to the same
    members. *)
Theorem tracestate_canonical header ms :
  tracestate_members header = Some ms → tracestate_members (join_members ms) = Some ms.
Proof.
  intros (Hlen & HF & Hnd)%tracestate_members_iff.
  destruct (live_pieces (split_on "," header)) as [|p ps] eqn:Hlive.
  { apply Forall2_nil_inv_l in HF as ->. done. }
  apply tracestate_members_iff. rewrite (split_join_members (p :: ps) ms) by done.
  rewrite <-Hlive, live_pieces_trimmed, Hlive. split_and!; [|done|done].
  rewrite <-Hlive. unfold live_pieces. etrans; [apply length_filter|]. by rewrite length_fmap.
Qed.

Lemma tracestate_canonical_witness :
  tracestate_members (join_members [("vendor", "a b"); ("t@sys", "1")])
  = Some [("vendor", "a b"); ("t@sys", "1")].
Proof.
  apply (tracestate_canonical " vendor=a b ,, t@sys=1"). vm_compute. reflexivity.
Defined.

(** ** An instance of the interface, for concrete examples *)

Record plain_span : Type := {
  ps_trace : Z; ps_span : Z; ps_flags : Z; ps_remote : bool;
  ps_state : list (string * string);
}.

Definition plain_otel : Otel := {|
  SpanContext := plain_span;
  TraceState := list (string * string);
  span_new := Build_plain_span;
  trace_id := ps_trace;
  span_id := ps_span;
  trace_flags := ps_flags;
  trace_state := ps_state;
  is_valid c := negb (ps_trace c =? 0)%Z && negb (ps_span c =? 0)%Z;
  trace_state_default := [];
  from_key_value ms := Some ms;
  state_header := join_members;
  propagator_extract tp ts :=
    if (String.length tp =? 55)%nat then Build_plain_span 1 1 1 true []
    else Build_plain_span 0 0 0 true [];
  propagator_inject c :=
    (Some (format_traceparent (ps_trace c) (ps_span c)), Some (join_members (ps_state c)));
|}.

Lemma plain_otel_laws : OtelLaws (H := plain_otel).
Proof. by split. Qed.
