(* ===== verification/Errors.v ===== *)
(** * Errors of the runtime ([crates/types/src/error.rs])

    The error type of every fallible runtime operation, its classification
    for OpenTelemetry, and the retry classification of upstream failures. *)

From stdpp Require Import base strings gmap.
From S2P Require Import Prelude.

Inductive UpstreamFailureClass : Type :=
| Connection
| Timeout
| RetryableStatus
| ContextWindow
| ModelUnavailable
| Authentication
| InvalidRequest
| Other.

#[global] Instance UpstreamFailureClass_eq_dec : EqDecision UpstreamFailureClass.
Proof. solve_decision. Defined.

Record UpstreamFailure : Type := {
  uf_status : option Z;
  uf_body : string;
  uf_headers : gmap string string;
  uf_class : UpstreamFailureClass;
}.

#[global] Instance UpstreamFailure_eq_dec : EqDecision UpstreamFailure.
Proof. solve_decision. Defined.

Definition is_retryable (f : UpstreamFailure) : bool :=
  match uf_class f with
  | Connection | Timeout | RetryableStatus | ContextWindow | ModelUnavailable => true
  | Authentication | InvalidRequest | Other => false
  end.

(** [CallbackException]'s [source] is a foreign exception object that only
    [Debug] formatting inspects; it is not part of the model. *)
Inductive FlowError : Type :=
| AlreadyExists (msg : string)
| NotFound (msg : string)
| InvalidArgument (msg : string)
| ScopeStackEmpty
| GuardrailRejected (reason : string)
| Upstream (f : UpstreamFailure)
| Internal (msg : string)
| CallbackException (message exception_type : string).

#[global] Instance FlowError_eq_dec : EqDecision FlowError.
Proof. solve_decision. Defined.

Definition otel_error_type (e : FlowError) : string :=
  match e with
  | AlreadyExists _ => "already_exists"
  | NotFound _ => "not_found"
  | InvalidArgument _ => "invalid_argument"
  | ScopeStackEmpty => "scope_stack_empty"
  | GuardrailRejected _ => "guardrail_rejected"
  | Upstream f =>
      match uf_class f with
      | Connection => "connection_error"
      | Timeout => "timeout"
      | RetryableStatus => "retryable_status"
      | ContextWindow => "context_window"
      | ModelUnavailable => "model_unavailable"
      | Authentication => "authentication"
      | InvalidRequest => "invalid_request"
      | Other => "upstream_error"
      end
  | Internal _ | CallbackException _ _ => "internal_error"
  end.

Definition exception_type (e : FlowError) : option string :=
  match e with
  | CallbackException _ ty => Some ty
  | _ => None
  end.

(** The runtime's [Result<T>]. *)
Abbreviation result A := (outcome FlowError A).
