(* ===== verification/Ownership.v ===== *)
(** * Process-wide ownership of the runtime
    ([crates/runtime/src/shared_runtime.rs])

    Several copies of the runtime (one per language binding) can be loaded into
    one process.  Each has a controller with its binding kind; all of them share
    the environment of the process, where the owner publishes a token.

    - [Env] holds the two environment variables; a child process inherits them.
      Each copy has a lock of its own for its controller, and none for the
      environment: a call is a sequence of accesses ([Call]), each of them one
      step, and the steps of any calls interleave.
    - The lock of a controller is never poisoned: nothing unwinds under it.
    - [debug] is the [{:?}] format of a string, [int_error] the error of
      [str::parse]; they occur in messages only.  [package_version] is
      [CARGO_PKG_VERSION]. *)

From Stdlib Require Import Ascii.
From stdpp Require Import base gmap strings list.
From S2P Require Import Prelude Text Errors.

#[local] Open Scope relay_scope.

Record RuntimeOwner : Type := {
  ow_pid : N;
  ow_binding_kind : string;
  ow_major_version : string;
}.

(** The environment variables [NEMO_RELAY_BINDING_KIND] and
    [NEMO_RELAY_RUNTIME_OWNER]. *)
Record Env : Type := {
  env_binding_kind : option string;
  env_owner_token : option string;
}.

Definition set_owner_token (token : option string) (e : Env) : Env := {|
  env_binding_kind := env_binding_kind e; env_owner_token := token;
|}.

(** [binding_kind] of the controller. *)
Definition RuntimeOwnerController : Type := option string.

(** ** Tokens *)

Definition token (o : RuntimeOwner) : string :=
  "pid=" +:+ dec_of_N (ow_pid o) +:+ ";binding=" +:+ ow_binding_kind o
  +:+ ";version=" +:+ ow_major_version o.

Definition same_owner (o o' : RuntimeOwner) : bool :=
  (ow_pid o =? ow_pid o')%N && String.eqb (ow_binding_kind o) (ow_binding_kind o')
  && String.eqb (ow_major_version o) (ow_major_version o').

(** [Display]. *)
Definition owner_display (o : RuntimeOwner) : string :=
  ow_binding_kind o +:+ "@" +:+ ow_major_version o +:+ " pid=" +:+ dec_of_N (ow_pid o).

Section Ownership.
Context (debug int_error : string → string).

Definition is_major (value : string) : bool :=
  negb (str_empty value) && str_all is_ascii_digit value.

Definition compatibility_major_version (version : string) : result string :=
  match head (split_on "." version) with
  | Some value =>
      if is_major value then Ok value
      else Err (Internal ("invalid NeMo Relay version " +:+ debug version
                          +:+ ": expected a semver-compatible major"))
  | None => Err (Internal ("invalid NeMo Relay version " +:+ debug version
                           +:+ ": expected a semver-compatible major"))
  end.

(** The fields of a token read so far. *)
Record Fields : Type := {
  tf_pid : option N;
  tf_binding_kind : option string;
  tf_version : option string;
}.

Definition no_fields : Fields :=
  {| tf_pid := None; tf_binding_kind := None; tf_version := None |}.

Definition parse_field (field : string) (f : Fields) : result Fields :=
  match strip_prefix "pid=" field with
  | Some value =>
      match parse_unsigned u32_max value with
      | Some n =>
          Ok {| tf_pid := Some n; tf_binding_kind := tf_binding_kind f; tf_version := tf_version f |}
      | None => Err (Internal ("invalid NeMo Relay owner token pid " +:+ debug value +:+ ": "
                               +:+ int_error value))
      end
  | None =>
      match strip_prefix "binding=" field with
      | Some value =>
          if str_empty value
          then Err (Internal "invalid NeMo Relay owner token: binding kind is empty")
          else Ok {| tf_pid := tf_pid f; tf_binding_kind := Some value; tf_version := tf_version f |}
      | None =>
          match strip_prefix "version=" field with
          | Some value =>
              let? v := compatibility_major_version value in
              Ok {| tf_pid := tf_pid f; tf_binding_kind := tf_binding_kind f; tf_version := Some v |}
          | None => Ok f
          end
      end
  end.

Fixpoint parse_fields (fields : list string) (f : Fields) : result Fields :=
  match fields with
  | [] => Ok f
  | field :: fields => let? f := parse_field field f in parse_fields fields f
  end.

Definition missing {X} (what : string) (o : option X) : result X :=
  match o with
  | Some x => Ok x
  | None => Err (Internal ("invalid NeMo Relay owner token: missing " +:+ what))
  end.

Definition parse (text : string) : result RuntimeOwner :=
  let? f := parse_fields (split_on ";" text) no_fields in
  let? p := missing "pid" (tf_pid f) in
  let? b := missing "binding" (tf_binding_kind f) in
  let? v := missing "version" (tf_version f) in
  Ok {| ow_pid := p; ow_binding_kind := b; ow_major_version := v |}.

(** ** Claiming *)

Context (process_id : N).

Definition current_owner (package_version : string) (kind : string) : result RuntimeOwner :=
  let? v := compatibility_major_version package_version in
  Ok {| ow_pid := process_id; ow_binding_kind := kind; ow_major_version := v |}.

Definition resolve_binding_kind (kind : option string) (e : Env) : string :=
  match kind with
  | Some kind => kind
  | None => default "rust" (env_binding_kind e)
  end.

Inductive TokenRead : Type := NoToken | TokenOf (o : RuntimeOwner) | Unreadable.

(** [read_process_runtime_owner] up to its removal of a token that does not
    parse. *)
Definition read_owner_token (e : Env) : TokenRead :=
  match env_owner_token e with
  | Some text =>
      if str_empty text then NoToken
      else
        match parse text with
        | Ok owner => TokenOf owner
        | Err _ | Panic => Unreadable
        end
  | None => NoToken
  end.

Definition publish_process_runtime_owner (o : RuntimeOwner) (e : Env) : Env :=
  set_owner_token (Some (token o)) e.

Definition clear_process_runtime_owner (e : Env) : Env := set_owner_token None e.

(** The next access of a call to its controller or to the environment.
    [undo] is the binding kind to take back if the claim fails. *)
Inductive Call : Type :=
(** [initialize_shared_runtime_binding], the first critical section. *)
| CInit (kind : string)
(** [ensure_process_runtime_owner]: the critical section, the read of the
    token, its removal, its publication. *)
| CEnsure (undo : option string)
| CRead (current : RuntimeOwner) (undo : option string)
| CClear (current : RuntimeOwner)
| CPublish (current : RuntimeOwner)
(** [initialize_shared_runtime_binding], after a claim that failed. *)
| CRollback (kind : string) (error : FlowError)
(** Returned; a success is that of the owner the call spoke for. *)
| CDone (owner : option RuntimeOwner) (answer : result unit).

Definition claim_failed (undo : option string) (error : FlowError) : Call :=
  match undo with
  | Some kind => CRollback kind error
  | None => CDone None (Err error)
  end.

Definition initialize_shared_runtime_binding (kind : string) (c : RuntimeOwnerController) :
    RuntimeOwnerController * Call :=
  match c with
  | Some existing =>
      if negb (String.eqb existing kind)
      then (c, CDone None (Err (InvalidArgument
             ("NeMo Relay binding identity is already initialized as " +:+ existing
              +:+ "; attempted=" +:+ kind))))
      else (c, CEnsure None)
  | None => (Some kind, CEnsure (Some kind))
  end.

Definition ensure_process_runtime_owner (package_version : string) (c : RuntimeOwnerController)
    (undo : option string) (e : Env) : Call :=
  match current_owner package_version (resolve_binding_kind c e) with
  | Ok current => CRead current undo
  | Err error => claim_failed undo error
  | Panic => CDone None Panic
  end.

(** The match on the owner that was read. *)
Definition check_process_runtime_owner (current : RuntimeOwner) (undo : option string)
    (existing : TokenRead) : Call :=
  match existing with
  | TokenOf existing =>
      if same_owner existing current then CDone (Some current) (Ok ())
      else if negb (ow_pid existing =? ow_pid current)%N then CPublish current
      else claim_failed undo (InvalidArgument
        ("NeMo Relay does not support multiple bindings in one process; existing owner="
         +:+ owner_display existing +:+ " attempted=" +:+ owner_display current))
  | Unreadable => CClear current
  | NoToken => CPublish current
  end.

Definition rollback_binding (kind : string) (c : RuntimeOwnerController) : RuntimeOwnerController :=
  if bool_decide (c = Some kind) then None else c.

(** One step of a call of a copy. *)
Definition call_step (package_version : string) (c : RuntimeOwnerController) (e : Env) (call : Call) :
    option (RuntimeOwnerController * Env * Call) :=
  match call with
  | CInit kind =>
      let '(c, call) := initialize_shared_runtime_binding kind c in Some (c, e, call)
  | CEnsure undo => Some (c, e, ensure_process_runtime_owner package_version c undo e)
  | CRead current undo => Some (c, e, check_process_runtime_owner current undo (read_owner_token e))
  | CClear current => Some (c, clear_process_runtime_owner e, CPublish current)
  | CPublish current => Some (c, publish_process_runtime_owner current e, CDone (Some current) (Ok ()))
  | CRollback kind error => Some (rollback_binding kind c, e, CDone None (Err error))
  | CDone _ _ => None
  end.

(** A call that is not interrupted. *)
Fixpoint run_call (fuel : nat) (package_version : string) (c : RuntimeOwnerController) (e : Env)
    (call : Call) : RuntimeOwnerController * Env * Call :=
  match fuel with
  | 0 => (c, e, call)
  | S fuel =>
      match call_step package_version c e call with
      | Some (c, e, call) => run_call fuel package_version c e call
      | None => (c, e, call)
      end
  end.

(** ** A process with several copies of the runtime *)

Record Copy : Type := {
  cp_version : string;
  cp_controller : RuntimeOwnerController;
}.

(** The calls are made on any threads; each has the copy it is a call of. *)
Record Process : Type := {
  pr_copies : list Copy;
  pr_env : Env;
  pr_calls : list (nat * Call);
}.

Inductive step (p : Process) : Process → Prop :=
| step_call j i copy call c e call' :
    pr_calls p !! j = Some (i, call) → pr_copies p !! i = Some copy →
    call_step (cp_version copy) (cp_controller copy) (pr_env p) call = Some (c, e, call') →
    step p {|
      pr_copies := <[i := {| cp_version := cp_version copy; cp_controller := c |}]> (pr_copies p);
      pr_env := e;
      pr_calls := <[j := (i, call')]> (pr_calls p);
    |}.

End Ownership.

(** ** Tokens read back *)

Definition not_semicolon (c : Ascii.ascii) : bool := negb (Ascii.eqb c ";").

(** A binding kind that a token can carry. *)
Definition kind_ok (kind : string) : bool := negb (str_empty kind) && str_all not_semicolon kind.

Definition owner_ok (o : RuntimeOwner) : Prop :=
  (ow_pid o ≤ u32_max)%N ∧ kind_ok (ow_binding_kind o) = true ∧ is_major (ow_major_version o) = true.

Lemma digit_not (c : Ascii.ascii) (a : Ascii.ascii) :
  is_ascii_digit c = false → is_ascii_digit a = true → negb (Ascii.eqb a c) = true.
Proof. intros Hc Ha. apply negb_true_iff, Ascii.eqb_neq. intros ->. congruence. Qed.

Lemma digits_without c s :
  is_ascii_digit c = false → str_all is_ascii_digit s = true →
  str_all (λ a, negb (Ascii.eqb a c)) s = true.
Proof. intros Hc. apply str_all_impl. intros a. by apply digit_not. Qed.

Section Facts.
Context (debug int_error : string → string).

Lemma major_itself v : is_major v = true → compatibility_major_version debug v = Ok v.
Proof.
  intros Hv. unfold compatibility_major_version.
  rewrite split_on_none; [cbn; by rewrite Hv|].
  apply digits_without; [done|]. by apply andb_true_iff in Hv as [_ ?].
Qed.

Lemma major_of version v : compatibility_major_version debug version = Ok v → is_major v = true.
Proof.
  unfold compatibility_major_version. destruct (head _) as [x|]; [|done].
  destruct (is_major x) eqn:Hx; [by intros [= <-]|done].
Qed.

Lemma token_fields o :
  owner_ok o →
  split_on ";" (token o)
  = ["pid=" +:+ dec_of_N (ow_pid o); "binding=" +:+ ow_binding_kind o;
     "version=" +:+ ow_major_version o].
Proof.
  intros (_ & [_ Hk]%andb_true_iff & [_ Hv]%andb_true_iff). unfold token.
  assert (∀ x, ";binding=" +:+ x = String ";" ("binding=" +:+ x)) as Eb by done.
  assert (∀ x, ";version=" +:+ x = String ";" ("version=" +:+ x)) as Ev by done.
  rewrite Eb, Ev, <-(append_assoc "pid="), split_on_app.
  - f_equal. rewrite <-(append_assoc "binding="), split_on_app; [|by rewrite str_all_app].
    f_equal. apply split_on_none. rewrite str_all_app. by apply digits_without.
  - rewrite str_all_app. apply digits_without; [done|]. apply dec_of_N_digits.
Qed.

Lemma parse_token o : owner_ok o → parse debug int_error (token o) = Ok o.
Proof.
  intros Ho. unfold parse. rewrite token_fields by done. destruct Ho as (Hp & Hk & Hv).
  apply andb_true_iff in Hk as [Hne%negb_true_iff _].
  assert (∀ x, strip_prefix "pid=" ("binding=" +:+ x) = None) as E1 by done.
  assert (∀ x, strip_prefix "pid=" ("version=" +:+ x) = None) as E2 by done.
  assert (∀ x, strip_prefix "binding=" ("version=" +:+ x) = None) as E3 by done.
  cbn [parse_fields]. unfold parse_field.
  rewrite E1, E2, E3, !strip_prefix_app, dec_of_N_parse, Hne, major_itself by done.
  by destruct o.
Qed.

(** ** Exclusive ownership *)

Context (process_id : N).
Hypothesis process_id_u32 : (process_id ≤ u32_max)%N.

#[local] Abbreviation current_owner := (current_owner debug process_id).
#[local] Abbreviation call_step := (call_step debug int_error process_id).
#[local] Abbreviation step := (step debug int_error process_id).

(** [o] holds the runtime of this process. *)
Definition claimed (o : RuntimeOwner) (e : Env) : Prop :=
  read_owner_token debug int_error e = TokenOf o ∧ ow_pid o = process_id.

Lemma same_owner_spec o o' : same_owner o o' = true ↔ o = o'.
Proof.
  unfold same_owner. rewrite !andb_true_iff, N.eqb_eq, !String.eqb_eq.
  destruct o, o'; cbn. split; [by intros [[-> ->] ->]|by intros [= -> -> ->]].
Qed.

Lemma current_owner_ok version kind o :
  current_owner version kind = Ok o → kind_ok kind = true → owner_ok o ∧ ow_pid o = process_id.
Proof.
  unfold Ownership.current_owner. destruct (compatibility_major_version _ _) as [v|e|] eqn:Hv;
    [|done..]. cbn. intros [= <-] Hk. split_and!; [|done].
  split_and!; [done..|by eapply major_of].
Qed.

Lemma publish_claims o e :
  owner_ok o → ow_pid o = process_id → claimed o (publish_process_runtime_owner o e).
Proof.
  intros Ho Hp. split; [|done]. unfold read_owner_token. cbn [env_owner_token
    publish_process_runtime_owner set_owner_token].
  assert (str_empty (token o) = false) as -> by done. by rewrite parse_token.
Qed.

(** Every call speaks for an owner of this process that a token can carry. *)
Definition call_ok (call : Call) : Prop :=
  match call with
  | CInit kind => kind_ok kind = true
  | CRead o _ | CClear o | CPublish o => owner_ok o ∧ ow_pid o = process_id
  | _ => True
  end.

Record process_ok (p : Process) : Prop := {
  po_calls : Forall (λ ic, call_ok ic.2) (pr_calls p);
  po_copies : Forall (λ c, ∀ kind, cp_controller c = Some kind → kind_ok kind = true) (pr_copies p);
  po_env : ∀ kind, env_binding_kind (pr_env p) = Some kind → kind_ok kind = true;
}.

Lemma call_step_ok version c e call c' e' call' :
  call_ok call → (∀ kind, c = Some kind → kind_ok kind = true) →
  (∀ kind, env_binding_kind e = Some kind → kind_ok kind = true) →
  call_step version c e call = Some (c', e', call') →
  call_ok call' ∧ (∀ kind, c' = Some kind → kind_ok kind = true)
  ∧ env_binding_kind e' = env_binding_kind e.
Proof.
  intros Hcall Hc He. destruct call as [kind|undo|current undo|current|current|kind error|]; cbn.
  - unfold initialize_shared_runtime_binding. destruct c as [existing|]; [destruct (negb _)|];
      intros [= <- <- <-]; split_and!; try done. intros ? [= <-]. done.
  - intros [= <- <- <-]. split_and!; [|done..]. unfold ensure_process_runtime_owner.
    destruct (current_owner _ _) as [o|error|] eqn:Ho; [|by destruct undo|done].
    apply (current_owner_ok _ _ _ Ho). unfold resolve_binding_kind. destruct c; [by apply Hc|].
    destruct (env_binding_kind e) as [k|] eqn:Hk; [by apply He|done].
  - intros [= <- <- <-]. split_and!; [|done..]. unfold check_process_runtime_owner.
    destruct (read_owner_token _ _ e) as [|o|]; [done| |done].
    destruct (same_owner o current); [done|]. destruct (negb _); [done|by destruct undo].
  - by intros [= <- <- <-].
  - by intros [= <- <- <-].
  - intros [= <- <- <-]. split_and!; [done| |done]. unfold rollback_binding. case_bool_decide; [done|auto].
  - done.
Qed.

Lemma process_ok_step p p' : step p p' → process_ok p → process_ok p'.
Proof.
  intros [j i copy call c e call' Hj Hi Hs] [H1 H2 H3].
  pose proof (Forall_lookup_1 _ _ _ _ H1 Hj) as Hcall. pose proof (Forall_lookup_1 _ _ _ _ H2 Hi) as Hc.
  destruct (call_step_ok _ _ _ _ _ _ _ Hcall Hc H3 Hs) as (Hcall' & Hc' & He). split; cbn.
  - by apply Forall_insert.
  - by apply Forall_insert.
  - by rewrite He.
Qed.

(** A call that is about to write the token. *)
Definition claiming (call : Call) : Prop :=
  match call with
  | CClear _ | CPublish _ => True
  | _ => False
  end.

Definition quiet (p : Process) : Prop := Forall (λ ic, ¬ claiming ic.2) (pr_calls p).

(** Call [j] returned success for [o]. *)
Definition succeeded (p : Process) (j : nat) (o : RuntimeOwner) : Prop :=
  ∃ i, pr_calls p !! j = Some (i, CDone (Some o) (Ok ())).

(** What one step of a call does to the token. *)
Lemma call_step_token version c e call c' e' call' :
  call_ok call → call_step version c e call = Some (c', e', call') →
  claiming call'
  ∨ (e' = e ∧ ¬ claiming call ∧ ∀ o, call' = CDone (Some o) (Ok ()) → claimed o e)
  ∨ ∃ o, call' = CDone (Some o) (Ok ()) ∧ claimed o e'.
Proof.
  intros Hcall. destruct call as [kind|undo|current undo|current|current|kind error|]; cbn.
  - unfold initialize_shared_runtime_binding. destruct c as [existing|]; [destruct (negb _)|];
      intros [= <- <- <-]; right; left; (split_and!; [done|intros []|intros ? [=]]).
  - intros [= <- <- <-]. right; left. unfold ensure_process_runtime_owner.
    destruct (current_owner _ _) as [o|error|]; [|destruct undo|]; (split_and!; [done|intros []|intros ? [=]]).
  - intros [= <- <- <-]. unfold check_process_runtime_owner.
    destruct (read_owner_token _ _ e) as [|o|] eqn:Ho; [by left| |by left].
    destruct (same_owner o current) eqn:Hs.
    + apply same_owner_spec in Hs as ->. right; left. split_and!; [done|intros []|].
      intros ? [= <-]. by split; [|apply Hcall].
    + destruct (negb _); [by left|]. right; left. destruct undo; (split_and!; [done|intros []|intros ? [=]]).
  - intros [= <- <- <-]. by left.
  - intros [= <- <- <-]. right; right. exists current. split; [done|]. apply publish_claims; apply Hcall.
  - intros [= <- <- <-]. right; left. (split_and!; [done|intros []|intros ? [=]]).
  - done.
Qed.

(** A settled owner is read by every call, and nothing writes. *)
Lemma call_step_claimed o version c e call c' e' call' :
  claimed o e → ¬ claiming call → call_ok call →
  call_step version c e call = Some (c', e', call') →
  e' = e ∧ ¬ claiming call' ∧ ∀ o', call' = CDone o' (Ok ()) → o' = Some o.
Proof.
  intros [Hr Hp] Hq Hcall. destruct call as [kind|undo|current undo|current|current|kind error|]; cbn.
  - unfold initialize_shared_runtime_binding. destruct c as [existing|]; [destruct (negb _)|];
      intros [= <- <- <-]; (split_and!; [done|intros []|intros ? [=]]).
  - intros [= <- <- <-]. unfold ensure_process_runtime_owner.
    destruct (current_owner _ _) as [?|error|]; [|destruct undo|]; (split_and!; [done|intros []|intros ? [=]]).
  - intros [= <- <- <-]. unfold check_process_runtime_owner. rewrite Hr.
    destruct (same_owner o current) eqn:Hs.
    + apply same_owner_spec in Hs as ->. split_and!; [done|intros []|by intros ? [= <-]].
    + destruct Hcall as [_ Hpc]. rewrite Hp, Hpc, N.eqb_refl. cbn. destruct undo; (split_and!; [done|intros []|intros ? [=]]).
  - by destruct Hq.
  - by destruct Hq.
  - intros [= <- <- <-]. (split_and!; [done|intros []|intros ? [=]]).
  - done.
Qed.

Lemma settled_step o p p' :
  step p p' → process_ok p → claimed o (pr_env p) → quiet p →
  claimed o (pr_env p') ∧ quiet p'
  ∧ ∀ j i o', pr_calls p' !! j = Some (i, CDone o' (Ok ())) →
      pr_calls p !! j = Some (i, CDone o' (Ok ())) ∨ o' = Some o.
Proof.
  intros [j i copy call c e call' Hj Hi Hs] [H1 _ _] Ho Hq.
  pose proof (Forall_lookup_1 _ _ _ _ H1 Hj) as Hcall. pose proof (Forall_lookup_1 _ _ _ _ Hq Hj) as Hcl.
  destruct (call_step_claimed o _ _ _ _ _ _ _ Ho Hcl Hcall Hs) as (-> & Hcl' & Hok).
  split_and!; [done|by apply Forall_insert|]. cbn. intros j' i' o' Hj'.
  destruct (decide (j = j')) as [<-|Hne].
  - rewrite list_lookup_insert_eq in Hj' by (by eapply lookup_lt_Some). right. apply Hok. congruence.
  - rewrite list_lookup_insert_ne in Hj' by done. by left.
Qed.

Lemma settled_run o p p' :
  rtc step p p' → process_ok p → claimed o (pr_env p) → quiet p →
  claimed o (pr_env p') ∧ quiet p'
  ∧ ∀ j i o', pr_calls p' !! j = Some (i, CDone o' (Ok ())) →
      pr_calls p !! j = Some (i, CDone o' (Ok ())) ∨ o' = Some o.
Proof.
  induction 1 as [p|p p1 p' Hstep _ IH]; intros Hp Ho Hq; [by split_and!; [..|left]|].
  destruct (settled_step o p p1 Hstep Hp Ho Hq) as (Ho1 & Hq1 & H1).
  destruct (IH (process_ok_step p p1 Hstep Hp) Ho1 Hq1) as (? & ? & H2). split_and!; [done..|].
  intros j i o' Hj. destruct (H2 j i o' Hj) as [?%H1|?]; auto.
Qed.

(** Once a call succeeded, the token has an owner or is about to be written. *)
Definition owned (p : Process) : Prop :=
  (∃ o, claimed o (pr_env p)) ∨ ¬ quiet p ∨ ∀ j o, ¬ succeeded p j o.

Lemma quiet_insert p j ic ic' :
  pr_calls p !! j = Some ic → ¬ claiming ic.2 →
  Forall (λ ic, ¬ claiming ic.2) (<[j := ic']> (pr_calls p)) → quiet p.
Proof.
  intros Hj Hic Hq. apply Forall_lookup. intros k x Hk. destruct (decide (j = k)) as [<-|Hne].
  - by simplify_eq.
  - apply (Forall_lookup_1 _ _ k _ Hq). by rewrite list_lookup_insert_ne.
Qed.

Lemma owned_step p p' : step p p' → process_ok p → owned p → owned p'.
Proof.
  intros [j i copy call c e call' Hj Hi Hs] [H1 _ _] Hown.
  pose proof (Forall_lookup_1 _ _ _ _ H1 Hj) as Hcall.
  pose proof (lookup_lt_Some _ _ _ Hj) as Hlt.
  destruct (call_step_token _ _ _ _ _ _ _ Hcall Hs) as [Hcl|[(-> & Hn & Hok)|(o & -> & Ho)]].
  - right; left. intros Hq. apply (Forall_lookup_1 _ _ j (i, call') Hq); cbn; [|done].
    by rewrite list_lookup_insert_eq.
  - destruct Hown as [Ho|[Hq|Hnone]]; [by left|right; left; contradict Hq|].
    { eapply quiet_insert; [exact Hj|exact Hn|exact Hq]. }
    destruct call' as [| | | | | |[o|] [[]| |]]; try (right; right; intros k o' (i' & Hk); cbn in Hk;
      destruct (decide (j = k)) as [<-|Hne];
      [by rewrite list_lookup_insert_eq in Hk
      |rewrite list_lookup_insert_ne in Hk by done; apply (Hnone k o'); by exists i']).
    left. exists o. by apply Hok.
  - left. by exists o.
Qed.

(** A process in which calls are about to begin. *)
Definition initial (p : Process) : Prop :=
  process_ok p ∧ Forall (λ ic, match ic.2 with CInit _ => True | CEnsure None => True | _ => False end) (pr_calls p).

Lemma initial_owned p : initial p → owned p.
Proof.
  intros [_ Hc]. right; right. intros j o (i & Hj). by apply (Forall_lookup_1 _ _ _ _ Hc) in Hj.
Qed.

Lemma reachable_owned p p' : initial p → rtc step p p' → process_ok p' ∧ owned p'.
Proof.
  intros Hi Hr. assert (process_ok p ∧ owned p) as H by (by split; [apply Hi|apply initial_owned]).
  clear Hi. induction Hr as [|p p1 p' Hstep _ IH]; [done|]. apply IH.
  destruct H. split; [by apply (process_ok_step p)|by apply (owned_step p)].
Qed.

(** C30: a process settles on one owner.  Whatever copies of the runtime are
    loaded, whatever token the process inherited and however the accesses of
    their calls interleave: when some call has succeeded and none is between
    its read of the token and its write, one owner holds the token, keeps it
    for good, and every call that succeeds later speaks for that owner
    (binding kind and major version).  Binding kinds must be nonempty and free
    of semicolons. *)
Theorem runtime_owner_exclusive p0 p j o :
  initial p0 → rtc step p0 p → quiet p → succeeded p j o →
  ∃ owner, claimed owner (pr_env p)
    ∧ ∀ p', rtc step p p' →
        claimed owner (pr_env p') ∧ quiet p'
        ∧ ∀ k o', succeeded p' k o' → succeeded p k o' ∨ o' = owner.
Proof.
  intros Hi Hr Hq Hok. destruct (reachable_owned p0 p Hi Hr) as [Hp [[owner Ho]|[Hn|Hn]]];
    [|done|by destruct (Hn j o)].
  exists owner. split; [done|]. intros p' Hs.
  destruct (settled_run owner p p' Hs Hp Ho Hq) as (? & ? & H). split_and!; [done..|].
  intros k o' (i & Hk). destruct (H k i (Some o') Hk) as [?|[= ->]]; [left; by exists i|by right].
Qed.

(** *** A call on its own *)

(** Every call returns within six of its steps. *)
Definition call_rank (call : Call) : nat :=
  match call with
  | CInit _ => 5
  | CEnsure _ => 4
  | CRead _ _ => 3
  | CClear _ => 2
  | CPublish _ | CRollback _ _ => 1
  | CDone _ _ => 0
  end.

Lemma call_step_rank version c e call c' e' call' :
  call_step version c e call = Some (c', e', call') → call_rank call' < call_rank call.
Proof.
  destruct call as [kind|undo|current undo|current|current|kind error|]; cbn;
    try (intros [= <- <- <-]; cbn; lia); try done.
  - unfold initialize_shared_runtime_binding. destruct c as [existing|]; [destruct (negb _)|];
      intros [= <- <- <-]; cbn; lia.
  - intros [= <- <- <-]. unfold ensure_process_runtime_owner.
    destruct (current_owner _ _) as [?|error|]; [|destruct undo|]; cbn; lia.
  - intros [= <- <- <-]. unfold check_process_runtime_owner.
    destruct (read_owner_token _ _ e) as [|o|]; cbn; [lia| |lia].
    destruct (same_owner o current); [cbn; lia|]. destruct (negb _); [cbn; lia|]. destruct undo; cbn; lia.
Qed.

Lemma run_call_returns fuel version c e call :
  call_rank call ≤ fuel →
  ∃ c' e' o answer, run_call debug int_error process_id fuel version c e call = (c', e', CDone o answer).
Proof.
  revert c e call. induction fuel as [|fuel IH]; intros c e call Hf; cbn.
  - destruct call as [kind|undo|current undo|current|current|kind error|o answer]; cbn in Hf; try lia.
    by exists c, e, o, answer.
  - destruct (call_step version c e call) as [[[c' e'] call']|] eqn:Hs.
    + apply IH. apply call_step_rank in Hs. lia.
    + destruct call as [kind|undo|current undo|current|current|kind error|o answer]; try done;
        [cbn in Hs; by destruct (initialize_shared_runtime_binding kind c)|].
      by exists c, e, o, answer.
Qed.

(** The first claim of a process that inherited no owner of its own succeeds,
    if no other call interferes. *)
Lemma check_free current e :
  (∀ o, read_owner_token debug int_error e = TokenOf o → ow_pid o ≠ ow_pid current) →
  let call := check_process_runtime_owner current None (read_owner_token debug int_error e) in
  call = CDone (Some current) (Ok ()) ∨ call = CPublish current ∨ call = CClear current.
Proof.
  intros Hfree. unfold check_process_runtime_owner.
  destruct (read_owner_token _ _ e) as [|o|]; [auto| |auto]. destruct (same_owner o current); [auto|].
  destruct (N.eqb_spec (ow_pid o) (ow_pid current)) as [Hp|]; [by destruct (Hfree o eq_refl)|auto].
Qed.

Lemma run_call_S fuel version c e call :
  run_call debug int_error process_id (S fuel) version c e call
  = match call_step version c e call with
    | Some (c, e, call) => run_call debug int_error process_id fuel version c e call
    | None => (c, e, call)
    end.
Proof. done. Qed.

Lemma first_claim_succeeds version c e v :
  (∀ o, read_owner_token debug int_error e = TokenOf o → ow_pid o ≠ process_id) →
  compatibility_major_version debug version = Ok v →
  ∃ e' o, run_call debug int_error process_id 4 version c e (CEnsure None) = (c, e', CDone (Some o) (Ok ())).
Proof.
  intros Hfree Hv. rewrite !run_call_S. cbn [Ownership.call_step].
  unfold ensure_process_runtime_owner, Ownership.current_owner. rewrite Hv.
  cbn -[check_process_runtime_owner].
  match goal with |- context [check_process_runtime_owner ?cur _ _] => destruct (check_free cur e Hfree) as [H|[H|H]] end;
    cbv zeta in H; rewrite H; cbn; eauto.
Qed.

End Facts.

(** ** Concrete processes *)

Definition demo_process (kind : option string) (calls : list (nat * Call)) : Process := {|
  pr_copies := [{| cp_version := "1.0.0"; cp_controller := None |};
                {| cp_version := "1.0.0"; cp_controller := None |}];
  pr_env := {| env_binding_kind := kind; env_owner_token := None |};
  pr_calls := calls;
|}.

(** The process after the steps of a schedule of calls. *)
Fixpoint schedule (js : list nat) (p : Process) : option Process :=
  match js with
  | [] => Some p
  | j :: js =>
      '(i, call) ← pr_calls p !! j;
      copy ← pr_copies p !! i;
      '(c, e, call') ← call_step id id 42 (cp_version copy) (cp_controller copy) (pr_env p) call;
      schedule js {|
        pr_copies := <[i := {| cp_version := cp_version copy; cp_controller := c |}]> (pr_copies p);
        pr_env := e;
        pr_calls := <[j := (i, call')]> (pr_calls p);
      |}
  end.

Lemma schedule_run js p p' : schedule js p = Some p' → rtc (step id id 42) p p'.
Proof.
  revert p. induction js as [|j js IH]; cbn; intros p Hs; [by simplify_eq|].
  destruct (pr_calls p !! j) as [[i call]|] eqn:Hj; cbn in Hs; [|done].
  destruct (pr_copies p !! i) as [copy|] eqn:Hi; cbn in Hs; [|done].
  destruct (call_step _ _ _ _ _ _ _) as [[[c e] call']|] eqn:Hc; cbn in Hs; [|done].
  eapply rtc_l; [by econstructor|by apply IH].
Qed.

Definition answers (p : Process) : list (option (result unit)) :=
  (λ ic, match ic.2 with CDone _ r => Some r | _ => None end) <$> pr_calls p.

Lemma demo_claims_initial : initial 42 (demo_process None [(0, CInit "python"); (1, CEnsure None)]).
Proof. split; [split|]; cbn; by repeat constructor. Qed.

(** Python claims the process while the Rust copy begins a call; that call
    reads the token afterwards and is refused. *)
Lemma runtime_owner_exclusive_witness :
  ∃ p p' owner,
    schedule [0; 1; 0; 0; 0] (demo_process None [(0, CInit "python"); (1, CEnsure None)]) = Some p
    ∧ schedule [1] p = Some p'
    ∧ answers p' = [Some (Ok ()); Some (Err (InvalidArgument "NeMo Relay does not support multiple bindings in one process; existing owner=python@1 pid=42 attempted=rust@1 pid=42"))]
    ∧ claimed id id 42 owner (pr_env p').
Proof.
  destruct (schedule [0; 1; 0; 0; 0] _) as [p|] eqn:Hp; [|by vm_compute in Hp].
  destruct (schedule [1] p) as [p'|] eqn:Hp'; [|vm_compute in Hp; injection Hp as <-; by vm_compute in Hp'].
  destruct (runtime_owner_exclusive id id 42 ltac:(unfold u32_max; lia) _ p 0
    {| ow_pid := 42; ow_binding_kind := "python"; ow_major_version := "1" |}
    demo_claims_initial (schedule_run _ _ _ Hp)) as (owner & _ & Hrun).
  - vm_compute in Hp. injection Hp as <-. repeat constructor; cbn; auto.
  - vm_compute in Hp. injection Hp as <-. by exists 0.
  - exists p, p', owner. split_and!; [done|done| |apply (Hrun p'), (schedule_run _ _ _ Hp')].
    vm_compute in Hp. injection Hp as <-. vm_compute in Hp'. injection Hp' as <-. by vm_compute.
Defined.

(** Two copies that claim at the same time both find no token: both succeed. *)
Lemma concurrent_claims_race :
  answers <$> schedule [0; 0; 1; 1; 0; 1; 0; 1] (demo_process None [(0, CInit "python"); (1, CInit "node")])
  = Some [Some (Ok ()); Some (Ok ())].
Proof. vm_compute. reflexivity. Qed.

(** The empty kind, which the environment can set, makes a token that no one
    reads back: two owners hold the process one after the other. *)
Lemma empty_kind_not_exclusive :
  answers <$> schedule [0; 0; 0; 1; 1; 1; 1; 1]
    (demo_process (Some "") [(0, CEnsure None); (1, CInit "python")])
  = Some [Some (Ok ()); Some (Ok ())].
Proof. vm_compute. reflexivity. Qed.
