(* ===== verification/Json.v ===== *)
(** * JSON values and metadata helpers

    [serde_json::Value] as the runtime uses it ([nemo_relay_types::Json]),
    [merge_json] of [crates/runtime/src/json.rs] and the OpenTelemetry status
    helpers of [crates/runtime/src/api/shared.rs].

    [serde_json] is built without [preserve_order], so an object is a
    [BTreeMap]: here an association list in ascending key order ([obj_wf]),
    with [obj_get], [obj_insert] and [obj_remove] for [get], [insert] and
    [remove].  A number keeps serde's three representations; a float is its
    64-bit pattern. *)

From stdpp Require Import base gmap strings list sorting pretty.
From S2P Require Import Prelude Errors.

Inductive Number : Type :=
| PosInt (n : Z)
| NegInt (n : Z)
| Float (bits : Z).

#[global] Instance Number_eq_dec : EqDecision Number.
Proof. solve_decision. Defined.

#[local] Set Warnings "-register-all".

Inductive Json : Type :=
| Null
| Bool (b : bool)
| Num (n : Number)
| Str (s : string)
| Array (l : list Json)
| Object (m : list (string * Json)).

(** Structural induction, with the hypothesis for every nested value. *)
Lemma Json_nested_ind (P : Json → Prop) :
  P Null → (∀ b, P (Bool b)) → (∀ n, P (Num n)) → (∀ s, P (Str s)) →
  (∀ l, Forall P l → P (Array l)) →
  (∀ m, Forall (λ kv, P kv.2) m → P (Object m)) →
  ∀ v, P v.
Proof.
  intros Hnull Hbool Hnum Hstr Harr Hobj. fix IH 1. intros [|b|n|s|l|m].
  - done.
  - apply Hbool.
  - apply Hnum.
  - apply Hstr.
  - apply Harr. induction l as [|v l IHl]; constructor; [apply IH|exact IHl].
  - apply Hobj. induction m as [|[k v] m IHm]; constructor; [apply IH|exact IHm].
Qed.

(** Structural comparison, given the comparison of numbers. *)
Section Compare.
Context (number_eqb : Number → Number → bool).

Fixpoint compare_json (x y : Json) : bool :=
  match x, y with
  | Null, Null => true
  | Bool a, Bool b => bool_decide (a = b)
  | Num a, Num b => number_eqb a b
  | Str a, Str b => bool_decide (a = b)
  | Array l1, Array l2 =>
      (fix go (l1 l2 : list Json) : bool :=
        match l1, l2 with
        | [], [] => true
        | a :: l1, b :: l2 => compare_json a b && go l1 l2
        | _, _ => false
        end) l1 l2
  | Object m1, Object m2 =>
      (fix go (m1 m2 : list (string * Json)) : bool :=
        match m1, m2 with
        | [], [] => true
        | (k1, a) :: m1, (k2, b) :: m2 => bool_decide (k1 = k2) && compare_json a b && go m1 m2
        | _, _ => false
        end) m1 m2
  | _, _ => false
  end.

End Compare.

Definition Json_eqb : Json → Json → bool := compare_json (λ a b, bool_decide (a = b)).

(** [PartialEq for serde_json::Number]: floats compare as [f64], so the two
    zeros are equal (JSON has no NaN). *)
Definition number_eqb (a b : Number) : bool :=
  match a, b with
  | Float x, Float y =>
      (x =? y)%Z || (((x =? 0)%Z || (x =? 2 ^ 63)%Z) && ((y =? 0)%Z || (y =? 2 ^ 63)%Z))
  | a, b => bool_decide (a = b)
  end.

(** [PartialEq for serde_json::Value]. *)
Definition value_eqb : Json → Json → bool := compare_json number_eqb.

Lemma Json_eqb_eq x y : Json_eqb x y = true ↔ x = y.
Proof.
  revert y. induction x as [|a|a|a|l IH|m IH] using Json_nested_ind;
    intros [|b|b|b|l'|m']; cbn; rewrite ?bool_decide_eq_true;
    try (by split; [intros ->|intros [= ->]]); try done.
  - revert l'. induction IH as [|v l Hv _ IHl]; intros [|w l']; try done.
    rewrite andb_true_iff, Hv, IHl. split; [by intros [-> [= ->]]|by intros [= <- <-]].
  - revert m'. induction IH as [|[k v] m Hv _ IHm]; intros [|[k' w] m']; try done.
    cbn in Hv. rewrite !andb_true_iff, Hv, IHm, bool_decide_eq_true.
    split; [by intros [[-> ->] [= ->]]|by intros [= <- <- <-]].
Qed.

Lemma compare_json_refl neq x :
  (∀ a, neq a a = true) → compare_json neq x x = true.
Proof.
  intros Hneq. induction x as [|a|a|a|l IH|m IH] using Json_nested_ind; cbn; auto.
  - by apply bool_decide_eq_true.
  - by apply bool_decide_eq_true.
  - induction IH as [|v l Hv _ IHl]; [done|]. by rewrite Hv, IHl.
  - induction IH as [|[k v] m Hv _ IHm]; [done|]. cbn in Hv.
    by rewrite bool_decide_eq_true_2, Hv, IHm.
Qed.

Lemma compare_json_trans neq x y z :
  (∀ a b c, neq a b = true → neq b c = true → neq a c = true) →
  compare_json neq x y = true → compare_json neq y z = true → compare_json neq x z = true.
Proof.
  intros Hneq. revert y z.
  induction x as [|a|a|a|l IH|m IH] using Json_nested_ind;
    intros [|b|b|b|l'|m'] [|c|c|c|l''|m'']; cbn; try done.
  - rewrite !bool_decide_eq_true. congruence.
  - apply Hneq.
  - rewrite !bool_decide_eq_true. congruence.
  - revert l' l''. induction IH as [|v l Hv _ IHl]; intros [|v' l'] [|v'' l'']; try done.
    rewrite !andb_true_iff. intros [H1 H2] [H3 H4]. eauto.
  - revert m' m''. induction IH as [|[k v] m Hv _ IHm];
      intros [|[k' v'] m'] [|[k'' v''] m'']; try done.
    cbn in Hv. rewrite !andb_true_iff, !bool_decide_eq_true.
    intros [[-> H1] H2] [[-> H3] H4]. eauto.
Qed.

Lemma number_eqb_refl a : number_eqb a a = true.
Proof. destruct a; cbn; [by apply bool_decide_eq_true..|]. by rewrite Z.eqb_refl. Qed.

Lemma number_eqb_trans a b c :
  number_eqb a b = true → number_eqb b c = true → number_eqb a c = true.
Proof.
  destruct a as [x|x|x], b as [y|y|y], c as [z|z|z]; cbn; rewrite ?bool_decide_eq_true;
    try congruence.
  rewrite !orb_true_iff, !andb_true_iff, !orb_true_iff, !Z.eqb_eq. intuition congruence.
Qed.

#[global] Instance Json_eq_dec : EqDecision Json.
Proof. intros x y. refine (cast_if (decide (Json_eqb x y = true))); by rewrite <-Json_eqb_eq. Defined.

(** ** Accessors of [serde_json::Value] *)

Definition is_null (v : Json) : bool :=
  match v with Null => true | _ => false end.

Definition as_str (v : Json) : option string :=
  match v with Str s => Some s | _ => None end.

Definition as_bool (v : Json) : option bool :=
  match v with Bool b => Some b | _ => None end.

Definition as_array (v : Json) : option (list Json) :=
  match v with Array l => Some l | _ => None end.
Definition as_object (v : Json) : option (list (string * Json)) :=
  match v with Object m => Some m | _ => None end.

Fixpoint obj_get (k : string) (m : list (string * Json)) : option Json :=
  match m with
  | [] => None
  | (k', v) :: m' => if decide (k = k') then Some v else obj_get k m'
  end.

Fixpoint obj_insert (k : string) (v : Json) (m : list (string * Json)) :
    list (string * Json) :=
  match m with
  | [] => [(k, v)]
  | (k', v') :: m' =>
      if decide (k = k') then (k, v) :: m'
      else if decide (String.le k k') then (k, v) :: (k', v') :: m'
      else (k', v') :: obj_insert k v m'
  end.

Definition obj_remove (k : string) (m : list (string * Json)) : list (string * Json) :=
  filter (λ kv, kv.1 ≠ k) m.

(** [Map::entry(k).or_insert(v)]. *)
Definition obj_or_insert (k : string) (v : Json) (m : list (string * Json)) :
    list (string * Json) :=
  match obj_get k m with
  | Some _ => m
  | None => obj_insert k v m
  end.

(** [Value::get(&str)]. *)
Definition get (v : Json) (k : string) : option Json :=
  match v with Object m => obj_get k m | _ => None end.

(** A JSON object literal: keys are inserted one by one. *)
Definition json_obj (kvs : list (string * Json)) : Json :=
  Object (foldl (λ m kv, obj_insert kv.1 kv.2 m) [] kvs).

(** ** Objects as ordered maps *)

Definition key_lt (kv1 kv2 : string * Json) : Prop :=
  String.le kv1.1 kv2.1 ∧ kv1.1 ≠ kv2.1.

Definition obj_wf (m : list (string * Json)) : Prop := StronglySorted key_lt m.

Lemma obj_get_insert k j v m :
  obj_get j (obj_insert k v m) = if decide (j = k) then Some v else obj_get j m.
Proof.
  induction m as [|[k' v'] m IH]; cbn; [done|].
  destruct (decide (k = k')) as [<-|Hk]; cbn; [by repeat case_decide|].
  destruct (decide (String.le k k')); cbn; [done|].
  rewrite IH. repeat case_decide; congruence.
Qed.

Lemma obj_get_remove k j m :
  obj_get j (obj_remove k m) = if decide (j = k) then None else obj_get j m.
Proof.
  unfold obj_remove. induction m as [|[k' v'] m IH]; [by case_decide|].
  rewrite filter_cons. cbn [obj_get fst].
  destruct (decide (k' ≠ k)) as [Hk|Hk]; cbn [obj_get];
    rewrite IH; repeat case_decide; naive_solver.
Qed.

Lemma obj_get_or_insert k j v m :
  obj_get j (obj_or_insert k v m)
  = match obj_get j m with
    | Some v' => Some v'
    | None => if decide (j = k) then Some v else None
    end.
Proof.
  unfold obj_or_insert. destruct (obj_get k m) eqn:Hk.
  - destruct (obj_get j m) eqn:Hj; [done|]. case_decide; congruence.
  - rewrite obj_get_insert. case_decide as Hjk; [subst; by rewrite Hk|].
    by destruct (obj_get j m).
Qed.

(** A metadata map stays ordered under every operation. *)
Lemma obj_insert_keys k v m kv : kv ∈ obj_insert k v m → kv = (k, v) ∨ kv ∈ m.
Proof.
  induction m as [|[k' v'] m IH]; cbn.
  - rewrite list_elem_of_singleton. by left.
  - repeat case_decide; rewrite !elem_of_cons; intuition.
Qed.

Lemma obj_insert_wf k v m : obj_wf m → obj_wf (obj_insert k v m).
Proof.
  unfold obj_wf. induction 1 as [|[k' v'] m Hm IH Hk]; cbn; [by repeat constructor|].
  destruct (decide (k = k')) as [<-|Hne]; [by constructor|].
  destruct (decide (String.le k k')) as [Hle|Hle].
  - constructor; [by constructor|]. constructor; [done|].
    eapply Forall_impl; [exact Hk|]. intros [k'' v''] [Hk'' Hne'']; cbn in *.
    split; cbn; [by etrans|]. intros <-. apply Hne. by apply (anti_symm String.le).
  - constructor; [done|]. apply Forall_forall. intros kv [->|Hin]%obj_insert_keys.
    + split; cbn; [|done]. by destruct (total String.le k k').
    + rewrite Forall_forall in Hk. by apply Hk.
Qed.

Lemma obj_remove_wf k m : obj_wf m → obj_wf (obj_remove k m).
Proof.
  unfold obj_wf, obj_remove. induction 1 as [|kv m Hm IH Hk]; [constructor|].
  rewrite filter_cons. case_decide; [|done]. constructor; [done|].
  rewrite Forall_forall in Hk |- *. intros kv' [_ Hin]%list_elem_of_filter. by apply Hk.
Qed.

Lemma obj_get_None_Forall k m : Forall (λ kv, kv.1 ≠ k) m → obj_get k m = None.
Proof. induction 1 as [|[k' v'] m Hk _ IH]; cbn in *; [done|]. by case_decide. Qed.

(** ** [merge_json] *)

Definition merge_json (a b : option Json) : option Json :=
  match a, b with
  | Some (Object ma), Some (Object mb) =>
      Some (Object (foldl (λ m kv, obj_insert kv.1 kv.2 m) ma mb))
  | Some a, None => Some a
  | None, Some b => Some b
  | Some _, Some b => Some b
  | None, None => None
  end.

Lemma foldl_insert_get k mb ma :
  obj_wf mb →
  obj_get k (foldl (λ m kv, obj_insert kv.1 kv.2 m) ma mb)
  = match obj_get k mb with Some v => Some v | None => obj_get k ma end.
Proof.
  intros Hmb. revert ma. induction Hmb as [|[k' v'] mb Hm IH Hk]; intros ma; cbn; [done|].
  rewrite IH, obj_get_insert. case_decide as Hkk; [subst|done].
  rewrite (obj_get_None_Forall k' mb); [done|].
  eapply Forall_impl; [exact Hk|]. intros kv [_ Hne]. by apply not_eq_sym.
Qed.

Lemma foldl_insert_wf mb ma :
  obj_wf ma → obj_wf (foldl (λ m kv, obj_insert kv.1 kv.2 m) ma mb).
Proof. revert ma. induction mb as [|kv mb IH]; intros ma Hma; cbn; [done|]. by apply IH, obj_insert_wf. Qed.

(** ** OpenTelemetry status metadata *)

(** The derived [Debug] form of the failure class. *)
Definition class_debug (c : UpstreamFailureClass) : string :=
  match c with
  | Connection => "Connection"
  | Timeout => "Timeout"
  | RetryableStatus => "RetryableStatus"
  | ContextWindow => "ContextWindow"
  | ModelUnavailable => "ModelUnavailable"
  | Authentication => "Authentication"
  | InvalidRequest => "InvalidRequest"
  | Other => "Other"
  end.

Definition upstream_display (f : UpstreamFailure) : string :=
  match uf_status f with
  | Some status =>
      "upstream provider returned HTTP " +:+ pretty status +:+ " ("
      +:+ class_debug (uf_class f) +:+ "): " +:+ uf_body f
  | None =>
      "upstream provider transport failure (" +:+ class_debug (uf_class f) +:+ "): "
      +:+ uf_body f
  end.

Definition error_to_string (e : FlowError) : string :=
  match e with
  | AlreadyExists s => "already exists: " +:+ s
  | NotFound s => "not found: " +:+ s
  | InvalidArgument s => "invalid argument: " +:+ s
  | ScopeStackEmpty => "scope stack empty"
  | GuardrailRejected s => "guardrail rejected: " +:+ s
  | Upstream f => upstream_display f
  | Internal s => "internal error: " +:+ s
  | CallbackException m _ => "internal error: " +:+ m
  end.

Definition otel_code : string := "otel.status_code".
Definition otel_description : string := "otel.status_description".

Definition metadata_with_otel_status
    (metadata : option Json) (status_code : string) (status_message : option string) :
    option Json :=
  let status := obj_insert otel_code (Str status_code) [] in
  let status :=
    match status_message with
    | Some msg =>
        if decide (status_code = "ERROR") then obj_insert otel_description (Str msg) status
        else status
    | None => status
    end in
  let metadata := merge_json metadata (Some (Object status)) in
  match metadata with
  | Some (Object m) =>
      if decide (status_code = "ERROR") then metadata
      else Some (Object (obj_remove otel_description m))
  | _ => metadata
  end.

Definition metadata_with_otel_error (metadata : option Json) (error : FlowError) :
    option Json :=
  match metadata_with_otel_status metadata "ERROR" (Some (error_to_string error)) with
  | Some (Object m) =>
      let m := obj_or_insert "error.type" (Str (otel_error_type error)) m in
      let m :=
        match exception_type error with
        | Some ty => obj_or_insert "exception.type" (Str ty) m
        | None => m
        end in
      Some (Object m)
  | metadata => metadata
  end.

(** The keys an optional metadata value carries. *)
Definition meta_get (metadata : option Json) (k : string) : option Json :=
  metadata ≫= λ v, get v k.

Definition meta_wf (metadata : option Json) : Prop :=
  match metadata with
  | Some (Object m) => obj_wf m
  | _ => True
  end.

Lemma merge_json_object metadata m :
  obj_wf m →
  ∃ m', merge_json metadata (Some (Object m)) = Some (Object m')
    ∧ ∀ k, obj_get k m'
      = match obj_get k m with Some v => Some v | None => meta_get metadata k end.
Proof.
  intros Hm. destruct metadata as [[|b|n|s|l|ma]|]; cbn.
  6: { eexists. split; [done|]. intros k. by apply foldl_insert_get. }
  all: exists m; split; [done|]; intros k; by destruct (obj_get k m).
Qed.

Lemma merge_json_wf a b : meta_wf a → meta_wf b → meta_wf (merge_json a b).
Proof.
  destruct a as [[]|], b as [[]|]; cbn; try done. intros. by apply foldl_insert_wf.
Qed.

(** ** Properties *)

(** [merge_json] is a shallow, right-biased merge: on two objects a key
    of the override wins and every other key of the base is kept; an absent
    override leaves the base as it is; any other override replaces it. *)
Theorem merge_json_spec ma mb b :
  obj_wf mb →
  (∃ m, merge_json (Some (Object ma)) (Some (Object mb)) = Some (Object m)
     ∧ ∀ k, obj_get k m
       = match obj_get k mb with Some v => Some v | None => obj_get k ma end)
  ∧ merge_json (Some b) None = Some b
  ∧ merge_json None (Some b) = Some b
  ∧ (as_object b = None → merge_json (Some (Object ma)) (Some b) = Some b)
  ∧ (as_object b = None → merge_json (Some b) (Some (Object mb)) = Some (Object mb)).
Proof.
  intros Hmb. split_and!.
  - by apply (merge_json_object (Some (Object ma))).
  - by destruct b.
  - done.
  - by destruct b.
  - by destruct b.
Qed.

(** The status written on a span's metadata is always an object whose
    status code is the one asked for; a status description is present only
    under [ERROR] (the message given, or the caller's own when none is
    given), and every other key of the caller's metadata is kept. *)
Theorem metadata_with_otel_status_spec metadata code msg :
  ∃ m, metadata_with_otel_status metadata code msg = Some (Object m)
    ∧ obj_get otel_code m = Some (Str code)
    ∧ obj_get otel_description m
      = (if decide (code = "ERROR") then
           match msg with
           | Some s => Some (Str s)
           | None => meta_get metadata otel_description
           end
         else None)
    ∧ ∀ k, k ≠ otel_code → k ≠ otel_description → obj_get k m = meta_get metadata k.
Proof.
  unfold metadata_with_otel_status.
  set (status := match msg with Some _ => _ | None => _ end).
  assert (obj_wf status) as Hwf.
  { unfold status. destruct msg; [case_decide|]; repeat apply obj_insert_wf; constructor. }
  assert (∀ k, obj_get k status
    = if decide (k = otel_code) then Some (Str code)
      else if decide (k = otel_description ∧ code = "ERROR") then Str <$> msg else None) as Hget.
  { intros k. unfold status. destruct msg as [s|]; [case_decide|];
      rewrite ?obj_get_insert; repeat case_decide; naive_solver. }
  destruct (merge_json_object metadata status Hwf) as (m & -> & Hm).
  assert (otel_description ≠ otel_code) as Hne by done.
  assert (∀ k, k ≠ otel_code → k ≠ otel_description → obj_get k status = None) as Hother.
  { intros k Hk1 Hk2. rewrite Hget, decide_False by done. rewrite decide_False; naive_solver. }
  case_decide as Hcode; (eexists; split; [done|]); split_and!.
  - by rewrite Hm, Hget, decide_True.
  - rewrite Hm, Hget, decide_False, decide_True by done. by destruct msg.
  - intros k Hk1 Hk2. by rewrite Hm, Hother.
  - by rewrite obj_get_remove, decide_False, Hm, Hget, decide_True.
  - by rewrite obj_get_remove, decide_True.
  - intros k Hk1 Hk2. by rewrite obj_get_remove, decide_False, Hm, Hother.
Qed.

Lemma merge_json_spec_witness :
  merge_json (Some (Object [("a", Null); ("b", Bool true)]))
    (Some (Object [("b", Str "x")])) = Some (Object [("a", Null); ("b", Str "x")])
  ∧ merge_json (Some (Object [("a", Null)])) (Some (Str "x")) = Some (Str "x").
Proof.
  split; [reflexivity|].
  refine (proj1 (proj2 (proj2 (proj2 (merge_json_spec [("a", Null)] [] (Str "x") _)))) _).
  - constructor.
  - reflexivity.
Defined.
