(* ===== verification/SkillLoad.v ===== *)
(** * Skill-load detection ([crates/runtime/src/api/skill_load.rs])

    Which skills a tool call loads, read off its name and arguments: a skill
    tool, a file reader or a shell command that prints whole files.  Splitting
    a command line into words is the [shell_words] package, a parameter.  The
    traversal of the arguments uses an explicit stack; its fuel is the number
    of nodes, which [visit_all] shows to be enough. *)

From Stdlib Require Import Ascii.
From stdpp Require Import base strings list.
From S2P Require Import Prelude Text Errors Json.

Definition HANDLED_METADATA_KEY : string := "nemo_relay.skill_load_handled".
Definition PRECOMPUTED_METADATA_KEY : string := "nemo_relay.skill_loads".

Definition CAT_REJECTED_OPTIONS : list string :=
  ["-h"; "--help"; "--version"; "--show-all"; "--number-nonblank"; "--show-ends"; "--number";
   "--squeeze-blank"; "--show-tabs"; "--show-nonprinting"].
Definition CAT_REJECTED_SHORT_OPTIONS : string := "AbeEnstTv".
Definition BAT_ALLOWED_OPTIONS : list string := ["-p"; "--plain"].
Definition POWERSHELL_ALLOWED_OPTIONS : list string :=
  ["asbytestream"; "encoding"; "force"; "literalpath"; "path"; "raw"; "readcount"].

Inductive SkillLoadSource : Type := SkillTool | StructuredRead | ShellRead.

Definition source_as_str (s : SkillLoadSource) : string :=
  match s with
  | SkillTool => "skill_tool"
  | StructuredRead => "structured_read"
  | ShellRead => "shell_read"
  end.

(** The derived [FromStr]. *)
Definition source_parse (s : string) : option SkillLoadSource :=
  if decide (s = "skill_tool") then Some SkillTool
  else if decide (s = "structured_read") then Some StructuredRead
  else if decide (s = "shell_read") then Some ShellRead
  else None.

Record SkillLoad : Type := {
  skill_name : string;
  skill_source : SkillLoadSource;
}.

(** ** Identifiers *)

Definition normalize_identifier (value : string) : string :=
  to_ascii_lowercase (str_filter is_ascii_alphanumeric value).

(** [filter(|name| seen.insert(name.clone()))]. *)
Fixpoint dedup_from (seen : list string) (names : list string) : list string :=
  match names with
  | [] => []
  | n :: names =>
      if bool_decide (n ∈ seen) then dedup_from seen names
      else n :: dedup_from (n :: seen) names
  end.

Definition deduplicate (names : list string) : list string := dedup_from [] names.

(** ** Traversal of the arguments *)

Fixpoint json_nodes (v : Json) : nat :=
  match v with
  | Array l => S (sum_list_with json_nodes l)
  | Object m => S (sum_list_with (λ kv, json_nodes kv.2) m)
  | _ => 1
  end.

Definition normalized_member (kv : string * Json) : string * Json :=
  (normalize_identifier kv.1, kv.2).

(** The calls of [visit], in order; the head of the list is the top of the
    stack. *)
Fixpoint visit_loop (fuel : nat) (stack : list Json) : list (string * Json) :=
  match fuel with
  | 0 => []
  | S fuel =>
      match stack with
      | [] => []
      | Object m :: stack =>
          (normalized_member <$> m) ++ visit_loop fuel (rev (m.*2) ++ stack)
      | Array l :: stack => visit_loop fuel (rev l ++ stack)
      | _ :: stack => visit_loop fuel stack
      end
  end.

Definition visit_named_values (v : Json) : list (string * Json) := visit_loop (json_nodes v) [v].

(** ** Paths *)

Definition is_separator : ascii → bool := one_of "/\".
Definition is_quote (c : ascii) : bool := Ascii.eqb c "'" || Ascii.eqb c "034".

Definition skill_name_from_path (path : string) : option string :=
  if negb (bool_decide (trim path = path)) || starts_with_byte is_quote path
     || ends_with_byte (λ c, is_quote c || is_separator c) path
  then None
  else
    let components := filter (λ c, str_empty c = false) (split_by is_separator path) in
    match rev components with
    | file :: parent :: _ =>
        if negb (eq_ignore_ascii_case file "SKILL.md")
           || bool_decide (parent = ".") || bool_decide (parent = "..")
           || ends_with_byte (Ascii.eqb ":") parent
        then None
        else Some parent
    | _ => None
    end.

Fixpoint collect_path_skill_names (v : Json) : list string :=
  match v with
  | Str path => option_list (skill_name_from_path path)
  | Array values => concat (map collect_path_skill_names values)
  | _ => []
  end.

(** ** Structured arguments *)

Definition skill_tool_names (args : Json) : list string :=
  omap (λ kv,
    v ← as_str kv.2;
    if bool_decide (kv.1 ∈ ["skill"; "skillname"; "name"])
    then let v := trim v in if str_empty v then None else Some v
    else None) (visit_named_values args).

Definition structured_skill_names (args : Json) : list string :=
  visit_named_values args ≫= λ kv,
    if bool_decide (kv.1 ∈ ["path"; "filepath"; "filename"; "file"; "paths"; "uri"; "absolutepath"])
    then collect_path_skill_names kv.2 else [].

Definition READERS : list string :=
  ["read"; "readfile"; "readtextfile"; "readmultiplefiles"; "fileread"; "readresource";
   "getfilecontents"; "readfilecontent"].

Definition str_concat (l : list string) : string := foldr String.append EmptyString l.

Definition is_structured_reader (tool_name : string) : bool :=
  let segments := normalize_identifier <$>
    filter (λ s, str_empty s = false)
      (split_by (λ c, negb (is_ascii_alphanumeric c)) tool_name) in
  existsb (λ len, bool_decide (str_concat (drop (length segments - len) segments) ∈ READERS))
    (seq 1 (length segments)).

Definition is_shell_tool (tool_name : string) : bool :=
  bool_decide (tool_name ∈
    ["sh"; "bash"; "zsh"; "fish"; "shell"; "shellcommand"; "exec"; "execcommand"; "execute";
     "terminal"; "runcommand"; "runshellcommand"; "shellexec"; "powershell"; "pwsh"]).

(** [value.as_i64() == Some(0)]. *)
Definition is_zero (v : Json) : bool :=
  match v with
  | Num (PosInt 0) | Num (NegInt 0) => true
  | _ => false
  end.

Definition is_partial_control (kv : string * Json) : bool :=
  let key := normalize_identifier kv.1 in
  if decide (key = "offset") then negb (is_zero kv.2)
  else if bool_decide (key ∈ ["limit"; "range"; "head"; "tail"; "startline"; "endline";
                              "linestart"; "lineend"])
  then match kv.2 with Null => false | _ => true end
  else false.

Definition has_partial_read_controls (v : Json) : bool :=
  existsb is_partial_control (visit_named_values v).

(** ** Shell commands *)

Section Shell.
Context (shell_split : string → option (list string)).

Fixpoint escape_backslashes (s : string) : string :=
  match s with
  | EmptyString => EmptyString
  | String c s' =>
      if Ascii.eqb c "\" then String c (String c (escape_backslashes s'))
      else String c (escape_backslashes s')
  end.

Definition is_newline (c : ascii) : bool := Ascii.eqb c "010" || Ascii.eqb c "013".

(** A word that makes the command more than one program call. *)
Definition is_control_word (word : string) : bool :=
  str_any (one_of "|&;<>") word || contains_str "$(" word || str_any (Ascii.eqb "`") word.

Definition standalone_command_words (command : string) : option (list string) :=
  if str_any is_newline command then None
  else
    words ← shell_split (escape_backslashes command);
    if bool_decide (words = []) || existsb is_control_word words then None else Some words.

Definition executable_name (executable : string) : option string :=
  name ← last (split_by is_separator executable);
  let name := to_ascii_lowercase name in
  let name := default name (strip_suffix ".exe" name) in
  if str_empty name then None else Some name.

Definition is_dashed (word : string) : bool := starts_with "-" word.

Definition positional_paths (words : list string) : list string :=
  filter (λ word, is_dashed word = false) words.

Definition is_rejected_option (word : string) (rejected : list string)
    (rejected_short : string) : bool :=
  existsb (λ option, eq_ignore_ascii_case word option || starts_with (option +:+ "=") word)
    rejected
  || match strip_prefix "-" word with
     | Some options => negb (is_dashed options) && str_any (one_of rejected_short) options
     | None => false
     end.

Definition cat_paths (words : list string) : list string :=
  if existsb (λ word,
       is_rejected_option word CAT_REJECTED_OPTIONS CAT_REJECTED_SHORT_OPTIONS
       || (is_dashed word && negb (bool_decide (word = "--"))
           && negb (eq_ignore_ascii_case word "-u"))) words
  then [] else positional_paths words.

Definition is_bat_option (word : string) : bool :=
  existsb (eq_ignore_ascii_case word) BAT_ALLOWED_OPTIONS.

Definition bat_paths (words : list string) : list string :=
  if negb (length (filter (λ word, is_bat_option word = true) words) =? 1)%nat
     || existsb (λ word,
          is_dashed word && negb (bool_decide (word = "--")) && negb (is_bat_option word)) words
  then [] else positional_paths words.

Definition powershell_option_name (word : string) : option string :=
  rest ← strip_prefix "-" word; head (split_by (one_of ":=") rest).

Definition powershell_option_value (word : string) : option string :=
  '(_, value) ← split_once_by (one_of ":=") word;
  if str_empty value then None else Some value.

Definition option_is (names : list string) (option : option string) : bool :=
  match option with
  | Some o => existsb (eq_ignore_ascii_case o) names
  | None => false
  end.

Fixpoint powershell_loop (words : list string) : list string :=
  match words with
  | [] => []
  | word :: rest =>
      let push_word := if is_dashed word then [] else [word] in
      let option := powershell_option_name word in
      if option_is ["path"; "literalpath"] option then
        match powershell_option_value word with
        | Some path => path :: push_word ++ powershell_loop rest
        | None =>
            match rest with
            | path :: rest => path :: powershell_loop rest
            | [] => push_word
            end
        end
      else if option_is ["encoding"; "readcount"] option
              && bool_decide (powershell_option_value word = None)
      then match rest with _ :: rest => powershell_loop rest | [] => [] end
      else push_word ++ powershell_loop rest
  end.

Definition powershell_content_paths (words : list string) : list string :=
  if existsb (λ word,
       is_dashed word
       && negb (option_is POWERSHELL_ALLOWED_OPTIONS (powershell_option_name word))) words
  then [] else powershell_loop words.

Definition posix_reader_word_paths (words : list string) : list string :=
  match words with
  | [] => []
  | w :: words =>
      match executable_name w with
      | Some executable =>
          if decide (executable = "cat") then cat_paths words
          else if decide (executable = "bat" ∨ executable = "batcat") then bat_paths words
          else []
      | None => []
      end
  end.

Definition powershell_reader_word_paths (words : list string) : list string :=
  match words with
  | [] => []
  | w :: words =>
      match executable_name w with
      | Some executable =>
          if decide (executable = "get-content") then powershell_content_paths words else []
      | None => []
      end
  end.

Definition posix_shell_wrapper_paths (executable : string) (words : list string) :
    list string :=
  match words with
  | [flag; command] =>
      if bool_decide (executable = "sh" ∧ flag = "-c")
         || bool_decide ((executable = "bash" ∨ executable = "zsh")
                         ∧ (flag = "-c" ∨ flag = "-lc"))
      then
        match standalone_command_words command with
        | Some words => posix_reader_word_paths words
        | None => []
        end
      else []
  | _ => []
  end.

Definition fish_shell_wrapper_paths (words : list string) : list string :=
  let run command :=
    match standalone_command_words command with
    | Some words => posix_reader_word_paths words
    | None => []
    end in
  match words with
  | [flag; command] => if decide (flag = "-c") then run command else []
  | [argument] => run (default EmptyString (strip_prefix "--command=" argument))
  | _ => []
  end.

Definition powershell_wrapper_paths (words : list string) : list string :=
  match words with
  | [] => []
  | flag :: command =>
      if negb (eq_ignore_ascii_case flag "-command") then []
      else
        match command with
        | [] => []
        | [command] =>
            match standalone_command_words command with
            | Some words => powershell_reader_word_paths words
            | None => []
            end
        | _ => powershell_reader_word_paths command
        end
  end.

Definition complete_reader_word_paths (words : list string) (allow_direct_cat : bool) :
    list string :=
  match words with
  | [] => []
  | w :: words =>
      match executable_name w with
      | None => []
      | Some executable =>
          if decide (executable = "cat") then if allow_direct_cat then cat_paths words else []
          else if decide (executable = "bat" ∨ executable = "batcat") then bat_paths words
          else if decide (executable = "get-content") then powershell_content_paths words
          else if decide (executable = "sh" ∨ executable = "bash" ∨ executable = "zsh")
          then posix_shell_wrapper_paths executable words
          else if decide (executable = "fish") then fish_shell_wrapper_paths words
          else if decide (executable = "powershell" ∨ executable = "pwsh")
          then powershell_wrapper_paths words
          else []
      end
  end.

Definition complete_reader_paths (command : string) (allow_direct_cat : bool) : list string :=
  match standalone_command_words command with
  | Some words => complete_reader_word_paths words allow_direct_cat
  | None => []
  end.

Definition shell_commands (args : Json) : list string :=
  omap (λ kv, if bool_decide (kv.1 ∈ ["command"; "cmd"]) then as_str kv.2 else None)
    (visit_named_values args).

Definition shell_skill_names (tool_name : string) (args : Json) : list string :=
  let allow_direct_cat := negb (bool_decide (tool_name ∈ ["powershell"; "pwsh"])) in
  omap skill_name_from_path
    (shell_commands args ≫= λ command, complete_reader_paths command allow_direct_cat).

(** ** Detection *)

Definition detect (tool_name : string) (args : Json) : list SkillLoad :=
  let normalized_tool := normalize_identifier tool_name in
  let loads source names :=
    (λ n, {| skill_name := n; skill_source := source |}) <$> deduplicate names in
  if bool_decide (normalized_tool ∈ ["skill"; "skillview"; "loadskill"])
  then loads SkillTool (skill_tool_names args)
  else if is_structured_reader tool_name && negb (has_partial_read_controls args)
  then loads StructuredRead (structured_skill_names args)
  else if is_shell_tool normalized_tool
  then loads ShellRead (shell_skill_names normalized_tool args)
  else [].

(** The entries with their names, before the [seen] filter. *)
Fixpoint precomputed_loop (seen : list string) (entries : list Json) : list SkillLoad :=
  match entries with
  | [] => []
  | entry :: entries =>
      match
        object ← as_object entry;
        name ← obj_get "skill_name" object; name ← as_str name;
        source ← obj_get "source" object; source ← as_str source;
        source ← source_parse source;
        Some (trim name, source)
      with
      | Some (name, source) =>
          if str_empty name || bool_decide (name ∈ seen) then precomputed_loop seen entries
          else {| skill_name := name; skill_source := source |}
               :: precomputed_loop (name :: seen) entries
      | None => precomputed_loop seen entries
      end
  end.

Definition precomputed (metadata : option Json) : option (list SkillLoad) :=
  metadata ← metadata;
  object ← as_object metadata;
  entries ← obj_get PRECOMPUTED_METADATA_KEY object;
  entries ← as_array entries;
  Some (precomputed_loop [] entries).

(** [resolve_skill_loads] of [tool.rs]. *)
Definition resolve_skill_loads (n : string) (args : Json) (metadata : option Json) :
    list SkillLoad :=
  let already_handled :=
    default false
      (metadata ← metadata; object ← as_object metadata;
       v ← obj_get HANDLED_METADATA_KEY object; as_bool v) in
  if already_handled : bool then []
  else default (detect n args) (precomputed metadata).

End Shell.

(** ** Facts *)

(** Every member of every object inside [v], by recursion on [v]. *)
Fixpoint members (v : Json) : list (string * Json) :=
  match v with
  | Object m => (normalized_member <$> m) ++ concat (map (λ kv, members kv.2) m)
  | Array l => concat (map members l)
  | _ => []
  end.

Lemma concat_map_Permutation {A B} (f : A → list B) l1 l2 :
  l1 ≡ₚ l2 → concat (map f l1) ≡ₚ concat (map f l2).
Proof.
  induction 1; cbn; [done|by f_equiv| |by etrans].
  rewrite !(assoc_L (++)). f_equiv. apply (comm (++)).
Qed.

Lemma sum_rev {A} (f : A → nat) l : sum_list_with f (rev l) = sum_list_with f l.
Proof. by rewrite <-Permutation_rev. Qed.

Lemma sum_snd (m : list (string * Json)) :
  sum_list_with json_nodes (m.*2) = sum_list_with (λ kv, json_nodes kv.2) m.
Proof. induction m as [|[k v] m IH]; [done|]. cbn. by rewrite IH. Qed.

Lemma json_nodes_pos v : 0 < json_nodes v.
Proof. destruct v; cbn; lia. Qed.

(** Enough fuel visits everything, whatever the order. *)
Lemma visit_all fuel stack :
  sum_list_with json_nodes stack ≤ fuel →
  visit_loop fuel stack ≡ₚ concat (map members stack).
Proof.
  revert stack. induction fuel as [|fuel IH]; intros stack Hfuel.
  { destruct stack as [|v stack]; [done|]. cbn in Hfuel. pose proof (json_nodes_pos v). lia. }
  destruct stack as [|v stack]; [done|]. cbn in Hfuel.
  destruct v as [|b|n|s|l|m]; cbn in *; try (apply IH; lia).
  - rewrite IH by (rewrite sum_list_with_app, sum_rev; lia).
    rewrite map_app, concat_app. f_equiv. apply concat_map_Permutation.
    by rewrite <-Permutation_rev.
  - rewrite IH by (rewrite sum_list_with_app, sum_rev, sum_snd; lia).
    rewrite map_app, concat_app, (assoc_L (++)). f_equiv. f_equiv.
    rewrite (concat_map_Permutation members (rev m.*2) m.*2)
      by (by rewrite <-Permutation_rev).
    by rewrite map_map.
Qed.

Lemma dedup_from_spec seen names :
  NoDup (dedup_from seen names)
  ∧ ∀ n, n ∈ dedup_from seen names ↔ n ∈ names ∧ n ∉ seen.
Proof.
  revert seen. induction names as [|x names IH]; intros seen; cbn.
  { split; [constructor|]. intros n. rewrite elem_of_nil. tauto. }
  case_bool_decide as Hx.
  - destruct (IH seen) as [Hnd Hin]. split; [done|]. intros n. rewrite Hin, elem_of_cons.
    naive_solver.
  - destruct (IH (x :: seen)) as [Hnd Hin]. split.
    + constructor; [|done]. rewrite Hin, not_elem_of_cons. naive_solver.
    + intros n. rewrite !elem_of_cons, Hin, not_elem_of_cons.
      destruct (decide (n = x)); naive_solver.
Qed.

Lemma visit_members v kv : kv ∈ visit_named_values v ↔ kv ∈ members v.
Proof.
  unfold visit_named_values. rewrite visit_all by (cbn; lia). cbn. by rewrite app_nil_r.
Qed.

(** ** Paths *)

(** [path] names the file [SKILL.md] in the directory [n]. *)
Definition names_skill (path n : string) : Prop :=
  trim path = path ∧ starts_with_byte is_quote path = false
  ∧ ends_with_byte (λ c, is_quote c || is_separator c) path = false
  ∧ ∃ before file,
      filter (λ c, str_empty c = false) (split_by is_separator path) = before ++ [n; file]
      ∧ eq_ignore_ascii_case file "SKILL.md" = true
      ∧ n ≠ "." ∧ n ≠ ".." ∧ ends_with_byte (Ascii.eqb ":") n = false.

Lemma skill_name_from_path_Some path n :
  skill_name_from_path path = Some n ↔ names_skill path n.
Proof.
  unfold skill_name_from_path, names_skill. set (components := filter _ _).
  destruct (negb (bool_decide (trim path = path)) || _ || _) eqn:Hg.
  { split; [done|]. intros (H1 & H2 & H3 & _). by rewrite bool_decide_eq_true_2, H2, H3 in Hg. }
  rewrite !orb_false_iff, negb_false_iff, bool_decide_eq_true in Hg. destruct Hg as [[H1 H2] H3].
  split.
  - intros Hn. split_and!; [done..|]. destruct (rev components) as [|file [|parent rest]] eqn:Hrev; [done..|].
    destruct (_ || _) eqn:Hc; [done|]. injection Hn as <-.
    rewrite !orb_false_iff, negb_false_iff, !bool_decide_eq_false in Hc. destruct Hc as [[[C1 C2] C3] C4].
    exists (rev rest), file. split_and!; [|done..].
    rewrite <-(rev_involutive components), Hrev. cbn. by rewrite <-app_assoc.
  - intros (_ & _ & _ & before & file & -> & C1 & C2 & C3 & C4). rewrite rev_app_distr. cbn.
    by rewrite C1, !bool_decide_eq_false_2, C4.
Qed.

Lemma names_skill_nonempty path n : names_skill path n → n ≠ EmptyString.
Proof.
  intros (_ & _ & _ & before & file & Hf & _) ->.
  assert (EmptyString ∈ filter (λ c, str_empty c = false) (split_by is_separator path)) as Hin
    by (rewrite Hf; apply elem_of_app; right; by left).
  apply list_elem_of_filter in Hin as [? _]. done.
Qed.

(** The strings of an argument: itself, or those of its elements. *)
Inductive string_in : Json → string → Prop :=
| string_itself path : string_in (Str path) path
| string_element values v path : v ∈ values → string_in v path → string_in (Array values) path.

Lemma collect_path_spec v n :
  n ∈ collect_path_skill_names v ↔ ∃ path, string_in v path ∧ names_skill path n.
Proof.
  induction v as [|b|x|s|l IH|m IH] using Json_nested_ind; cbn;
    try (rewrite elem_of_nil; split; [done|]; by intros (path & H & _); inversion H).
  - transitivity (skill_name_from_path s = Some n).
    + destruct (skill_name_from_path s) as [k|]; cbn; [rewrite list_elem_of_singleton|rewrite elem_of_nil];
        naive_solver.
    + rewrite skill_name_from_path_Some. split; [intros H; exists s; by split; [constructor|]|].
      intros (path & Hp & H). by inversion Hp; subst.
  - rewrite list_elem_of_In, in_concat. split.
    + intros (ns & Hns & Hn). apply in_map_iff in Hns as (w & <- & Hw). rewrite Forall_forall in IH.
      apply list_elem_of_In in Hw, Hn. apply (IH w Hw) in Hn as (path & Hp & Hk). exists path.
      split; [by econstructor|done].
    + intros (path & Hp & Hk). inversion Hp as [|? w ? Hw Hin]; subst. exists (collect_path_skill_names w).
      rewrite Forall_forall in IH. split; [apply in_map_iff; exists w; split; [done|by apply list_elem_of_In]|].
      apply list_elem_of_In, (IH w Hw). by exists path.
Qed.

(** ** Words of a command *)

Section Origins.
Context (shell_split : string → option (list string)).

(** A path read by a command is one of its words, the value of one of its
    options, or comes from a command that a shell among the words is given. *)
Inductive from_words : list string → string → Prop :=
| from_word words path : path ∈ words → from_words words path
| from_option words w path : w ∈ words → powershell_option_value w = Some path → from_words words path
| from_wrapped words w command inner path :
    w ∈ words → command = w ∨ command = default EmptyString (strip_prefix "--command=" w) →
    standalone_command_words shell_split command = Some inner →
    from_words inner path → from_words words path.

Lemma from_words_mono words words' path :
  (∀ w, w ∈ words → w ∈ words') → from_words words path → from_words words' path.
Proof.
  intros Hsub Hf. inversion Hf; subst; [by apply from_word, Hsub|by eapply from_option; [apply Hsub|]|].
  by eapply from_wrapped; [apply Hsub|..].
Qed.

Lemma from_words_tail w words path : from_words words path → from_words (w :: words) path.
Proof. apply from_words_mono. intros. by right. Qed.

Lemma positional_from words path : path ∈ positional_paths words → from_words words path.
Proof. intros [_ Hin]%list_elem_of_filter. by apply from_word. Qed.

Lemma cat_from words path : path ∈ cat_paths words → from_words words path.
Proof. unfold cat_paths. case_match; [by intros ?%elem_of_nil|apply positional_from]. Qed.

Lemma bat_from words path : path ∈ bat_paths words → from_words words path.
Proof. unfold bat_paths. case_match; [by intros ?%elem_of_nil|apply positional_from]. Qed.

Lemma powershell_loop_from words path : path ∈ powershell_loop words → from_words words path.
Proof.
  revert path. induction words as [words IH] using (induction_ltof1 _ length). unfold ltof in IH.
  destruct words as [|w rest]; intros path; [by intros ?%elem_of_nil|]. cbn [powershell_loop].
  assert (∀ path, path ∈ powershell_loop rest → from_words (w :: rest) path) as Hrest.
  { intros p Hp. apply from_words_tail, IH; [cbn; lia|done]. }
  assert (∀ path, path ∈ (if is_dashed w then [] else [w]) → from_words (w :: rest) path) as Hpush.
  { intros p. destruct (is_dashed w); [by intros ?%elem_of_nil|].
    intros ->%list_elem_of_singleton. apply from_word. by left. }
  assert (∀ x rest' path, rest = x :: rest' → path ∈ powershell_loop rest' → from_words (w :: rest) path) as Hskip.
  { intros x rest' p -> Hp. do 2 apply from_words_tail. apply IH; [cbn; lia|done]. }
  destruct (option_is ["path"; "literalpath"] _).
  - destruct (powershell_option_value w) as [v|] eqn:Hv.
    + rewrite elem_of_cons, elem_of_app. intros [->|[Hp|Hp]]; [|by apply Hpush|by apply Hrest].
      eapply from_option; [by left|done].
    + destruct rest as [|x rest']; [apply Hpush|]. rewrite elem_of_cons. intros [->|Hp]; [|by eapply Hskip].
      apply from_word. right. by left.
  - destruct (_ && _).
    + destruct rest as [|x rest']; [by intros ?%elem_of_nil|]. intros Hp. by eapply Hskip.
    + rewrite elem_of_app. intros [Hp|Hp]; [by apply Hpush|by apply Hrest].
Qed.

Lemma powershell_content_from words path : path ∈ powershell_content_paths words → from_words words path.
Proof. unfold powershell_content_paths. case_match; [by intros ?%elem_of_nil|apply powershell_loop_from]. Qed.

Lemma posix_reader_from words path : path ∈ posix_reader_word_paths words → from_words words path.
Proof.
  destruct words as [|w words]; cbn; [by intros ?%elem_of_nil|]. destruct (executable_name w); [|by intros ?%elem_of_nil].
  repeat case_decide; intros Hp; try (by apply elem_of_nil in Hp); apply from_words_tail;
    [by apply cat_from|by apply bat_from].
Qed.

Lemma powershell_reader_from words path : path ∈ powershell_reader_word_paths words → from_words words path.
Proof.
  destruct words as [|w words]; cbn; [by intros ?%elem_of_nil|]. destruct (executable_name w); [|by intros ?%elem_of_nil].
  case_decide; [|by intros ?%elem_of_nil]. intros Hp. by apply from_words_tail, powershell_content_from.
Qed.

(** The command handed to a shell. *)
Lemma wrapped_from words w command (reader : list string → list string) path :
  w ∈ words → command = w ∨ command = default EmptyString (strip_prefix "--command=" w) →
  (∀ inner, path ∈ reader inner → from_words inner path) →
  path ∈ match standalone_command_words shell_split command with Some words => reader words | None => [] end →
  from_words words path.
Proof.
  intros Hw Hc Hr. destruct (standalone_command_words shell_split command) as [inner|] eqn:Hs;
    [|by intros ?%elem_of_nil]. intros Hp. by eapply from_wrapped; [..|apply Hr].
Qed.

Lemma posix_wrapper_from executable words path :
  path ∈ posix_shell_wrapper_paths shell_split executable words → from_words words path.
Proof.
  destruct words as [|flag [|command [|]]]; cbn [posix_shell_wrapper_paths]; try (by intros ?%elem_of_nil).
  case_match; [|by intros ?%elem_of_nil].
  apply (wrapped_from _ command command); [right; by left|by left|]. intros inner. apply posix_reader_from.
Qed.

Lemma fish_wrapper_from words path : path ∈ fish_shell_wrapper_paths shell_split words → from_words words path.
Proof.
  destruct words as [|flag [|command [|]]]; cbn [fish_shell_wrapper_paths]; try (by intros ?%elem_of_nil).
  - apply (wrapped_from _ flag _); [by left|by right|]. intros inner. apply posix_reader_from.
  - case_decide; [|by intros ?%elem_of_nil].
    apply (wrapped_from _ command command); [right; by left|by left|]. intros inner. apply posix_reader_from.
Qed.

Lemma powershell_wrapper_from words path : path ∈ powershell_wrapper_paths shell_split words → from_words words path.
Proof.
  destruct words as [|flag command]; cbn [powershell_wrapper_paths]; [by intros ?%elem_of_nil|].
  case_match; [by intros ?%elem_of_nil|]. destruct command as [|c [|d l]]; [by intros ?%elem_of_nil| |].
  - apply (wrapped_from _ c c); [right; by left|by left|]. intros inner. apply powershell_reader_from.
  - intros Hp. by apply from_words_tail, powershell_reader_from.
Qed.

Lemma complete_reader_from words direct path :
  path ∈ complete_reader_word_paths shell_split words direct → from_words words path.
Proof.
  destruct words as [|w words]; cbn [complete_reader_word_paths]; [by intros ?%elem_of_nil|].
  destruct (executable_name w) as [x|]; [|by intros ?%elem_of_nil]. intros Hp. apply from_words_tail.
  repeat case_decide; [destruct direct; [by apply cat_from|by apply elem_of_nil in Hp]|by apply bat_from
    |by apply powershell_content_from|by eapply posix_wrapper_from|by apply fish_wrapper_from
    |by apply powershell_wrapper_from|by apply elem_of_nil in Hp].
Qed.

(** ** Properties *)

(** Which kind of loads a tool call can have. *)
Definition call_source (tool_name : string) (args : Json) (source : SkillLoadSource) : Prop :=
  let skill_tool := normalize_identifier tool_name ∈ ["skill"; "skillview"; "loadskill"] in
  let reader := is_structured_reader tool_name = true ∧ has_partial_read_controls args = false in
  match source with
  | SkillTool => skill_tool
  | StructuredRead => ¬ skill_tool ∧ reader
  | ShellRead => ¬ skill_tool ∧ ¬ reader ∧ is_shell_tool (normalize_identifier tool_name) = true
  end.

(** Where in the arguments a detected name comes from. *)
Definition origin (tool_name : string) (args : Json) (source : SkillLoadSource) (n : string) : Prop :=
  match source with
  | SkillTool => n ≠ EmptyString
      ∧ ∃ key value, (key, Str value) ∈ members args
          ∧ key ∈ ["skill"; "skillname"; "name"] ∧ trim value = n
  | StructuredRead =>
      ∃ key v path, (key, v) ∈ members args
        ∧ key ∈ ["path"; "filepath"; "filename"; "file"; "paths"; "uri"; "absolutepath"]
        ∧ string_in v path ∧ names_skill path n
  | ShellRead =>
      ∃ key command words path, (key, Str command) ∈ members args ∧ key ∈ ["command"; "cmd"]
        ∧ standalone_command_words shell_split command = Some words
        ∧ existsb is_control_word words = false ∧ str_any is_newline command = false
        ∧ path ∈ complete_reader_word_paths shell_split words
            (negb (bool_decide (normalize_identifier tool_name ∈ ["powershell"; "pwsh"])))
        ∧ from_words words path ∧ names_skill path n
  end.

Lemma skill_tool_names_spec tool args n :
  n ∈ skill_tool_names args ↔ origin tool args SkillTool n.
Proof.
  unfold skill_tool_names, origin. rewrite list_elem_of_omap. split.
  - intros ([key v] & Hin & Hn). cbn in Hn. destruct v as [| | |value| |]; cbn in Hn; try done.
    case_bool_decide as Hk; [|done]. destruct (trim value) as [|c s] eqn:Ht; [done|].
    cbn in Hn. injection Hn as <-. split; [done|].
    exists key, value. split; [by apply visit_members|done].
  - intros (Hne & key & value & Hin%visit_members & Hk & Ht). exists (key, Str value). split; [done|].
    cbn. rewrite bool_decide_eq_true_2, Ht by done. by destruct n.
Qed.

Lemma structured_skill_names_spec tool args n :
  n ∈ structured_skill_names args ↔ origin tool args StructuredRead n.
Proof.
  unfold structured_skill_names, origin. rewrite list_elem_of_bind. split.
  - intros ([key v] & Hn & Hin%visit_members). cbn in Hn. case_bool_decide; [|by apply elem_of_nil in Hn].
    apply collect_path_spec in Hn as (path & ? & ?). by exists key, v, path.
  - intros (key & v & path & Hin%visit_members & Hk & Hs & Hp). exists (key, v). split; [|done]. cbn.
    rewrite bool_decide_eq_true_2 by done. apply collect_path_spec. by exists path.
Qed.

Lemma standalone_words command words :
  standalone_command_words shell_split command = Some words →
  existsb is_control_word words = false ∧ str_any is_newline command = false.
Proof.
  unfold standalone_command_words. destruct (str_any is_newline command); [done|].
  destruct (shell_split _) as [ws|]; cbn; [|done].
  destruct (existsb is_control_word ws) eqn:Hctl; [by rewrite orb_true_r|].
  by destruct (bool_decide _); [|intros [= <-]].
Qed.

Lemma shell_skill_names_spec tool args n :
  n ∈ shell_skill_names shell_split (normalize_identifier tool) args ↔ origin tool args ShellRead n.
Proof.
  unfold shell_skill_names, origin. rewrite list_elem_of_omap. split.
  - intros (path & Hpath & Hn%skill_name_from_path_Some).
    apply list_elem_of_bind in Hpath as (command & Hpath & Hc).
    unfold shell_commands in Hc. apply list_elem_of_omap in Hc as ([key v] & Hin & Hv).
    cbn in Hv. case_bool_decide; [|done]. destruct v as [| | |s| |]; try done.
    injection Hv as ->. unfold complete_reader_paths in Hpath.
    destruct (standalone_command_words shell_split command) as [words|] eqn:Hw;
      [|by apply elem_of_nil in Hpath].
    destruct (standalone_words _ _ Hw). exists key, command, words, path.
    split_and!; try done; [by apply visit_members|by eapply complete_reader_from].
  - intros (key & command & words & path & Hin%visit_members & Hk & Hw & _ & _ & Hp & _ & Hn).
    exists path. split; [|by apply skill_name_from_path_Some]. apply list_elem_of_bind. exists command.
    split; [unfold complete_reader_paths; by rewrite Hw|]. unfold shell_commands. apply list_elem_of_omap.
    exists (key, Str command). split; [done|]. cbn. by rewrite bool_decide_eq_true_2.
Qed.

(** The loads of one kind, without duplicates. *)
Lemma loads_spec source names (P : string → Prop) :
  (∀ n, n ∈ names ↔ P n) →
  let ls := (λ n, {| skill_name := n; skill_source := source |}) <$> deduplicate names in
  NoDup (skill_name <$> ls) ∧ ∀ l, l ∈ ls ↔ skill_source l = source ∧ P (skill_name l).
Proof.
  intros HP. cbv zeta. rewrite <-list_fmap_compose, list_fmap_id.
  destruct (dedup_from_spec [] names) as [Hnd Hin]. split; [done|]. intros [n src]. cbn.
  rewrite list_elem_of_fmap, <-HP. split.
  - intros (m & [= -> ->] & Hm). by apply Hin in Hm as [? _].
  - intros [-> Hn]. exists n. split; [done|]. apply Hin. split; [done|apply not_elem_of_nil].
Qed.
End Origins.

(** C38: skill detection is exact and reports a skill once.  The reported names
    are distinct, and a name is reported with a source precisely when the kind
    of the call allows that source and the arguments hold the name, at any
    depth: for a skill tool, as the trimmed nonempty text under a key that
    names a skill; for a reader of whole files, as the directory of a
    [SKILL.md] path among the strings under a key that names a path; for a
    shell, as the directory of such a path that a recognised reader is given on
    a single-line command without control operators, redirections or
    substitutions, the path being a word of it, the value of one of its
    options, or part of a command it hands to a shell. *)
Theorem skill_detection_sound shell_split tool_name args :
  NoDup (skill_name <$> detect shell_split tool_name args)
  ∧ ∀ l, l ∈ detect shell_split tool_name args ↔
      call_source tool_name args (skill_source l)
      ∧ origin shell_split tool_name args (skill_source l) (skill_name l).
Proof.
  unfold detect. case_bool_decide as Htool.
  { destruct (loads_spec SkillTool _ _ (skill_tool_names_spec shell_split tool_name args)) as [Hnd Hin].
    split; [done|]. intros [n []]; rewrite Hin; cbn; naive_solver. }
  destruct (is_structured_reader tool_name && _) eqn:Hread.
  { destruct (loads_spec StructuredRead _ _ (structured_skill_names_spec shell_split tool_name args)) as [Hnd Hin].
    apply andb_true_iff in Hread as [R1 R2%negb_true_iff].
    split; [done|]. intros [n []]; rewrite Hin; cbn; naive_solver. }
  assert (¬ (is_structured_reader tool_name = true ∧ has_partial_read_controls args = false)) as Hno.
  { intros [R1 R2]. by rewrite R1, R2 in Hread. }
  destruct (is_shell_tool _) eqn:Hshell.
  - destruct (loads_spec ShellRead _ _ (shell_skill_names_spec shell_split tool_name args)) as [Hnd Hin].
    split; [done|]. intros [n []]; rewrite Hin; cbn; rewrite ?Hshell; naive_solver.
  - split; [constructor|]. intros [n []]; rewrite elem_of_nil; cbn; rewrite ?Hshell; naive_solver.
Qed.

(** The worklist traversal of the arguments is complete: it ends, and
    visits every member of every nested object exactly once. *)
Theorem traversal_complete v : visit_named_values v ≡ₚ members v.
Proof. unfold visit_named_values. rewrite visit_all by (cbn; lia). cbn. by rewrite app_nil_r. Qed.
