(* ===== verification/Registry.v ===== *)
(** * Priority-sorted named registry ([crates/runtime/src/registry.rs])

    [SortedRegistry] backs every guardrail and intercept registry of the
    runtime.  The storage is a hash map from names to entries plus the cached
    priority order, rebuilt on every successful mutation.

    - [wf]: the representation invariant, preserved by every operation.
    - [contents]: the abstraction to a finite map; [register], [deregister]
      and the observers implement the obvious map operations.
    - [sorted_values]: a function of the abstract map only, so the order in
      which entries were registered never shows. *)

From stdpp Require Import base gmap strings list sorting.
From S2P Require Import Prelude.

(** The trait [RegistryEntry]. *)
Class RegistryEntry (T : Type) : Type := {
  entry_name : T → string;
  entry_priority : T → Z;
}.

Module Registry.
Section Registry.
Context {T : Type} `{!RegistryEntry T}.

Record RegistryStorage : Type := {
  entries : gmap string T;
  sorted_keys : list string;
}.

Record SortedRegistry : Type := { storage : option RegistryStorage }.

Definition new : SortedRegistry := {| storage := None |}.

(** [entries.get(key).unwrap().priority()]; every compared key is a key of
    the map, so the default is never read. *)
Definition key_priority (m : gmap string T) (k : string) : Z :=
  default 0%Z (entry_priority <$> m !! k).

(** The comparator of [resort]: ascending priority, then name. *)
Definition key_le (m : gmap string T) (k1 k2 : string) : Prop :=
  (key_priority m k1 < key_priority m k2)%Z
  ∨ (key_priority m k1 = key_priority m k2 ∧ String.le k1 k2).

#[global] Instance key_le_dec m : RelDecision (key_le m).
Proof. unfold key_le. solve_decision. Defined.

(** [entries.keys().cloned().collect()], in the map's iteration order. *)
Definition map_keys (m : gmap string T) : list string := (map_to_list m).*1.

Definition resort (s : RegistryStorage) : RegistryStorage := {|
  entries := entries s;
  sorted_keys := stable_sort (key_le (entries s)) (map_keys (entries s));
|}.

Definition contains (reg : SortedRegistry) (n : string) : bool :=
  match storage reg with
  | Some s => bool_decide (is_Some (entries s !! n))
  | None => false
  end.

Definition register (entry : T) (reg : SortedRegistry) :
    outcome string unit * SortedRegistry :=
  let name := entry_name entry in
  if contains reg name then (Err (name +:+ " already exists"), reg)
  else
    let s := default {| entries := ∅; sorted_keys := [] |} (storage reg) in
    let s := {| entries := <[name := entry]> (entries s);
                sorted_keys := sorted_keys s |} in
    (Ok (), {| storage := Some (resort s) |}).

Definition deregister (name : string) (reg : SortedRegistry) : bool * SortedRegistry :=
  match storage reg with
  | None => (false, reg)
  | Some s =>
      if bool_decide (is_Some (entries s !! name)) then
        let s := {| entries := delete name (entries s);
                    sorted_keys := sorted_keys s |} in
        (true, {| storage := Some (resort s) |})
      else (false, reg)
  end.

Definition sorted_values (reg : SortedRegistry) : list T :=
  match storage reg with
  | None => []
  | Some s => omap (λ k, entries s !! k) (sorted_keys s)
  end.

Definition is_empty (reg : SortedRegistry) : bool :=
  match storage reg with
  | None => true
  | Some s => bool_decide (entries s = ∅)
  end.

Definition values (reg : SortedRegistry) : list T :=
  match storage reg with
  | None => []
  | Some s => (map_to_list (entries s)).*2
  end.

(** ** Abstraction and invariant *)

Definition contents (reg : SortedRegistry) : gmap string T :=
  match storage reg with
  | None => ∅
  | Some s => entries s
  end.

Record storage_wf (s : RegistryStorage) : Prop := {
  wf_names : ∀ k e, entries s !! k = Some e → entry_name e = k;
  wf_perm : sorted_keys s ≡ₚ map_keys (entries s);
  wf_sorted : StronglySorted (key_le (entries s)) (sorted_keys s);
}.

Definition wf (reg : SortedRegistry) : Prop :=
  match storage reg with
  | None => True
  | Some s => storage_wf s
  end.

(** The order clients see: ascending priority, ties by name. *)
Definition entry_le (e1 e2 : T) : Prop :=
  (entry_priority e1 < entry_priority e2)%Z
  ∨ (entry_priority e1 = entry_priority e2
     ∧ String.le (entry_name e1) (entry_name e2)).

#[global] Instance key_le_total m : Total (key_le m).
Proof.
  intros k1 k2. unfold key_le.
  destruct (Z.lt_trichotomy (key_priority m k1) (key_priority m k2)) as [?|[?|?]];
    [by left; left| |by right; left].
  destruct (total String.le k1 k2); [left|right]; right; by split.
Qed.

#[global] Instance key_le_trans m : Transitive (key_le m).
Proof.
  intros k1 k2 k3 [?|[? ?]] [?|[? ?]]; unfold key_le; [left; lia..|].
  right. split; [lia|]. by etrans.
Qed.

#[global] Instance key_le_antisymm m : AntiSymm (=) (key_le m).
Proof.
  intros k1 k2 [?|[? ?]] [?|[? ?]]; [lia..|]. by apply (anti_symm String.le).
Qed.

Lemma resort_wf s :
  (∀ k e, entries s !! k = Some e → entry_name e = k) → storage_wf (resort s).
Proof.
  intros Hn. split; simpl; [done| |].
  - apply stable_sort_Permutation.
  - apply stable_sort_StronglySorted; apply _.
Qed.

Lemma contains_contents reg n : contains reg n = bool_decide (is_Some (contents reg !! n)).
Proof.
  unfold contains, contents. destruct (storage reg); [done|].
  rewrite lookup_empty. symmetry. apply bool_decide_eq_false. by intros [? [=]].
Qed.

Lemma contents_wf_name reg k e : wf reg → contents reg !! k = Some e → entry_name e = k.
Proof.
  unfold wf, contents. destruct (storage reg) as [s|].
  - intros Hs. by apply (wf_names s Hs).
  - by rewrite lookup_empty.
Qed.

Lemma default_storage_entries reg :
  entries (default {| entries := ∅; sorted_keys := [] |} (storage reg)) = contents reg.
Proof. unfold contents. by destruct (storage reg). Qed.

(** What [register] does, by cases on the abstract map. *)
Lemma register_free e reg :
  contents reg !! entry_name e = None →
  fst (register e reg) = Ok ()
  ∧ contents (snd (register e reg)) = <[entry_name e := e]> (contents reg).
Proof.
  intros Hfree. unfold register. rewrite contains_contents, Hfree.
  rewrite bool_decide_eq_false_2 by (by intros [? [=]]).
  split; [done|]. cbn. by rewrite default_storage_entries.
Qed.

Lemma register_taken e reg e' :
  contents reg !! entry_name e = Some e' →
  register e reg = (Err (entry_name e +:+ " already exists"), reg).
Proof.
  intros Htaken. unfold register. rewrite contains_contents, Htaken.
  by rewrite bool_decide_eq_true_2 by done.
Qed.

Lemma register_wf e reg : wf reg → wf (snd (register e reg)).
Proof.
  intros Hwf. unfold register. destruct (contains reg (entry_name e)); [done|].
  cbn. apply resort_wf. cbn. intros k e'. rewrite default_storage_entries.
  rewrite lookup_insert. case_decide as Hk; [by intros [= <-]|].
  by apply contents_wf_name.
Qed.

Lemma deregister_spec name reg :
  fst (deregister name reg) = bool_decide (is_Some (contents reg !! name))
  ∧ contents (snd (deregister name reg)) = delete name (contents reg).
Proof.
  unfold deregister, contents. destruct (storage reg) as [s|] eqn:Hs.
  - case_bool_decide as Hin; cbn; [done|]. rewrite Hs. split; [done|].
    symmetry. apply delete_id. by apply eq_None_not_Some.
  - cbn. rewrite Hs, lookup_empty, delete_empty. split; [|done].
    symmetry. apply bool_decide_eq_false. by intros [? [=]].
Qed.

Lemma deregister_wf name reg : wf reg → wf (snd (deregister name reg)).
Proof.
  unfold deregister. destruct (storage reg) as [s|] eqn:Hs; [|done].
  intros Hwf. case_bool_decide; [|done]. cbn. apply resort_wf. cbn.
  intros k e [_ Hk]%lookup_delete_Some. eapply contents_wf_name; [done|].
  unfold contents. by rewrite Hs.
Qed.

(** ** The cached order *)

Lemma omap_lookup_keys (m : gmap string T) (l : list (string * T)) :
  Forall (λ kv, m !! kv.1 = Some kv.2) l → omap (λ k, m !! k) l.*1 = l.*2.
Proof. induction 1 as [|[k v] l Hk _ IH]; cbn in *; [done|]. by rewrite Hk, IH. Qed.

Lemma omap_map_keys (m : gmap string T) :
  omap (λ k, m !! k) (map_keys m) = (map_to_list m).*2.
Proof.
  apply omap_lookup_keys, Forall_forall. intros [k v]. apply elem_of_map_to_list.
Qed.

Lemma omap_keys_sorted (m : gmap string T) (ks : list string) :
  (∀ k e, m !! k = Some e → entry_name e = k) →
  StronglySorted (key_le m) ks →
  StronglySorted entry_le (omap (λ k, m !! k) ks).
Proof.
  intros Hn. induction 1 as [|k ks _ IH Hk]; cbn; [constructor|].
  destruct (m !! k) as [e|] eqn:Hke; [|done]. constructor; [done|].
  apply Forall_forall. intros e' (k' & Hk' & He')%list_elem_of_omap.
  rewrite Forall_forall in Hk. specialize (Hk k' Hk').
  unfold key_le, key_priority in Hk. rewrite Hke, He' in Hk.
  unfold entry_le. by rewrite (Hn k e), (Hn k' e').
Qed.

Lemma sorted_values_Permutation reg : wf reg → sorted_values reg ≡ₚ values reg.
Proof.
  unfold wf, sorted_values, values. destruct (storage reg) as [s|]; [|done].
  intros Hs. by rewrite (wf_perm s Hs), omap_map_keys.
Qed.

Lemma sorted_values_sorted reg : wf reg → StronglySorted entry_le (sorted_values reg).
Proof.
  unfold wf, sorted_values. destruct (storage reg) as [s|]; [|constructor].
  intros Hs. apply omap_keys_sorted; apply Hs.
Qed.

Lemma elem_of_sorted_values reg e :
  wf reg → e ∈ sorted_values reg ↔ contents reg !! entry_name e = Some e.
Proof.
  intros Hwf. rewrite sorted_values_Permutation by done.
  unfold values, contents. unfold wf in Hwf. destruct (storage reg) as [s|].
  - rewrite list_elem_of_fmap. split.
    + intros ([k v] & -> & Hkv%elem_of_map_to_list). cbn in *.
      by rewrite (wf_names s Hwf _ _ Hkv).
    + intros He. exists (entry_name e, e). split; [done|]. by apply elem_of_map_to_list.
  - rewrite lookup_empty, elem_of_nil. by split.
Qed.

Lemma values_names_NoDup reg : wf reg → NoDup (entry_name <$> values reg).
Proof.
  unfold wf, values. destruct (storage reg) as [s|]; [|constructor].
  intros Hs. rewrite <-list_fmap_compose.
  assert ((entry_name ∘ snd) <$> map_to_list (entries s) = map_keys (entries s)) as ->.
  { apply list_fmap_ext. intros i [k e] Hi. cbn. apply (wf_names s Hs).
    apply elem_of_map_to_list. by eapply list_elem_of_lookup_2. }
  apply NoDup_fst_map_to_list.
Qed.

Lemma sorted_values_contents reg1 reg2 :
  wf reg1 → wf reg2 → contents reg1 = contents reg2 →
  sorted_values reg1 = sorted_values reg2.
Proof.
  assert (∀ s1 s2, storage_wf s1 → storage_wf s2 → entries s1 = entries s2 →
    sorted_keys s1 = sorted_keys s2) as Hkeys.
  { intros s1 s2 H1 H2 Heq. apply (StronglySorted_unique (key_le (entries s1))).
    - apply H1.
    - rewrite Heq. apply H2.
    - by rewrite (wf_perm s1), (wf_perm s2), Heq. }
  unfold wf, contents, sorted_values.
  destruct (storage reg1) as [s1|], (storage reg2) as [s2|]; intros H1 H2 Heq.
  - by rewrite Heq, (Hkeys s1 s2).
  - apply Permutation_nil_r. rewrite (wf_perm s1), omap_map_keys, Heq by done.
    by rewrite map_to_list_empty.
  - symmetry. apply Permutation_nil_r. rewrite (wf_perm s2), omap_map_keys, <-Heq by done.
    by rewrite map_to_list_empty.
  - done.
Qed.

Lemma is_empty_contents reg : is_empty reg = bool_decide (contents reg = ∅).
Proof.
  unfold is_empty, contents. destruct (storage reg); [done|].
  symmetry. by apply bool_decide_eq_true.
Qed.

(** ** Histories *)

Inductive op : Type :=
| OpRegister (e : T)
| OpDeregister (n : string).

Definition run_op (o : op) (reg : SortedRegistry) : SortedRegistry :=
  match o with
  | OpRegister e => snd (register e reg)
  | OpDeregister n => snd (deregister n reg)
  end.

(** The registry after a sequence of API calls, first call first. *)
Definition run_ops (os : list op) (reg : SortedRegistry) : SortedRegistry :=
  foldl (λ r o, run_op o r) reg os.

(** The abstract map after the same calls: a duplicate registration is
    refused, so the first entry under a name stays until it is removed. *)
Definition spec_op (o : op) (m : gmap string T) : gmap string T :=
  match o with
  | OpRegister e =>
      match m !! entry_name e with
      | Some _ => m
      | None => <[entry_name e := e]> m
      end
  | OpDeregister n => delete n m
  end.

Definition spec_ops (os : list op) (m : gmap string T) : gmap string T :=
  foldl (λ m o, spec_op o m) m os.

Lemma run_op_spec o reg :
  wf reg → wf (run_op o reg) ∧ contents (run_op o reg) = spec_op o (contents reg).
Proof.
  intros Hwf. destruct o as [e|n]; cbn.
  - split; [by apply register_wf|].
    destruct (contents reg !! entry_name e) eqn:He.
    + by erewrite register_taken.
    + by apply register_free.
  - split; [by apply deregister_wf|]. apply deregister_spec.
Qed.

Lemma run_ops_spec os reg :
  wf reg → wf (run_ops os reg) ∧ contents (run_ops os reg) = spec_ops os (contents reg).
Proof.
  revert reg. induction os as [|o os IH]; intros reg Hwf; cbn; [done|].
  destruct (run_op_spec o reg Hwf) as [Hwf' Hc].
  destruct (IH _ Hwf') as [? Heq]. split; [done|]. rewrite <-Hc. exact Heq.
Qed.

End Registry.

Arguments RegistryStorage : clear implicits.
Arguments SortedRegistry : clear implicits.
Arguments op : clear implicits.
End Registry.

#[export] Hint Resolve Registry.register_wf Registry.deregister_wf
  Registry.sorted_values_sorted Registry.sorted_values_Permutation : relay.

(** ** Registration records ([crates/runtime/src/api/registry.rs]) *)

Record RegistryRecord (P : Type) : Type := {
  name : string;
  priority : Z;
  payload : P;
}.

Arguments name {P} _.
Arguments priority {P} _.
Arguments payload {P} _.
Arguments Build_RegistryRecord {P} _ _ _.

#[global] Instance RegistryRecord_entry (P : Type) : RegistryEntry (RegistryRecord P) := {|
  entry_name := name;
  entry_priority := priority;
|}.

(** ** Properties *)

Section Properties.
Context {T : Type} `{!RegistryEntry T}.
Implicit Types (os : list (Registry.op T)) (e : T).

(** C3: after any sequence of [register] and [deregister] calls on a new
    registry, [sorted_values] lists exactly the entries that the map
    specification holds (each once, under its own name), in strictly
    determined ascending (priority, name) order, and [is_empty] tells
    whether there are any. *)
Theorem registry_refines_map os :
  let reg := Registry.run_ops os Registry.new in
  let m := Registry.spec_ops os ∅ in
  (∀ e, e ∈ Registry.sorted_values reg ↔ m !! entry_name e = Some e)
  ∧ NoDup (entry_name <$> Registry.sorted_values reg)
  ∧ StronglySorted Registry.entry_le (Registry.sorted_values reg)
  ∧ Registry.is_empty reg = bool_decide (m = ∅).
Proof.
  intros reg m. destruct (Registry.run_ops_spec os Registry.new I) as [Hwf Hc].
  fold reg in Hwf, Hc. change (Registry.contents Registry.new) with (∅ : gmap string T) in Hc.
  fold m in Hc. rewrite <-Hc. split_and!.
  - intros e. by apply Registry.elem_of_sorted_values.
  - rewrite Registry.sorted_values_Permutation by done.
    by apply Registry.values_names_NoDup.
  - by apply Registry.sorted_values_sorted.
  - apply Registry.is_empty_contents.
Qed.

(** The dispatch order is independent of history: two call sequences
    that leave the same named entries give the same [sorted_values], whatever
    the order, the failed calls and the removals in between. *)
Theorem sorted_values_history_independent os1 os2 :
  Registry.spec_ops os1 ∅ = Registry.spec_ops os2 ∅ →
  Registry.sorted_values (Registry.run_ops os1 Registry.new)
  = Registry.sorted_values (Registry.run_ops os2 Registry.new).
Proof.
  intros Heq.
  destruct (Registry.run_ops_spec os1 Registry.new I) as [? Hc1].
  destruct (Registry.run_ops_spec os2 Registry.new I) as [? Hc2].
  apply Registry.sorted_values_contents; [done..|]. rewrite Hc1, Hc2. exact Heq.
Qed.

(** A duplicate name is refused with the documented message and changes
    nothing; a free name is accepted and a following [deregister] of it
    reports success and restores the visible order. *)
Theorem register_deregister_roundtrip e reg :
  Registry.wf reg →
  match Registry.contents reg !! entry_name e with
  | Some _ =>
      Registry.register e reg = (Err (entry_name e +:+ " already exists"), reg)
  | None =>
      fst (Registry.register e reg) = Ok ()
      ∧ e ∈ Registry.sorted_values (snd (Registry.register e reg))
      ∧ let back := Registry.deregister (entry_name e) (snd (Registry.register e reg)) in
        fst back = true
        ∧ Registry.sorted_values (snd back) = Registry.sorted_values reg
  end.
Proof.
  intros Hwf. destruct (Registry.contents reg !! entry_name e) eqn:He.
  { by eapply Registry.register_taken. }
  destruct (Registry.register_free e reg He) as [Hok Hc].
  pose proof (Registry.register_wf e reg Hwf) as Hwf'.
  destruct (Registry.deregister_spec (entry_name e) (snd (Registry.register e reg)))
    as [Hd Hcd].
  rewrite Hc in Hd, Hcd. cbv zeta. split_and!; [done| | |].
  - apply Registry.elem_of_sorted_values; [done|]. by rewrite Hc, lookup_insert_eq.
  - rewrite Hd, lookup_insert_eq. by apply bool_decide_eq_true.
  - apply Registry.sorted_values_contents; [by apply Registry.deregister_wf|done|].
    rewrite Hcd. by apply delete_insert_id.
Qed.

End Properties.

(** Witnesses: a registry of two entries built in either order. *)
Definition entry_a : RegistryRecord nat := Build_RegistryRecord "a" 10 1.
Definition entry_b : RegistryRecord nat := Build_RegistryRecord "b" (-1) 2.

Lemma sorted_values_history_independent_witness :
  Registry.sorted_values
    (Registry.run_ops [Registry.OpRegister entry_a; Registry.OpRegister entry_b;
      Registry.OpRegister entry_a] Registry.new)
  = Registry.sorted_values
    (Registry.run_ops [Registry.OpRegister entry_b; Registry.OpRegister entry_a] Registry.new)
  ∧ Registry.sorted_values
    (Registry.run_ops [Registry.OpRegister entry_b; Registry.OpRegister entry_a] Registry.new)
    = [entry_b; entry_a].
Proof.
  split.
  - apply sorted_values_history_independent. vm_compute. reflexivity.
  - vm_compute. reflexivity.
Defined.

Lemma register_deregister_roundtrip_witness :
  let reg := snd (Registry.register entry_a Registry.new) in
  fst (Registry.register entry_b reg) = Ok ()
  ∧ Registry.register entry_a reg = (Err "a already exists", reg).
Proof.
  split.
  - refine (proj1 (register_deregister_roundtrip entry_b
      (snd (Registry.register entry_a Registry.new)) _)).
    apply Registry.register_wf. exact I.
  - refine (register_deregister_roundtrip entry_a
      (snd (Registry.register entry_a Registry.new)) _).
    apply Registry.register_wf. exact I.
Defined.
