(* ===== verification/Float64.v ===== *)
(** * The type [f64]

    IEEE 754 double precision as the standard library specifies it
    ([SpecFloat] with 53 bits and maximal exponent 1024), with the operations
    the cost arithmetic uses: conversion from [u64], the four operations,
    comparison, [is_finite] and [round]. *)

From Stdlib Require Import ZArith SpecFloat.
From stdpp Require Import base list.
From S2P Require Import Prelude.

Local Open Scope Z_scope.

Definition f64 : Type := spec_float.

Definition f64_add : f64 → f64 → f64 := SFadd 53 1024.
Definition f64_sub : f64 → f64 → f64 := SFsub 53 1024.
Definition f64_mul : f64 → f64 → f64 := SFmul 53 1024.
Definition f64_div : f64 → f64 → f64 := SFdiv 53 1024.
Definition f64_ltb : f64 → f64 → bool := SFltb.

(** [n as f64]: rounded to nearest, ties to even. *)
Definition f64_of_Z (n : Z) : f64 := binary_normalize 53 1024 n 0 false.

Definition f64_zero : f64 := S754_zero false.

Definition is_finite (x : f64) : bool :=
  match x with
  | S754_zero _ | S754_finite _ _ _ => true
  | S754_infinity _ | S754_nan => false
  end.

(** [f64::round]: to the nearest integer, halfway cases away from zero. *)
Definition f64_round (x : f64) : f64 :=
  match x with
  | S754_finite s m e =>
      if 0 <=? e then x
      else
        let unit := 2 ^ (- e) in
        let q := Zpos m / unit in
        let q := if unit <=? 2 * (Zpos m mod unit) then q + 1 else q in
        binary_normalize 53 1024 (cond_Zopp s q) 0 s
  | _ => x
  end.

(** [Iterator::sum]: the sum starts from [-0.0]. *)
Definition f64_sum (xs : list f64) : f64 := foldl f64_add (S754_zero true) xs.

(** ** Sign

    A number that is not below zero and not a NaN; [-0.0] counts as zero. *)
Definition nonneg (x : f64) : bool :=
  match x with
  | S754_zero _ | S754_infinity false | S754_finite false _ _ => true
  | _ => false
  end.

Lemma shr_1_nonneg r : 0 <= shr_m r → 0 <= shr_m (shr_1 r).
Proof. destruct r as [[|[p|p|]|p] r s]; cbn; lia. Qed.

Lemma iter_pos_invariant {A} (P : A → Prop) (f : A → A) :
  (∀ x, P x → P (f x)) → ∀ n x, P x → P (SpecFloat.iter_pos f n x).
Proof. intros Hf n. induction n as [n IH|n IH|]; intros x Hx; cbn; auto. Qed.

Lemma shr_nonneg r e n : 0 <= shr_m r → 0 <= shr_m (shr r e n).1.
Proof.
  intros Hr. destruct n as [|n|n]; cbn; [done| |done].
  by apply (iter_pos_invariant (λ r, 0 <= shr_m r) shr_1 shr_1_nonneg).
Qed.

Lemma shr_fexp_nonneg m e l : 0 <= m → 0 <= shr_m (shr_fexp 53 1024 m e l).1.
Proof.
  intros Hm. apply shr_nonneg. by destruct l as [|[]].
Qed.

Lemma round_nearest_even_nonneg m l : 0 <= m → 0 <= round_nearest_even m l.
Proof. intros Hm. destruct l as [|[]]; cbn; [lia| |lia|lia]. destruct (Z.even m); lia. Qed.

Lemma round_aux_nonneg m e l : 0 <= m → nonneg (binary_round_aux 53 1024 false m e l) = true.
Proof.
  intros Hm. unfold binary_round_aux.
  pose proof (shr_fexp_nonneg m e l Hm) as H1.
  destruct (shr_fexp 53 1024 m e l) as [r1 e1]. cbn in H1.
  pose proof (shr_fexp_nonneg _ e1 loc_Exact
    (round_nearest_even_nonneg (shr_m r1) (loc_of_shr_record r1) H1)) as H2.
  destruct (shr_fexp 53 1024 _ e1 loc_Exact) as [r2 e2]. cbn in H2.
  destruct (shr_m r2) as [|p|p]; [done| |lia]. by destruct (_ <=? _).
Qed.

Lemma normalize_nonneg m e : 0 <= m → nonneg (binary_normalize 53 1024 m e false) = true.
Proof.
  intros Hm. destruct m as [|m|m]; [done| |lia]. cbn. unfold binary_round.
  destruct (shl_align _ _ _) as [mz ez]. by apply round_aux_nonneg.
Qed.

Lemma f64_of_Z_nonneg n : 0 <= n → nonneg (f64_of_Z n) = true.
Proof. apply normalize_nonneg. Qed.

Lemma f64_add_nonneg x y : nonneg x = true → nonneg y = true → nonneg (f64_add x y) = true.
Proof.
  destruct x as [sx|[]| |[] mx ex], y as [sy|[]| |[] my ey]; try done;
    intros _ _; cbn [f64_add SFadd].
  - by destruct sx, sy.
  - unfold f64_add, SFadd. apply normalize_nonneg. cbn. lia.
Qed.

(** Zero times infinity is excluded by the finiteness of one factor. *)
Lemma f64_mul_nonneg x y :
  nonneg x = true → nonneg y = true → is_finite x = true → is_finite y = true →
  nonneg (f64_mul x y) = true.
Proof.
  destruct x as [sx|[]| |[] mx ex], y as [sy|[]| |[] my ey]; try done; intros _ _ _ _.
  unfold f64_mul, SFmul. by apply round_aux_nonneg.
Qed.

(** Multiplying by a positive finite number, infinities included. *)
Lemma f64_mul_pos_nonneg x m e :
  nonneg x = true → nonneg (f64_mul x (S754_finite false m e)) = true.
Proof.
  destruct x as [sx|[]| |[] mx ex]; try done; intros _.
  unfold f64_mul, SFmul. by apply round_aux_nonneg.
Qed.

Lemma div_core_nonneg m1 e1 m2 e2 :
  0 <= (SFdiv_core_binary 53 1024 (Zpos m1) e1 (Zpos m2) e2).1.1.
Proof.
  unfold SFdiv_core_binary. set (s := _ - _ - _).
  set (m' := match s with Z0 => _ | Zpos _ => _ | Zneg _ => _ end).
  assert (0 <= m') as Hm'.
  { subst m'. destruct s; [lia| |lia]. apply Z.shiftl_nonneg. lia. }
  pose proof (Z_div_mod m' (Zpos m2) eq_refl) as Hd.
  destruct (Z.div_eucl m' (Zpos m2)) as [q r]. cbn. nia.
Qed.

Lemma f64_div_pos_nonneg x m e :
  nonneg x = true → nonneg (f64_div x (S754_finite false m e)) = true.
Proof.
  destruct x as [sx|[]| |[] mx ex]; try done; intros _.
  unfold f64_div, SFdiv. pose proof (div_core_nonneg mx ex m e) as Hq.
  destruct (SFdiv_core_binary _ _ _ _ _ _) as [[q e'] l]. by apply round_aux_nonneg.
Qed.

Lemma f64_round_nonneg x : nonneg x = true → nonneg (f64_round x) = true.
Proof.
  destruct x as [sx|[]| |[] m e]; try done; intros _. cbn.
  destruct (0 <=? e); [done|]. apply normalize_nonneg.
  pose proof (Z.pow_nonneg 2 (- e)).
  assert (0 <= Zpos m / 2 ^ (- e)) by (apply Z_div_nonneg_nonneg; lia).
  destruct (_ <=? _); lia.
Qed.

Lemma f64_sum_nonneg xs : Forall (λ x, nonneg x = true) xs → nonneg (f64_sum xs) = true.
Proof.
  unfold f64_sum. assert (nonneg (S754_zero true) = true) as Ha by done. revert Ha.
  generalize (S754_zero true : f64). induction xs as [|x xs IH]; intros a Ha Hxs; [done|].
  apply Forall_cons in Hxs as [Hx Hxs]. cbn. apply IH; [by apply f64_add_nonneg|done].
Qed.

(** ** Conversion from [u64] is finite *)

Lemma shr_1_le r : 0 <= shr_m r → 0 <= shr_m (shr_1 r) <= shr_m r.
Proof. destruct r as [[|[p|p|]|p] r s]; cbn; lia. Qed.

Lemma shr_le r e n : 0 <= shr_m r → 0 <= shr_m (shr r e n).1 <= shr_m r.
Proof.
  intros Hr. destruct n as [|n|n]; cbn; [lia| |lia].
  apply (iter_pos_invariant (λ r', 0 <= shr_m r' <= shr_m r) shr_1); [|lia].
  intros r' Hr'. pose proof (shr_1_le r'). lia.
Qed.

Lemma shr_exp_le r e n : e <= (shr r e n).2 <= Z.max e (e + n).
Proof. destruct n; cbn; lia. Qed.

Lemma digits2_pos_le p k : Zpos p < 2 ^ k → 0 <= k → Zpos (digits2_pos p) <= k.
Proof.
  revert k. induction p as [p IH|p IH|]; intros k Hp Hk; cbn [digits2_pos];
    (destruct (Z.eq_dec k 0) as [->|Hk0]; [lia|]).
  1,2: replace k with (Z.succ (Z.pred k)) in Hp |- * by lia;
    rewrite Z.pow_succ_r in Hp by lia; rewrite Pos2Z.inj_succ;
    specialize (IH (Z.pred k)); lia.
  lia.
Qed.

Lemma shr_fexp_bound m e l k :
  0 <= m < 2 ^ k → 0 <= k → -1000 <= e <= 900 - k →
  let '(r, e') := shr_fexp 53 1024 m e l in
  0 <= shr_m r <= m ∧ e <= e' <= Z.max e (k + e - 53).
Proof.
  intros Hm Hk He. unfold shr_fexp.
  set (n := fexp 53 1024 (Zdigits2 m + e) - e).
  assert (Zdigits2 m <= k) as Hd.
  { destruct m as [|p|p]; cbn; [lia| |lia]. apply digits2_pos_le; lia. }
  assert (shr_m (shr_record_of_loc m l) = m) as Hrm by (by destruct l as [|[]]).
  pose proof (shr_le (shr_record_of_loc m l) e n) as Hsh. rewrite Hrm in Hsh.
  pose proof (shr_exp_le (shr_record_of_loc m l) e n) as Hsx.
  destruct (shr _ e n) as [r e']. cbn in Hsh, Hsx. split; [lia|].
  unfold n, fexp, emin in Hsx. lia.
Qed.

Lemma round_aux_finite m e l k :
  0 <= m < 2 ^ k → 0 <= k <= 200 → -200 <= e <= 200 →
  is_finite (binary_round_aux 53 1024 false m e l) = true.
Proof.
  intros Hm Hk He. unfold binary_round_aux.
  pose proof (shr_fexp_bound m e l k Hm) as H1.
  destruct (shr_fexp 53 1024 m e l) as [r1 e1]. destruct H1 as [Hr1 He1]; [lia|lia|].
  set (m2 := round_nearest_even _ _).
  assert (0 <= m2 <= shr_m r1 + 1) as Hm2.
  { subst m2. destruct (loc_of_shr_record r1) as [|[]]; cbn; try lia. destruct (Z.even _); lia. }
  assert (m2 < 2 ^ (k + 1)) by (rewrite Z.pow_add_r by lia; lia).
  pose proof (shr_fexp_bound m2 e1 loc_Exact (k + 1)) as H2.
  destruct (shr_fexp 53 1024 m2 e1 loc_Exact) as [r2 e2].
  destruct H2 as [Hr2 He2]; [lia..|].
  destruct (shr_m r2) as [|p|p]; [done| |lia].
  by rewrite (proj2 (Z.leb_le e2 (1024 - 53))) by lia.
Qed.

Lemma f64_of_Z_finite n : 0 <= n < 2 ^ 64 → is_finite (f64_of_Z n) = true.
Proof.
  intros Hn. unfold f64_of_Z, binary_normalize. destruct n as [|p|p]; [done| |lia].
  unfold binary_round, shl_align. set (d := fexp _ _ _).
  assert (Zpos (digits2_pos p) <= 64) as Hd by (apply digits2_pos_le; lia).
  assert (-53 < d <= 11) as Hdb by (subst d; unfold fexp, emin; lia).
  destruct (d - 0) as [|s|s] eqn:Hs.
  - apply (round_aux_finite _ _ _ 64); lia.
  - apply (round_aux_finite _ _ _ 64); lia.
  - assert (Zpos (Pos.iter xO p s) = Zpos p * 2 ^ Zpos s) as Hm.
    { clear. induction s as [|s IH] using Pos.peano_ind; [cbn; lia|].
      rewrite Pos.iter_succ, Pos2Z.inj_succ, Z.pow_succ_r by lia. rewrite Pos2Z.inj_xO. lia. }
    assert (2 ^ Zpos s <= 2 ^ 53) by (apply Z.pow_le_mono_r; lia).
    apply (round_aux_finite _ _ _ 117); [|lia|lia]. rewrite Hm.
    change (2 ^ 117) with (2 ^ 64 * 2 ^ 53). nia.
Qed.
