(* ===== verification/LlmTypes.v ===== *)
(** * Normalized LLM data ([crates/types/src/codec/{request,response,optimization}.rs])

    Requests and responses as the codecs normalize them, token usage and cost,
    and the evidence of optimizations; with the functions of these files.
    Token counts are [u64] values. *)

From stdpp Require Import base strings list.
From S2P Require Import Prelude Text Errors Json Float64.

Local Open Scope Z_scope.

(** ** Machine integers *)

Definition u64_max : Z := 2 ^ 64 - 1.
Definition is_u64 (n : Z) : Prop := 0 <= n <= u64_max.

Definition checked_add (a b : Z) : option Z :=
  if a + b <=? u64_max then Some (a + b) else None.
Definition checked_sub (a b : Z) : option Z :=
  if b <=? a then Some (a - b) else None.
Definition saturating_add (a b : Z) : Z := Z.min (a + b) u64_max.
Definition saturating_sub (a b : Z) : Z := Z.max (a - b) 0.

(** [iter.try_fold(init, u64::checked_add)]. *)
Definition try_sum (init : Z) (counts : list Z) : option Z :=
  foldl (λ acc n, acc ≫= λ a, checked_add a n) (Some init) counts.

(** [into_iter().flatten()] on options. *)
Definition flatten {X} (l : list (option X)) : list X := omap id l.

(** ** Requests *)

Record OpenAiImageUrl : Type := { url : string; detail : option string }.

Inductive ContentPart : Type :=
| PText (text : string) (part_extra : list (string * Json))
| PImageUrl (image_url : OpenAiImageUrl) (part_extra : list (string * Json))
| PImage (image : Json) (part_extra : list (string * Json))
| PAudio (audio : Json) (part_extra : list (string * Json))
| PFile (file : Json) (part_extra : list (string * Json))
| PRefusal (refusal : string) (part_extra : list (string * Json))
| PToolUse (id name : string) (input : Json) (part_extra : list (string * Json))
| PToolResult (tool_use_id : string) (content : Json) (is_error : option bool)
    (part_extra : list (string * Json))
| PProviderNative (provider kind : string) (value : Json).

Inductive MessageContent : Type :=
| CText (text : string)
| CParts (parts : list ContentPart).

Record FunctionCall : Type := { fc_name : string; fc_arguments : string }.
Record ToolCall : Type := { tcl_id : string; call_type : string; function : FunctionCall }.

Inductive Message : Type :=
| MSystem (content : MessageContent) (name : option string)
| MUser (content : MessageContent) (name : option string)
| MDeveloper (content : MessageContent) (name : option string)
| MAssistant (content : option MessageContent) (tool_calls : option (list ToolCall))
    (name : option string)
| MTool (content : MessageContent) (tool_call_id : string)
| MFunction (content : option string) (name : string)
| MToolCallItem (id : option string) (call_id name : string) (arguments : Json)
    (item_extra : list (string * Json))
| MToolResultItem (id : option string) (call_id : string) (output : Json)
    (item_extra : list (string * Json))
| MProviderNative (provider kind : string) (value : Json).

Record FunctionDefinition : Type := {
  fd_name : string;
  fd_description : option string;
  fd_parameters : option Json;
  fd_strict : option bool;
  fd_extra : list (string * Json);
}.

Inductive ToolDefinition : Type :=
| TFunction (function : FunctionDefinition) (tool_extra : list (string * Json))
| TProviderNative (provider kind : string) (value : Json).

Record ToolChoiceFunction : Type := { choice_type : string; choice_function : string }.
Record ProviderNativeComponent : Type := {
  pn_provider : string;
  pn_kind : string;
  pn_value : Json;
}.

Inductive ToolChoice : Type :=
| ChoiceAuto
| ChoiceNone
| ChoiceRequired
| ChoiceSpecific (f : ToolChoiceFunction)
| ChoiceProviderNative (c : ProviderNativeComponent).

Record GenerationParams : Type := {
  temperature : option f64;
  max_tokens : option Z;
  top_p : option f64;
  stop : option (list string);
}.

Inductive ApiSpecificRequest : Type :=
| RAnthropicMessages (cache_control : option Json) (container inference_geo : option string)
    (output_config thinking : option Json) (top_k : option Z) (user_profile_id : option string)
| ROpenAIChat (audio : option Json) (frequency_penalty : option f64)
    (function_call : option Json) (functions : option (list Json)) (logit_bias : option Json)
    (logprobs : option bool) (modalities : option (list string)) (moderation : option Json)
    (n : option Z) (prediction : option Json) (presence_penalty : option f64)
    (prompt_cache_key : option string) (prompt_cache_options : option Json)
    (prompt_cache_retention reasoning_effort : option string) (response_format : option Json)
    (safety_identifier : option string) (seed : option Z) (stream_options : option Json)
    (verbosity : option string) (web_search_options : option Json)
| ROpenAIResponses (background : option bool) (context_management conversation moderation
    prompt : option Json) (prompt_cache_key : option string) (prompt_cache_options : option Json)
    (prompt_cache_retention safety_identifier : option string)
    (stream_options text : option Json)
| ROCIGenAI (compartment_id : option string) (serving_mode : option Json)
    (api_format : option string)
| RCustom (api_name : string) (data : Json).

Record AnnotatedLlmRequest : Type := {
  ar_messages : list Message;
  ar_instructions : option MessageContent;
  ar_model : option string;
  ar_params : option GenerationParams;
  ar_tools : option (list ToolDefinition);
  ar_tool_choice : option ToolChoice;
  ar_store : option bool;
  ar_previous_response_id : option string;
  ar_truncation : option Json;
  ar_reasoning : option Json;
  ar_include : option Json;
  ar_user : option string;
  ar_metadata : option Json;
  ar_service_tier : option string;
  ar_parallel_tool_calls : option bool;
  ar_max_output_tokens : option Z;
  ar_max_tool_calls : option Z;
  ar_top_logprobs : option Z;
  ar_stream : option bool;
  ar_api_specific : option ApiSpecificRequest;
  ar_extra : list (string * Json);
}.

(** [AnnotatedLlmRequest::default()]. *)
Definition default_request : AnnotatedLlmRequest := {|
  ar_messages := []; ar_instructions := None; ar_model := None; ar_params := None;
  ar_tools := None; ar_tool_choice := None; ar_store := None;
  ar_previous_response_id := None; ar_truncation := None; ar_reasoning := None;
  ar_include := None; ar_user := None; ar_metadata := None; ar_service_tier := None;
  ar_parallel_tool_calls := None; ar_max_output_tokens := None; ar_max_tool_calls := None;
  ar_top_logprobs := None; ar_stream := None; ar_api_specific := None; ar_extra := [];
|}.

Definition set_messages (l : list Message) (r : AnnotatedLlmRequest) : AnnotatedLlmRequest := {|
  ar_messages := l; ar_instructions := ar_instructions r; ar_model := ar_model r;
  ar_params := ar_params r; ar_tools := ar_tools r; ar_tool_choice := ar_tool_choice r;
  ar_store := ar_store r; ar_previous_response_id := ar_previous_response_id r;
  ar_truncation := ar_truncation r; ar_reasoning := ar_reasoning r;
  ar_include := ar_include r; ar_user := ar_user r; ar_metadata := ar_metadata r;
  ar_service_tier := ar_service_tier r; ar_parallel_tool_calls := ar_parallel_tool_calls r;
  ar_max_output_tokens := ar_max_output_tokens r; ar_max_tool_calls := ar_max_tool_calls r;
  ar_top_logprobs := ar_top_logprobs r; ar_stream := ar_stream r;
  ar_api_specific := ar_api_specific r; ar_extra := ar_extra r;
|}.

(** *** Helper methods *)

(** [iter().find_map(f)]. *)
Definition find_map {X Y} (f : X → option Y) (l : list X) : option Y := head (omap f l).

(** [value.get(k).and_then(Json::as_str)]. *)
Definition get_str (v : Json) (k : string) : option string := get v k ≫= as_str.

(** The text of a provider-native part or message part. *)
Definition native_text (v : Json) : option string :=
  match get_str v "text" with
  | Some text => Some text
  | None => get_str v "refusal"
  end.

Definition first_content_text (content : MessageContent) : option string :=
  match content with
  | CText text => Some text
  | CParts parts => find_map (λ part,
      match part with
      | PText text _ => Some text
      | PProviderNative _ _ value => native_text value
      | _ => None
      end) parts
  end.

Definition content_has_tool_use (content : MessageContent) : bool :=
  match content with
  | CText _ => false
  | CParts parts => existsb (λ part,
      match part with
      | PToolUse _ _ _ _ => true
      | PProviderNative _ _ value =>
          bool_decide (get_str value "type"
            ∈ [Some "tool_use"; Some "mcp_tool_use"; Some "server_tool_use"])
      | _ => false
      end) parts
  end.

Definition native_message_text (value : Json) : option string :=
  match get value "content" with
  | Some (Str text) => Some text
  | Some (Array parts) => find_map native_text parts
  | _ => None
  end.

Definition system_prompt (r : AnnotatedLlmRequest) : option string :=
  match ar_instructions r ≫= first_content_text with
  | Some text => Some text
  | None => find_map (λ m,
      match m with
      | MSystem content _ | MDeveloper content _ => first_content_text content
      | _ => None
      end) (ar_messages r)
  end.

Definition last_user_message (r : AnnotatedLlmRequest) : option string :=
  find_map (λ m,
    match m with
    | MUser content _ => first_content_text content
    | MProviderNative provider _ value =>
        if bool_decide (provider = "openai_responses" ∧ get_str value "role" = Some "user")
        then native_message_text value else None
    | _ => None
    end) (rev (ar_messages r)).

Definition has_tool_calls (r : AnnotatedLlmRequest) : bool :=
  existsb (λ m,
    match m with
    | MAssistant content (Some calls) _ =>
        negb (bool_decide (length calls = 0%nat))
        || match content with Some content => content_has_tool_use content | None => false end
    | MAssistant (Some content) None _ => content_has_tool_use content
    | MToolCallItem _ _ _ _ _ => true
    | MProviderNative _ _ value =>
        bool_decide (get_str value "type"
          ∈ [Some "function_call"; Some "custom_tool_call"; Some "tool_use"])
    | _ => false
    end) (ar_messages r).

Definition RESPONSES_BUILTIN_TOOLS : list string :=
  ["web_search"; "web_search_preview"; "file_search"; "computer_use_preview"; "code_interpreter";
   "image_generation"; "local_shell"; "shell"; "apply_patch"].

Definition GEMINI_BUILTIN_TOOLS : list string :=
  ["googleSearch"; "googleSearchRetrieval"; "codeExecution"; "urlContext"; "retrieval";
   "googleMaps"; "enterpriseWebSearch"].

Definition tool_definition_identities (tool : ToolDefinition) : list (string * string) :=
  match tool with
  | TFunction function _ =>
      if str_empty (trim (fd_name function)) then [] else [("function", fd_name function)]
  | TProviderNative provider kind value =>
      match get value "name" with
      | Some name =>
          let tool_type := default kind (get_str value "type") in
          match as_str name with
          | Some name =>
              if negb (str_empty (trim name)) && negb (str_empty (trim tool_type))
              then [(tool_type, name)] else []
          | None => []
          end
      | None =>
          if decide (provider = "openai_responses") then
            match get_str value "type" with
            | Some kind =>
                if bool_decide (kind ∈ RESPONSES_BUILTIN_TOOLS) then [(kind, kind)] else []
            | None => []
            end
          else if decide (provider = "gemini") then
            match as_object value with
            | Some group =>
                (λ kv, (kv.1, kv.1)) <$> filter (λ kv : string * Json,
                  is_Some (as_object kv.2) ∧ kv.1 ∈ GEMINI_BUILTIN_TOOLS) group
            | None => []
            end
          else []
      end
  end.

(** ** Responses *)

Record CacheWriteTokenCounts : Type := { cw_count : Z; cw_duration : option Z }.

Inductive CostSource : Type := CostModelPricing | CostProviderReported.

#[global] Instance CostSource_eq_dec : EqDecision CostSource.
Proof. solve_decision. Defined.

Record CostEstimate : Type := {
  ce_total : option f64;
  ce_currency : string;
  ce_input : option f64;
  ce_output : option f64;
  ce_cache_read : option f64;
  ce_cache_write : option f64;
  ce_source : CostSource;
  ce_pricing_provider : option string;
  ce_pricing_model : option string;
  ce_pricing_as_of : option string;
  ce_pricing_source : option string;
}.

Record Usage : Type := {
  prompt_tokens : option Z;
  completion_tokens : option Z;
  total_tokens : option Z;
  cache_read_tokens : option Z;
  cache_write_tokens : option (list CacheWriteTokenCounts);
  uncached_input_tokens : option Z;
  cost : option CostEstimate;
}.

Definition set_usage_cost (c : option CostEstimate) (u : Usage) : Usage := {|
  prompt_tokens := prompt_tokens u; completion_tokens := completion_tokens u;
  total_tokens := total_tokens u; cache_read_tokens := cache_read_tokens u;
  cache_write_tokens := cache_write_tokens u;
  uncached_input_tokens := uncached_input_tokens u; cost := c;
|}.

Definition CACHE_WRITE_ONE_HOUR_SECONDS : Z := 3600.

Definition from_total_and_one_hour (total one_hour rest_duration : option Z) :
    option (list CacheWriteTokenCounts) :=
  total ← total;
  let one_hour := (λ count, Z.min count total) <$> one_hour in
  let one_hour := one_hour ≫= λ count, if 0 <? count then Some count else None in
  let rest := saturating_sub total (default 0 one_hour) in
  let first :=
    if (0 <? rest) || bool_decide (one_hour = None)
    then [{| cw_count := rest; cw_duration := rest_duration |}] else [] in
  let second :=
    match one_hour with
    | Some count =>
        [{| cw_count := count; cw_duration := Some CACHE_WRITE_ONE_HOUR_SECONDS |}]
    | None => []
    end in
  Some (first ++ second).

Definition write_total (writes : list CacheWriteTokenCounts) : Z :=
  foldl (λ total write, saturating_add total (cw_count write)) 0 writes.

Definition cache_write_total (u : Usage) : option Z := write_total <$> cache_write_tokens u.

Definition total_or_component_sum (c : CostEstimate) : option f64 :=
  match ce_total c with
  | Some total => Some total
  | None =>
      if negb (bool_decide (ce_source c = CostProviderReported)) then None
      else
        let components :=
          flatten [ce_input c; ce_output c; ce_cache_read c; ce_cache_write c] in
        let '(has_component, total) :=
          foldl (λ '(_, total) value, (true, f64_add total value)) (false, f64_zero)
            components in
        if has_component then Some total else None
  end.

Definition total_for_currency (c : CostEstimate) (currency : string) : option f64 :=
  if eq_ignore_ascii_case (ce_currency c) currency then ce_total c else None.

Definition total_or_component_sum_for_currency (c : CostEstimate) (currency : string) :
    option f64 :=
  if eq_ignore_ascii_case (ce_currency c) currency then total_or_component_sum c else None.

Inductive FinishReason : Type :=
| FComplete
| FLength
| FToolUse
| FContentFilter
| FUnknown (reason : string).

Definition is_complete (r : FinishReason) : bool :=
  match r with FComplete => true | _ => false end.

Record ResponseToolCall : Type := {
  rt_id : string;
  rt_name : string;
  rt_arguments : Json;
}.

Inductive ApiSpecificResponse : Type :=
| OpenAIChat (logprobs : option Json) (system_fingerprint service_tier : option string)
| OpenAIResponses (output_items : option (list Json)) (status : option string)
    (incomplete_details : option Json) (previous_response_id : option string)
    (store : option bool) (service_tier : option string)
    (truncation reasoning input_tokens_details output_tokens_details : option Json)
| AnthropicMessages (object_type role stop_reason stop_sequence service_tier : option string)
    (container : option Json) (content_blocks : option (list Json))
| OCIGenAI (api_format model_version : option string)
| GeminiGenerateContent (thoughts_tokens tool_use_prompt_tokens : option Z)
    (safety_ratings grounding_metadata citation_metadata : option Json)
    (extra : list (string * Json))
| Custom (api_name : string) (data : Json).

(** ** Optimizations *)

Record DataSchema : Type := { ds_name : string; ds_version : string }.

Definition INPUT_COMPRESSION : string := "input_compression".
Definition MODEL_ROUTING : string := "model_routing".

Record LlmOptimizationModel : Type := {
  om_model : string;
  om_provider : option string;
}.

Definition new_optimization_model (model : string) : LlmOptimizationModel :=
  {| om_model := model; om_provider := None |}.

Record LlmOptimizationModelTransition : Type := {
  mt_baseline : option LlmOptimizationModel;
  mt_effective : option LlmOptimizationModel;
}.

Record LlmOptimizationTokens : Type := {
  ot_prompt : option Z;
  ot_completion : option Z;
  ot_cache_read : option Z;
  ot_cache_write : option Z;
  ot_total : option Z;
}.

Definition default_tokens : LlmOptimizationTokens := {|
  ot_prompt := None; ot_completion := None; ot_cache_read := None; ot_cache_write := None;
  ot_total := None;
|}.

Definition saved_prompt (tokens : Z) : LlmOptimizationTokens := {|
  ot_prompt := Some tokens; ot_completion := None; ot_cache_read := None;
  ot_cache_write := None; ot_total := Some tokens;
|}.

Inductive LlmOptimizationEvidenceQuality : Type := Observed | Estimated.

Record LlmOptimizationTokenImpact : Type := {
  ti_baseline : option LlmOptimizationTokens;
  ti_effective : option LlmOptimizationTokens;
  ti_saved : option LlmOptimizationTokens;
  ti_quality : option LlmOptimizationEvidenceQuality;
  ti_estimation_method : option string;
}.

Record LlmOptimizationContribution : Type := {
  oc_id : option Z;
  oc_sequence : option Z;
  oc_producer : string;
  oc_kind : string;
  oc_applied : bool;
  oc_model_transition : option LlmOptimizationModelTransition;
  oc_token_impact : option LlmOptimizationTokenImpact;
  oc_payload_schema : option DataSchema;
  oc_payload : option Json;
  oc_extra : list (string * Json);
}.

(** [LlmOptimizationContribution::new]. *)
Definition new_contribution (producer kind : string) : LlmOptimizationContribution := {|
  oc_id := None; oc_sequence := None; oc_producer := producer; oc_kind := kind;
  oc_applied := true; oc_model_transition := None; oc_token_impact := None;
  oc_payload_schema := None; oc_payload := None; oc_extra := [];
|}.

(** The identity the recorder assigns. *)
Definition set_identity (id sequence : Z) (c : LlmOptimizationContribution) :
    LlmOptimizationContribution := {|
  oc_id := Some id; oc_sequence := Some sequence; oc_producer := oc_producer c;
  oc_kind := oc_kind c; oc_applied := oc_applied c;
  oc_model_transition := oc_model_transition c; oc_token_impact := oc_token_impact c;
  oc_payload_schema := oc_payload_schema c; oc_payload := oc_payload c;
  oc_extra := oc_extra c;
|}.

Inductive LlmOptimizationSummaryStatus : Type := Complete | Partial.

Record LlmOptimizationSummary : Type := {
  os_schema_version : string;
  os_calculation_version : string;
  os_status : LlmOptimizationSummaryStatus;
  os_limitations : list string;
  os_baseline_model : option LlmOptimizationModel;
  os_effective_model : option LlmOptimizationModel;
  os_effective_usage : option Usage;
  os_baseline_usage : option Usage;
  os_tokens_saved : LlmOptimizationTokens;
  os_baseline_cost : option CostEstimate;
  os_actual_cost : option CostEstimate;
  os_estimated_cost_saved : option f64;
  os_currency : option string;
  os_contributions : list LlmOptimizationContribution;
}.

Record AnnotatedLlmResponse : Type := {
  rs_id : option string;
  rs_model : option string;
  rs_message : option MessageContent;
  rs_tool_calls : option (list ResponseToolCall);
  rs_finish_reason : option FinishReason;
  rs_usage : option Usage;
  rs_optimization_summary : option LlmOptimizationSummary;
  rs_api_specific : option ApiSpecificResponse;
  rs_extra : list (string * Json);
}.

(** [AnnotatedLlmResponse::default()]. *)
Definition default_response : AnnotatedLlmResponse := {|
  rs_id := None; rs_model := None; rs_message := None; rs_tool_calls := None;
  rs_finish_reason := None; rs_usage := None; rs_optimization_summary := None;
  rs_api_specific := None; rs_extra := [];
|}.

Definition set_usage (u : option Usage) (r : AnnotatedLlmResponse) : AnnotatedLlmResponse := {|
  rs_id := rs_id r; rs_model := rs_model r; rs_message := rs_message r;
  rs_tool_calls := rs_tool_calls r; rs_finish_reason := rs_finish_reason r; rs_usage := u;
  rs_optimization_summary := rs_optimization_summary r; rs_api_specific := rs_api_specific r;
  rs_extra := rs_extra r;
|}.

Definition set_summary (s : option LlmOptimizationSummary) (r : AnnotatedLlmResponse) :
    AnnotatedLlmResponse := {|
  rs_id := rs_id r; rs_model := rs_model r; rs_message := rs_message r;
  rs_tool_calls := rs_tool_calls r; rs_finish_reason := rs_finish_reason r;
  rs_usage := rs_usage r; rs_optimization_summary := s; rs_api_specific := rs_api_specific r;
  rs_extra := rs_extra r;
|}.

Definition response_text (r : AnnotatedLlmResponse) : option string :=
  rs_message r ≫= first_content_text.

Definition response_has_tool_calls (r : AnnotatedLlmResponse) : bool :=
  match rs_tool_calls r with
  | Some calls => negb (bool_decide (length calls = 0%nat))
  | None => false
  end.

(** ** Lemmas *)

Lemma checked_add_Some a b n :
  checked_add a b = Some n ↔ n = a + b ∧ a + b <= u64_max.
Proof.
  unfold checked_add. destruct (Z.leb_spec (a + b) u64_max); split.
  - by intros [= <-].
  - by intros [-> _].
  - done.
  - intros [_ ?]. lia.
Qed.

Lemma try_sum_None l : foldl (λ acc n, acc ≫= λ a, checked_add a n) None l = None.
Proof. by induction l. Qed.

(** Overflow of a sum of [u64] values is exact: the running sum only grows. *)
Lemma try_sum_spec init l :
  is_u64 init → Forall is_u64 l →
  try_sum init l
  = if init + foldr Z.add 0 l <=? u64_max then Some (init + foldr Z.add 0 l) else None.
Proof.
  unfold try_sum, is_u64. revert init. induction l as [|n l IH]; intros init Hi Hl;
    cbn [foldl foldr].
  { rewrite Z.add_0_r. destruct (Z.leb_spec init u64_max); [done|lia]. }
  apply Forall_cons in Hl as [Hn Hl].
  change (Some init ≫= λ a, checked_add a n) with (checked_add init n).
  unfold checked_add at 2.
  assert (0 <= foldr Z.add 0 l) as Hpos.
  { clear IH. induction Hl as [|m l Hm _ IHl]; cbn; lia. }
  destruct (Z.leb_spec (init + n) u64_max) as [Hle|Hgt].
  - rewrite IH by (done || lia). by rewrite Z.add_assoc.
  - rewrite try_sum_None. destruct (Z.leb_spec (init + (n + foldr Z.add 0 l)) u64_max); [lia|done].
Qed.
