(* ===== verification/Codec.v ===== *)
(** * LLM requests and codec interfaces
    ([crates/types/src/api/llm.rs], [crates/types/src/codec/{identity,traits}.rs])

    The opaque request the runtime carries, and the two codec traits through
    which it reads provider formats.  A codec is a trait object: here a record
    of its methods, which are pure data transforms that may fail or unwind. *)

From stdpp Require Import base gmap strings list.
From S2P Require Import Prelude Text Errors Json Float64 LlmTypes.

Local Open Scope relay_scope.

Record LlmRequest : Type := {
  headers : list (string * Json);
  content : Json;
}.

(** ** Codec identities *)

Inductive BuiltinLlmCodec : Type :=
| OpenAiChatCodec
| OpenAiResponsesCodec
| AnthropicMessagesCodec
| OCIGenAICodec
| GeminiGenerateContentCodec.

#[global] Instance BuiltinLlmCodec_eq_dec : EqDecision BuiltinLlmCodec.
Proof. solve_decision. Defined.

Definition all_builtin_codecs : list BuiltinLlmCodec :=
  [OpenAiChatCodec; OpenAiResponsesCodec; AnthropicMessagesCodec; OCIGenAICodec;
   GeminiGenerateContentCodec].

Definition codec_id (c : BuiltinLlmCodec) : string :=
  match c with
  | OpenAiChatCodec => "openai_chat"
  | OpenAiResponsesCodec => "openai_responses"
  | AnthropicMessagesCodec => "anthropic_messages"
  | OCIGenAICodec => "oci_genai"
  | GeminiGenerateContentCodec => "gemini_generate_content"
  end.

Definition codec_from_id (id : string) : option BuiltinLlmCodec :=
  list_find (λ c, codec_id c = id) all_builtin_codecs ≫= λ '(_, c), Some c.

Inductive LlmCodecIdentity : Type :=
| NoCodec
| BuiltIn (c : BuiltinLlmCodec)
| RuntimeCodec (id : string)
| OpaqueCodec.

(** ** The traits *)

Record LlmCodec : Type := {
  codec_identity : LlmCodecIdentity;
  codec_decode : LlmRequest → outcome FlowError AnnotatedLlmRequest;
  codec_encode : AnnotatedLlmRequest → LlmRequest → outcome FlowError LlmRequest;
  encode_with_baseline :
    AnnotatedLlmRequest → LlmRequest → AnnotatedLlmRequest → outcome FlowError LlmRequest;
  encode_owned_with_baseline :
    AnnotatedLlmRequest → LlmRequest → AnnotatedLlmRequest → outcome FlowError LlmRequest;
}.

(** [Map::extend]. *)
Definition extend_headers (m more : list (string * Json)) : list (string * Json) :=
  foldl (λ m kv, obj_insert kv.1 kv.2 m) m more.

(** A codec that implements the two required methods only. *)
Definition custom_codec (decode : LlmRequest → outcome FlowError AnnotatedLlmRequest)
    (encode : AnnotatedLlmRequest → LlmRequest → outcome FlowError LlmRequest) : LlmCodec := {|
  codec_identity := OpaqueCodec;
  codec_decode := decode;
  codec_encode := encode;
  encode_with_baseline annotated original _ := encode annotated original;
  encode_owned_with_baseline annotated original _ :=
    let? encoded := encode annotated original in
    Ok {| headers := extend_headers (headers encoded) (headers original);
          content := content encoded |};
|}.

Record LlmResponseCodec : Type := {
  response_codec_identity : LlmCodecIdentity;
  allows_estimated_cost : Json → bool;
  decode_response : Json → outcome FlowError AnnotatedLlmResponse;
}.

Definition custom_response_codec
    (decode_response : Json → outcome FlowError AnnotatedLlmResponse) : LlmResponseCodec := {|
  response_codec_identity := OpaqueCodec; allows_estimated_cost _ := true;
  decode_response := decode_response;
|}.

(** ** Sanitizer contexts ([crates/types/src/api/runtime/callbacks.rs]) *)

Record LlmSanitizeRequestContext : Type := {
  rc_identity : LlmCodecIdentity;
  rc_codec : option LlmCodec;
}.

Definition for_request_codec (codec : option LlmCodec) : LlmSanitizeRequestContext := {|
  rc_identity := match codec with Some c => codec_identity c | None => NoCodec end;
  rc_codec := codec;
|}.

Record LlmSanitizeResponseContext : Type := {
  sc_identity : LlmCodecIdentity;
  sc_codec : option LlmResponseCodec;
}.

Definition for_response_codec (codec : option LlmResponseCodec) : LlmSanitizeResponseContext := {|
  sc_identity := match codec with Some c => response_codec_identity c | None => NoCodec end;
  sc_codec := codec;
|}.

(** [Result::ok]: an unwind goes on. *)
Definition result_ok {X} (r : outcome FlowError X) : outcome Empty_set (option X) :=
  match r with
  | Ok x => Ok (Some x)
  | Err _ => Ok None
  | Panic => Panic
  end.

(** Every built-in codec is found by its identifier and nothing else is. *)
Lemma codec_from_id_spec id c : codec_from_id id = Some c ↔ codec_id c = id.
Proof.
  unfold codec_from_id, all_builtin_codecs. split.
  - destruct (list_find _ _) as [[i c']|] eqn:Hf; cbn; [|done]. intros [= <-].
    by apply list_find_Some in Hf as (_ & Hid & _).
  - intros <-. by destruct c.
Qed.
