(* ===== verification/Events.v ===== *)
(** * Scope and event data ([crates/types/src/api/{scope,event,tool,llm}.rs])

    Scope types, handle attributes, the Agent Trajectory Observability Format
    (ATOF) events and the three observability fields a sanitizer may rewrite.

    Representation: a [Uuid] is its 128-bit value, a [DateTime<Utc>] its
    nanoseconds since the epoch, an [f64] its bit pattern; an [Arc] of an
    annotated request or response is the value it shares, which nobody
    changes. *)

From stdpp Require Import base gmap strings list sorting.
From S2P Require Import Prelude Text Errors Json Float64 LlmTypes Trace.

Abbreviation timestamp := Z.

(** One microsecond, in nanoseconds. *)
Definition microsecond : Z := 1000.

(** ** Scope types *)

Inductive ScopeType : Type :=
| Agent
| Function
| Tool
| Llm
| Retriever
| Embedder
| Reranker
| Guardrail
| Evaluator
| Custom
| Unknown.

#[global] Instance ScopeType_eq_dec : EqDecision ScopeType.
Proof. solve_decision. Defined.

Definition scope_type_as_str (t : ScopeType) : string :=
  match t with
  | Agent => "agent"
  | Function => "function"
  | Tool => "tool"
  | Llm => "llm"
  | Retriever => "retriever"
  | Embedder => "embedder"
  | Reranker => "reranker"
  | Guardrail => "guardrail"
  | Evaluator => "evaluator"
  | Custom => "custom"
  | Unknown => "unknown"
  end.

(** [EventCategory(String)]; [From<ScopeType>] and [to_scope_type]. *)
Definition EventCategory : Type := string.

Definition category_of_scope_type (t : ScopeType) : EventCategory :=
  match t with
  | Agent => "agent"
  | Function => "function"
  | Tool => "tool"
  | Llm => "llm"
  | Retriever => "retriever"
  | Embedder => "embedder"
  | Reranker => "reranker"
  | Guardrail => "guardrail"
  | Evaluator => "evaluator"
  | Custom => "custom"
  | Unknown => "unknown"
  end.

Definition to_scope_type (c : EventCategory) : ScopeType :=
  if decide (c = "agent") then Agent
  else if decide (c = "function") then Function
  else if decide (c = "tool") then Tool
  else if decide (c = "llm") then Llm
  else if decide (c = "retriever") then Retriever
  else if decide (c = "embedder") then Embedder
  else if decide (c = "reranker") then Reranker
  else if decide (c = "guardrail") then Guardrail
  else if decide (c = "evaluator") then Evaluator
  else if decide (c = "custom") then Custom
  else Unknown.

(** ** Attribute bitflags (a [u32] each) *)

Definition PARALLEL : Z := 1.
Definition RELOCATABLE : Z := 2.
Definition REMOTE : Z := 1.
Definition STATEFUL : Z := 1.
Definition STREAMING : Z := 2.

(** [bitflags]' [contains]. *)
Definition flags_contain (flags flag : Z) : bool := (Z.land flags flag =? flag)%Z.

Definition scope_attributes_to_strings (attributes : Z) : list string :=
  (if flags_contain attributes PARALLEL then ["parallel"] else [])
  ++ (if flags_contain attributes RELOCATABLE then ["relocatable"] else []).

Definition tool_attributes_to_strings (attributes : Z) : list string :=
  if flags_contain attributes REMOTE then ["remote"] else [].

Definition llm_attributes_to_strings (attributes : Z) : list string :=
  (if flags_contain attributes STATEFUL then ["stateful"] else [])
  ++ (if flags_contain attributes STREAMING then ["streaming"] else []).

(** [Vec::dedup]: drop consecutive repetitions. *)
Fixpoint dedup (l : list string) : list string :=
  match l with
  | [] => []
  | x :: l' =>
      match l' with
      | y :: _ => if decide (x = y) then dedup l' else x :: dedup l'
      | [] => [x]
      end
  end.

Definition canonicalize_attributes (attributes : list string) : list string :=
  dedup (stable_sort String.le attributes).

(** ** Log severities *)

Inductive LogSeverity : Type := Trace | Debug | Info | Warn | Error.

Definition log_severity_as_str (s : LogSeverity) : string :=
  match s with
  | Trace => "trace"
  | Debug => "debug"
  | Info => "info"
  | Warn => "warn"
  | Error => "error"
  end.

Definition LOG_SEVERITY_METADATA_KEY : string := "nemo_relay.log.severity".

(** ** Events *)


Inductive ScopeCategory : Type := Start | End.

#[global] Instance ScopeCategory_eq_dec : EqDecision ScopeCategory.
Proof. solve_decision. Defined.

Record CategoryProfile : Type := {
  model_name : option string;
  tool_call_id : option string;
  subtype : option string;
  tool_result_annotation : option Json;
  extra : list (string * Json);
  annotated_request : option AnnotatedLlmRequest;
  annotated_response : option AnnotatedLlmResponse;
  time_to_first_chunk : option Z;
}.

(** [CategoryProfile::builder().build()]. *)
Definition empty_profile : CategoryProfile := {|
  model_name := None; tool_call_id := None; subtype := None;
  tool_result_annotation := None; extra := [];
  annotated_request := None; annotated_response := None;
  time_to_first_chunk := None;
|}.

Definition ATOF_VERSION : string := "0.1".

Record BaseEvent : Type := {
  atof_version : string;
  parent_uuid : option uuid;
  propagation_root_uuid : option uuid;
  propagation_parent_uuid : option uuid;
  propagation_traceparent : option string;
  propagation_tracestate : option string;
  ev_uuid : uuid;
  ev_timestamp : timestamp;
  ev_name : string;
  data : option Json;
  data_schema : option DataSchema;
  metadata : option Json;
}.

(** [BaseEvent::builder()] with the fields the runtime sets. *)
Definition base_event (parent : option uuid) (u : uuid) (ts : timestamp)
    (n : string) (d : option Json) (schema : option DataSchema) (meta : option Json) :
    BaseEvent := {|
  atof_version := ATOF_VERSION;
  parent_uuid := parent;
  propagation_root_uuid := None;
  propagation_parent_uuid := None;
  propagation_traceparent := None;
  propagation_tracestate := None;
  ev_uuid := u;
  ev_timestamp := ts;
  ev_name := n;
  data := d;
  data_schema := schema;
  metadata := meta;
|}.

Record ScopeEvent : Type := {
  se_base : BaseEvent;
  scope_category : ScopeCategory;
  attributes : list string;
  se_category : EventCategory;
  se_profile : option CategoryProfile;
}.

(** [ScopeEvent::new]. *)
Definition scope_event (base : BaseEvent) (cat : ScopeCategory) (attrs : list string)
    (category : EventCategory) (profile : option CategoryProfile) : ScopeEvent := {|
  se_base := base;
  scope_category := cat;
  attributes := canonicalize_attributes attrs;
  se_category := category;
  se_profile := profile;
|}.

Record MarkEvent : Type := {
  me_base : BaseEvent;
  me_category : option EventCategory;
  me_profile : option CategoryProfile;
}.

Inductive Event : Type :=
| Scope (e : ScopeEvent)
| Mark (e : MarkEvent).

Record EventSanitizeFields : Type := {
  f_data : option Json;
  f_profile : option CategoryProfile;
  f_metadata : option Json;
}.

(** [EventSanitizeFields::default()]. *)
Definition default_fields : EventSanitizeFields :=
  {| f_data := None; f_profile := None; f_metadata := None |}.

Record PendingMarkSpec : Type := {
  pm_name : string;
  pm_category : option EventCategory;
  pm_profile : option CategoryProfile;
  pm_data : option Json;
  pm_data_schema : option DataSchema;
  pm_metadata : option Json;
  pm_severity : option LogSeverity;
}.

Definition base (e : Event) : BaseEvent :=
  match e with
  | Scope e => se_base e
  | Mark e => me_base e
  end.

Definition set_base (b : BaseEvent) (e : Event) : Event :=
  match e with
  | Scope e =>
      Scope {| se_base := b; scope_category := scope_category e;
               attributes := attributes e; se_category := se_category e;
               se_profile := se_profile e |}
  | Mark e =>
      Mark {| me_base := b; me_category := me_category e; me_profile := me_profile e |}
  end.

Definition category_profile (e : Event) : option CategoryProfile :=
  match e with
  | Scope e => se_profile e
  | Mark e => me_profile e
  end.

Definition set_category_profile (p : option CategoryProfile) (e : Event) : Event :=
  match e with
  | Scope e =>
      Scope {| se_base := se_base e; scope_category := scope_category e;
               attributes := attributes e; se_category := se_category e;
               se_profile := p |}
  | Mark e =>
      Mark {| me_base := me_base e; me_category := me_category e; me_profile := p |}
  end.

Definition set_data_metadata (d m : option Json) (b : BaseEvent) : BaseEvent := {|
  atof_version := atof_version b;
  parent_uuid := parent_uuid b;
  propagation_root_uuid := propagation_root_uuid b;
  propagation_parent_uuid := propagation_parent_uuid b;
  propagation_traceparent := propagation_traceparent b;
  propagation_tracestate := propagation_tracestate b;
  ev_uuid := ev_uuid b;
  ev_timestamp := ev_timestamp b;
  ev_name := ev_name b;
  data := d;
  data_schema := data_schema b;
  metadata := m;
|}.

Definition set_propagation (root parent : option uuid) (tp ts : option string)
    (b : BaseEvent) : BaseEvent := {|
  atof_version := atof_version b;
  parent_uuid := parent_uuid b;
  propagation_root_uuid := root;
  propagation_parent_uuid := parent;
  propagation_traceparent := tp;
  propagation_tracestate := ts;
  ev_uuid := ev_uuid b;
  ev_timestamp := ev_timestamp b;
  ev_name := ev_name b;
  data := data b;
  data_schema := data_schema b;
  metadata := metadata b;
|}.

Definition sanitize_fields (e : Event) : EventSanitizeFields := {|
  f_data := data (base e);
  f_profile := category_profile e;
  f_metadata := metadata (base e);
|}.

Definition apply_sanitize_fields (fields : EventSanitizeFields) (e : Event) : Event :=
  let e := set_base (set_data_metadata (f_data fields) (f_metadata fields) (base e)) e in
  set_category_profile (f_profile fields) e.

Definition category (e : Event) : option EventCategory :=
  match e with
  | Scope e => Some (se_category e)
  | Mark e => me_category e
  end.

Definition scope_type (e : Event) : option ScopeType := to_scope_type <$> category e.

Definition is_scope_start (e : Event) : bool :=
  match e with
  | Scope e => match scope_category e with Start => true | End => false end
  | Mark _ => false
  end.

Definition is_scope_end (e : Event) : bool :=
  match e with
  | Scope e => match scope_category e with Start => false | End => true end
  | Mark _ => false
  end.

(** Everything about an event that identifies it: all but the three
    sanitizable fields. *)
Definition identity (e : Event) : Event := apply_sanitize_fields default_fields e.

(** ** Lemmas *)

Lemma apply_sanitize_fields_id e : apply_sanitize_fields (sanitize_fields e) e = e.
Proof. by destruct e as [[[] ? ? ? ?]|[[] ? ?]]. Qed.

Lemma sanitize_fields_apply f e : sanitize_fields (apply_sanitize_fields f e) = f.
Proof. by destruct f, e as [[[] ? ? ? ?]|[[] ? ?]]. Qed.

Lemma identity_apply f e : identity (apply_sanitize_fields f e) = identity e.
Proof. by destruct e as [[[] ? ? ? ?]|[[] ? ?]]. Qed.

Lemma apply_sanitize_fields_identity f e :
  apply_sanitize_fields f (identity e) = apply_sanitize_fields f e.
Proof. by destruct e as [[[] ? ? ? ?]|[[] ? ?]]. Qed.

Lemma event_ext e1 e2 :
  identity e1 = identity e2 → sanitize_fields e1 = sanitize_fields e2 → e1 = e2.
Proof.
  intros Hi Hf. rewrite <-(apply_sanitize_fields_id e1), <-(apply_sanitize_fields_id e2).
  by rewrite <-(apply_sanitize_fields_identity _ e1), Hi, Hf, apply_sanitize_fields_identity.
Qed.

Lemma elem_of_dedup x l : x ∈ dedup l ↔ x ∈ l.
Proof.
  induction l as [|y l IH]; [done|]. cbn. destruct l as [|z l]; [done|].
  case_decide as Hyz.
  - subst. rewrite IH, !elem_of_cons. intuition.
  - by rewrite elem_of_cons, IH, (elem_of_cons (z :: l)).
Qed.

Lemma dedup_sorted_NoDup l : StronglySorted String.le l → NoDup (dedup l).
Proof.
  induction 1 as [|x l Hl IH Hx]; [constructor|]. cbn. destruct l as [|y l].
  { apply NoDup_singleton. }
  case_decide as Hxy; [done|]. apply NoDup_cons. split; [|done].
  rewrite elem_of_dedup. intros Hin. apply StronglySorted_inv in Hl as [_ Hy].
  inversion Hx as [|? ? Hxy' _]; subst.
  apply elem_of_cons in Hin as [->|Hin]; [done|].
  rewrite Forall_forall in Hy. apply Hxy. apply (anti_symm String.le); [done|]. by apply Hy.
Qed.

Create Rewrite HintDb relay_events.
#[export] Hint Rewrite apply_sanitize_fields_id sanitize_fields_apply identity_apply : relay_events.
