(* ===== verification/Pricing.v ===== *)
(** * Token accounting and model pricing
    ([crates/types/src/codec/billing.rs], [crates/model-pricing/src/{lib,catalog}.rs])

    How provider usage is split into billable tokens, and the catalogs that
    price them: validation, lookup by provider and model, rate tiers and cost
    estimates in [f64].  Parsing the JSON of a catalog (serde) and reading
    files are parameters. *)

From Stdlib Require Import Ascii.
From stdpp Require Import base strings list.
From S2P Require Import Prelude Text Errors Json Float64 LlmTypes.

Local Open Scope Z_scope.
Local Open Scope relay_scope.

(** ** Billing ([billing.rs]) *)

Record SeparateUsageCounts : Type := {
  su_thoughts_tokens : option Z;
  su_tool_use_prompt_tokens : option Z;
}.

Inductive ToolUsePromptBilling : Type := InputTokens | GroundingRequests | Undetermined.

Definition has_nonempty_string (values : option Json) : bool :=
  match values ≫= as_array with
  | Some values =>
      existsb (λ value,
        match as_str value with Some s => negb (str_empty s) | None => false end) values
  | None => false
  end.

Definition has_url_context (candidate_extra : list (string * Json)) : bool :=
  match
    metadata ← obj_get "urlContextMetadata" candidate_extra;
    urls ← get metadata "urlMetadata";
    as_array urls
  with
  | Some urls => negb (bool_decide (length urls = 0%nat))
  | None => false
  end.

Definition CODE_EXECUTION_KINDS : list string :=
  ["executableCode"; "codeExecutionResult"; "executable_code"; "code_execution_result"].

Definition has_code_execution (message : option MessageContent) : bool :=
  match message with
  | Some (CParts parts) =>
      existsb (λ part,
        match part with
        | PProviderNative _ kind _ => bool_decide (kind ∈ CODE_EXECUTION_KINDS)
        | _ => false
        end) parts
  | _ => false
  end.

(** [value.get(k).and_then(Json::as_str).is_some_and(|s| !s.is_empty())]. *)
Definition has_nonempty_text (v : Json) (k : string) : bool :=
  match get_str v k with
  | Some s => negb (str_empty s)
  | None => false
  end.

(** The loop over [groundingChunks]; [None] is the early return. *)
Fixpoint grounding_chunks (chunks : list Json) (grounding_requests input_tokens : bool) :
    option (bool * bool) :=
  match chunks with
  | [] => Some (grounding_requests, input_tokens)
  | chunk :: chunks =>
      let grounding_requests :=
        if bool_decide (is_Some (get chunk "maps")) then true else grounding_requests in
      match get chunk "retrievedContext" with
      | Some context =>
          if negb (has_nonempty_text context "fileSearchStore") then None
          else grounding_chunks chunks grounding_requests true
      | None => grounding_chunks chunks grounding_requests input_tokens
      end
  end.

Definition from_tool_evidence (grounding_metadata : option Json)
    (candidate_extra : list (string * Json)) (message : option MessageContent) :
    ToolUsePromptBilling :=
  let input_tokens := has_url_context candidate_extra || has_code_execution message in
  let evidence :=
    match grounding_metadata with
    | Some metadata =>
        let grounding_requests :=
          has_nonempty_string (get metadata "webSearchQueries")
          || has_nonempty_string (get metadata "imageSearchQueries")
          || has_nonempty_text metadata "googleMapsWidgetContextToken" in
        let chunks := default [] (get metadata "groundingChunks" ≫= as_array) in
        grounding_chunks chunks grounding_requests input_tokens
    | None => Some (false, input_tokens)
    end in
  match evidence with
  | Some (true, false) => GroundingRequests
  | Some (false, true) => InputTokens
  | Some (true, true) | Some (false, false) | None => Undetermined
  end.

Record GeminiBilling : Type := {
  gb_separate : SeparateUsageCounts;
  gb_tool_use_billing : ToolUsePromptBilling;
}.

(** The usage to bill and the reported usage that selects the rate tier. *)
Record BilledUsage : Type := { bu_usage : Usage; bu_reported : Usage }.

Inductive UnbillableUsage : Type := TokenOverflow | UndeterminedToolUsePromptTokens.

Inductive InputSplit : Type := Separate | Inclusive | Either.

#[global] Instance InputSplit_eq_dec : EqDecision InputSplit.
Proof. solve_decision. Defined.

Definition of_api (api : ApiSpecificResponse) : option InputSplit :=
  match api with
  | AnthropicMessages _ _ _ _ _ _ _ => Some Separate
  | OpenAIChat _ _ _ | OpenAIResponses _ _ _ _ _ _ _ _ _ _ | OCIGenAI _ _
  | GeminiGenerateContent _ _ _ _ _ _ => Some Inclusive
  | Custom _ _ => None
  end.

Definition input_tokens_with_cache (usage : Usage) (uncached : Z) : option Z :=
  try_sum uncached (flatten [cache_read_tokens usage; cache_write_total usage]).

Definition input_split (usage : Usage) : option InputSplit :=
  uncached ← uncached_input_tokens usage;
  with_cache ← input_tokens_with_cache usage uncached;
  match prompt_tokens usage with
  | None => Some Either
  | Some prompt =>
      match prompt =? uncached, prompt =? with_cache with
      | true, true => Some Either
      | true, false => Some Separate
      | false, true => Some Inclusive
      | false, false => None
      end
  end.

Definition add_to_count (reported : Z) (separate : option Z) : outcome UnbillableUsage Z :=
  match
    match separate with
    | None => Some reported
    | Some separate => checked_add reported separate
    end
  with
  | Some n => Ok n
  | None => Err TokenOverflow
  end.

Definition add_separate_count (reported separate : option Z) :
    outcome UnbillableUsage (option Z) :=
  match reported with
  | Some reported => outcome_map Some (add_to_count reported separate)
  | None => Ok separate
  end.

(** The tool-use prompt tokens that are billed at the input rate. *)
Definition input_rate_tool_use (g : GeminiBilling) : outcome UnbillableUsage (option Z) :=
  match gb_tool_use_billing g, su_tool_use_prompt_tokens (gb_separate g) with
  | _, None | _, Some 0 | GroundingRequests, _ => Ok None
  | InputTokens, count => Ok count
  | Undetermined, Some _ => Err UndeterminedToolUsePromptTokens
  end.

Definition billed_usage (usage : Usage) (gemini : option GeminiBilling) :
    outcome UnbillableUsage BilledUsage :=
  match gemini with
  | None => Ok {| bu_usage := usage; bu_reported := usage |}
  | Some g =>
      let? extra := input_rate_tool_use g in
      let? (prompt, uncached) :=
        match uncached_input_tokens usage with
        | Some uncached =>
            let? prompt :=
              match prompt_tokens usage with
              | Some prompt => outcome_map Some (add_to_count prompt extra)
              | None => Ok None
              end in
            let? uncached := add_to_count uncached extra in
            Ok (prompt, Some uncached)
        | None =>
            let? prompt := add_separate_count (prompt_tokens usage) extra in
            Ok (prompt, None)
        end in
      let? completion := add_separate_count (completion_tokens usage)
        (su_thoughts_tokens (gb_separate g)) in
      Ok {| bu_usage := {|
              prompt_tokens := prompt; completion_tokens := completion;
              total_tokens := total_tokens usage;
              cache_read_tokens := cache_read_tokens usage;
              cache_write_tokens := cache_write_tokens usage;
              uncached_input_tokens := uncached; cost := cost usage |};
            bu_reported := usage |}
  end.

(** ** Catalogs ([model-pricing/src/lib.rs]) *)

Definition PRICING_CATALOG_VERSION : Z := 1.

Inductive PricingCatalogError : Type :=
| DuplicateCacheWriteDuration (entry_index : nat) (field : string) (duration : option Z)
| JsonError (message : string)
| DuplicateModelAlias (model : string)
| UnsupportedVersion (version : Z)
| EmptyField (entry_index : nat) (field : string)
| InvalidRate (entry_index : nat) (field : string) (value : f64)
| FileRead (path source : string)
| LockPoisoned (message : string).

Inductive PricingUnit : Type := PerToken | PerRequest | PerSecond | GpuHour.

#[global] Instance PricingUnit_eq_dec : EqDecision PricingUnit.
Proof. solve_decision. Defined.

Record CacheWriteRate : Type := { cr_duration : option Z; cr_per_million : f64 }.

Record TokenPricingRates : Type := {
  input_per_million : f64;
  output_per_million : f64;
  cache_read_per_million : option f64;
  cache_write_rates : list CacheWriteRate;
}.

Record TokenRateTier : Type := {
  min_prompt_tokens : option Z;
  max_prompt_tokens : option Z;
  tier_rates : TokenPricingRates;
}.

(** [RateScheduleApplication] has the one value [FullRequest]. *)
Inductive RateScheduleApplication : Type := FullRequest.

Inductive TokenRateSchedule : Type :=
| PromptTokenThreshold (applies_to : RateScheduleApplication) (tiers : list TokenRateTier).

Inductive CacheReadAccounting : Type := IncludedInPromptTokens | SeparateReads.

Record ModelPricing : Type := {
  mp_provider : string;
  model_id : string;
  aliases : list string;
  mp_currency : string;
  unit_ : PricingUnit;
  rates : option TokenPricingRates;
  rate_schedule : option TokenRateSchedule;
  read_accounting : CacheReadAccounting;
  pricing_as_of : string;
  pricing_source : string;
}.

Record PricingCatalog : Type := { version : Z; entries : list ModelPricing }.

(** *** Names *)

Definition is_slash : ascii → bool := one_of "/".

Definition normalized_model_name (model : string) : string := to_ascii_lowercase (trim model).

Definition normalized_provider_name (provider : string) : string :=
  to_ascii_lowercase (trim_matches is_slash (trim provider)).

Record ModelLookupKey : Type := { key_provider : option string; key_model : string }.

#[global] Instance ModelLookupKey_eq_dec : EqDecision ModelLookupKey.
Proof. solve_decision. Defined.

(** [parts.join("/")]. *)
Definition join_slash (parts : list string) : string :=
  match parts with
  | [] => EmptyString
  | part :: parts => foldl (λ acc p, acc +:+ "/" +:+ p) part parts
  end.

Definition push_lookup_key (keys : list ModelLookupKey) (provider : option string)
    (model : string) : list ModelLookupKey :=
  let key := {| key_provider := provider; key_model := model |} in
  if negb (str_empty (key_model key)) && negb (bool_decide (key ∈ keys))
  then keys ++ [key] else keys.

Definition model_parts (normalized : string) : list string :=
  filter (λ part, str_empty part = false) (trim <$> split_by is_slash normalized).

Definition normalized_model_lookup_keys (provider : option string) (model : string) :
    list ModelLookupKey :=
  let normalized := normalized_model_name model in
  if str_empty normalized then []
  else
    let parts := model_parts normalized in
    let explicit_provider :=
      provider ≫= λ p,
        let p := normalized_provider_name p in if str_empty p then None else Some p in
    let terminal_model := default normalized (last parts) in
    let keys :=
      match explicit_provider with
      | Some provider =>
          push_lookup_key (push_lookup_key [] (Some provider) normalized) (Some provider)
            terminal_model
      | None =>
          if (1 <? length parts)%nat
          then push_lookup_key [] (Some (join_slash (take (length parts - 1) parts)))
                 terminal_model
          else []
      end in
    foldl (λ keys start, push_lookup_key keys None (join_slash (drop start parts))) keys
      (seq 0 (length parts)).

Definition infer_model_provider (default_provider : string) (model : option string) :
    option string :=
  let normalized_default := normalized_provider_name default_provider in
  let fallback := if str_empty normalized_default then None else Some normalized_default in
  match model with
  | Some model =>
      let parts := model_parts (normalized_model_name model) in
      if (1 <? length parts)%nat then Some (join_slash (take (length parts - 1) parts))
      else fallback
  | None => fallback
  end.

(** *** Lookup *)

Definition model_keys (entry : ModelPricing) : list string :=
  filter (λ model, str_empty model = false)
    (normalized_model_name <$> (model_id entry :: aliases entry)).

Definition provider_model_keys (entry : ModelPricing) : list string :=
  (λ model, normalized_provider_name (mp_provider entry) +:+ "/" +:+ model)
    <$> model_keys entry.

Definition matches_model (entry : ModelPricing) (lookup : ModelLookupKey) : bool :=
  match key_provider lookup with
  | Some provider =>
      bool_decide (normalized_provider_name (mp_provider entry) = provider)
  | None => true
  end && bool_decide (key_model lookup ∈ model_keys entry).

Definition pricing_for (catalog : PricingCatalog) (provider : option string) (model : string) :
    option ModelPricing :=
  find_map (λ key, List.find (λ entry, matches_model entry key) (entries catalog))
    (normalized_model_lookup_keys provider model).

Definition pricing_for_model (catalog : PricingCatalog) (model : string) : option ModelPricing :=
  pricing_for catalog None model.

(** *** Validation *)

Definition dec_of_nat (n : nat) : string := dec_of_N (N.of_nat n).

Definition validate_nonempty (entry_index : nat) (field value : string) :
    outcome PricingCatalogError unit :=
  if str_empty (trim value) then Err (EmptyField entry_index field) else Ok ().

Definition validate_rate (entry_index : nat) (field : string) (value : f64) :
    outcome PricingCatalogError unit :=
  if negb (is_finite value) || f64_ltb value f64_zero
  then Err (InvalidRate entry_index field value) else Ok ().

Fixpoint validate_write_rates (entry_index : nat) (field_prefix : string) (rate_index : nat)
    (durations : list (option Z)) (l : list CacheWriteRate) :
    outcome PricingCatalogError unit :=
  match l with
  | [] => Ok ()
  | rate :: l =>
      let field :=
        field_prefix +:+ ".cache_write_rates[" +:+ dec_of_nat rate_index +:+ "]" in
      let? _ := validate_rate entry_index (field +:+ ".per_million") (cr_per_million rate) in
      if bool_decide (cr_duration rate ∈ durations)
      then Err (DuplicateCacheWriteDuration entry_index field (cr_duration rate))
      else validate_write_rates entry_index field_prefix (S rate_index)
             (cr_duration rate :: durations) l
  end.

Definition validate_rates (entry_index : nat) (field_prefix : string) (r : TokenPricingRates) :
    outcome PricingCatalogError unit :=
  let? _ := validate_rate entry_index (field_prefix +:+ ".input_per_million")
    (input_per_million r) in
  let? _ := validate_rate entry_index (field_prefix +:+ ".output_per_million")
    (output_per_million r) in
  let? _ :=
    match cache_read_per_million r with
    | Some value =>
        validate_rate entry_index (field_prefix +:+ ".cache_read_per_million") value
    | None => Ok ()
    end in
  validate_write_rates entry_index field_prefix 0 [] (cache_write_rates r).

Definition validate_tier (entry_index tier_index : nat) (tier : TokenRateTier) :
    outcome PricingCatalogError unit :=
  let? _ :=
    match min_prompt_tokens tier, max_prompt_tokens tier with
    | Some min, Some max =>
        if max <? min
        then Err (InvalidRate entry_index "rate_schedule.tiers.prompt_tokens" (f64_of_Z min))
        else Ok ()
    | _, _ => Ok ()
    end in
  validate_rates entry_index
    ("rate_schedule.tiers[" +:+ dec_of_nat tier_index +:+ "].rates") (tier_rates tier).

Fixpoint validate_tiers (entry_index tier_index : nat) (tiers : list TokenRateTier) :
    outcome PricingCatalogError unit :=
  match tiers with
  | [] => Ok ()
  | tier :: tiers =>
      let? _ := validate_tier entry_index tier_index tier in
      validate_tiers entry_index (S tier_index) tiers
  end.

Definition validate_schedule (entry_index : nat) (schedule : TokenRateSchedule) :
    outcome PricingCatalogError unit :=
  match schedule with
  | PromptTokenThreshold _ [] => Err (EmptyField entry_index "rate_schedule.tiers")
  | PromptTokenThreshold _ tiers => validate_tiers entry_index 0 tiers
  end.

Definition validate_entry (entry_index : nat) (entry : ModelPricing) :
    outcome PricingCatalogError unit :=
  let? _ := validate_nonempty entry_index "provider" (mp_provider entry) in
  let? _ := validate_nonempty entry_index "model_id" (model_id entry) in
  let? _ := validate_nonempty entry_index "currency" (mp_currency entry) in
  let? _ := validate_nonempty entry_index "pricing_as_of" (pricing_as_of entry) in
  let? _ := validate_nonempty entry_index "pricing_source" (pricing_source entry) in
  match unit_ entry, rates entry, rate_schedule entry with
  | PerToken, None, None => Err (EmptyField entry_index "rates or rate_schedule")
  | _, r, schedule =>
      let? _ :=
        match r with Some r => validate_rates entry_index "rates" r | None => Ok () end in
      match schedule with
      | Some schedule => validate_schedule entry_index schedule
      | None => Ok ()
      end
  end.

(** [for model_key in keys { if !seen.insert(..) { return Err(..) } }]. *)
Fixpoint insert_keys (seen : list string) (keys : list string) :
    outcome PricingCatalogError (list string) :=
  match keys with
  | [] => Ok seen
  | key :: keys =>
      if bool_decide (key ∈ seen) then Err (DuplicateModelAlias key)
      else insert_keys (key :: seen) keys
  end.

Fixpoint validate_entries (entry_index : nat) (seen : list string) (l : list ModelPricing) :
    outcome PricingCatalogError unit :=
  match l with
  | [] => Ok ()
  | entry :: l =>
      let? _ := validate_entry entry_index entry in
      let? seen := insert_keys seen (provider_model_keys entry) in
      validate_entries (S entry_index) seen l
  end.

Definition validate (catalog : PricingCatalog) : outcome PricingCatalogError unit :=
  if negb (version catalog =? PRICING_CATALOG_VERSION)
  then Err (UnsupportedVersion (version catalog))
  else validate_entries 0 [] (entries catalog).

(** *** Estimates *)

Definition cost_component (tokens : Z) (price_per_million : f64) : f64 :=
  f64_div (f64_mul (f64_of_Z tokens) price_per_million) (f64_of_Z 1000000).

Definition SCALE : f64 := f64_of_Z 1000000000000.

Definition round_cost_amount (cost : f64) : f64 :=
  f64_div (f64_round (f64_mul cost SCALE)) SCALE.

Definition cost_component_if_nonzero (tokens : Z) (price_per_million : f64) : option f64 :=
  if 0 <? tokens then Some (round_cost_amount (cost_component tokens price_per_million))
  else None.

Definition rate_for (r : TokenPricingRates) (duration : option Z) : option CacheWriteRate :=
  List.find (λ rate, bool_decide (cr_duration rate = duration)) (cache_write_rates r).

(** [None] is the [Err(())] of a write without a rate. *)
Fixpoint cache_write_loop (r : TokenPricingRates) (total : option f64)
    (writes : list CacheWriteTokenCounts) : option (option f64) :=
  match writes with
  | [] => Some total
  | write :: writes =>
      if 0 <? cw_count write then
        let rate :=
          match rate_for r (cw_duration write) with
          | Some rate => Some rate
          | None => rate_for r None
          end in
        match rate with
        | None => None
        | Some rate =>
            let total :=
              match cost_component_if_nonzero (cw_count write) (cr_per_million rate) with
              | Some cost => Some (f64_add (default f64_zero total) cost)
              | None => total
              end in
            cache_write_loop r total writes
        end
      else cache_write_loop r total writes
  end.

Definition cache_write_cost (r : TokenPricingRates)
    (writes : option (list CacheWriteTokenCounts)) : option (option f64) :=
  cache_write_loop r None (default [] writes).

Definition matches_prompt_tokens (tier : TokenRateTier) (tokens : Z) : bool :=
  match min_prompt_tokens tier with Some min => min <=? tokens | None => true end
  && match max_prompt_tokens tier with Some max => tokens <=? max | None => true end.

Definition rates_for_prompt_tokens (schedule : TokenRateSchedule) (tokens : option Z) :
    option TokenPricingRates :=
  match schedule with
  | PromptTokenThreshold FullRequest tiers =>
      tokens ← tokens;
      tier_rates <$> List.find (λ tier, matches_prompt_tokens tier tokens) tiers
  end.

Definition rate_tier_input_tokens (p : ModelPricing) (usage : Usage) : option Z :=
  match uncached_input_tokens usage with
  | Some uncached => input_tokens_with_cache usage uncached
  | None =>
      let cache_outside_prompt :=
        match read_accounting p with
        | IncludedInPromptTokens => [None; cache_write_total usage]
        | SeparateReads => [cache_read_tokens usage; cache_write_total usage]
        end in
      prompt ← prompt_tokens usage;
      try_sum prompt (flatten cache_outside_prompt)
  end.

Definition rates_for (p : ModelPricing) (rate_tier_usage : Usage) : option TokenPricingRates :=
  match rate_schedule p with
  | Some schedule => rates_for_prompt_tokens schedule (rate_tier_input_tokens p rate_tier_usage)
  | None => rates p
  end.

Definition billable_prompt_tokens (p : ModelPricing) (usage : Usage) : option Z :=
  match uncached_input_tokens usage with
  | Some uncached => (λ _, uncached) <$> input_split usage
  | None =>
      let prompt := default 0 (prompt_tokens usage) in
      match read_accounting p with
      | IncludedInPromptTokens => checked_sub prompt (default 0 (cache_read_tokens usage))
      | SeparateReads => Some prompt
      end
  end.

(** The estimate from the rates of the tier and the billable prompt tokens. *)
Definition priced (p : ModelPricing) (r : TokenPricingRates) (usage : Usage) (billable : Z) :
    CostEstimate :=
  let completion := default 0 (completion_tokens usage) in
  let cache_read := default 0 (cache_read_tokens usage) in
  let input_cost := cost_component_if_nonzero billable (input_per_million r) in
  let output_cost := cost_component_if_nonzero completion (output_per_million r) in
  let cache_read_cost := cache_read_per_million r ≫= cost_component_if_nonzero cache_read in
  let cache_write := cache_write_cost r (cache_write_tokens usage) in
  let has_unpriced_nonzero_usage :=
    ((0 <? cache_read) && bool_decide (cache_read_per_million r = None :> option f64))
    || bool_decide (cache_write = None :> option (option f64)) in
  let cache_write_cost := default None cache_write in
  let component_sum :=
    f64_sum (flatten [input_cost; output_cost; cache_read_cost; cache_write_cost]) in
  {| ce_total :=
       if has_unpriced_nonzero_usage then None else Some (round_cost_amount component_sum);
     ce_currency := mp_currency p; ce_input := input_cost; ce_output := output_cost;
     ce_cache_read := cache_read_cost; ce_cache_write := cache_write_cost;
     ce_source := CostModelPricing; ce_pricing_provider := Some (mp_provider p);
     ce_pricing_model := Some (model_id p); ce_pricing_as_of := Some (pricing_as_of p);
     ce_pricing_source := Some (pricing_source p) |}.

Definition estimate_cost_in_tier (p : ModelPricing) (usage rate_tier_usage : Usage) :
    option CostEstimate :=
  if negb (bool_decide (unit_ p = PerToken)) then None
  else
    r ← rates_for p rate_tier_usage;
    billable ← billable_prompt_tokens p usage;
    if (billable =? 0) && (default 0 (completion_tokens usage) =? 0)
       && (default 0 (cache_read_tokens usage) =? 0)
       && (default 0 (cache_write_total usage) =? 0)
    then None
    else Some (priced p r usage billable).

Definition estimate_cost (p : ModelPricing) (usage : Usage) : option CostEstimate :=
  estimate_cost_in_tier p usage usage.

Definition estimate_cost_with_provider (catalog : PricingCatalog) (provider : option string)
    (model : string) (usage : Usage) : option CostEstimate :=
  pricing_for catalog provider model ≫= λ p, estimate_cost p usage.

Definition estimate_cost_with_catalog (catalog : PricingCatalog) (model : string)
    (usage : Usage) : option CostEstimate :=
  pricing_for_model catalog model ≫= λ p, estimate_cost p usage.

(** *** Resolvers *)

Record PricingResolver : Type := { catalogs : list PricingCatalog }.

Definition default_resolver : PricingResolver := {| catalogs := [] |}.

Inductive PricingSourceConfig : Type :=
| Inline (catalog : PricingCatalog)
| File (path : string).

Record PricingConfig : Type := { sources : list PricingSourceConfig }.

Section Sources.
(** [std::fs::read_to_string] and serde's deserialization of a catalog. *)
Context (read_to_string : string → outcome string string).
Context (parse_catalog : string → outcome string PricingCatalog).

Definition from_json_str (catalog_json : string) : outcome PricingCatalogError PricingCatalog :=
  match parse_catalog catalog_json with
  | Ok catalog => let? _ := validate catalog in Ok catalog
  | Err message => Err (JsonError message)
  | Panic => Panic
  end.

Definition load_source (source : PricingSourceConfig) :
    outcome PricingCatalogError PricingCatalog :=
  match source with
  | Inline catalog => let? _ := validate catalog in Ok catalog
  | File path =>
      match read_to_string path with
      | Ok raw => from_json_str raw
      | Err source => Err (FileRead path source)
      | Panic => Panic
      end
  end.

Fixpoint load_sources (l : list PricingSourceConfig) :
    outcome PricingCatalogError (list PricingCatalog) :=
  match l with
  | [] => Ok []
  | source :: l =>
      let? catalog := load_source source in
      let? catalogs := load_sources l in
      Ok (catalog :: catalogs)
  end.

Definition from_config (config : PricingConfig) : outcome PricingCatalogError PricingResolver :=
  outcome_map Build_PricingResolver (load_sources (sources config)).

(** [pricing_catalog_sources_from_config] with [read_catalog] as given. *)
Context {E : Type} (read_catalog : string → outcome E PricingCatalog).

Record PricingCatalogSource : Type := { label : string; cs_catalog : PricingCatalog }.

Fixpoint catalog_sources (index : nat) (l : list PricingSourceConfig) :
    outcome E (list PricingCatalogSource) :=
  match l with
  | [] => Ok []
  | source :: l =>
      let? first :=
        match source with
        | Inline catalog => Ok {| label := "inline:" +:+ dec_of_nat index; cs_catalog := catalog |}
        | File path =>
            outcome_map (Build_PricingCatalogSource ("file:" +:+ path)) (read_catalog path)
        end in
      let? rest := catalog_sources (S index) l in
      Ok (first :: rest)
  end.

Definition pricing_catalog_sources_from_config (config : PricingConfig) :
    outcome E (list PricingCatalogSource) := catalog_sources 0 (sources config).

End Sources.

Record ResolvedPricing : Type := { rp_source : string; rp_pricing : ModelPricing }.

Definition resolve_pricing (l : list PricingCatalogSource) (provider : option string)
    (model : string) : option ResolvedPricing :=
  find_map (λ source,
    Build_ResolvedPricing (label source) <$> pricing_for (cs_catalog source) provider model) l.

Definition resolver_pricing_for (resolver : PricingResolver) (provider : option string)
    (model : string) : option ModelPricing :=
  find_map (λ catalog, pricing_for catalog provider model) (catalogs resolver).

Definition estimate_cost_for_provider (resolver : PricingResolver) (provider : option string)
    (model : string) (usage : Usage) : option CostEstimate :=
  resolver_pricing_for resolver provider model ≫= λ p, estimate_cost p usage.

Definition estimate_billed_cost (resolver : PricingResolver) (provider : option string)
    (model : string) (billed : BilledUsage) : option CostEstimate :=
  resolver_pricing_for resolver provider model
  ≫= λ p, estimate_cost_in_tier p (bu_usage billed) (bu_reported billed).

(** [from_sources], from the snapshots the sources load. *)
Fixpoint from_snapshots (snapshots : list (outcome PricingCatalogError (option PricingCatalog))) :
    outcome PricingCatalogError (list PricingCatalog) :=
  match snapshots with
  | [] => Ok []
  | snapshot :: snapshots =>
      let? snapshot := snapshot in
      match snapshot with
      | Some catalog =>
          let? _ := validate catalog in
          let? rest := from_snapshots snapshots in
          Ok (catalog :: rest)
      | None => from_snapshots snapshots
      end
  end.

(** The process-wide resolver behind its lock. *)
Record ActiveResolver : Type := { active : PricingResolver; active_poisoned : bool }.

Definition active_pricing_resolver (s : ActiveResolver) : PricingResolver :=
  if active_poisoned s then default_resolver else active s.

Definition set_active_pricing_resolver (resolver : PricingResolver) (s : ActiveResolver) :
    outcome PricingCatalogError unit * ActiveResolver :=
  if active_poisoned s
  then (Err (LockPoisoned "poisoned lock: another task failed inside"), s)
  else (Ok (), {| active := resolver; active_poisoned := false |}).

Definition reset_active_pricing_resolver : ActiveResolver →
    outcome PricingCatalogError unit * ActiveResolver :=
  set_active_pricing_resolver default_resolver.

Definition gemini_billing (response : AnnotatedLlmResponse) : option GeminiBilling :=
  match rs_api_specific response with
  | Some (GeminiGenerateContent thoughts tool_use _ grounding _ extra) =>
      Some {| gb_separate := {| su_thoughts_tokens := thoughts;
                                su_tool_use_prompt_tokens := tool_use |};
              gb_tool_use_billing := from_tool_evidence grounding extra (rs_message response) |}
  | _ => None
  end.

Definition attach_estimated_cost_for_provider (s : ActiveResolver)
    (response : AnnotatedLlmResponse) (provider : option string) : AnnotatedLlmResponse :=
  match rs_usage response ≫= cost with
  | Some _ => response
  | None =>
      match rs_model response, rs_usage response with
      | Some model, Some usage =>
          let c :=
            match billed_usage usage (gemini_billing response) with
            | Ok billed =>
                estimate_billed_cost (active_pricing_resolver s) provider model billed
            | Err _ | Panic => None
            end in
          set_usage (Some (set_usage_cost c usage)) response
      | _, _ => response
      end
  end.

Definition attach_estimated_cost (s : ActiveResolver) (response : AnnotatedLlmResponse) :
    AnnotatedLlmResponse := attach_estimated_cost_for_provider s response None.
(** ** Lemmas *)

Lemma outcome_bind_Ok {E A B} (m : outcome E A) (k : A → outcome E B) b :
  outcome_bind m k = Ok b ↔ ∃ a, m = Ok a ∧ k a = Ok b.
Proof. destruct m; cbn; naive_solver. Qed.

(** A finite rate that is not negative. *)
Definition rate_ok (x : f64) : Prop := is_finite x = true ∧ nonneg x = true.

Definition rates_ok (r : TokenPricingRates) : Prop :=
  rate_ok (input_per_million r) ∧ rate_ok (output_per_million r)
  ∧ (∀ x, cache_read_per_million r = Some x → rate_ok x)
  ∧ Forall (λ rate, rate_ok (cr_per_million rate)) (cache_write_rates r)
  ∧ NoDup (cr_duration <$> cache_write_rates r).

Lemma validate_rate_ok i field x : validate_rate i field x = Ok () → rate_ok x.
Proof.
  unfold validate_rate, rate_ok, f64_ltb, SpecFloat.SFltb.
  by destruct x as [[]|[]| |[] m e].
Qed.

Lemma validate_write_rates_ok i prefix n seen l :
  validate_write_rates i prefix n seen l = Ok () →
  Forall (λ rate, rate_ok (cr_per_million rate)) l ∧ NoDup (cr_duration <$> l)
  ∧ Forall (λ rate, cr_duration rate ∉ seen) l.
Proof.
  revert n seen. induction l as [|rate l IH]; intros n seen; cbn.
  { intros _. repeat constructor. }
  rewrite outcome_bind_Ok. intros ([] & Hr & Hl). case_bool_decide as Hin; [done|].
  apply validate_rate_ok in Hr. apply IH in Hl as (Hok & Hnd & Hseen).
  split_and!; [by constructor| |].
  - apply NoDup_cons. split; [|done]. intros Hd. apply list_elem_of_fmap in Hd as (r' & Hr' & Hin').
    rewrite Forall_forall in Hseen. apply (Hseen r' Hin'). apply elem_of_cons. by left.
  - constructor; [done|]. eapply Forall_impl; [exact Hseen|]. intros r' Hn Hs. apply Hn. by right.
Qed.

Lemma validate_rates_ok i prefix r : validate_rates i prefix r = Ok () → rates_ok r.
Proof.
  unfold validate_rates. rewrite !outcome_bind_Ok. intros ([] & Hin & Hrest).
  apply outcome_bind_Ok in Hrest as ([] & Hout & Hrest).
  apply outcome_bind_Ok in Hrest as ([] & Hread & Hw).
  apply validate_write_rates_ok in Hw as (Hw & Hnd & _). split_and!.
  - by eapply validate_rate_ok.
  - by eapply validate_rate_ok.
  - intros x Hx. rewrite Hx in Hread. by eapply validate_rate_ok.
  - done.
  - done.
Qed.

Lemma validate_tiers_ok i n tiers :
  validate_tiers i n tiers = Ok () → Forall (λ tier, rates_ok (tier_rates tier)) tiers.
Proof.
  revert n. induction tiers as [|tier tiers IH]; intros n; cbn; [constructor|].
  rewrite outcome_bind_Ok. intros ([] & Ht & Hl). constructor; [|by eapply IH].
  unfold validate_tier in Ht. apply outcome_bind_Ok in Ht as ([] & _ & Ht).
  by eapply validate_rates_ok.
Qed.

Lemma validate_entry_rates i p usage r :
  validate_entry i p = Ok () → rates_for p usage = Some r → rates_ok r.
Proof.
  unfold validate_entry. intros Hv.
  do 5 (apply outcome_bind_Ok in Hv as ([] & _ & Hv)).
  assert (match rates p with Some r => validate_rates i "rates" r = Ok () | None => True end
    ∧ match rate_schedule p with
      | Some schedule => validate_schedule i schedule = Ok () | None => True end) as [Hr Hs].
  { destruct (unit_ p), (rates p), (rate_schedule p); try done;
      apply outcome_bind_Ok in Hv as ([] & Hr & Hs); done. }
  unfold rates_for. destruct (rate_schedule p) as [[[] tiers]|].
  - unfold rates_for_prompt_tokens. destruct (rate_tier_input_tokens p usage) as [n|]; [|done].
    cbn. intros (tier & Hf & ->)%fmap_Some. apply List.find_some in Hf as [Hin _].
    assert (validate_tiers i 0 tiers = Ok ()) as Ht by (by destruct tiers).
    apply validate_tiers_ok in Ht. rewrite List.Forall_forall in Ht. by apply Ht.
  - intros Hrates. rewrite Hrates in Hr. by eapply validate_rates_ok.
Qed.

Lemma validate_entries_ok i seen l :
  validate_entries i seen l = Ok () → ∀ p, p ∈ l → ∃ j, validate_entry j p = Ok ().
Proof.
  revert i seen. induction l as [|e l IH]; intros i seen; cbn.
  { intros _ p Hp. by apply elem_of_nil in Hp. }
  rewrite outcome_bind_Ok. intros ([] & He & Hrest) p Hp.
  apply outcome_bind_Ok in Hrest as (seen' & _ & Hl).
  apply elem_of_cons in Hp as [->|Hp]; [by exists i|by eapply IH].
Qed.

Lemma validate_catalog catalog :
  validate catalog = Ok () → validate_entries 0 [] (entries catalog) = Ok ().
Proof. unfold validate. by destruct (_ =? _). Qed.

(** *** Costs *)

Lemma component_nonneg tokens price c :
  is_u64 tokens → rate_ok price →
  cost_component_if_nonzero tokens price = Some c → nonneg c = true.
Proof.
  intros Ht [Hfin Hnn]. unfold cost_component_if_nonzero. destruct (0 <? tokens); [|done].
  intros [= <-]. unfold round_cost_amount, cost_component.
  assert (∃ m e, f64_of_Z 1000000 = SpecFloat.S754_finite false m e) as (m1 & e1 & ->)
    by (eexists _, _; vm_compute; reflexivity).
  assert (∃ m e, SCALE = SpecFloat.S754_finite false m e) as (m2 & e2 & ->)
    by (eexists _, _; vm_compute; reflexivity).
  apply f64_div_pos_nonneg, f64_round_nonneg, f64_mul_pos_nonneg, f64_div_pos_nonneg.
  unfold is_u64, u64_max in Ht. apply f64_mul_nonneg; [|done| |done].
  - apply f64_of_Z_nonneg. lia.
  - apply f64_of_Z_finite. lia.
Qed.

Definition nonneg_opt (x : option f64) : Prop := ∀ c, x = Some c → nonneg c = true.

Lemma cache_write_loop_spec r total writes :
  rates_ok r → nonneg_opt total → Forall (λ w, is_u64 (cw_count w)) writes →
  match cache_write_loop r total writes with
  | Some total' => nonneg_opt total'
  | None => True
  end
  ∧ (cache_write_loop r total writes = None ↔
     ∃ w, w ∈ writes ∧ 0 < cw_count w ∧ rate_for r (cw_duration w) = None ∧ rate_for r None = None).
Proof.
  intros Hr. revert total. induction writes as [|w writes IH]; intros total Htot Hw; cbn.
  { split; [done|]. split; [done|]. intros (w & Hin & _). by apply elem_of_nil in Hin. }
  apply Forall_cons in Hw as [Hwc Hw].
  assert (∀ P : CacheWriteTokenCounts → Prop,
    (∃ w', w' ∈ w :: writes ∧ P w') ↔ P w ∨ ∃ w', w' ∈ writes ∧ P w') as Hex.
  { intros P. setoid_rewrite elem_of_cons. naive_solver. }
  rewrite Hex. destruct (Z.ltb_spec 0 (cw_count w)) as [Hpos|Hneg].
  - destruct (match rate_for r (cw_duration w) with Some rate => Some rate | None => _ end)
      as [rate|] eqn:Hrate.
    + set (c := cost_component_if_nonzero (cw_count w) (cr_per_million rate)).
      assert (rate_ok (cr_per_million rate)) as Hrok.
      { destruct Hr as (_ & _ & _ & Hf & _). rewrite List.Forall_forall in Hf.
        destruct (rate_for r (cw_duration w)) eqn:Hd; simplify_eq;
          [apply List.find_some in Hd|apply List.find_some in Hrate]; apply Hf; naive_solver. }
      destruct (IH (match c with Some cost => Some (f64_add (default f64_zero total) cost)
                    | None => total end)) as [Hnn Hiff]; [|done|].
      { destruct c as [cost|] eqn:Hc; [|done]. intros x [= <-].
        apply f64_add_nonneg; [|by eapply component_nonneg].
        destruct total as [t|]; [by apply Htot|done]. }
      split; [done|]. rewrite Hiff. destruct (rate_for r (cw_duration w)); naive_solver.
    + split; [done|]. split; [|done]. intros _. left.
      destruct (rate_for r (cw_duration w)); naive_solver.
  - destruct (IH total Htot Hw) as [Hnn Hiff]. split; [done|]. rewrite Hiff. naive_solver lia.
Qed.

(** Every count of a usage is a [u64]. *)
Definition usage_u64 (u : Usage) : Prop :=
  (∀ n, prompt_tokens u = Some n → is_u64 n) ∧ (∀ n, completion_tokens u = Some n → is_u64 n)
  ∧ (∀ n, total_tokens u = Some n → is_u64 n) ∧ (∀ n, cache_read_tokens u = Some n → is_u64 n)
  ∧ (∀ ws, cache_write_tokens u = Some ws → Forall (λ w, is_u64 (cw_count w)) ws)
  ∧ (∀ n, uncached_input_tokens u = Some n → is_u64 n).

Lemma default_u64 (x : option Z) : (∀ n, x = Some n → is_u64 n) → is_u64 (default 0 x).
Proof. destruct x; cbn; [auto|]. intros _. unfold is_u64, u64_max. lia. Qed.

Lemma billable_u64 p u n : usage_u64 u → billable_prompt_tokens p u = Some n → is_u64 n.
Proof.
  intros (Hp & _ & _ & Hr & _ & Hu). unfold billable_prompt_tokens.
  destruct (uncached_input_tokens u) as [m|].
  { intros (? & ? & ->)%fmap_Some. auto. }
  pose proof (default_u64 _ Hp). pose proof (default_u64 _ Hr).
  destruct (read_accounting p); [|by intros [= <-]]. unfold checked_sub, is_u64 in *.
  destruct (Z.leb_spec (default 0 (cache_read_tokens u)) (default 0 (prompt_tokens u))); [|done].
  intros [= <-]. lia.
Qed.

(** The parts of an estimate. *)
Definition estimate_parts (c : CostEstimate) : list (option f64) :=
  [ce_total c; ce_input c; ce_output c; ce_cache_read c; ce_cache_write c].

(** Usage of a kind that the rates do not price. *)
Definition unpriced (r : TokenPricingRates) (u : Usage) : Prop :=
  (0 < default 0 (cache_read_tokens u) ∧ cache_read_per_million r = None)
  ∨ ∃ w, w ∈ default [] (cache_write_tokens u) ∧ 0 < cw_count w
      ∧ rate_for r (cw_duration w) = None ∧ rate_for r None = None.

Lemma priced_sound p r u n :
  rates_ok r → usage_u64 u → is_u64 n →
  Forall nonneg_opt (estimate_parts (priced p r u n))
  ∧ (ce_total (priced p r u n) = None ↔ unpriced r u).
Proof.
  intros Hr Hu Hn. pose proof Hu as (_ & Hcomp & _ & Hread & Hws & _).
  pose proof Hr as (Hin & Hout & Hcr & _).
  destruct (cache_write_loop_spec r None (default [] (cache_write_tokens u)) Hr)
    as [Hwn Hwi]; [done| |].
  { destruct (cache_write_tokens u); [by apply Hws|constructor]. }
  fold (cache_write_cost r (cache_write_tokens u)) in Hwn, Hwi.
  assert (nonneg_opt (ce_input (priced p r u n))) as H1 by (intros c; by eapply component_nonneg).
  assert (nonneg_opt (ce_output (priced p r u n))) as H2.
  { intros c. eapply component_nonneg; [|done]. by apply default_u64. }
  assert (nonneg_opt (ce_cache_read (priced p r u n))) as H3.
  { intros c (x & Hx & Hc)%bind_Some. eapply component_nonneg; [|by apply Hcr|exact Hc].
    by apply default_u64. }
  assert (nonneg_opt (ce_cache_write (priced p r u n))) as H4.
  { cbn. by destruct (cache_write_cost _ _). }
  split.
  - repeat constructor; try done. intros c. cbn [ce_total priced]. destruct (_ || _); [done|]. intros [= <-].
    unfold round_cost_amount.
    assert (∃ m e, SCALE = SpecFloat.S754_finite false m e) as (m2 & e2 & ->)
      by (eexists _, _; vm_compute; reflexivity).
    apply f64_div_pos_nonneg, f64_round_nonneg, f64_mul_pos_nonneg, f64_sum_nonneg.
    assert (∀ l, Forall nonneg_opt l → Forall (λ x, nonneg x = true) (flatten l)) as Hfl.
    { clear. intros l. unfold flatten. induction 1 as [|[x|] l Hx _ IH]; cbn; [constructor| |done].
      constructor; [by apply Hx|done]. }
    apply (Hfl [ce_input (priced p r u n); ce_output (priced p r u n);
      ce_cache_read (priced p r u n); ce_cache_write (priced p r u n)]).
    repeat (constructor; [done|]). constructor.
  - unfold unpriced. rewrite <-Hwi. cbn [ce_total priced].
    set (cw := cache_write_cost _ _) in *. clearbody cw. clear.
    destruct (Z.ltb_spec 0 (default 0 (cache_read_tokens u))),
      (cache_read_per_million r) as [x|], cw as [x'|]; cbn; naive_solver lia.
Qed.

(** *** Keys *)

Lemma insert_keys_ok seen keys seen' :
  insert_keys seen keys = Ok seen' →
  NoDup keys ∧ (∀ k, k ∈ keys → k ∉ seen) ∧ (∀ k, k ∈ seen' ↔ k ∈ keys ∨ k ∈ seen).
Proof.
  revert seen. induction keys as [|k keys IH]; intros seen; cbn.
  { intros [= ->]. split_and!; [constructor|by intros k Hk%elem_of_nil|].
    intros k. rewrite elem_of_nil. naive_solver. }
  case_bool_decide as Hk; [done|]. intros (Hnd & Hfresh & Hin)%IH. split_and!.
  - apply NoDup_cons. split; [|done]. intros Hk'. apply (Hfresh k Hk'). by left.
  - intros k' [->|Hk']%elem_of_cons; [done|]. intros Hs. apply (Hfresh k' Hk'). by right.
  - intros k'. rewrite Hin, !elem_of_cons. naive_solver.
Qed.

Lemma validate_entries_keys i seen l :
  validate_entries i seen l = Ok () →
  NoDup (concat (provider_model_keys <$> l))
  ∧ ∀ k, k ∈ concat (provider_model_keys <$> l) → k ∉ seen.
Proof.
  revert i seen. induction l as [|e l IH]; intros i seen; cbn.
  { intros _. split; [constructor|]. intros k Hk. by apply elem_of_nil in Hk. }
  rewrite outcome_bind_Ok. intros ([] & He & Hrest).
  apply outcome_bind_Ok in Hrest as (seen' & Hk & Hl).
  apply insert_keys_ok in Hk as (Hnd & Hfresh & Hin). apply IH in Hl as [Hnd' Hfresh']. split.
  - apply NoDup_app. split_and!; [done| |done]. intros k Hk Hk'.
    apply (Hfresh' k Hk'). rewrite Hin. by left.
  - intros k [Hk|Hk]%elem_of_app; [by apply Hfresh|]. intros Hs. apply (Hfresh' k Hk).
    rewrite Hin. by right.
Qed.

Lemma concat_NoDup_index {A} (ls : list (list A)) i j l1 l2 x :
  NoDup (concat ls) → ls !! i = Some l1 → ls !! j = Some l2 → x ∈ l1 → x ∈ l2 → i = j.
Proof.
  revert i j. induction ls as [|l ls IH]; intros i j Hnd Hi Hj H1 H2; [done|]. cbn in Hnd.
  apply NoDup_app in Hnd as (_ & Hdisj & Hnd).
  assert (∀ k l', ls !! k = Some l' → x ∈ l' → x ∈ concat ls) as Hin.
  { intros k l' Hk Hx. apply list_elem_of_In, in_concat. exists l'.
    split; [|by apply list_elem_of_In]. apply list_elem_of_In. by eapply list_elem_of_lookup_2. }
  destruct i as [|i], j as [|j]; cbn in Hi, Hj; simplify_eq; [done| | |].
  - exfalso. by eapply (Hdisj x), Hin.
  - exfalso. by eapply (Hdisj x), Hin.
  - f_equal. by eapply IH.
Qed.

Lemma matches_qualified e provider model :
  matches_model e {| key_provider := Some provider; key_model := model |} = true →
  provider +:+ "/" +:+ model ∈ provider_model_keys e.
Proof.
  unfold matches_model. cbn. rewrite andb_true_iff, !bool_decide_eq_true. intros [<- Hm].
  apply list_elem_of_fmap. by exists model.
Qed.


(** *** Billed usage *)

Definition u64_opt (x : option Z) : Prop := ∀ n, x = Some n → is_u64 n.

Lemma add_to_count_cases reported extra :
  is_u64 reported → u64_opt extra →
  match add_to_count reported extra with
  | Ok n => n = reported + default 0 extra ∧ is_u64 n
  | Err TokenOverflow => u64_max < reported + default 0 extra
  | _ => False
  end.
Proof.
  intros Hr He. unfold add_to_count, checked_add. unfold is_u64, u64_opt in *.
  destruct extra as [n|]; cbn; [|lia]. specialize (He n eq_refl). unfold is_u64 in He.
  destruct (Z.leb_spec (reported + n) u64_max); lia.
Qed.

Lemma add_separate_cases reported extra :
  u64_opt reported → u64_opt extra →
  match add_separate_count reported extra with
  | Ok x => default 0 x = default 0 reported + default 0 extra ∧ u64_opt x
  | Err TokenOverflow => u64_max < default 0 reported + default 0 extra
  | _ => False
  end.
Proof.
  intros Hr He. destruct reported as [n|]; [|done]. unfold add_separate_count, outcome_map.
  pose proof (add_to_count_cases n extra (Hr n eq_refl) He) as Hc.
  destruct (add_to_count n extra) as [m|[]|]; try done. destruct Hc as [-> Hm].
  split; [done|]. by intros ? [= <-].
Qed.

Lemma input_rate_cases g :
  u64_opt (su_tool_use_prompt_tokens (gb_separate g)) →
  match input_rate_tool_use g with
  | Ok extra => u64_opt extra
  | Err UndeterminedToolUsePromptTokens =>
      gb_tool_use_billing g = Undetermined
      ∧ 0 < default 0 (su_tool_use_prompt_tokens (gb_separate g))
  | _ => False
  end.
Proof.
  intros Hg. unfold input_rate_tool_use.
  destruct (gb_tool_use_billing g), (su_tool_use_prompt_tokens (gb_separate g)) as [[|n|n]|];
    cbn; try done. specialize (Hg (Zneg n) eq_refl). unfold is_u64 in Hg. lia.
Qed.

(** ** Properties *)

(** C20: estimates from a validated catalog are sound: every part of an
    estimate is a number that is not negative and not a NaN, whatever the
    token counts; the total is withheld exactly when some nonzero cached usage
    has no rate; and an estimate exists exactly for per-token prices with a
    matching tier, consistent prompt accounting and some nonzero usage. *)
Theorem estimate_sound catalog p usage :
  validate catalog = Ok () → p ∈ entries catalog → usage_u64 usage →
  match estimate_cost p usage with
  | Some c =>
      Forall nonneg_opt (estimate_parts c)
      ∧ ∃ r, rates_for p usage = Some r ∧ (ce_total c = None ↔ unpriced r usage)
  | None =>
      unit_ p ≠ PerToken ∨ rates_for p usage = None ∨ billable_prompt_tokens p usage = None
      ∨ (billable_prompt_tokens p usage = Some 0 ∧ default 0 (completion_tokens usage) = 0
         ∧ default 0 (cache_read_tokens usage) = 0 ∧ default 0 (cache_write_total usage) = 0)
  end.
Proof.
  intros Hv Hp Hu. apply validate_catalog in Hv.
  destruct (validate_entries_ok _ _ _ Hv p Hp) as (i & Hi).
  unfold estimate_cost, estimate_cost_in_tier. case_bool_decide as Hunit; [|by left]. cbn [negb].
  destruct (rates_for p usage) as [r|] eqn:Hr; [|cbn; by auto].
  cbn [mbind option_bind].
  pose proof (validate_entry_rates i p usage r Hi Hr) as Hrok.
  destruct (billable_prompt_tokens p usage) as [n|] eqn:Hn; [|cbn; by auto].
  cbn [mbind option_bind].
  destruct (_ && _) eqn:Hz.
  - rewrite !andb_true_iff, !Z.eqb_eq in Hz. destruct Hz as [[[-> ?] ?] ?].
    do 3 right. by split_and!.
  - destruct (priced_sound p r usage n Hrok Hu (billable_u64 p usage n Hu Hn)) as [H1 H2].
    split; [done|]. by exists r.
Qed.

(** Lookup by provider and model is unambiguous in a validated catalog:
    two entries that answer the same provider-qualified key are one entry, so
    the order of the entries does not matter. *)
Theorem lookup_unambiguous catalog provider model i j e1 e2 :
  validate catalog = Ok () →
  entries catalog !! i = Some e1 → entries catalog !! j = Some e2 →
  let key := {| key_provider := Some provider; key_model := model |} in
  matches_model e1 key = true → matches_model e2 key = true → i = j ∧ e1 = e2.
Proof.
  intros Hv Hi Hj key H1 H2. apply validate_catalog, validate_entries_keys in Hv as [Hnd _].
  assert (i = j) as ->; [|naive_solver].
  eapply (concat_NoDup_index _ i j); [exact Hnd| | | |].
  - by rewrite list_lookup_fmap, Hi.
  - by rewrite list_lookup_fmap, Hj.
  - by apply matches_qualified.
  - by apply matches_qualified.
Qed.

(** Billing Gemini usage moves the separately reported tokens into the
    billed counts and nothing else: when it succeeds the prompt (and uncached)
    count grows by exactly the tool-use tokens billed at the input rate, the
    completion count by the thoughts, every count is still a [u64], and the
    reported usage is kept for the rate tier; it fails exactly when a sum
    overflows or tool-use tokens cannot be attributed. *)
Theorem billed_usage_exact usage g :
  usage_u64 usage →
  u64_opt (su_thoughts_tokens (gb_separate g)) →
  u64_opt (su_tool_use_prompt_tokens (gb_separate g)) →
  match billed_usage usage (Some g) with
  | Ok b =>
      ∃ extra, input_rate_tool_use g = Ok extra
        ∧ bu_reported b = usage ∧ usage_u64 (bu_usage b)
        ∧ default 0 (completion_tokens (bu_usage b))
          = default 0 (completion_tokens usage)
            + default 0 (su_thoughts_tokens (gb_separate g))
        ∧ cache_read_tokens (bu_usage b) = cache_read_tokens usage
        ∧ cache_write_tokens (bu_usage b) = cache_write_tokens usage
        ∧ match uncached_input_tokens usage with
          | Some uncached =>
              uncached_input_tokens (bu_usage b) = Some (uncached + default 0 extra)
              ∧ prompt_tokens (bu_usage b)
                = (λ n, n + default 0 extra) <$> prompt_tokens usage
          | None =>
              uncached_input_tokens (bu_usage b) = None
              ∧ default 0 (prompt_tokens (bu_usage b))
                = default 0 (prompt_tokens usage) + default 0 extra
          end
  | Err TokenOverflow =>
      ∃ extra, input_rate_tool_use g = Ok extra
        ∧ (u64_max < default 0 (prompt_tokens usage) + default 0 extra
           ∨ u64_max < default 0 (uncached_input_tokens usage) + default 0 extra
           ∨ u64_max < default 0 (completion_tokens usage)
               + default 0 (su_thoughts_tokens (gb_separate g)))
  | Err UndeterminedToolUsePromptTokens =>
      gb_tool_use_billing g = Undetermined
      ∧ 0 < default 0 (su_tool_use_prompt_tokens (gb_separate g))
  | Panic => False
  end.
Proof.
  intros Hu Ht Hx. pose proof Hu as (Hp & Hc & Htot & Hcr & Hcw & Hun). unfold billed_usage.
  pose proof (input_rate_cases g Hx) as He.
  destruct (input_rate_tool_use g) as [extra|[]|]; try done. cbn [outcome_bind].
  pose proof (add_separate_cases _ _ Hc Ht) as Hcomp.
  destruct (uncached_input_tokens usage) as [uncached|] eqn:Huncached.
  - pose proof (add_to_count_cases uncached extra (Hun _ eq_refl) He) as Hunc.
    assert (match prompt_tokens usage with
      | Some prompt => match add_to_count prompt extra with
          | Ok n => n = prompt + default 0 extra ∧ is_u64 n
          | Err TokenOverflow => u64_max < prompt + default 0 extra
          | _ => False end
      | None => True end) as Hpr.
    { destruct (prompt_tokens usage) as [n|]; [|done]. apply add_to_count_cases; auto. }
    destruct (prompt_tokens usage) as [prompt|] eqn:Hprompt;
      [destruct (add_to_count prompt extra) as [n|[]|]; try done|]; cbn.
    all: (destruct (add_to_count uncached extra) as [m|[]|]; try done; cbn).
    all: try (by eexists; eauto).
    all: (destruct (add_separate_count (completion_tokens usage) _) as [cm|[]|]; try done; cbn).
    all: try (by eexists; eauto).
    all: exists extra; destruct Hunc as [-> ?], Hcomp as [? ?]; split_and!; try done.
    all: try (destruct Hpr as [-> ?]).
    all: unfold usage_u64; cbn; try done.
    all: split_and!; try done; by intros ? [= <-].
  - pose proof (add_separate_cases _ _ Hp He) as Hpr.
    destruct (add_separate_count (prompt_tokens usage) extra) as [pm|[]|]; try done; cbn;
      [|by eexists; eauto].
    destruct (add_separate_count (completion_tokens usage) _) as [cm|[]|]; try done; cbn;
      [|by eexists; eauto].
    exists extra. destruct Hpr as [? ?], Hcomp as [? ?]. split_and!; try done.
Qed.

(** *** Witnesses *)

Definition demo_rates : TokenPricingRates := {|
  input_per_million := f64_of_Z 3; output_per_million := f64_of_Z 15;
  cache_read_per_million := None; cache_write_rates := [] |}.

Definition demo_entry : ModelPricing := {|
  mp_provider := "Acme"; model_id := "acme-1"; aliases := ["acme-latest"];
  mp_currency := "USD"; unit_ := PerToken; rates := Some demo_rates; rate_schedule := None;
  read_accounting := IncludedInPromptTokens; pricing_as_of := "2026-01-01";
  pricing_source := "https://acme.example" |}.

Definition demo_catalog : PricingCatalog := {| version := 1; entries := [demo_entry] |}.

Definition demo_usage : Usage := {|
  prompt_tokens := Some 1000; completion_tokens := Some 500; total_tokens := Some 1500;
  cache_read_tokens := Some 400; cache_write_tokens := None; uncached_input_tokens := None;
  cost := None |}.

Lemma demo_usage_u64 : usage_u64 demo_usage.
Proof. split_and!; intros n [= <-]; unfold is_u64, u64_max; lia. Qed.

Lemma estimate_sound_witness :
  ∃ c, estimate_cost demo_entry demo_usage = Some c ∧ ce_total c = None
    ∧ Forall nonneg_opt (estimate_parts c).
Proof.
  eexists. split; [reflexivity|]. split; [reflexivity|].
  apply (estimate_sound demo_catalog demo_entry demo_usage); [reflexivity|by left|].
  apply demo_usage_u64.
Defined.

Lemma lookup_unambiguous_witness :
  let key := {| key_provider := Some "acme"; key_model := "acme-latest" |} in
  matches_model demo_entry key = true ∧ 0%nat = 0%nat ∧ demo_entry = demo_entry.
Proof.
  split; [reflexivity|].
  apply (lookup_unambiguous demo_catalog "acme" "acme-latest" 0 0); reflexivity.
Defined.

Definition demo_gemini : GeminiBilling := {|
  gb_separate := {| su_thoughts_tokens := Some 70; su_tool_use_prompt_tokens := Some 30 |};
  gb_tool_use_billing := InputTokens |}.

Lemma billed_usage_exact_witness :
  ∃ b, billed_usage demo_usage (Some demo_gemini) = Ok b
    ∧ prompt_tokens (bu_usage b) = Some 1030 ∧ completion_tokens (bu_usage b) = Some 570
    ∧ usage_u64 (bu_usage b).
Proof.
  eexists. split; [reflexivity|]. split_and!; [reflexivity|reflexivity|].
  destruct (billed_usage_exact demo_usage demo_gemini demo_usage_u64) as (extra & _ & _ & Hu & _).
  - intros n [= <-]. unfold is_u64, u64_max. lia.
  - intros n [= <-]. unfold is_u64, u64_max. lia.
  - exact Hu.
Defined.
