(* ===== verification/Optimization.v ===== *)
(** * Optimization accounting ([crates/runtime/src/api/optimization.rs])

    The recorder of one LLM call collects contributions of optimizers under
    bounds on their number and size, from any number of threads, until the
    call closes; the summary derives token and cost savings from them.

    - The mutex of the recorder protects one [AccumulatorState]; a definition
      on that state is one critical section.
    - Threads are the subject of [Concurrent]: a step is one critical section
      of one thread.  The condition variable is the number of its
      notifications so far: a thread that waits remembers the number it found
      and sleeps until another [notify_all]; then it takes the lock and looks
      again.  A spurious wakeup finds what the sleeping thread had found
      ([spurious_wakeup]) and has no step.
    - serde_json is a parameter: the lengths of the chunks it writes for a
      contribution and whether it ends without an error. *)

From stdpp Require Import base gmap strings list sorting.
From S2P Require Import Prelude Text Errors Json Float64 LlmTypes Pricing.

Local Open Scope Z_scope.

Definition MAX_LLM_OPTIMIZATION_CONTRIBUTIONS : nat := 64.
Definition MAX_LLM_OPTIMIZATION_CONTRIBUTION_BYTES : Z := 16 * 1024.
Definition MAX_LLM_OPTIMIZATION_TOTAL_CONTRIBUTION_BYTES : Z := 256 * 1024.
Definition MAX_LLM_OPTIMIZATION_CONTRIBUTION_ATTEMPTS : nat := 64.

Record AccumulatorState : Type := {
  contributions : list LlmOptimizationContribution;
  recorded_at : list Z;
  total_contribution_bytes : Z;
  attempted_contributions : nat;
  in_flight_records : nat;
  emitted : nat;
  closed : bool;
  finished : bool;
  limitations : gset string;
  contribution_limit_exceeded : bool;
  invalid_payload_schema : bool;
  poisoned : bool;
  (** The calls of [records_settled.notify_all()]. *)
  records_settled : nat;
}.

Definition default_accumulator : AccumulatorState := {|
  contributions := []; recorded_at := []; total_contribution_bytes := 0;
  attempted_contributions := 0; in_flight_records := 0; emitted := 0; closed := false;
  finished := false; limitations := ∅; contribution_limit_exceeded := false;
  invalid_payload_schema := false; poisoned := false; records_settled := 0;
|}.

(** Field updates. *)
Definition set_contributions (l : list LlmOptimizationContribution) (ts : list Z) (bytes : Z)
    (s : AccumulatorState) : AccumulatorState :=
  let '(Build_AccumulatorState _ _ _ a i e c f li ce ip po ns) := s in
  Build_AccumulatorState l ts bytes a i e c f li ce ip po ns.
Definition set_attempts (a i : nat) (s : AccumulatorState) : AccumulatorState :=
  let '(Build_AccumulatorState l t b _ _ e c f li ce ip po ns) := s in
  Build_AccumulatorState l t b a i e c f li ce ip po ns.
Definition set_emitted (e : nat) (s : AccumulatorState) : AccumulatorState :=
  let '(Build_AccumulatorState l t b a i _ c f li ce ip po ns) := s in
  Build_AccumulatorState l t b a i e c f li ce ip po ns.
Definition set_closed (s : AccumulatorState) : AccumulatorState :=
  let '(Build_AccumulatorState l t b a i e _ f li ce ip po ns) := s in
  Build_AccumulatorState l t b a i e true f li ce ip po ns.
Definition set_limitations (li : gset string) (s : AccumulatorState) : AccumulatorState :=
  let '(Build_AccumulatorState l t b a i e c f _ ce ip po ns) := s in
  Build_AccumulatorState l t b a i e c f li ce ip po ns.
Definition set_flags (ce ip : bool) (s : AccumulatorState) : AccumulatorState :=
  let '(Build_AccumulatorState l t b a i e c f li _ _ po ns) := s in
  Build_AccumulatorState l t b a i e c f li ce ip po ns.
Definition set_finished (s : AccumulatorState) : AccumulatorState :=
  let '(Build_AccumulatorState l t b a i e c _ li ce ip po ns) := s in
  Build_AccumulatorState l t b a i e c true li ce ip po ns.

Definition notify_all (s : AccumulatorState) : AccumulatorState :=
  let '(Build_AccumulatorState l t b a i e c f li ce ip po ns) := s in
  Build_AccumulatorState l t b a i e c f li ce ip po (S ns).

Definition seal_for_contribution_limit (s : AccumulatorState) : AccumulatorState :=
  set_closed (set_flags true (invalid_payload_schema s) s).

Definition has_evidence (s : AccumulatorState) : bool :=
  negb (bool_decide (length (contributions s) = 0%nat)) || negb (bool_decide (limitations s = ∅))
  || contribution_limit_exceeded s || invalid_payload_schema s.

(** ** Critical sections *)

Definition reserve_record_attempt (s : AccumulatorState) : bool * AccumulatorState :=
  if poisoned s then (false, s)
  else if closed s then (false, s)
  else if bool_decide (MAX_LLM_OPTIMIZATION_CONTRIBUTION_ATTEMPTS ≤ attempted_contributions s)%nat
  then (false, seal_for_contribution_limit s)
  else (true, set_attempts (S (attempted_contributions s)) (S (in_flight_records s)) s).

(** [Drop for RecordAttempt]. *)
Definition drop_record_attempt (s : AccumulatorState) : AccumulatorState :=
  if poisoned s then s
  else notify_all (set_attempts (attempted_contributions s) (in_flight_records s - 1)%nat s).

Definition note_invalid_payload_schema (s : AccumulatorState) : AccumulatorState :=
  if poisoned s || finished s then s else set_flags (contribution_limit_exceeded s) true s.

Definition note_contribution_limit_exceeded (s : AccumulatorState) : AccumulatorState :=
  if poisoned s || finished s then s else seal_for_contribution_limit s.

(** The critical section of [next_contribution_sequence]: the sequence, or
    whether the limit is to be noted. *)
Inductive NextSequence : Type := NoSequence | LimitReached | Sequence (n : nat).

Definition next_contribution_sequence (s : AccumulatorState) : NextSequence :=
  if poisoned s || closed s then NoSequence
  else if bool_decide (MAX_LLM_OPTIMIZATION_CONTRIBUTIONS ≤ length (contributions s))%nat
  then LimitReached
  else Sequence (length (contributions s)).

Inductive ContributionCommit : Type := Committed | Retry | Rejected.

(** [usize] is 64 bits wide. *)
Definition commit_contribution (now : Z) (c : LlmOptimizationContribution) (bytes : Z)
    (sequence : nat) (s : AccumulatorState) : ContributionCommit * AccumulatorState :=
  if poisoned s || closed s then (Rejected, s)
  else if negb (bool_decide (length (contributions s) = sequence)) then (Retry, s)
  else
    match checked_add (total_contribution_bytes s) bytes with
    | None => (Rejected, seal_for_contribution_limit s)
    | Some total =>
        if MAX_LLM_OPTIMIZATION_TOTAL_CONTRIBUTION_BYTES <? total
        then (Rejected, seal_for_contribution_limit s)
        else
          (Committed,
           set_contributions (contributions s ++ [c]) (recorded_at s ++ [now]) total s)
    end.

Definition is_closed (s : AccumulatorState) : bool := poisoned s || closed s.

Definition unemitted_with_timestamps (s : AccumulatorState) :
    list (LlmOptimizationContribution * Z) :=
  if poisoned s then []
  else
    let start := (emitted s `min` length (contributions s))%nat in
    zip (drop start (contributions s)) (drop start (recorded_at s)).

Definition mark_emitted (count : nat) (s : AccumulatorState) : AccumulatorState :=
  if poisoned s then s
  else set_emitted ((emitted s + count) `min` length (contributions s))%nat s.

Definition close_for_finalization (conditional_limitation : option string)
    (s : AccumulatorState) : bool * AccumulatorState :=
  if poisoned s || finished s then (false, s)
  else
    let evidence := has_evidence s in
    let s :=
      match conditional_limitation with
      | Some limitation =>
          if evidence then set_limitations ({[ limitation ]} ∪ limitations s) s else s
      | None => s
      end in
    (evidence, set_closed s).

Record FinishedContributions : Type := {
  f_contributions : list LlmOptimizationContribution;
  f_limitations : list string;
}.

Definition unavailable : FinishedContributions :=
  {| f_contributions := []; f_limitations := ["optimization_accumulator_unavailable"] |}.
Definition nothing_finished : FinishedContributions :=
  {| f_contributions := []; f_limitations := [] |}.

(** A [BTreeSet] iterates in ascending order. *)
Definition sorted_strings (s : gset string) : list string :=
  stable_sort String.le (elements s).

(** The end of [finish], once no record is in flight. *)
Definition finish_settled (s : AccumulatorState) : FinishedContributions * AccumulatorState :=
  let l := sorted_strings (limitations s)
    ++ (if contribution_limit_exceeded s then ["contribution_limit_exceeded"] else [])
    ++ (if invalid_payload_schema s then ["invalid_contribution_payload_schema"] else []) in
  ({| f_contributions := contributions s; f_limitations := l |},
   set_finished (set_limitations ∅ (set_flags false false
     (set_contributions [] [] (total_contribution_bytes s) s)))).

(** [finish] with the lock held and the state closed: an answer, or [None] to
    wait for a record in flight. *)
Definition finish_resume (s : AccumulatorState) :
    option (FinishedContributions * AccumulatorState) :=
  if poisoned s then Some (unavailable, s)
  else if finished s then Some (nothing_finished, s)
  else if bool_decide (in_flight_records s = 0%nat) then Some (finish_settled s)
  else None.

(** [finish] up to its first wait. *)
Definition finish (s : AccumulatorState) : option FinishedContributions * AccumulatorState :=
  if poisoned s then (Some unavailable, s)
  else if finished s then (Some nothing_finished, s)
  else
    match finish_resume (set_closed s) with
    | Some (answer, s) => (Some answer, s)
    | None => (None, set_closed s)
    end.

(** [finish] after its wait: nothing is in flight any more. *)
Definition finish_waited (s : AccumulatorState) : FinishedContributions * AccumulatorState :=
  if poisoned s then (unavailable, s)
  else if finished s then (nothing_finished, s)
  else finish_settled (set_closed s).

Lemma finish_waited_spec s :
  in_flight_records s = 0%nat →
  finish s = (Some (finish_waited s).1, (finish_waited s).2).
Proof.
  intros H0. unfold finish, finish_waited, finish_resume.
  destruct (poisoned s) eqn:Hp; [done|]. destruct (finished s) eqn:Hf; [done|].
  destruct s; cbn in *; by subst.
Qed.

(** ** Measuring a contribution *)

Inductive SerializedSizeError : Type := LimitExceeded | Serialization.

(** [CountingWriter::write] on every chunk. *)
Fixpoint count_chunks (limit size : Z) (chunks : list N) : option Z :=
  match chunks with
  | [] => Some size
  | n :: chunks =>
      if limit <? saturating_add size (Z.of_N n) then None
      else count_chunks limit (size + Z.of_N n) chunks
  end.

Section Record.
Context (serialize : LlmOptimizationContribution → list N * bool).

Definition bounded_json_size (c : LlmOptimizationContribution) (limit : Z) :
    outcome SerializedSizeError Z :=
  let '(chunks, complete) := serialize c in
  match count_chunks limit 0 chunks with
  | None => Err LimitExceeded
  | Some size => if complete then Ok size else Err Serialization
  end.

Definition payload_schema_is_valid (c : LlmOptimizationContribution) : bool :=
  negb (bool_decide (is_Some (oc_payload c)) && negb (bool_decide (is_Some (oc_payload_schema c)))).

(** ** One thread in [record] *)

Inductive Recorder : Type :=
| RStart (c : LlmOptimizationContribution) (id : Z)
| RCheck (c : LlmOptimizationContribution) (id : Z)
| RNoteSchema
| RNext (c : LlmOptimizationContribution) (id : Z)
| RNoteLimit
| RCommit (c : LlmOptimizationContribution) (id : Z) (sequence : nat) (bytes : Z)
| RDrop (accepted : option LlmOptimizationContribution)
| RDone (accepted : option LlmOptimizationContribution).

(** The next critical section of the thread; the code between two of them is
    part of the step before it. *)
Definition record_step (now : Z) (s : AccumulatorState) (r : Recorder) :
    option (AccumulatorState * Recorder) :=
  match r with
  | RStart c id =>
      let '(reserved, s) := reserve_record_attempt s in
      Some (s, if reserved then RCheck c id else RDone None)
  | RCheck c id => Some (s, if payload_schema_is_valid c then RNext c id else RNoteSchema)
  | RNoteSchema => Some (note_invalid_payload_schema s, RDrop None)
  | RNext c id =>
      match next_contribution_sequence s with
      | NoSequence => Some (s, RDrop None)
      | LimitReached => Some (s, RNoteLimit)
      | Sequence n =>
          let c := set_identity id (Z.of_nat n) c in
          match bounded_json_size c MAX_LLM_OPTIMIZATION_CONTRIBUTION_BYTES with
          | Ok bytes => Some (s, RCommit c id n bytes)
          | Err LimitExceeded => Some (s, RNoteLimit)
          | Err Serialization | Panic => Some (s, RNoteSchema)
          end
      end
  | RNoteLimit => Some (note_contribution_limit_exceeded s, RDrop None)
  | RCommit c id n bytes =>
      match commit_contribution now c bytes n s with
      | (Committed, s) => Some (s, RDrop (Some c))
      | (Retry, s) => Some (s, RNext c id)
      | (Rejected, s) => Some (s, RDrop None)
      end
  | RDrop accepted => Some (drop_record_attempt s, RDone accepted)
  | RDone _ => None
  end.

(** [record] of a thread that is not interrupted. *)
Fixpoint run_record (fuel : nat) (now : Z) (s : AccumulatorState) (r : Recorder) :
    AccumulatorState * Recorder :=
  match fuel with
  | 0%nat => (s, r)
  | S fuel =>
      match record_step now s r with
      | Some (s, r) => run_record fuel now s r
      | None => (s, r)
      end
  end.

(** Without interruption there is no retry: five steps. *)
Definition record (now id : Z) (c : LlmOptimizationContribution) (s : AccumulatorState) :
    bool * AccumulatorState :=
  let '(s, r) := run_record 5 now s (RStart c id) in
  (match r with RDone (Some _) => true | _ => false end, s).

(** [record_all]: every contribution with the clock value and the fresh uuid
    of its turn. *)
Fixpoint record_all (l : list (LlmOptimizationContribution * Z * Z)) (s : AccumulatorState) :
    AccumulatorState :=
  match l with
  | [] => s
  | (c, now, id) :: l =>
      let '(accepted, s) := record now id c s in
      if negb accepted && is_closed s then s else record_all l s
  end.

(** ** Any number of threads *)

Inductive Thread : Type :=
| TRecord (r : Recorder)
| TClose (limitation : option string)
| TEmit (count : nat)
| TFinish
(** Asleep since the given number of notifications. *)
| TWait (since : nat)
| TAnswer (answer : FinishedContributions)
| TIdle.

Definition thread_step (now : Z) (s : AccumulatorState) (t : Thread) :
    option (AccumulatorState * Thread) :=
  match t with
  | TRecord r => '(s, r) ← record_step now s r; Some (s, TRecord r)
  | TClose limitation => Some ((close_for_finalization limitation s).2, TIdle)
  | TEmit count => Some (mark_emitted count s, TIdle)
  | TFinish =>
      let '(answer, s) := finish s in
      Some (s, match answer with Some answer => TAnswer answer | None => TWait (records_settled s) end)
  | TWait since =>
      if bool_decide (records_settled s = since) then None
      else
        match finish_resume s with
        | Some (answer, s) => Some (s, TAnswer answer)
        | None => Some (s, TWait (records_settled s))
        end
  | TAnswer _ | TIdle => None
  end.

Record Config : Type := { acc : AccumulatorState; threads : list Thread }.

Inductive step (c : Config) : Config → Prop :=
| do_step now i t s' t' :
    threads c !! i = Some t → thread_step now (acc c) t = Some (s', t') →
    step c {| acc := s'; threads := <[i := t']> (threads c) |}.

(** A new recorder and threads at the start of their call. *)
Definition initial (c : Config) : Prop :=
  acc c = default_accumulator
  ∧ Forall (λ t,
      match t with
      | TRecord (RStart _ _) | TClose _ | TEmit _ | TFinish => True
      | _ => False
      end) (threads c).

Definition reachable (c : Config) : Prop := ∃ c0, initial c0 ∧ rtc step c0 c.

End Record.


(** ** Lemmas on thread lists *)

Lemma sum_update {A} (f : A → nat) l i x y :
  l !! i = Some x →
  (sum_list_with f (<[i := y]> l) + f x = sum_list_with f l + f y)%nat.
Proof.
  revert i. induction l as [|z l IH]; intros [|i] Hi; csimpl in *; simplify_eq; [lia|].
  specialize (IH i Hi). lia.
Qed.

Lemma concat_update {A B} (f : A → list B) l i x y :
  l !! i = Some x →
  concat (f <$> <[i := y]> l) ++ f x ≡ₚ concat (f <$> l) ++ f y.
Proof.
  revert i. induction l as [|z l IH]; intros [|i] Hi; csimpl in *; simplify_eq.
  - rewrite (Permutation_app_comm (f y)), (Permutation_app_comm (f x)).
    rewrite <-!(assoc_L (++)). by rewrite (Permutation_app_comm (f y)).
  - rewrite <-!(assoc_L (++)). by rewrite (IH i Hi).
Qed.

Lemma sum_positive {A} (f : A → nat) l :
  (0 < sum_list_with f l)%nat → ∃ i x, l !! i = Some x ∧ (0 < f x)%nat.
Proof.
  induction l as [|x l IH]; cbn; [lia|]. intros H. destruct (decide (f x = 0)%nat) as [H0|H0].
  - destruct IH as (i & y & Hi & Hy); [lia|]. by exists (S i), y.
  - exists 0%nat, x. split; [done|lia].
Qed.

Section Concurrent.
Context (serialize : LlmOptimizationContribution → list N * bool).

Definition size_ok (c : LlmOptimizationContribution) (n : Z) : Prop :=
  bounded_json_size serialize c MAX_LLM_OPTIMIZATION_CONTRIBUTION_BYTES = Ok n.

Definition size_of (c : LlmOptimizationContribution) : Z :=
  match bounded_json_size serialize c MAX_LLM_OPTIMIZATION_CONTRIBUTION_BYTES with
  | Ok n => n
  | Err _ | Panic => 0
  end.

Definition sizes (l : list LlmOptimizationContribution) : Z := foldr (λ c n, size_of c + n) 0 l.

Lemma count_chunks_bound limit size chunks n :
  limit < u64_max → count_chunks limit size chunks = Some n → size <= n ∧ (n <= limit ∨ n = size).
Proof.
  intros Hl. revert size. induction chunks as [|m chunks IH]; intros size; cbn; [intros [= <-]; lia|].
  destruct (Z.ltb_spec limit (saturating_add size (Z.of_N m))) as [|Hle]; [done|].
  intros Hc. apply IH in Hc. unfold saturating_add, u64_max in *. lia.
Qed.

Lemma size_ok_bound c n :
  size_ok c n → 0 <= n <= MAX_LLM_OPTIMIZATION_CONTRIBUTION_BYTES ∧ size_of c = n.
Proof.
  intros H. unfold size_of. rewrite H. split; [|done]. unfold size_ok, bounded_json_size in H.
  destruct (serialize c) as [chunks complete].
  destruct (count_chunks _ 0 chunks) as [m|] eqn:Hc; [|done]. destruct complete; [|done].
  injection H as ->. apply count_chunks_bound in Hc; [|done].
  unfold MAX_LLM_OPTIMIZATION_CONTRIBUTION_BYTES in *. lia.
Qed.

Lemma sizes_snoc l c : sizes (l ++ [c]) = sizes l + size_of c.
Proof. unfold sizes. induction l as [|x l IH]; cbn; [lia|]. rewrite IH. lia. Qed.

#[local] Arguments sizes : simpl never.

(** ** The invariant *)

(** Positions are sequence numbers, sizes respect the bound on each. *)
Definition numbered (l : list LlmOptimizationContribution) : Prop :=
  ∀ i c, l !! i = Some c → oc_sequence c = Some (Z.of_nat i) ∧ ∃ n, size_ok c n.

Definition bounded_list (l : list LlmOptimizationContribution) : Prop :=
  numbered l ∧ (length l ≤ MAX_LLM_OPTIMIZATION_CONTRIBUTIONS)%nat
  ∧ sizes l <= MAX_LLM_OPTIMIZATION_TOTAL_CONTRIBUTION_BYTES.

Lemma bounded_nil : bounded_list [].
Proof. split_and!; [by intros ? ? ?|cbn; unfold MAX_LLM_OPTIMIZATION_CONTRIBUTIONS; lia|done]. Qed.

(** A thread between its reservation and its drop. *)
Definition live (t : Thread) : nat :=
  match t with
  | TRecord (RStart _ _) | TRecord (RDone _) => 0
  | TRecord _ => 1
  | _ => 0
  end.

Definition accepted_of (t : Thread) : list LlmOptimizationContribution :=
  match t with
  | TRecord (RDrop a) | TRecord (RDone a) => option_list a
  | _ => []
  end.

Definition answered_of (t : Thread) : list LlmOptimizationContribution :=
  match t with
  | TAnswer a => f_contributions a
  | _ => []
  end.

Definition thread_ok (s : AccumulatorState) (t : Thread) : Prop :=
  match t with
  | TRecord (RCommit c id n bytes) =>
      size_ok c bytes ∧ oc_sequence c = Some (Z.of_nat n)
      ∧ (n < MAX_LLM_OPTIMIZATION_CONTRIBUTIONS)%nat
  | TWait since =>
      closed s = true ∧ (since ≤ records_settled s)%nat
      ∧ (since = records_settled s → 0 < in_flight_records s)%nat
  | TAnswer a => bounded_list (f_contributions a)
  | _ => True
  end.

Record inv (c : Config) : Prop := {
  inv_lock : poisoned (acc c) = false;
  inv_list : bounded_list (contributions (acc c));
  inv_times : length (recorded_at (acc c)) = length (contributions (acc c));
  inv_total : finished (acc c) = false →
    total_contribution_bytes (acc c) = sizes (contributions (acc c));
  inv_flight : in_flight_records (acc c) = sum_list_with live (threads c);
  inv_attempts :
    (in_flight_records (acc c) ≤ attempted_contributions (acc c)
     ≤ MAX_LLM_OPTIMIZATION_CONTRIBUTION_ATTEMPTS)%nat;
  inv_finished : finished (acc c) = true →
    closed (acc c) = true ∧ in_flight_records (acc c) = 0%nat ∧ contributions (acc c) = [];
  inv_threads : Forall (thread_ok (acc c)) (threads c);
  inv_accepted : concat (accepted_of <$> threads c)
    ≡ₚ contributions (acc c) ++ concat (answered_of <$> threads c);
}.

Lemma thread_ok_lookup c i t : inv c → threads c !! i = Some t → thread_ok (acc c) t.
Proof.
  intros Hinv Hi. pose proof (inv_threads c Hinv) as H. rewrite Forall_forall in H.
  apply H. by eapply list_elem_of_lookup_2.
Qed.

(** No record settles without a notification. *)
Definition notified (s s' : AccumulatorState) : Prop :=
  (records_settled s ≤ records_settled s')%nat
  ∧ (records_settled s' = records_settled s → in_flight_records s ≤ in_flight_records s')%nat.

Lemma thread_ok_closed s s' t :
  (closed s = true → closed s' = true) → notified s s' → thread_ok s t → thread_ok s' t.
Proof.
  intros Hc [Hle Hn]. destruct t as [[]| | | | | |]; cbn; auto.
  intros (H1 & H2 & H3). split_and!; [auto|lia|]. intros ->.
  assert (records_settled s' = records_settled s) as Hs by lia. specialize (Hn Hs). lia.
Qed.

(** The fields that only commits and [finish] change. *)
Definition same_evidence (s s' : AccumulatorState) : Prop :=
  poisoned s' = poisoned s ∧ contributions s' = contributions s
  ∧ recorded_at s' = recorded_at s ∧ total_contribution_bytes s' = total_contribution_bytes s
  ∧ finished s' = finished s ∧ (closed s = true → closed s' = true).

Lemma inv_frame c i t s' t' :
  inv c → threads c !! i = Some t → same_evidence (acc c) s' →
  (in_flight_records s' + live t = in_flight_records (acc c) + live t')%nat →
  (in_flight_records s' ≤ attempted_contributions s'
   ≤ MAX_LLM_OPTIMIZATION_CONTRIBUTION_ATTEMPTS)%nat →
  (finished s' = true → in_flight_records s' = 0%nat) → notified (acc c) s' →
  accepted_of t' = accepted_of t → answered_of t' = answered_of t → thread_ok s' t' →
  inv {| acc := s'; threads := <[i := t']> (threads c) |}.
Proof.
  intros [] Hi (Hp & Hc & Hr & Ht & Hf & Hcl) Hfl Hat Hfin Hnot Ha Hans Hok. split; cbn.
  - congruence.
  - by rewrite Hc.
  - by rewrite Hr, Hc.
  - rewrite Hf, Ht, Hc. done.
  - pose proof (sum_update live _ _ _ t' Hi). lia.
  - done.
  - intros H. rewrite Hc. rewrite Hf in H. destruct (inv_finished0 H) as (? & _ & ?).
    rewrite <-Hf in H. auto.
  - apply Forall_insert; [|done]. eapply Forall_impl; [done|]. intros t0. by apply thread_ok_closed.
  - rewrite Hc. pose proof (concat_update accepted_of _ _ _ t' Hi) as H1.
    pose proof (concat_update answered_of _ _ _ t' Hi) as H2.
    rewrite Ha in H1. rewrite Hans in H2.
    apply Permutation_app_inv_r in H1, H2. by rewrite H1, H2.
Qed.

Lemma notified_same s : notified s s.
Proof. done. Qed.

Ltac frame_step :=
  eapply inv_frame; [eassumption|eassumption|..];
  try lazymatch goal with
  | |- notified ?s ?s => apply notified_same
  | |- notified (acc ?c) _ => destruct (acc c); split; cbn in *; lia
  end.

Lemma seal_evidence s : same_evidence s (seal_for_contribution_limit s).
Proof. by destruct s. Qed.

Lemma attempts_evidence a i s : same_evidence s (set_attempts a i s).
Proof. by destruct s. Qed.

(** A live thread is counted. *)
Lemma live_counted c i t :
  inv c → threads c !! i = Some t → (live t ≤ in_flight_records (acc c))%nat.
Proof.
  intros [] Hi. rewrite inv_flight0. apply (sum_list_with_in t live), (list_elem_of_lookup_2 _ i _ Hi).
Qed.

Lemma commit_inv now c i x id n bytes total :
  inv c → threads c !! i = Some (TRecord (RCommit x id n bytes)) → closed (acc c) = false →
  length (contributions (acc c)) = n →
  total = total_contribution_bytes (acc c) + bytes →
  total <= MAX_LLM_OPTIMIZATION_TOTAL_CONTRIBUTION_BYTES →
  inv {| acc := set_contributions (contributions (acc c) ++ [x]) (recorded_at (acc c) ++ [now])
                  total (acc c);
         threads := <[i := TRecord (RDrop (Some x))]> (threads c) |}.
Proof.
  intros Hinv Hi Hcl Hlen -> Hle. destruct (thread_ok_lookup c i _ Hinv Hi) as (Hsz & Hseq & Hn).
  destruct Hinv.
  pose proof (size_ok_bound x bytes Hsz) as [_ Hsize].
  assert (finished (acc c) = false) as Hfin.
  { destruct (finished (acc c)); [|done]. destruct inv_finished0 as [? _]; congruence. }
  specialize (inv_total0 Hfin). destruct inv_list0 as (Hnum & Hl & Hs).
  split; destruct (acc c); cbn in *.
  - done.
  - split_and!.
    + intros j y Hj. apply lookup_app_Some in Hj as [Hj|[Hge Hj]]; [by apply Hnum|].
      apply list_lookup_singleton_Some in Hj as [Hj <-]. split; [|by exists bytes].
      rewrite Hseq. f_equal. lia.
    + rewrite length_app. cbn. unfold MAX_LLM_OPTIMIZATION_CONTRIBUTIONS in *. lia.
    + rewrite sizes_snoc. lia.
  - rewrite !length_app, inv_times0. done.
  - intros _. rewrite sizes_snoc. lia.
  - rewrite inv_flight0. pose proof (sum_update live _ _ _ (TRecord (RDrop (Some x))) Hi) as H.
    cbn in H. lia.
  - done.
  - congruence.
  - apply Forall_insert; [|done]. eapply Forall_impl; [done|]. intros t. by apply thread_ok_closed.
  - pose proof (concat_update accepted_of _ _ _ (TRecord (RDrop (Some x))) Hi) as H1.
    pose proof (concat_update answered_of _ _ _ (TRecord (RDrop (Some x))) Hi) as H2.
    cbn in H1, H2. rewrite app_nil_r in H1. rewrite !app_nil_r in H2.
    rewrite H1, H2, inv_accepted0. rewrite <-!(assoc_L (++)). f_equiv. apply Permutation_app_comm.
Qed.

Lemma record_step_inv now c i r s' r' :
  inv c → threads c !! i = Some (TRecord r) →
  record_step serialize now (acc c) r = Some (s', r') →
  inv {| acc := s'; threads := <[i := TRecord r']> (threads c) |}.
Proof.
  intros Hinv Hi Hstep. pose proof (live_counted c i _ Hinv Hi) as Hlive.
  pose proof (inv_lock c Hinv) as Hlock. pose proof (inv_attempts c Hinv) as Hat.
  assert (finished (acc c) = true → in_flight_records (acc c) = 0%nat) as Hfin
    by (intros H; apply (inv_finished c Hinv H)).
  assert (finished (acc c) = true → closed (acc c) = true) as Hfc
    by (intros H; apply (inv_finished c Hinv H)).
  destruct r as [x id|x id| |x id| |x id n bytes|a|a]; cbn in Hstep, Hlive.
  - unfold reserve_record_attempt in Hstep. rewrite Hlock in Hstep.
    destruct (closed (acc c)) eqn:Hcl; [|case_bool_decide as Hmax]; simplify_eq.
    + frame_step; try done; by destruct (acc c).
    + frame_step; try done; [apply seal_evidence|by destruct (acc c)..].
    + frame_step; try done; [apply attempts_evidence|..]; destruct (acc c); cbn in *; [lia..|].
      intros H. by specialize (Hfc H).
  - simplify_eq. frame_step; try done; destruct (payload_schema_is_valid x); done.
  - simplify_eq. unfold note_invalid_payload_schema. destruct (_ || _); frame_step; try done;
      by destruct (acc c).
  - unfold next_contribution_sequence in Hstep. rewrite Hlock in Hstep.
    destruct (closed (acc c)) eqn:Hcl; cbn in Hstep; [simplify_eq; by frame_step|].
    case_bool_decide as Hmax; [simplify_eq; by frame_step|].
    destruct (bounded_json_size _ _ _) as [bytes|[]|] eqn:Hb; simplify_eq; frame_step; try done.
    split_and!; [done|done|lia].
  - simplify_eq. unfold note_contribution_limit_exceeded. destruct (_ || _); frame_step; try done;
      by destruct (acc c).
  - unfold commit_contribution in Hstep. rewrite Hlock in Hstep.
    destruct (closed (acc c)) eqn:Hcl; cbn in Hstep; [simplify_eq; by frame_step|].
    case_bool_decide as Hn; cbn in Hstep; [|simplify_eq; by frame_step].
    destruct (checked_add _ _) as [total|] eqn:Htot.
    2: { simplify_eq. frame_step; try done; [apply seal_evidence|by destruct (acc c)..]. }
    destruct (Z.ltb_spec MAX_LLM_OPTIMIZATION_TOTAL_CONTRIBUTION_BYTES total) as [Hgt|Hle];
      simplify_eq.
    { frame_step; try done; [apply seal_evidence|by destruct (acc c)..]. }
    apply checked_add_Some in Htot as [-> _]. by eapply commit_inv.
  - simplify_eq. unfold drop_record_attempt. rewrite Hlock.
    frame_step; try done; [by destruct (acc c)|..]; destruct (acc c); cbn in *; [lia..|].
    intros H. specialize (Hfin H). lia.
  - done.
Qed.

Lemma settle_inv c i t a s' :
  inv c → threads c !! i = Some t → live t = 0%nat → accepted_of t = [] → answered_of t = [] →
  finish_resume (set_closed (acc c)) = Some (a, s') →
  inv {| acc := s'; threads := <[i := TAnswer a]> (threads c) |}.
Proof.
  intros Hinv Hi Hlive Hacc Hans Hres. pose proof Hinv as []. unfold finish_resume in Hres.
  pose proof bounded_nil as Hnil.
  assert (poisoned (set_closed (acc c)) = false) as Hp by (by destruct (acc c)).
  assert (finished (set_closed (acc c)) = finished (acc c)) as Hf by (by destruct (acc c)).
  assert (in_flight_records (set_closed (acc c)) = in_flight_records (acc c)) as Hfl
    by (by destruct (acc c)).
  assert (contributions (set_closed (acc c)) = contributions (acc c)) as Hct
    by (by destruct (acc c)).
  rewrite Hp, Hf, Hfl in Hres. destruct (finished (acc c)) eqn:Hfin.
  { simplify_eq. frame_step; try done; [by destruct (acc c)|..];
      destruct (acc c); cbn in *; naive_solver lia. }
  case_bool_decide as H0; [|done]. injection Hres as <- <-.
  set (a := {| f_contributions := _; f_limitations := _ |}).
  pose proof (sum_update live _ _ _ (TAnswer a) Hi) as Hsum.
  pose proof (concat_update accepted_of _ _ _ (TAnswer a) Hi) as H1.
  pose proof (concat_update answered_of _ _ _ (TAnswer a) Hi) as H2.
  rewrite Hacc in H1. rewrite Hans in H2. unfold accepted_of at 3 in H1. unfold answered_of at 3 in H2.
  rewrite !app_nil_r in H1. rewrite app_nil_r in H2.
  assert (f_contributions a = contributions (acc c)) as Ha by (by destruct (acc c)).
  clearbody a. split; cbn.
  - by destruct (acc c).
  - destruct (acc c); cbn. exact Hnil.
  - by destruct (acc c).
  - by destruct (acc c).
  - destruct (acc c); cbn in *. lia.
  - by destruct (acc c).
  - intros _. destruct (acc c); cbn in *. done.
  - apply Forall_insert; [|cbn; by rewrite Ha].
    eapply Forall_impl; [done|]. intros t0. apply thread_ok_closed; [by destruct (acc c)|].
    by destruct (acc c).
  - rewrite H1, H2, inv_accepted0, Ha. destruct (acc c); cbn. apply Permutation_app_comm.
Qed.

Lemma closed_evidence s : same_evidence s (set_closed s).
Proof. by destruct s. Qed.

Lemma set_closed_same s : closed s = true → set_closed s = s.
Proof. destruct s; cbn. by intros ->. Qed.

Lemma resume_none s : finish_resume s = None → (0 < in_flight_records s)%nat.
Proof.
  unfold finish_resume. destruct (poisoned s), (finished s); try done. case_bool_decide; [done|lia].
Qed.

Lemma close_frame l s :
  same_evidence s (close_for_finalization l s).2
  ∧ in_flight_records (close_for_finalization l s).2 = in_flight_records s
  ∧ attempted_contributions (close_for_finalization l s).2 = attempted_contributions s
  ∧ notified s (close_for_finalization l s).2.
Proof.
  unfold close_for_finalization. destruct (_ || _); [done|].
  destruct l, (has_evidence s), s; done.
Qed.

Lemma thread_step_inv now c i t s' t' :
  inv c → threads c !! i = Some t → thread_step serialize now (acc c) t = Some (s', t') →
  inv {| acc := s'; threads := <[i := t']> (threads c) |}.
Proof.
  intros Hinv Hi Hstep. pose proof (inv_attempts c Hinv) as Hat.
  assert (finished (acc c) = true → in_flight_records (acc c) = 0%nat) as Hfin
    by (intros H; apply (inv_finished c Hinv H)).
  pose proof (inv_lock c Hinv) as Hlock. destruct t as [r|l|n| | |a|]; cbn in Hstep.
  - destruct (record_step _ _ _ _) as [[s1 r1]|] eqn:Hr; simplify_eq/=. by eapply record_step_inv.
  - simplify_eq. destruct (close_frame l (acc c)) as (He & Hf & Ha & Hn).
    frame_step; rewrite ?Hf, ?Ha; try done; destruct He as (_ & _ & _ & _ & -> & _); done.
  - simplify_eq. unfold mark_emitted. rewrite Hlock. frame_step; try done; by destruct (acc c).
  - unfold finish in Hstep. rewrite Hlock in Hstep. destruct (finished (acc c)) eqn:Hf.
    { simplify_eq. frame_step; try done; [by intros _; apply Hfin|apply bounded_nil]. }
    destruct (finish_resume _) as [[a s1]|] eqn:Hr; simplify_eq; [by eapply settle_inv|].
    apply resume_none in Hr.
    frame_step; try done; [apply closed_evidence|..]; destruct (acc c); cbn in *; [lia|lia|congruence|].
    split_and!; [done|lia|done].
  - destruct (thread_ok_lookup c i _ Hinv Hi) as (Hcl & Hle & _). case_bool_decide as Hn; [done|].
    destruct (finish_resume _) as [[a s1]|] eqn:Hr; simplify_eq/=.
    + eapply settle_inv; try done. by rewrite set_closed_same.
    + frame_step; try done. split_and!; [done..|]. intros _. by eapply resume_none.
  - done.
  - done.
Qed.

Lemma initial_inv c : initial c → inv c.
Proof.
  intros [Hacc Hth]. destruct c as [s l]; cbn in *; subst s.
  assert (sum_list_with live l = 0%nat ∧ concat (accepted_of <$> l) = []
    ∧ concat (answered_of <$> l) = [] ∧ Forall (thread_ok default_accumulator) l) as (H1 & H2 & H3 & H4).
  { induction Hth as [|t l Ht _ (IH1 & IH2 & IH3 & IH4)]; [done|].
    destruct t as [[]| | | | | |]; try done; cbn; rewrite IH1, IH2, IH3; auto. }
  split; cbn; try done.
  - apply bounded_nil.
  - unfold MAX_LLM_OPTIMIZATION_CONTRIBUTION_ATTEMPTS; lia.
  - by rewrite H2, H3.
Qed.

Lemma recorder_inv c : reachable serialize c → inv c.
Proof.
  intros (c0 & H0 & Hsteps). apply initial_inv in H0.
  induction Hsteps as [|x y z [now i t s' t' Hi Ht] _ IH]; [done|]. apply IH.
  by eapply thread_step_inv.
Qed.

(** ** Settling *)

(** Commits the state still allows; each may send every other thread back. *)
Definition potential (s : AccumulatorState) : nat :=
  if closed s then 0 else MAX_LLM_OPTIMIZATION_CONTRIBUTIONS - length (contributions s).

Definition rank (s : AccumulatorState) (t : Thread) : nat :=
  match t with
  | TRecord (RStart _ _) => 7
  | TRecord (RCheck _ _) => 6
  | TRecord (RNext _ _) => 4
  | TRecord RNoteSchema | TRecord RNoteLimit => 2
  | TRecord (RCommit _ _ n _) =>
      if closed s || bool_decide (length (contributions s) = n) then 3 else 5
  | TRecord (RDrop _) => 1
  | TRecord (RDone _) => 0
  | TFinish => 3
  | TWait since => if bool_decide (records_settled s = since) then 1 else 2
  | TClose _ | TEmit _ => 1
  | TAnswer _ | TIdle => 0
  end.

(** A record that has not settled may yet wake every other thread. *)
Definition unsettled (t : Thread) : nat :=
  match t with
  | TRecord (RDone _) => 0
  | TRecord _ => 1
  | _ => 0
  end.

Definition weight (c : Config) : nat :=
  potential (acc c) * (2 * length (threads c)) + sum_list_with unsettled (threads c) * length (threads c)
  + sum_list_with (rank (acc c)) (threads c).

(** One element is replaced while every other grows by at most [k]. *)
Lemma sum_replace {A} (f g : A → nat) k l i x y :
  l !! i = Some x → (∀ z, f z ≤ g z + k)%nat →
  (sum_list_with f (<[i := y]> l) + g x + k ≤ sum_list_with g l + f y + k * length l)%nat.
Proof.
  intros Hi H. assert (∀ l, sum_list_with f l ≤ sum_list_with g l + k * length l)%nat as Hall.
  { clear l Hi. intros l. induction l as [|z l IH]; cbn; [lia|]. specialize (H z). lia. }
  revert i Hi. induction l as [|z l IH]; intros [|i] Hi; csimpl in *; simplify_eq.
  - specialize (Hall l). nia.
  - specialize (IH i Hi). specialize (H z). nia.
Qed.

(** A step that keeps the potential's evidence: ranks of other threads do not
    rise. *)
Definition calmer (s s' : AccumulatorState) : Prop :=
  records_settled s' = records_settled s
  ∧ (closed s' = true ∨ (closed s' = closed s ∧ contributions s' = contributions s)).

Lemma rank_calmer s s' t : calmer s s' → (rank s' t ≤ rank s t)%nat.
Proof.
  intros [Hs H]. destruct t as [[]| | | | | |]; cbn; rewrite ?Hs; try lia.
  destruct H as [->|[-> ->]]; cbn; [|lia]. destruct (_ || _); lia.
Qed.

Lemma weight_calmer c i t s' t' :
  threads c !! i = Some t → calmer (acc c) s' → (unsettled t' ≤ unsettled t)%nat →
  (rank s' t' < rank (acc c) t)%nat →
  (weight {| acc := s'; threads := <[i := t']> (threads c) |} < weight c)%nat.
Proof.
  intros Hi Hcalm Hu Hlt. unfold weight; cbn. rewrite length_insert.
  assert (potential s' ≤ potential (acc c))%nat as Hp.
  { unfold potential. destruct Hcalm as [_ [->|[-> ->]]]; lia. }
  pose proof (sum_update unsettled _ _ _ t' Hi) as Hsu.
  pose proof (sum_replace (rank s') (rank (acc c)) 0 _ _ _ t' Hi) as H.
  specialize (H (λ z, Nat.le_trans _ _ _ (rank_calmer _ _ z Hcalm) (Nat.le_add_r _ _))). nia.
Qed.

Lemma weight_commit now c i x id n bytes total :
  threads c !! i = Some (TRecord (RCommit x id n bytes)) → closed (acc c) = false →
  length (contributions (acc c)) = n → (n < MAX_LLM_OPTIMIZATION_CONTRIBUTIONS)%nat →
  (weight {| acc := set_contributions (contributions (acc c) ++ [x]) (recorded_at (acc c) ++ [now])
               total (acc c);
             threads := <[i := TRecord (RDrop (Some x))]> (threads c) |} < weight c)%nat.
Proof.
  intros Hi Hcl Hlen Hn. unfold weight; cbn. rewrite length_insert. set (s' := set_contributions _ _ _ _).
  opose proof (sum_replace (rank s') (rank (acc c)) 2 _ _ _ (TRecord (RDrop (Some x))) Hi _) as H.
  { intros t. destruct t as [[]| | | | | |]; cbn; repeat case_match; lia. }
  pose proof (sum_update unsettled _ _ _ (TRecord (RDrop (Some x))) Hi) as Hu. cbn in Hu.
  assert (potential (acc c) = S (potential s')) as ->.
  { unfold potential. subst s'. destruct (acc c); cbn in *. rewrite Hcl, length_app; cbn.
    unfold MAX_LLM_OPTIMIZATION_CONTRIBUTIONS in *. lia. }
  cbn [rank] in H. rewrite Hcl, bool_decide_eq_true_2 in H by done. cbn in H. nia.
Qed.

Lemma weight_drop c i a :
  threads c !! i = Some (TRecord (RDrop a)) → poisoned (acc c) = false →
  (weight {| acc := drop_record_attempt (acc c); threads := <[i := TRecord (RDone a)]> (threads c) |}
   < weight c)%nat.
Proof.
  intros Hi Hlock. unfold weight; cbn. rewrite length_insert. unfold drop_record_attempt. rewrite Hlock.
  set (s' := notify_all _). opose proof (sum_replace (rank s') (rank (acc c)) 1 _ _ _ (TRecord (RDone a)) Hi _) as H.
  { intros t. subst s'. destruct t as [[]| | | | | |], (acc c); cbn; repeat case_match; lia. }
  pose proof (sum_update unsettled _ _ _ (TRecord (RDone a)) Hi) as Hu. cbn in Hu, H.
  assert (potential s' = potential (acc c)) as -> by (subst s'; by destruct (acc c)). nia.
Qed.

Lemma record_step_weight now c i r s' r' :
  inv c → threads c !! i = Some (TRecord r) →
  record_step serialize now (acc c) r = Some (s', r') →
  (weight {| acc := s'; threads := <[i := TRecord r']> (threads c) |} < weight c)%nat.
Proof.
  intros Hinv Hi Hstep. pose proof (inv_lock c Hinv) as Hlock.
  pose proof (thread_ok_lookup c i _ Hinv Hi) as Hok.
  destruct r as [x id|x id| |x id| |x id n bytes|a|a]; cbn in Hstep.
  - unfold reserve_record_attempt in Hstep. rewrite Hlock in Hstep.
    destruct (closed (acc c)) eqn:Hcl; [|case_bool_decide]; simplify_eq; apply (weight_calmer _ _ _ _ _ Hi);
      cbn; try lia; unfold calmer; destruct (acc c); cbn in *; auto.
  - simplify_eq. apply (weight_calmer _ _ _ _ _ Hi); [by split; [|right]|..];
      destruct (payload_schema_is_valid x); cbn; lia.
  - simplify_eq. apply (weight_calmer _ _ _ _ _ Hi); [|cbn; lia..].
    unfold note_invalid_payload_schema. split; [|right]; destruct (_ || _), (acc c); done.
  - unfold next_contribution_sequence in Hstep. rewrite Hlock in Hstep.
    destruct (closed (acc c)) eqn:Hcl; cbn in Hstep;
      [simplify_eq; apply (weight_calmer _ _ _ _ _ Hi); [by split; [|right]|cbn; lia..]|].
    case_bool_decide as Hmax; [simplify_eq; apply (weight_calmer _ _ _ _ _ Hi); [by split; [|right]|cbn; lia..]|].
    destruct (bounded_json_size _ _ _) as [bytes|[]|]; simplify_eq;
      (apply (weight_calmer _ _ _ _ _ Hi); [by split; [|right]|cbn; lia|cbn; try lia]).
    rewrite Hcl, bool_decide_eq_true_2 by done. cbn. lia.
  - simplify_eq. apply (weight_calmer _ _ _ _ _ Hi); [|cbn; lia..].
    unfold note_contribution_limit_exceeded.
    split; [by destruct (_ || _), (acc c)|]. destruct (_ || _), (acc c); [by right..|by left].
  - unfold commit_contribution in Hstep. rewrite Hlock in Hstep.
    destruct (closed (acc c)) eqn:Hcl; cbn in Hstep;
      [simplify_eq; apply (weight_calmer _ _ _ _ _ Hi); [by split; [|right]|cbn; rewrite ?Hcl; cbn; lia..]|].
    case_bool_decide as Hn; cbn in Hstep.
    2: { simplify_eq; apply (weight_calmer _ _ _ _ _ Hi); [by split; [|right]|cbn; lia|cbn].
         rewrite Hcl, bool_decide_eq_false_2 by done. cbn. lia. }
    destruct (checked_add _ _) as [total|]; [destruct (_ <? _)|]; simplify_eq.
    + apply (weight_calmer _ _ _ _ _ Hi); [|cbn; lia|cbn; destruct (_ || _); lia].
      split; [|left]; by destruct (acc c).
    + by apply (weight_commit _ _ _ _ _ _ _ _ Hi); destruct Hok as (_ & _ & Hlt).
    + apply (weight_calmer _ _ _ _ _ Hi); [|cbn; lia|cbn; destruct (_ || _); lia].
      split; [|left]; by destruct (acc c).
  - simplify_eq. by apply (weight_drop _ _ _ Hi).
  - done.
Qed.

Lemma settle_calmer s a s' :
  finish_resume (set_closed s) = Some (a, s') → calmer s s'.
Proof.
  intros H. unfold finish_resume, finish_settled in H. destruct s; cbn in *.
  split; [|left]; repeat case_match; by simplify_eq.
Qed.

Lemma step_weight c c' : inv c → step serialize c c' → (weight c' < weight c)%nat.
Proof.
  intros Hinv [now i t s' t' Hi Hstep]. pose proof (inv_lock c Hinv) as Hlock.
  destruct t as [r|l|n| |since|a|]; cbn in Hstep.
  - destruct (record_step _ _ _ _) as [[s1 r1]|] eqn:Hr; simplify_eq/=. by eapply record_step_weight.
  - simplify_eq. apply (weight_calmer _ _ _ _ _ Hi); [|cbn; lia..].
    unfold close_for_finalization. destruct (_ || _); [by split; [|right]|].
    split; [|left]; destruct l, (has_evidence (acc c)), (acc c); done.
  - simplify_eq. apply (weight_calmer _ _ _ _ _ Hi); [|cbn; lia..].
    unfold mark_emitted. split; [|right]; destruct (poisoned _), (acc c); done.
  - unfold finish in Hstep. rewrite Hlock in Hstep.
    destruct (finished (acc c)); [|destruct (finish_resume _) as [[a s1]|] eqn:Hr]; simplify_eq;
      apply (weight_calmer _ _ _ _ _ Hi); cbn; rewrite ?bool_decide_eq_true_2 by done; try lia.
    + by split; [|right].
    + by eapply settle_calmer.
    + split; [|left]; by destruct (acc c).
  - destruct (thread_ok_lookup c i _ Hinv Hi) as (Hcl & _). case_bool_decide as Hn; [done|].
    destruct (finish_resume _) as [[a s1]|] eqn:Hr; simplify_eq/=;
      apply (weight_calmer _ _ _ _ _ Hi); cbn; rewrite ?(bool_decide_eq_false_2 (_ = since)) by done;
      rewrite ?bool_decide_eq_true_2 by done; try lia.
    + eapply settle_calmer. by rewrite set_closed_same.
    + by split; [|right].
  - done.
  - done.
Qed.

Definition returned (t : Thread) : Prop :=
  match t with
  | TRecord (RDone _) | TAnswer _ | TIdle => True
  | _ => False
  end.

(** Nobody waits for a thread that is gone. *)
Lemma stuck_returned c :
  inv c → (∀ c', ¬ step serialize c c') → Forall returned (threads c).
Proof.
  intros Hinv Hstuck.
  assert (∀ i t, threads c !! i = Some t → thread_step serialize 0 (acc c) t = None) as Hnone.
  { intros i t Hi. destruct (thread_step _ _ _ _) as [[s' t']|] eqn:Ht; [|done].
    destruct (Hstuck _ (do_step _ _ _ _ _ _ _ Hi Ht)). }
  assert (∀ i r, threads c !! i = Some (TRecord r) → ∃ a, r = RDone a) as Hrec.
  { intros i r Hi. specialize (Hnone i _ Hi). destruct r; cbn in Hnone; try done; [| | |by eexists].
    - by destruct (reserve_record_attempt _).
    - destruct (next_contribution_sequence _); try done.
      by destruct (bounded_json_size _ _ _) as [|[]|].
    - by destruct (commit_contribution _ _ _ _ _) as [[] ?]. }
  assert (in_flight_records (acc c) = 0%nat) as H0.
  { rewrite (inv_flight c Hinv). destruct (decide (sum_list_with live (threads c) = 0%nat)) as [|H]; [done|].
    destruct (sum_positive live (threads c)) as (i & t & Hi & Hl); [lia|].
    destruct t as [r| | | | | |]; cbn in Hl; try lia.
    destruct (Hrec i r Hi) as [a ->]. lia. }
  apply Forall_lookup. intros i t Hi. pose proof (Hnone i t Hi) as Hn.
  destruct t as [r| | | | | |]; cbn in Hn; try done.
  - by destruct (Hrec i r Hi) as [a ->].
  - by destruct (finish _).
  - destruct (thread_ok_lookup c i _ Hinv Hi) as (_ & _ & Hw). case_bool_decide as Hs.
    { specialize (Hw (eq_sym Hs)). lia. }
    by destruct (finish_resume (acc c)) as [[]|].
Qed.

Lemma nsteps_weight n c c' :
  inv c → nsteps (step serialize) n c c' → inv c' ∧ (n + weight c' ≤ weight c)%nat.
Proof.
  intros Hinv Hsteps. induction Hsteps as [|n x y z Hxy _ IH]; [split; [done|lia]|].
  pose proof (step_weight x y Hinv Hxy). destruct Hxy as [now i t s' t' Hi Ht].
  destruct IH as [IH1 IH2]; [by eapply thread_step_inv|]. split; [done|lia].
Qed.

Lemma initial_weight c :
  initial c → (weight c ≤ (135 + length (threads c)) * length (threads c))%nat.
Proof.
  intros [Ha _]. unfold weight. rewrite Ha.
  assert (sum_list_with (rank default_accumulator) (threads c) ≤ 7 * length (threads c))%nat.
  { induction (threads c) as [|t l IH]; cbn; [lia|].
    assert (rank default_accumulator t ≤ 7)%nat; [|lia].
    destruct t as [[]| | | | | |]; cbn; try lia; case_match; lia. }
  assert (sum_list_with unsettled (threads c) ≤ length (threads c))%nat.
  { clear. induction (threads c) as [|t l IH]; cbn; [lia|].
    assert (unsettled t ≤ 1)%nat; [destruct t as [[]| | | | | |]; cbn; lia|lia]. }
  unfold potential, MAX_LLM_OPTIMIZATION_CONTRIBUTIONS; cbn. nia.
Qed.

(** A thread that wakes up without a notification waits again. *)
Lemma spurious_wakeup c i :
  inv c → threads c !! i = Some (TWait (records_settled (acc c))) → finish_resume (acc c) = None.
Proof.
  intros Hinv Hi. destruct (thread_ok_lookup c i _ Hinv Hi) as (_ & _ & Hw). specialize (Hw eq_refl).
  unfold finish_resume. rewrite (inv_lock c Hinv), bool_decide_eq_false_2 by lia.
  destruct (finished (acc c)) eqn:Hf; [|done]. destruct (inv_finished c Hinv Hf) as (_ & H0 & _). lia.
Qed.
End Concurrent.

(** C17: whatever the interleaving of recording, emitting, closing and
    finishing threads, the recorder keeps at most 64 contributions of at most
    256 KiB together, numbered by their positions, with a timestamp each; the
    accepted contributions are exactly those it keeps and those a [finish]
    answered with, none lost and none answered twice; every answer respects the
    same bounds; and the reservation counter counts the threads inside
    [record]. *)
Theorem recorder_bounded_and_lossless serialize (c : Config) (H : reachable serialize c) :
  bounded_list serialize (contributions (acc c))
  ∧ length (recorded_at (acc c)) = length (contributions (acc c))
  ∧ concat (accepted_of <$> threads c)
      ≡ₚ contributions (acc c) ++ concat (answered_of <$> threads c)
  ∧ Forall (λ t, ∀ a, t = TAnswer a → bounded_list serialize (f_contributions a)) (threads c)
  ∧ in_flight_records (acc c) = sum_list_with live (threads c)
  ∧ (attempted_contributions (acc c) ≤ MAX_LLM_OPTIMIZATION_CONTRIBUTION_ATTEMPTS)%nat.
Proof.
  pose proof (recorder_inv serialize c H) as Hinv. pose proof Hinv as []. split_and!; try done; [|lia].
  apply Forall_lookup. intros i t Hi a ->. exact (thread_ok_lookup serialize c i _ Hinv Hi).
Qed.

(** C18: recording and finishing always settle.  However the steps of [k]
    threads on a new recorder are interleaved there are at most
    [(135 + k) * k] of them, retries of interrupted commits and looks of
    woken threads included; and when no thread can take a step every call has
    returned: a [finish] that sleeps until the records in flight settle is
    always notified. *)
Theorem recorder_settles serialize (c c' : Config) n (H0 : initial c)
    (H : nsteps (step serialize) n c c') :
  (n ≤ (135 + length (threads c)) * length (threads c))%nat
  ∧ ((∀ c'', ¬ step serialize c' c'') → Forall returned (threads c')).
Proof.
  destruct (nsteps_weight serialize n c c' (initial_inv serialize c H0) H) as [Hinv Hw].
  pose proof (initial_weight c H0). split; [lia|]. by apply stuck_returned.
Qed.

(** Marking one contribution as emitted drops the first of the unemitted. *)
Lemma unemitted_mark s :
  unemitted_with_timestamps (mark_emitted 1 s) = tail (unemitted_with_timestamps s).
Proof.
  unfold unemitted_with_timestamps, mark_emitted. destruct (poisoned s) eqn:Hp; [by rewrite Hp|].
  replace (poisoned (set_emitted _ s)) with false by (by destruct s).
  destruct s as [cs ra tot at_ fl em]; cbn in *. clear Hp.
  destruct (decide (em < length cs)%nat) as [Hlt|Hge].
  - replace ((em + 1) `min` length cs)%nat with (S em) by lia.
    rewrite (Nat.min_l (S em)), (Nat.min_l em) by lia.
    destruct (lookup_lt_is_Some_2 cs em Hlt) as [c Hc]. rewrite (drop_S cs c em Hc).
    destruct (ra !! em) as [t|] eqn:Ht; [by rewrite (drop_S ra t em Ht)|].
    apply lookup_ge_None in Ht. rewrite !(drop_ge ra) by lia. by rewrite !zip_with_nil_r.
  - rewrite !Nat.min_r by lia. by rewrite !(drop_ge cs) by lia.
Qed.

Lemma run_record_S serialize fuel now s r :
  run_record serialize (S fuel) now s r =
  match record_step serialize now s r with
  | Some (s, r) => run_record serialize fuel now s r
  | None => (s, r)
  end.
Proof. done. Qed.

(** The sequence a thread was just given is still the next one. *)
Lemma commit_no_retry now c bytes n s :
  next_contribution_sequence s = Sequence n → (commit_contribution now c bytes n s).1 ≠ Retry.
Proof.
  unfold next_contribution_sequence, commit_contribution.
  destruct (poisoned s || closed s); [done|]. case_bool_decide; [done|].
  intros [= <-]. rewrite bool_decide_eq_true_2 by done. repeat case_match; done.
Qed.

(** Without interruption [record] returns within its five steps. *)
Lemma record_returns serialize now c id s :
  ∃ s' a, run_record serialize 5 now s (RStart c id) = (s', RDone a).
Proof.
  cbn [run_record record_step]. destruct (reserve_record_attempt s) as [[] s1]; [|by do 2 eexists].
  cbn [record_step]. destruct (payload_schema_is_valid c); [|by do 2 eexists]. cbn [record_step].
  destruct (next_contribution_sequence s1) as [| |n] eqn:Hn; [by do 2 eexists..|].
  destruct (bounded_json_size _ _ _) as [bytes|[]|]; [|by do 2 eexists..].
  pose proof (commit_no_retry now (set_identity id (Z.of_nat n) c) bytes n s1 Hn) as Hr.
  cbn [record_step]. destruct (commit_contribution _ _ _ _ _) as [[] s'];
    [by do 2 eexists|done|by do 2 eexists].
Qed.

(** ** Witnesses: two recorders race for the first sequence while a third
    thread finishes. *)

(** The steps of a schedule, one thread index and clock value each. *)
Fixpoint run (serialize : LlmOptimizationContribution → list N * bool) (l : list (Z * nat))
    (c : Config) : option Config :=
  match l with
  | [] => Some c
  | (now, i) :: l =>
      t ← threads c !! i;
      '(s', t') ← thread_step serialize now (acc c) t;
      run serialize l {| acc := s'; threads := <[i := t']> (threads c) |}
  end.

Lemma run_nsteps serialize l c c' :
  run serialize l c = Some c' → nsteps (step serialize) (length l) c c'.
Proof.
  revert c. induction l as [|[now i] l IH]; cbn; intros c H; [by simplify_eq; constructor|].
  destruct (threads c !! i) as [t|] eqn:Hi; cbn in H; [|done].
  destruct (thread_step _ _ _ _) as [[s' t']|] eqn:Ht; cbn in H; [|done].
  econstructor; [by econstructor|by apply IH].
Qed.

Definition demo_serialize (c : LlmOptimizationContribution) : list N * bool := ([100%N; 20%N], true).
Definition demo_contribution (producer : string) : LlmOptimizationContribution :=
  new_contribution producer INPUT_COMPRESSION.
Definition demo_config : Config := {|
  acc := default_accumulator;
  threads := [TRecord (RStart (demo_contribution "a") 1); TRecord (RStart (demo_contribution "b") 2);
              TFinish];
|}.
(** Thread 1 loses the race and retries; the finish waits for both and is
    woken twice. *)
Definition demo_schedule : list (Z * nat) :=
  (λ i, (0, i)) <$> [0; 1; 0; 1; 0; 1; 0; 1; 1; 1; 2; 0; 2; 1; 2]%nat.
Definition demo_final : Config :=
  default demo_config (run demo_serialize demo_schedule demo_config).

Lemma demo_initial : initial demo_config.
Proof. split; [done|]. repeat constructor. Qed.

Lemma recorder_bounded_and_lossless_witness :
  reachable demo_serialize demo_final
  ∧ bounded_list demo_serialize (contributions (acc demo_final))
  ∧ length (concat (answered_of <$> threads demo_final)) = 2%nat.
Proof.
  assert (reachable demo_serialize demo_final) as H.
  { exists demo_config. split; [apply demo_initial|].
    eapply rtc_nsteps_2, (run_nsteps _ demo_schedule). vm_compute. reflexivity. }
  split; [exact H|]. split; [apply (recorder_bounded_and_lossless _ _ H)|].
  vm_compute. reflexivity.
Defined.

Lemma recorder_settles_witness :
  (15 ≤ (135 + length (threads demo_config)) * length (threads demo_config))%nat ∧ Forall returned (threads demo_final).
Proof.
  assert (nsteps (step demo_serialize) 15 demo_config demo_final) as H.
  { apply (run_nsteps _ demo_schedule). vm_compute. reflexivity. }
  destruct (recorder_settles demo_serialize demo_config demo_final 15 demo_initial H) as [Hn Hr].
  split; [exact Hn|]. apply Hr. intros c'' [now i t s' t' Hi Ht].
  do 3 (destruct i as [|i]; [vm_compute in Hi; injection Hi as <-; discriminate Ht|]).
  vm_compute in Hi. discriminate Hi.
Defined.
