(* ===== verification/Summary.v ===== *)
(** * Optimization summaries ([crates/runtime/src/api/optimization.rs])

    The summary of a finished LLM call: the token totals of the applied
    contributions with their overflow flags, the usage the call would have had
    without them, both prices and the difference.

    - The cost estimator is the trait [CostEstimator]; the pricing resolver is
      its instance.
    - The response is passed as a value and returned as it is left.
    - [Notes] carries the mutable limitations and the two flags the code
      passes along with them. *)

From stdpp Require Import base gmap strings list sorting.
From S2P Require Import Prelude Text Errors Json Float64 LlmTypes Pricing Optimization Events.

Local Open Scope Z_scope.
Local Open Scope relay_scope.

Class CostEstimator : Type :=
  estimate_for : option string → string → Usage → option CostEstimate.

#[export] Instance resolver_estimator (resolver : PricingResolver) : CostEstimator :=
  estimate_cost_for_provider resolver.

(** ** Checked totals *)

Record TokenOverflowFlags : Type := {
  of_prompt : bool; of_completion : bool; of_cache_read : bool; of_cache_write : bool;
  of_total : bool;
}.

Definition overflow_any (o : TokenOverflowFlags) : bool :=
  of_prompt o || of_completion o || of_cache_read o || of_cache_write o || of_total o.

Record CheckedTokenTotals : Type := {
  values : LlmOptimizationTokens;
  overflow : TokenOverflowFlags;
  missing_total : bool;
  inconsistent_total : bool;
}.

Definition default_totals : CheckedTokenTotals := {|
  values := default_tokens; overflow := Build_TokenOverflowFlags false false false false false;
  missing_total := false; inconsistent_total := false;
|}.

(** The target and its overflow flag. *)
Definition checked_accumulate (target value : option Z) (overflowed : bool) : option Z * bool :=
  if overflowed then (target, overflowed)
  else
    match value with
    | None => (target, overflowed)
    | Some value =>
        match checked_add (default 0 target) value with
        | Some total => (Some total, overflowed)
        | None => (None, true)
        end
    end.

Fixpoint checked_option_sum_loop (present : bool) (total : Z) (l : list (option Z)) :
    option Z * bool :=
  match l with
  | [] => (if present then Some total else None, false)
  | None :: l => checked_option_sum_loop present total l
  | Some value :: l =>
      match checked_add total value with
      | None => (None, true)
      | Some next => checked_option_sum_loop true next l
      end
  end.

Definition checked_option_sum (l : list (option Z)) : option Z * bool :=
  checked_option_sum_loop false 0 l.

Definition add_contribution (other : LlmOptimizationTokens) (t : CheckedTokenTotals) :
    CheckedTokenTotals :=
  let v := values t in
  let o := overflow t in
  let '(prompt, o_prompt) := checked_accumulate (ot_prompt v) (ot_prompt other) (of_prompt o) in
  let '(completion, o_completion) :=
    checked_accumulate (ot_completion v) (ot_completion other) (of_completion o) in
  let '(cache_read, o_cache_read) :=
    checked_accumulate (ot_cache_read v) (ot_cache_read other) (of_cache_read o) in
  let '(cache_write, o_cache_write) :=
    checked_accumulate (ot_cache_write v) (ot_cache_write other) (of_cache_write o) in
  let '(derived_total, derived_overflow) :=
    checked_option_sum [ot_prompt other; ot_completion other] in
  let o_total := of_total o || derived_overflow in
  let v_total := if derived_overflow then None else ot_total v in
  let inconsistent :=
    match ot_total other, ot_prompt other, ot_completion other with
    | Some explicit, Some p, Some c =>
        match checked_add p c with
        | Some derived => negb (derived =? explicit)
        | None => false
        end
    | _, _, _ => false
    end in
  let contribution_total :=
    match ot_total other with Some n => Some n | None => derived_total end in
  let missing := bool_decide (contribution_total = None) in
  let '(total, o_total) := checked_accumulate v_total contribution_total o_total in
  {| values := {| ot_prompt := prompt; ot_completion := completion; ot_cache_read := cache_read;
                  ot_cache_write := cache_write; ot_total := total |};
     overflow := Build_TokenOverflowFlags o_prompt o_completion o_cache_read o_cache_write o_total;
     missing_total := missing_total t || missing;
     inconsistent_total := inconsistent_total t || inconsistent |}.

(** ** The contributions *)

Record ContributionAnalysis : Type := {
  ca_limitations : list string;
  ca_totals : CheckedTokenTotals;
  ca_baseline_model : option LlmOptimizationModel;
  ca_effective_model : option LlmOptimizationModel;
  ca_use_effective_as_baseline : bool;
}.

Definition is_routing (c : LlmOptimizationContribution) : bool :=
  bool_decide (oc_kind c = MODEL_ROUTING).

Definition saved_tokens (c : LlmOptimizationContribution) : option LlmOptimizationTokens :=
  oc_token_impact c ≫= ti_saved.

Definition note_if (b : bool) (limitation : string) (l : list string) : list string :=
  if b then l ++ [limitation] else l.

Definition analyze_contributions (finished : FinishedContributions) : ContributionAnalysis :=
  let applied := filter (λ c, oc_applied c = true) (f_contributions finished) in
  let applied_routing := filter (λ c, is_routing c = true) applied in
  let routing_ambiguous := bool_decide (1 < length applied_routing)%nat in
  let limitations :=
    note_if routing_ambiguous "multiple_routing_contributions" (f_limitations finished) in
  let totals :=
    foldl (λ t c,
      if routing_ambiguous && is_routing c then t
      else match saved_tokens c with Some saved => add_contribution saved t | None => t end)
      default_totals applied in
  let limitations := note_if (missing_total totals) "missing_token_savings_total" limitations in
  let limitations :=
    note_if (inconsistent_total totals) "inconsistent_token_savings_total" limitations in
  let authoritative_transition :=
    match applied_routing with
    | [route] => oc_model_transition route
    | _ => None
    end in
  {| ca_limitations := limitations; ca_totals := totals;
     ca_baseline_model := authoritative_transition ≫= mt_baseline;
     ca_effective_model := authoritative_transition ≫= mt_effective;
     ca_use_effective_as_baseline :=
       bool_decide (applied_routing = []) || routing_ambiguous |}.

Definition resolve_effective_model (contributed : option LlmOptimizationModel)
    (response : option AnnotatedLlmResponse) (requested_model : option string) :
    option LlmOptimizationModel :=
  match contributed with
  | Some model => Some model
  | None =>
      match response ≫= rs_model with
      | Some model => Some (new_optimization_model model)
      | None => new_optimization_model <$> requested_model
      end
  end.

(** ** Usage *)

Record Notes : Type := {
  n_limitations : list string;
  n_overflow : bool;
  n_incomplete : bool;
}.

Definition note (limitation : string) (n : Notes) : Notes :=
  {| n_limitations := n_limitations n ++ [limitation]; n_overflow := n_overflow n;
     n_incomplete := n_incomplete n |}.
Definition note_overflow (n : Notes) : Notes :=
  {| n_limitations := n_limitations n; n_overflow := true; n_incomplete := n_incomplete n |}.
Definition note_incomplete (n : Notes) : Notes :=
  {| n_limitations := n_limitations n; n_overflow := n_overflow n; n_incomplete := true |}.

Definition set_total_tokens (total : option Z) (u : Usage) : Usage := {|
  prompt_tokens := prompt_tokens u; completion_tokens := completion_tokens u;
  total_tokens := total; cache_read_tokens := cache_read_tokens u;
  cache_write_tokens := cache_write_tokens u;
  uncached_input_tokens := uncached_input_tokens u; cost := cost u;
|}.

Definition note_missing_core_usage (usage : Usage) (n : Notes) : Usage * Notes :=
  let n := if bool_decide (prompt_tokens usage = None)
           then note "missing_effective_prompt_tokens" n else n in
  let n := if bool_decide (completion_tokens usage = None)
           then note "missing_effective_completion_tokens" n else n in
  match total_tokens usage with
  | Some _ => (usage, n)
  | None =>
      match prompt_tokens usage, completion_tokens usage with
      | Some prompt, Some completion =>
          match checked_add prompt completion with
          | Some total => (set_total_tokens (Some total) usage, n)
          | None => (usage, note_overflow n)
          end
      | _, _ => (usage, note "missing_effective_total_tokens" n)
      end
  end.

(** The observed count with the saved one added; the overflow the code
    returns is joined to the flag at once, as every caller does. *)
Definition checked_add_observed_tokens (target value : option Z) (value_overflowed : bool)
    (missing_limitation : string) (n : Notes) : option Z * Notes :=
  if value_overflowed then (None, note_overflow (note_incomplete n))
  else
    match value with
    | None => (target, n)
    | Some value =>
        match target with
        | None => (None, note_incomplete (note missing_limitation n))
        | Some observed =>
            match checked_add observed value with
            | Some total => (Some total, n)
            | None => (None, note_overflow n)
            end
        end
    end.

Inductive BaselineInputError : Type := BaselineOverflow | Incomplete (limitation : string).

Definition INCONSISTENT : BaselineInputError := Incomplete "inconsistent_baseline_input_split".

Definition ok_or {E A} (x : option A) (e : E) : outcome E A :=
  match x with Some a => Ok a | None => Err e end.

Definition baseline_uncached_input_tokens (usage : Usage) (api_split : option InputSplit)
    (saved : CheckedTokenTotals) : outcome BaselineInputError (option Z) :=
  match uncached_input_tokens usage with
  | None => Ok None
  | Some uncached =>
      let? split := ok_or (input_split usage) INCONSISTENT in
      let o := overflow saved in
      if of_prompt o || of_cache_read o || of_cache_write o then Err BaselineOverflow
      else
        let saved := values saved in
        let? with_saved_prompt :=
          ok_or (checked_add uncached (default 0 (ot_prompt saved))) BaselineOverflow in
        let? saved_cache :=
          ok_or (try_sum 0 (flatten [ot_cache_read saved; ot_cache_write saved]))
            BaselineOverflow in
        if saved_cache =? 0 then Ok (Some with_saved_prompt)
        else
          let? inclusive :=
            match split with
            | Inclusive => Ok true
            | Separate => Ok false
            | Either =>
                let? api := ok_or api_split (Incomplete "undetermined_baseline_input_split") in
                Ok (bool_decide (api = Inclusive))
            end in
          if inclusive then
            let? uncached := ok_or (checked_sub with_saved_prompt saved_cache) INCONSISTENT in
            Ok (Some uncached)
          else Ok (Some with_saved_prompt)
  end.

Definition derive_baseline_usage (usage : Usage) (api_split : option InputSplit)
    (tokens_saved : LlmOptimizationTokens) (totals : CheckedTokenTotals) (n : Notes) :
    Usage * Notes :=
  let o := overflow totals in
  let '(prompt, n) :=
    checked_add_observed_tokens (prompt_tokens usage) (ot_prompt tokens_saved) (of_prompt o)
      "missing_effective_prompt_tokens" n in
  let '(completion, n) :=
    checked_add_observed_tokens (completion_tokens usage) (ot_completion tokens_saved)
      (of_completion o) "missing_effective_completion_tokens" n in
  let '(cache_read, n) :=
    checked_add_observed_tokens (cache_read_tokens usage) (ot_cache_read tokens_saved)
      (of_cache_read o) "missing_effective_cache_read_tokens" n in
  let '(total, n) :=
    checked_add_observed_tokens (total_tokens usage) (ot_total tokens_saved) (of_total o)
      "missing_effective_total_tokens" n in
  let '(cache_write_sum, n) :=
    checked_add_observed_tokens (cache_write_total usage) (ot_cache_write tokens_saved)
      (of_cache_write o) "missing_effective_cache_write_tokens" n in
  let cache_write :=
    match cache_write_sum, ot_cache_write tokens_saved with
    | None, _ => None
    | Some _, Some saved =>
        if 0 <? saved
        then (λ writes, writes ++ [{| cw_count := saved; cw_duration := None |}])
               <$> cache_write_tokens usage
        else cache_write_tokens usage
    | Some _, None => cache_write_tokens usage
    end in
  let '(uncached, n) :=
    match baseline_uncached_input_tokens usage api_split totals with
    | Ok uncached => (uncached, n)
    | Err BaselineOverflow => (None, note_overflow n)
    | Err (Incomplete limitation) => (None, note_incomplete (note limitation n))
    | Panic => (None, n)
    end in
  ({| prompt_tokens := prompt; completion_tokens := completion; total_tokens := total;
      cache_read_tokens := cache_read; cache_write_tokens := cache_write;
      uncached_input_tokens := uncached; cost := None |}, n).

Record UsageAnalysis : Type := {
  ua_effective : option Usage;
  ua_baseline : option Usage;
  ua_overflow : bool;
  ua_incomplete : bool;
}.

(** The inferred total is stored into the response too. *)
Definition infer_response_total (effective : option Usage) (response : AnnotatedLlmResponse) :
    AnnotatedLlmResponse :=
  match effective ≫= total_tokens, rs_usage response with
  | Some inferred, Some usage =>
      match total_tokens usage with
      | None => set_usage (Some (set_total_tokens (Some inferred) usage)) response
      | Some _ => response
      end
  | _, _ => response
  end.

Definition derive_optimization_usage (response : option AnnotatedLlmResponse)
    (tokens_saved : LlmOptimizationTokens) (totals : CheckedTokenTotals)
    (limitations : list string) :
    UsageAnalysis * option AnnotatedLlmResponse * list string :=
  let n := {| n_limitations := limitations; n_overflow := overflow_any (overflow totals);
              n_incomplete := missing_total totals || inconsistent_total totals |} in
  let '(effective, n) :=
    match response ≫= rs_usage with
    | Some usage => let '(usage, n) := note_missing_core_usage usage n in (Some usage, n)
    | None => (None, n)
    end in
  let response : option AnnotatedLlmResponse := infer_response_total effective <$> response in
  let api_split := (response ≫= rs_api_specific) ≫= of_api in
  let '(baseline, n) :=
    match effective with
    | Some usage =>
        let '(baseline, n) := derive_baseline_usage usage api_split tokens_saved totals n in
        (Some baseline, n)
    | None => (None, n)
    end in
  let limitations := note_if (n_overflow n) "token_count_overflow" (n_limitations n) in
  ({| ua_effective := effective; ua_baseline := baseline; ua_overflow := n_overflow n;
      ua_incomplete := n_incomplete n |}, response, limitations).

(** ** Prices *)

Record PricingAnalysis : Type := {
  pa_baseline_cost : option CostEstimate;
  pa_actual_cost : option CostEstimate;
  pa_complete_core_usage : bool;
}.

Definition provider_reported (usage : option Usage) : option CostEstimate :=
  cost ← usage ≫= cost;
  if bool_decide (ce_source cost = CostProviderReported) then Some cost else None.

Definition core_usage_complete (usage : option Usage) : bool :=
  match usage with
  | Some usage => bool_decide (is_Some (prompt_tokens usage))
                  && bool_decide (is_Some (completion_tokens usage))
  | None => false
  end.

Definition set_response_cost (c : option CostEstimate) (response : AnnotatedLlmResponse) :
    AnnotatedLlmResponse :=
  match rs_usage response with
  | Some usage => set_usage (Some (set_usage_cost c usage)) response
  | None => response
  end.

Definition estimate_of `{CostEstimator} (model : option LlmOptimizationModel)
    (usage : option Usage) : option CostEstimate :=
  model ← model;
  usage ← usage;
  estimate_for (om_provider model) (om_model model) usage.

Definition price_optimization_usage `{CostEstimator} (effective_usage : option Usage)
    (response : option AnnotatedLlmResponse)
    (effective_model baseline_model : option LlmOptimizationModel)
    (baseline_usage : option Usage) (token_count_overflow baseline_derivation_incomplete : bool) :
    PricingAnalysis * option Usage * option AnnotatedLlmResponse :=
  let complete_core_usage := core_usage_complete effective_usage in
  let actual_cost :=
    match provider_reported effective_usage with
    | Some c => Some c
    | None =>
        if complete_core_usage then estimate_of effective_model effective_usage else None
    end in
  let effective_usage := set_usage_cost actual_cost <$> effective_usage in
  let response := set_response_cost actual_cost <$> response in
  let baseline_cost :=
    if negb token_count_overflow && negb baseline_derivation_incomplete && complete_core_usage
    then estimate_of baseline_model baseline_usage else None in
  ({| pa_baseline_cost := baseline_cost; pa_actual_cost := actual_cost;
      pa_complete_core_usage := complete_core_usage |}, effective_usage, response).

Definition add_summary_limitations (limitations : list string) (effective_usage : option Usage)
    (effective_model baseline_model : option LlmOptimizationModel)
    (baseline_cost actual_cost : option CostEstimate)
    (token_count_overflow baseline_derivation_incomplete complete_core_usage : bool) :
    list string :=
  let l := note_if (bool_decide (¬ is_Some effective_usage)) "missing_effective_usage" limitations in
  let l := note_if (bool_decide (¬ is_Some effective_model)) "missing_effective_model" l in
  let l := note_if (bool_decide (¬ is_Some baseline_model)) "missing_baseline_model" l in
  let l :=
    note_if (bool_decide (¬ is_Some baseline_cost) && bool_decide (is_Some baseline_model)
             && negb token_count_overflow && negb baseline_derivation_incomplete
             && complete_core_usage) "missing_baseline_pricing" l in
  note_if (bool_decide (¬ is_Some actual_cost)) "missing_actual_cost" l.

Definition calculate_estimated_cost_saved (baseline_cost actual_cost : option CostEstimate)
    (limitations : list string) : option f64 * option string * list string :=
  let baseline_total := baseline_cost ≫= total_or_component_sum in
  let actual_total := actual_cost ≫= total_or_component_sum in
  let l := note_if (bool_decide (is_Some baseline_cost) && bool_decide (¬ is_Some baseline_total))
             "missing_baseline_cost_total" limitations in
  let l := note_if (bool_decide (is_Some actual_cost) && bool_decide (¬ is_Some actual_total))
             "missing_actual_cost_total" l in
  match baseline_cost, actual_cost with
  | Some baseline, Some actual =>
      if eq_ignore_ascii_case (ce_currency baseline) (ce_currency actual) then
        match baseline_total, actual_total with
        | Some b, Some a => (Some (f64_sub b a), Some (ce_currency baseline), l)
        | _, _ => (None, None, l)
        end
      else (None, None, l ++ ["cost_currency_mismatch"])
  | _, _ => (None, None, l)
  end.

(** The code after [finish]. *)
Definition summarize `{CostEstimator} (finished : FinishedContributions)
    (response : option AnnotatedLlmResponse) (requested_model : option string) :
    option LlmOptimizationSummary * option AnnotatedLlmResponse :=
  if bool_decide (f_contributions finished = []) && bool_decide (f_limitations finished = [])
  then (None, response)
  else
    let analysis := analyze_contributions finished in
    let effective_model :=
      resolve_effective_model (ca_effective_model analysis) response requested_model in
    let baseline_model :=
      match ca_baseline_model analysis with
      | Some model => Some model
      | None => if ca_use_effective_as_baseline analysis then effective_model else None
      end in
    let totals := ca_totals analysis in
    let tokens_saved := values totals in
    let '(usage, response, limitations) :=
      derive_optimization_usage response tokens_saved totals (ca_limitations analysis) in
    let token_count_overflow := overflow_any (overflow totals) || ua_overflow usage in
    let '(pricing, effective_usage, response) :=
      price_optimization_usage (ua_effective usage) response effective_model baseline_model
        (ua_baseline usage) token_count_overflow (ua_incomplete usage) in
    let limitations :=
      add_summary_limitations limitations effective_usage effective_model baseline_model
        (pa_baseline_cost pricing) (pa_actual_cost pricing) token_count_overflow
        (ua_incomplete usage) (pa_complete_core_usage pricing) in
    let '(saved, currency, limitations) :=
      calculate_estimated_cost_saved (pa_baseline_cost pricing) (pa_actual_cost pricing)
        limitations in
    let limitations := canonicalize_attributes limitations in
    let summary := {|
      os_schema_version := "1"; os_calculation_version := "1";
      os_status := if bool_decide (limitations = []) then Complete else Partial;
      os_limitations := limitations;
      os_baseline_model := baseline_model; os_effective_model := effective_model;
      os_effective_usage := effective_usage; os_baseline_usage := ua_baseline usage;
      os_tokens_saved := tokens_saved;
      os_baseline_cost := pa_baseline_cost pricing; os_actual_cost := pa_actual_cost pricing;
      os_estimated_cost_saved := saved; os_currency := currency;
      os_contributions := f_contributions finished;
    |} in
    (Some summary, set_summary (Some summary) <$> response).

(** [None] while a record is in flight. *)
Definition finalize_optimization_summary `{CostEstimator} (s : AccumulatorState)
    (response : option AnnotatedLlmResponse) (requested_model : option string) :
    option (option LlmOptimizationSummary * option AnnotatedLlmResponse) * AccumulatorState :=
  let '(finished, s) := finish s in
  ((λ finished, summarize finished response requested_model) <$> finished, s).


(** ** Token totals *)

(** The exact value of a field over the contributions: absent without
    evidence and on overflow. *)
Definition exact_total (l : list Z) : option Z * bool :=
  if foldr Z.add 0 l <=? u64_max
  then (if bool_decide (l = []) then None else Some (foldr Z.add 0 l), false)
  else (None, true).

Definition accumulate_all (l : list (option Z)) (s : option Z * bool) : option Z * bool :=
  foldl (λ '(target, overflowed) value, checked_accumulate target value overflowed) s l.

Lemma accumulate_overflowed l t : accumulate_all l (t, true) = (t, true).
Proof. induction l as [|x l IH]; [done|]. exact IH. Qed.

Lemma sum_nonneg l : Forall is_u64 l → 0 <= foldr Z.add 0 l.
Proof. induction 1 as [|x l Hx _ IH]; cbn; unfold is_u64 in *; lia. Qed.

Lemma accumulate_all_from l t :
  is_u64 (default 0 t) → Forall is_u64 (flatten l) →
  accumulate_all l (t, false)
  = if default 0 t + foldr Z.add 0 (flatten l) <=? u64_max
    then (if bool_decide (flatten l = []) then t
          else Some (default 0 t + foldr Z.add 0 (flatten l)), false)
    else (None, true).
Proof.
  revert t. induction l as [|[x|] l IH]; intros t Ht Hl.
  - cbn. rewrite Z.add_0_r. unfold is_u64 in Ht. destruct (Z.leb_spec (default 0 t) u64_max); [done|lia].
  - change (flatten (Some x :: l)) with (x :: flatten l) in *.
    apply Forall_cons in Hl as [Hx Hl]. pose proof (sum_nonneg _ Hl) as Hpos.
    change (accumulate_all (Some x :: l) (t, false))
      with (accumulate_all l (checked_accumulate t (Some x) false)).
    unfold checked_accumulate, checked_add, is_u64 in *. cbn [foldr].
    destruct (Z.leb_spec (default 0 t + x) u64_max) as [Hle|Hgt].
    + rewrite IH by (cbn; done || lia). cbn [default from_option id].
      rewrite Z.add_assoc. destruct (_ <=? _); [|done]. f_equal.
      rewrite (bool_decide_eq_false_2 (x :: _ = [])) by done. case_bool_decide as H; [|done].
      rewrite H. cbn. f_equal. lia.
    + rewrite accumulate_overflowed.
      destruct (Z.leb_spec (default 0 t + (x + foldr Z.add 0 (flatten l))) u64_max); [lia|done].
  - exact (IH t Ht Hl).
Qed.

Lemma accumulate_all_exact l :
  Forall is_u64 (flatten l) → accumulate_all l (None, false) = exact_total (flatten l).
Proof. intros Hl. rewrite accumulate_all_from by done. done. Qed.

Definition totals_of (l : list LlmOptimizationTokens) : CheckedTokenTotals :=
  foldl (λ t saved, add_contribution saved t) default_totals l.

Definition tokens_u64 (o : LlmOptimizationTokens) : Prop :=
  Forall is_u64 (flatten [ot_prompt o; ot_completion o; ot_cache_read o; ot_cache_write o;
                          ot_total o]).

(** What one contribution saves in total, and whether its prompt and
    completion savings do not fit together. *)
Definition own_total (o : LlmOptimizationTokens) : option Z :=
  match ot_total o, ot_prompt o, ot_completion o with
  | Some n, _, _ => Some n
  | None, Some p, Some c => if p + c <=? u64_max then Some (p + c) else None
  | None, Some n, None | None, None, Some n => Some n
  | None, None, None => None
  end.

Definition own_overflow (o : LlmOptimizationTokens) : bool :=
  match ot_prompt o, ot_completion o with
  | Some p, Some c => u64_max <? p + c
  | _, _ => false
  end.

Lemma own_spec o :
  tokens_u64 o →
  (let '(derived, _) := checked_option_sum [ot_prompt o; ot_completion o] in
   match ot_total o with Some n => Some n | None => derived end) = own_total o
  ∧ (checked_option_sum [ot_prompt o; ot_completion o]).2 = own_overflow o.
Proof.
  unfold tokens_u64, own_total, own_overflow, checked_option_sum. intros H.
  destruct o as [[p|] [c|] r w [t|]]; cbn in *; unfold checked_add, is_u64 in *;
    repeat match goal with
    | H : Forall _ (_ :: _) |- _ => apply Forall_cons in H as [? H]
    end; split; repeat case_match; simplify_eq/=; try done; try (exfalso; lia); f_equal; lia.
Qed.

(** The fields of a fold of [add_contribution]. *)
Lemma totals_fields l t :
  let t' := foldl (λ t saved, add_contribution saved t) t l in
  (ot_prompt (values t'), of_prompt (overflow t'))
    = accumulate_all (ot_prompt <$> l) (ot_prompt (values t), of_prompt (overflow t))
  ∧ (ot_completion (values t'), of_completion (overflow t'))
    = accumulate_all (ot_completion <$> l) (ot_completion (values t), of_completion (overflow t))
  ∧ (ot_cache_read (values t'), of_cache_read (overflow t'))
    = accumulate_all (ot_cache_read <$> l) (ot_cache_read (values t), of_cache_read (overflow t))
  ∧ (ot_cache_write (values t'), of_cache_write (overflow t'))
    = accumulate_all (ot_cache_write <$> l) (ot_cache_write (values t), of_cache_write (overflow t)).
Proof.
  revert t. induction l as [|o l IH]; intros t; [done|]. cbn [foldl fmap list_fmap].
  destruct (IH (add_contribution o t)) as (-> & -> & -> & ->).
  unfold accumulate_all. cbn [foldl]. unfold add_contribution.
  do 4 destruct (checked_accumulate _ _ _). destruct (checked_option_sum _).
  by destruct (checked_accumulate _ _ _).
Qed.

Lemma total_field l t :
  Forall tokens_u64 l → (of_total (overflow t) = true → ot_total (values t) = None) →
  let t' := foldl (λ t saved, add_contribution saved t) t l in
  (ot_total (values t'), of_total (overflow t'))
  = if existsb own_overflow l then (None, true)
    else accumulate_all (own_total <$> l) (ot_total (values t), of_total (overflow t)).
Proof.
  revert t. induction l as [|o l IH]; intros t Hl Hn; [done|]. cbn [foldl fmap list_fmap existsb].
  apply Forall_cons in Hl as [Ho Hl]. destruct (own_spec o Ho) as [Hown Hover].
  assert ((ot_total (values (add_contribution o t)), of_total (overflow (add_contribution o t)))
    = if own_overflow o then (None, true)
      else checked_accumulate (ot_total (values t)) (own_total o) (of_total (overflow t))) as Hstep.
  { unfold add_contribution. rewrite <-Hown, <-Hover.
    do 4 destruct (checked_accumulate _ _ _) as [? ?].
    destruct (checked_option_sum _) as [d []]; cbn.
    - by rewrite orb_true_r.
    - rewrite orb_false_r. by destruct (checked_accumulate _ _ _). }
  rewrite IH; [|done|].
  - rewrite Hstep. destruct (own_overflow o); cbn; [|done].
    destruct (existsb _ _); [done|]. apply accumulate_overflowed.
  - intros Ht. destruct (own_overflow o); [by simplify_eq|].
    unfold checked_accumulate in Hstep. destruct (of_total (overflow t)) eqn:E; [injection Hstep as -> _; by apply Hn|].
    destruct (own_total o); [|simplify_eq; congruence].
    destruct (checked_add _ _); simplify_eq; congruence.
Qed.

(** ** Complete summaries *)

Lemma note_if_nil b x l : note_if b x l = [] → b = false ∧ l = [].
Proof. destruct b; cbn; [|done]. intros H. by apply app_nil in H as [_ ?]. Qed.

Lemma dedup_nil l : dedup l = [] → l = [].
Proof.
  induction l as [|x [|y l] IH]; [done|done|]. cbn. case_decide; [|done]. intros Hd.
  by specialize (IH Hd).
Qed.

Lemma canonical_nil l : canonicalize_attributes l = [] → l = [].
Proof.
  unfold canonicalize_attributes. intros H%dedup_nil. apply Permutation_nil.
  rewrite <-H. apply stable_sort_Permutation.
Qed.

Definition clean (n : Notes) : Prop := n_limitations n = [] ∧ n_overflow n = false.

Lemma note_clean x n : ¬ clean (note x n).
Proof. intros [H _]. cbn in H. by apply app_nil in H as [_ ?]. Qed.

(** [observed] with [saved] added exactly. *)
Definition plus_saved (observed saved result : option Z) : Prop :=
  match saved with
  | None => result = observed
  | Some s => ∃ o, observed = Some o ∧ result = Some (o + s) ∧ o + s <= u64_max
  end.

Lemma observed_clean target value overflowed limitation n t n' :
  checked_add_observed_tokens target value overflowed limitation n = (t, n') → clean n' →
  n' = n ∧ overflowed = false ∧ plus_saved target value t.
Proof.
  unfold checked_add_observed_tokens. intros H Hc. destruct overflowed.
  { simplify_eq. destruct Hc as [_ Hc]. done. }
  destruct value as [v|]; [|by simplify_eq]. destruct target as [o|].
  - destruct (checked_add o v) as [s|] eqn:Ha; simplify_eq.
    + apply checked_add_Some in Ha as [-> Hle]. split_and!; [done|done|]. exists o. done.
    + by destruct Hc.
  - simplify_eq. by destruct (note_clean limitation n).
Qed.

Lemma core_clean usage n usage' n' :
  note_missing_core_usage usage n = (usage', n') → clean n' →
  n' = n ∧ ∃ p c t, prompt_tokens usage' = Some p ∧ completion_tokens usage' = Some c
    ∧ total_tokens usage' = Some t
    ∧ usage' = set_total_tokens (Some t) usage
    ∧ (total_tokens usage = Some t ∨ total_tokens usage = None ∧ t = p + c).
Proof.
  unfold note_missing_core_usage. intros H Hc.
  destruct usage as [[p|] [c|] [t|] r w u k]; cbn in *; simplify_eq.
  all: try (exfalso; revert Hc; apply note_clean).
  - split; [done|]. exists p, c, t. split_and!; try done. by left.
  - destruct (checked_add p c) as [t|] eqn:Ha; simplify_eq; [|by destruct Hc].
    apply checked_add_Some in Ha as [-> _]. split; [done|]. exists p, c, (p + c).
    split_and!; try done. by right.
Qed.

(** The cached input is part of the prompt: known from the usage, or from the
    provider's API when the usage fits both ways. *)
Definition inclusive_split (u : Usage) (api_split : option InputSplit) : bool :=
  match input_split u with
  | Some Inclusive => true
  | Some Either => bool_decide (api_split = Some Inclusive)
  | _ => false
  end.

(** The uncached input of the baseline: the saved prompt is added, and what of
    it was cached is taken off when the prompt includes the cached input. *)
Definition uncached_exact (u : Usage) (api_split : option InputSplit)
    (saved : LlmOptimizationTokens) (result : option Z) : Prop :=
  match uncached_input_tokens u with
  | None => result = None
  | Some uncached =>
      let cached := default 0 (ot_cache_read saved) + default 0 (ot_cache_write saved) in
      let with_prompt := uncached + default 0 (ot_prompt saved) in
      is_Some (input_split u) ∧ with_prompt <= u64_max
      ∧ (cached ≠ 0 → input_split u = Some Either → is_Some api_split)
      ∧ ∃ n, result = Some n
          ∧ n = with_prompt - (if inclusive_split u api_split then cached else 0)
          ∧ (0 < cached → inclusive_split u api_split = true → 0 <= n)
  end.

(** The writes of the baseline: the saved ones are one more entry. *)
Definition writes_exact (writes : option (list CacheWriteTokenCounts)) (saved : option Z)
    (result : option (list CacheWriteTokenCounts)) : Prop :=
  match saved with
  | None => result = writes
  | Some s =>
      ∃ l, writes = Some l ∧ write_total l + s <= u64_max
        ∧ result = Some (if 0 <? s then l ++ [{| cw_count := s; cw_duration := None |}] else l)
  end.

(** The baseline is the effective usage with the savings added. *)
Definition baseline_exact (u b : Usage) (api_split : option InputSplit)
    (saved : LlmOptimizationTokens) : Prop :=
  plus_saved (prompt_tokens u) (ot_prompt saved) (prompt_tokens b)
  ∧ plus_saved (completion_tokens u) (ot_completion saved) (completion_tokens b)
  ∧ plus_saved (cache_read_tokens u) (ot_cache_read saved) (cache_read_tokens b)
  ∧ plus_saved (total_tokens u) (ot_total saved) (total_tokens b)
  ∧ writes_exact (cache_write_tokens u) (ot_cache_write saved) (cache_write_tokens b)
  ∧ uncached_exact u api_split saved (uncached_input_tokens b)
  ∧ cost b = None.

Lemma uncached_returns u split totals : baseline_uncached_input_tokens u split totals ≠ Panic.
Proof. unfold baseline_uncached_input_tokens, ok_or. by repeat (case_match; simplify_eq/=). Qed.

Lemma saved_cache_sum r w n :
  try_sum 0 (flatten [r; w]) = Some n → n = default 0 r + default 0 w.
Proof.
  unfold try_sum, flatten. destruct r as [r|], w as [w|]; cbn [omap list_omap foldl mbind option_bind id].
  - destruct (checked_add 0 r) eqn:Hr; [|done]. apply checked_add_Some in Hr as [-> _]. cbn.
    intros [-> _]%checked_add_Some. lia.
  - intros [-> _]%checked_add_Some. cbn. lia.
  - intros [-> _]%checked_add_Some. cbn. lia.
  - by intros [= <-].
Qed.

#[local] Arguments try_sum : simpl never.

Lemma uncached_clean u split totals x :
  baseline_uncached_input_tokens u split totals = Ok x → uncached_exact u split (values totals) x.
Proof.
  unfold baseline_uncached_input_tokens, uncached_exact.
  destruct (uncached_input_tokens u) as [n|]; [|by intros [= <-]].
  destruct (input_split u) as [sp|] eqn:Hsp; cbn; [|done]. destruct (_ || _); [done|].
  destruct (checked_add n _) as [wp|] eqn:Hwp; cbn; [|done]. apply checked_add_Some in Hwp as [-> Hle].
  destruct (try_sum _ _) as [sc|] eqn:Hsc; cbn; [|done]. apply saved_cache_sum in Hsc as <-.
  unfold inclusive_split. rewrite Hsp.
  destruct (Z.eqb_spec sc 0) as [->|Hnz].
  { intros [= <-]. split_and!; [done|done|done|]. eexists. split; [done|]. split; [|lia].
    destruct sp; try case_bool_decide; lia. }
  set (wp := n + default 0 (ot_prompt (values totals))) in *.
  assert (∀ b : bool, (if b then let? uncached := ok_or (checked_sub wp sc) INCONSISTENT in
      Ok (Some uncached) else Ok (Some wp)) = Ok x →
    ∃ y, x = Some y ∧ y = wp - (if b then sc else 0)
      ∧ (0 < sc → b = true → 0 <= y)) as Hb.
  { intros []; unfold checked_sub; [destruct (Z.leb_spec sc wp)|];
      cbn; intros [= <-]; eexists; (split; [done|]); lia. }
  destruct sp; cbn.
  - intros Hx%(Hb false). by split_and!.
  - intros Hx%(Hb true). by split_and!.
  - destruct split as [api|]; cbn; [|done].
    rewrite (bool_decide_ext (Some api = Some Inclusive) (api = Inclusive)) by (split; congruence).
    intros Hx%Hb. split_and!; [done|done|by eexists|done].
Qed.

Lemma writes_clean u saved sum :
  plus_saved (cache_write_total u) saved sum →
  writes_exact (cache_write_tokens u) saved
    match sum, saved with
    | None, _ => None
    | Some _, Some saved =>
        if 0 <? saved
        then (λ writes, writes ++ [{| cw_count := saved; cw_duration := None |}]) <$> cache_write_tokens u
        else cache_write_tokens u
    | Some _, None => cache_write_tokens u
    end.
Proof.
  unfold plus_saved, writes_exact, cache_write_total. destruct saved as [s|].
  - intros (o & Ho & -> & Hle). destruct (cache_write_tokens u) as [l|]; [|done]. simplify_eq/=.
    exists l. split_and!; [done|lia|]. by destruct (0 <? s).
  - intros ->. by destruct (cache_write_tokens u).
Qed.

Lemma baseline_clean u split totals n b n' :
  derive_baseline_usage u split (values totals) totals n = (b, n') → clean n' →
  n' = n ∧ baseline_exact u b split (values totals).
Proof.
  unfold derive_baseline_usage. intros H Hc.
  destruct (checked_add_observed_tokens (prompt_tokens u) _ _ _ _) as [? n1] eqn:H1.
  destruct (checked_add_observed_tokens (completion_tokens u) _ _ _ _) as [? n2] eqn:H2.
  destruct (checked_add_observed_tokens (cache_read_tokens u) _ _ _ _) as [? n3] eqn:H3.
  destruct (checked_add_observed_tokens (total_tokens u) _ _ _ _) as [? n4] eqn:H4.
  destruct (checked_add_observed_tokens (cache_write_total u) _ _ _ _) as [? n5] eqn:H5.
  destruct (baseline_uncached_input_tokens _ _ _) as [x|[|l]|] eqn:Hx; simplify_eq;
    [|by destruct Hc|by destruct (note_clean l _ Hc)|by destruct (uncached_returns _ _ _ Hx)].
  apply uncached_clean in Hx.
  apply observed_clean in H5 as (-> & _ & Hw); [|done].
  apply observed_clean in H4 as (-> & _ & ?); [|done].
  apply observed_clean in H3 as (-> & _ & ?); [|done].
  apply observed_clean in H2 as (-> & _ & ?); [|done].
  apply observed_clean in H1 as (-> & _ & ?); [|done].
  split; [done|]. split_and!; try done. by apply writes_clean.
Qed.

(** The usage of the response, its total inferred when it is absent. *)
Definition usage_completed (u0 u : Usage) : Prop :=
  ∃ p c t, prompt_tokens u0 = Some p ∧ completion_tokens u0 = Some c
    ∧ u = set_total_tokens (Some t) u0
    ∧ (total_tokens u0 = Some t ∨ total_tokens u0 = None ∧ t = p + c).

Lemma inferred_api effective (response : option AnnotatedLlmResponse) :
  (infer_response_total effective <$> response) ≫= rs_api_specific = response ≫= rs_api_specific.
Proof.
  destruct response as [r|]; [|done]. cbn. unfold infer_response_total. by repeat case_match.
Qed.

Lemma derive_clean response totals limitations ua response' l' :
  derive_optimization_usage response (values totals) totals limitations = (ua, response', l') →
  l' = [] →
  limitations = [] ∧ ua_overflow ua = false ∧ overflow_any (overflow totals) = false
  ∧ ua_incomplete ua = missing_total totals || inconsistent_total totals
  ∧ match ua_effective ua with
    | Some u =>
        ∃ u0 b, response ≫= rs_usage = Some u0 ∧ usage_completed u0 u
          ∧ ua_baseline ua = Some b
          ∧ baseline_exact u b ((response ≫= rs_api_specific) ≫= of_api) (values totals)
    | None => True
    end.
Proof.
  unfold derive_optimization_usage. intros H ->.
  destruct (response ≫= rs_usage) as [u|]; cbn in H.
  - destruct (note_missing_core_usage u _) as [u' n1] eqn:H1. rewrite inferred_api in H.
    destruct (derive_baseline_usage _ _ _ _ _) as [b n2] eqn:H2. simplify_eq.
    match goal with H : note_if _ _ _ = [] |- _ => apply note_if_nil in H as [Ho Hl] end.
    assert (clean n2) as Hc by done.
    apply baseline_clean in H2 as [-> Hb]; [|done].
    apply core_clean in H1 as [-> (p & c & t & Hp & Hcm & _ & -> & Ht)]; [|done].
    cbn in *. split_and!; try done. exists u, b. split_and!; try done. by exists p, c, t.
  - simplify_eq.
    match goal with H : note_if _ _ _ = [] |- _ => apply note_if_nil in H as [Ho Hl] end.
    cbn in *. done.
Qed.

Lemma analysis_clean finished :
  let a := analyze_contributions finished in
  ca_limitations a = [] →
  f_limitations finished = []
  ∧ missing_total (ca_totals a) = false ∧ inconsistent_total (ca_totals a) = false.
Proof.
  cbn. intros H. apply note_if_nil in H as [Hi H]. apply note_if_nil in H as [Hm H].
  by apply note_if_nil in H as [_ H].
Qed.

Lemma cost_saved_clean b a l saved currency l' :
  calculate_estimated_cost_saved b a l = (saved, currency, l') → l' = [] →
  l = [] ∧ ∀ bc ac, b = Some bc → a = Some ac →
    ∃ bt at_, total_or_component_sum bc = Some bt ∧ total_or_component_sum ac = Some at_
      ∧ saved = Some (f64_sub bt at_) ∧ currency = Some (ce_currency bc)
      ∧ eq_ignore_ascii_case (ce_currency bc) (ce_currency ac) = true.
Proof.
  unfold calculate_estimated_cost_saved. intros H ->.
  set (l1 := note_if _ "missing_actual_cost_total" _) in H.
  assert (l1 = [] → l = [] ∧ (is_Some b → is_Some (b ≫= total_or_component_sum))
    ∧ (is_Some a → is_Some (a ≫= total_or_component_sum))) as Hl1.
  { subst l1. intros Hl. apply note_if_nil in Hl as [Ha Hl]. apply note_if_nil in Hl as [Hb Hl].
    split; [done|]. apply andb_false_iff in Ha, Hb. split; intros Hs.
    - destruct Hb as [Hb|Hb]; apply bool_decide_eq_false in Hb; [done|by apply dec_stable].
    - destruct Ha as [Ha|Ha]; apply bool_decide_eq_false in Ha; [done|by apply dec_stable]. }
  clearbody l1. assert (l1 = []) as Hnil.
  { repeat case_match; simplify_eq; try done. by destruct l1. }
  destruct (Hl1 Hnil) as (Hl & Hb & Ha). split; [done|]. intros bc ac -> ->. cbn in *.
  destruct Hb as [bt Hb]; [done|]. destruct Ha as [at_ Ha]; [done|]. rewrite Hb, Ha in H.
  exists bt, at_. destruct (eq_ignore_ascii_case _ _); simplify_eq; done.
Qed.

Lemma limitations_clean l u e bm bc ac o i k :
  add_summary_limitations l u e bm bc ac o i k = [] →
  l = [] ∧ is_Some u ∧ is_Some e ∧ is_Some bm ∧ is_Some ac
  ∧ (o = false → i = false → k = true → is_Some bc).
Proof.
  unfold add_summary_limitations. intros H.
  repeat (apply note_if_nil in H as [? H]).
  repeat match goal with
  | H : bool_decide (¬ _) = false |- _ => apply bool_decide_eq_false in H; apply dec_stable in H
  end.
  split_and!; try done. intros -> -> ->. destruct bc; [done|].
  rewrite bool_decide_eq_true_2, bool_decide_eq_true_2 in * by done || (by intros []). done.
Qed.

Lemma price_clean `{CostEstimator} u response em bm b o i pa u' response' :
  price_optimization_usage u response em bm b o i = (pa, u', response') →
  u' = set_usage_cost (pa_actual_cost pa) <$> u ∧ pa_complete_core_usage pa = core_usage_complete u
  ∧ (∀ bc, pa_baseline_cost pa = Some bc → estimate_of bm b = Some bc)
  ∧ ∀ ac, pa_actual_cost pa = Some ac →
      provider_reported u = Some ac
      ∨ provider_reported u = None ∧ estimate_of em u = Some ac.
Proof.
  unfold price_optimization_usage. intros H0. simplify_eq. cbn. split_and!; try done.
  - by intros bc; destruct (_ && _).
  - intros ac. destruct (provider_reported u); [by left|]. destruct (core_usage_complete u); [|done].
    by right.
Qed.

Lemma fields_u64 (f : LlmOptimizationTokens → option Z) l :
  (∀ o n, tokens_u64 o → f o = Some n → is_u64 n) → Forall tokens_u64 l →
  Forall is_u64 (flatten (f <$> l)).
Proof.
  intros Hf. unfold flatten. induction 1 as [|o l Ho _ IH]; csimpl; [done|].
  destruct (f o) as [n|] eqn:Hn; [|done]. constructor; [by eapply Hf|done].
Qed.

Lemma tokens_u64_fields o n :
  tokens_u64 o →
  ot_prompt o = Some n ∨ ot_completion o = Some n ∨ ot_cache_read o = Some n
  ∨ ot_cache_write o = Some n ∨ own_total o = Some n → is_u64 n.
Proof.
  unfold tokens_u64, own_total. destruct o as [[p|] [c|] [r|] [w|] [t|]]; cbn; intros H Hn;
    repeat (apply Forall_cons in H as [? H]);
    destruct_or! Hn; repeat case_match; simplify_eq; unfold is_u64 in *; lia.
Qed.

(** The savings that count: of the applied contributions, without the routing
    ones when there are several. *)
Definition counted_savings (finished : FinishedContributions) : list LlmOptimizationTokens :=
  let applied := filter (λ c, oc_applied c = true) (f_contributions finished) in
  let routing_ambiguous :=
    bool_decide (1 < length (filter (λ c, is_routing c = true) applied))%nat in
  omap (λ c, if routing_ambiguous && is_routing c then None else saved_tokens c) applied.

Lemma totals_counted finished :
  ca_totals (analyze_contributions finished) = totals_of (counted_savings finished).
Proof.
  unfold analyze_contributions, counted_savings, totals_of. cbn [ca_totals].
  set (applied := filter _ (f_contributions finished)). set (ambiguous := bool_decide _).
  clearbody ambiguous. clearbody applied.
  generalize default_totals. induction applied as [|c l IH]; intros t; [reflexivity|]. cbn.
  destruct (_ && _); [apply IH|]. destruct (saved_tokens c); cbn; apply IH.
Qed.

(** The token savings of a call are exact [u64] sums.  For each kind of
    token the total over the applied contributions is the mathematical sum when
    it fits into 64 bits, absent when no contribution reports it, and absent
    with its overflow flag raised when it does not fit; the flag is never
    lowered again.  The overall total adds every contribution's own total, or
    its prompt and completion savings when it has none. *)
Theorem token_totals_exact (finished : FinishedContributions)
    (H : Forall tokens_u64 (counted_savings finished)) :
  let t := ca_totals (analyze_contributions finished) in
  let l := counted_savings finished in
  (ot_prompt (values t), of_prompt (overflow t)) = exact_total (flatten (ot_prompt <$> l))
  ∧ (ot_completion (values t), of_completion (overflow t))
    = exact_total (flatten (ot_completion <$> l))
  ∧ (ot_cache_read (values t), of_cache_read (overflow t))
    = exact_total (flatten (ot_cache_read <$> l))
  ∧ (ot_cache_write (values t), of_cache_write (overflow t))
    = exact_total (flatten (ot_cache_write <$> l))
  ∧ (ot_total (values t), of_total (overflow t))
    = if existsb own_overflow l then (None, true) else exact_total (flatten (own_total <$> l)).
Proof.
  cbn zeta. rewrite totals_counted. unfold totals_of. set (l := counted_savings finished) in *.
  destruct (totals_fields l default_totals) as (H1 & H2 & H3 & H4). cbn zeta in *.
  rewrite H1, H2, H3, H4, total_field by done.
  rewrite !accumulate_all_exact
    by (apply fields_u64; [intros o n Ho Hn; apply (tokens_u64_fields o n Ho); tauto|done]).
  done.
Qed.

(** The sum of what a list reports; absent when nothing is reported. *)
Definition reported_sum (l : list (option Z)) : option Z :=
  match flatten l with
  | [] => None
  | l => Some (foldr Z.add 0 l)
  end.

Definition sum_savings (l : list LlmOptimizationTokens) : LlmOptimizationTokens := {|
  ot_prompt := reported_sum (ot_prompt <$> l);
  ot_completion := reported_sum (ot_completion <$> l);
  ot_cache_read := reported_sum (ot_cache_read <$> l);
  ot_cache_write := reported_sum (ot_cache_write <$> l);
  ot_total := reported_sum (own_total <$> l);
|}.

Lemma exact_total_fits l x : (x, false) = exact_total (flatten l) → x = reported_sum l.
Proof.
  unfold exact_total, reported_sum. destruct (_ <=? _); [|done]. intros [= ->]. by destruct (flatten l).
Qed.

(** Without an overflow the savings are the sums. *)
Lemma savings_summed finished :
  Forall tokens_u64 (counted_savings finished) →
  overflow_any (overflow (ca_totals (analyze_contributions finished))) = false →
  values (ca_totals (analyze_contributions finished)) = sum_savings (counted_savings finished).
Proof.
  intros Hl. destruct (token_totals_exact finished Hl) as (H1 & H2 & H3 & H4 & H5).
  destruct (ca_totals _) as [[v1 v2 v3 v4 v5] [o1 o2 o3 o4 o5] ? ?]. unfold overflow_any.
  cbn [values overflow of_prompt of_completion of_cache_read of_cache_write of_total ot_prompt
       ot_completion ot_cache_read ot_cache_write ot_total] in *.
  rewrite !orb_false_iff. intros ((((-> & ->) & ->) & ->) & ->). unfold sum_savings.
  destruct (existsb _ _); [done|]. f_equal; by apply exact_total_fits.
Qed.

(** C19: a summary is given exactly when something was recorded, and the
    response carries it.  A summary marked complete has nothing left out: the
    recorder noted no limitation and both models are known; the effective usage
    is the usage of the response, with the total inferred when the response has
    none; the tokens saved are the sums over the contributions that count; the
    baseline usage is the effective usage with the savings added exactly and
    within [u64], the cache writes and the uncached input included; the baseline
    cost is the estimate for the baseline model, the actual cost the one the
    provider reported or else the estimate for the effective model; both have
    totals in the same currency, and the cost saved is their difference. *)
Theorem complete_summary_exact `{CostEstimator} finished response requested :
  let '(summary, response') := summarize finished response requested in
  (summary = None ↔ f_contributions finished = [] ∧ f_limitations finished = [])
  ∧ ∀ s, summary = Some s →
    (∀ r, response' = Some r → rs_optimization_summary r = Some s)
    ∧ (os_status s = Complete →
       f_limitations finished = [] ∧ is_Some (os_effective_model s) ∧ is_Some (os_baseline_model s)
       ∧ (Forall tokens_u64 (counted_savings finished) →
          os_tokens_saved s = sum_savings (counted_savings finished))
       ∧ ∃ u0 u b bc ac bt at_,
           response ≫= rs_usage = Some u0 ∧ usage_completed u0 u
           ∧ os_effective_usage s = Some (set_usage_cost (Some ac) u)
           ∧ os_baseline_usage s = Some b
           ∧ baseline_exact u b ((response ≫= rs_api_specific) ≫= of_api) (os_tokens_saved s)
           ∧ os_baseline_cost s = Some bc ∧ estimate_of (os_baseline_model s) (Some b) = Some bc
           ∧ os_actual_cost s = Some ac
           ∧ (provider_reported (Some u) = Some ac
              ∨ provider_reported (Some u) = None
                ∧ estimate_of (os_effective_model s) (Some u) = Some ac)
           ∧ eq_ignore_ascii_case (ce_currency bc) (ce_currency ac) = true
           ∧ total_or_component_sum bc = Some bt ∧ total_or_component_sum ac = Some at_
           ∧ os_estimated_cost_saved s = Some (f64_sub bt at_)
           ∧ os_currency s = Some (ce_currency bc)).
Proof.
  unfold summarize.
  destruct (bool_decide (f_contributions finished = []) && _) eqn:Hev.
  { apply andb_true_iff in Hev as [H1 H2]. apply bool_decide_eq_true in H1, H2. done. }
  pose proof (savings_summed finished) as Hsum.
  set (a := analyze_contributions finished) in *.
  destruct (derive_optimization_usage _ _ _ _) as [[ua r1] l1] eqn:Hd.
  destruct (price_optimization_usage _ _ _ _ _ _ _) as [[pa u2] r2] eqn:Hp.
  destruct (calculate_estimated_cost_saved _ _ _) as [[saved currency] l2] eqn:Hs.
  split.
  { split; [done|]. intros [H1 H2]. rewrite H1, H2 in Hev. done. }
  intros s [= <-]. split.
  { intros r Hr. apply fmap_Some in Hr as (r0 & _ & ->). done. }
  cbn. intros Hst. case_bool_decide as Hc; [|done]. clear Hst. apply canonical_nil in Hc.
  apply cost_saved_clean in Hs as [Hl Hcost]; [|done].
  apply limitations_clean in Hl as (Hl & Hu & He & Hb & Hac & Hbc).
  apply derive_clean in Hd as (Hl' & Hov & Hany & Hinc & Hm); [|done].
  apply analysis_clean in Hl' as (Hf & Hmiss & Hincons).
  apply price_clean in Hp as (-> & Hk & Hbm & Ham).
  destruct (ua_effective ua) as [u|] eqn:Heff; [|by destruct Hu].
  destruct Hm as (u0 & b & Hu0 & Hcu & Hub & Hex). pose proof Hcu as (p & c & t & H1 & H2 & Hset & _).
  fold a in Hmiss, Hincons. rewrite Hmiss, Hincons in Hinc.
  destruct Hbc as [bc Hbc]; [by rewrite Hany, Hov|done| |].
  { rewrite Hk, Hset. unfold core_usage_complete. cbn. by rewrite H1, H2. }
  destruct Hac as [ac Hac]. destruct (Hcost bc ac Hbc Hac) as (bt & at_ & ? & ? & ? & ? & ?).
  split_and!; try done; [by intros; apply Hsum|].
  exists u0, u, b, bc, ac, bt, at_. rewrite Hac. rewrite Hub in Hbm.
  split_and!; first [done|exact (Hbm bc Hbc)|exact (Ham ac Hac)].
Qed.

(** A compressed call of a priced model has a complete summary. *)
Definition demo_call : option AnnotatedLlmResponse := Some {|
  rs_id := None; rs_model := Some "acme-latest"; rs_message := None; rs_tool_calls := None;
  rs_finish_reason := None;
  rs_usage := Some {| prompt_tokens := Some 1000; completion_tokens := Some 500;
    total_tokens := None; cache_read_tokens := None; cache_write_tokens := None;
    uncached_input_tokens := None; cost := None |};
  rs_optimization_summary := None; rs_api_specific := None; rs_extra := [] |}.
Definition demo_compression (n : Z) : LlmOptimizationContribution := {|
  oc_id := None; oc_sequence := Some 0; oc_producer := "p"; oc_kind := INPUT_COMPRESSION;
  oc_applied := true; oc_model_transition := None;
  oc_token_impact := Some {| ti_baseline := None; ti_effective := None;
    ti_saved := Some (saved_prompt n); ti_quality := None; ti_estimation_method := None |};
  oc_payload_schema := None; oc_payload := None; oc_extra := [];
|}.
Definition demo_finished : FinishedContributions :=
  {| f_contributions := [demo_compression 1000]; f_limitations := [] |}.

Lemma complete_summary_exact_witness :
  ∃ s b, (summarize (H := resolver_estimator {| catalogs := [demo_catalog] |}) demo_finished
            demo_call None).1 = Some s
    ∧ os_status s = Complete ∧ os_baseline_usage s = Some b ∧ prompt_tokens b = Some 2000
    ∧ total_tokens <$> os_effective_usage s = Some (Some 1500)
    ∧ os_tokens_saved s = sum_savings [saved_prompt 1000].
Proof.
  pose proof (complete_summary_exact (H := resolver_estimator {| catalogs := [demo_catalog] |})
    demo_finished demo_call None) as H.
  destruct (summarize _ _ _) as [s r] eqn:E. vm_compute in E. injection E as <- <-.
  destruct H as [_ H]. destruct (H _ eq_refl) as [_ Hc].
  destruct (Hc eq_refl) as (_ & _ & _ & Hsum & _).
  do 2 eexists. split_and!; [reflexivity|reflexivity|reflexivity|reflexivity|reflexivity|].
  apply Hsum. repeat constructor; unfold u64_max; lia.
Defined.

Definition demo_pair (m n : Z) : FinishedContributions := {|
  f_contributions := [demo_compression m; demo_compression n]; f_limitations := [] |}.

Lemma token_totals_exact_witness :
  ot_prompt (values (ca_totals (analyze_contributions (demo_pair 5 7)))) = Some 12
  ∧ of_prompt (overflow (ca_totals (analyze_contributions (demo_pair u64_max 1)))) = true.
Proof.
  assert (Forall tokens_u64 (counted_savings (demo_pair 5 7))) as H1
    by (repeat constructor; unfold u64_max; lia).
  assert (Forall tokens_u64 (counted_savings (demo_pair u64_max 1))) as H2
    by (repeat constructor; unfold u64_max; lia).
  destruct (token_totals_exact _ H1) as [E1 _]. destruct (token_totals_exact _ H2) as [E2 _].
  split; [exact (f_equal fst E1)|exact (f_equal snd E2)].
Defined.
