(* ===== verification/Registries.v ===== *)
(** * Middleware registries ([crates/runtime/src/context/registries.rs],
    [crates/runtime/src/api/registry.rs], [crates/types/src/api/registry.rs])

    The sixteen registration surfaces, the record of registries that the
    global state and every scope own, the conditional gates that can disable
    a global registration, and the four functions that merge the global and
    the scope-local entries into one dispatch order.

    A callback ([Arc<dyn Fn ...>]) is a handle, a [Callback]; what a callback
    does when it runs is a parameter of the definitions that run it. *)

From stdpp Require Import base gmap strings list sorting.
From S2P Require Import Prelude Errors Registry.

Abbreviation Callback := N.
Abbreviation SortedRegistry := Registry.SortedRegistry.

(** ** Registration surfaces *)

Inductive RuntimeRegistrationKind : Type :=
| Subscriber
| EventMetadataInjector
| MarkSanitizeGuardrail
| ScopeSanitizeStartGuardrail
| ScopeSanitizeEndGuardrail
| ToolSanitizeRequestGuardrail
| ToolSanitizeResponseGuardrail
| ToolConditionalExecutionGuardrail
| ToolRequestIntercept
| ToolExecutionIntercept
| LlmSanitizeRequestGuardrail
| LlmSanitizeResponseGuardrail
| LlmConditionalExecutionGuardrail
| LlmRequestIntercept
| LlmExecutionIntercept
| LlmStreamExecutionIntercept.

#[global] Instance RuntimeRegistrationKind_eq_dec : EqDecision RuntimeRegistrationKind.
Proof. solve_decision. Defined.

Definition kind_as_str (k : RuntimeRegistrationKind) : string :=
  match k with
  | Subscriber => "subscriber"
  | EventMetadataInjector => "event_metadata_injector"
  | MarkSanitizeGuardrail => "mark_sanitize_guardrail"
  | ScopeSanitizeStartGuardrail => "scope_sanitize_start_guardrail"
  | ScopeSanitizeEndGuardrail => "scope_sanitize_end_guardrail"
  | ToolSanitizeRequestGuardrail => "tool_sanitize_request_guardrail"
  | ToolSanitizeResponseGuardrail => "tool_sanitize_response_guardrail"
  | ToolConditionalExecutionGuardrail => "tool_conditional_execution_guardrail"
  | ToolRequestIntercept => "tool_request_intercept"
  | ToolExecutionIntercept => "tool_execution_intercept"
  | LlmSanitizeRequestGuardrail => "llm_sanitize_request_guardrail"
  | LlmSanitizeResponseGuardrail => "llm_sanitize_response_guardrail"
  | LlmConditionalExecutionGuardrail => "llm_conditional_execution_guardrail"
  | LlmRequestIntercept => "llm_request_intercept"
  | LlmExecutionIntercept => "llm_execution_intercept"
  | LlmStreamExecutionIntercept => "llm_stream_execution_intercept"
  end.

(** The derived [Ord]: declaration order. *)
Definition kind_index (k : RuntimeRegistrationKind) : nat :=
  match k with
  | Subscriber => 0
  | EventMetadataInjector => 1
  | MarkSanitizeGuardrail => 2
  | ScopeSanitizeStartGuardrail => 3
  | ScopeSanitizeEndGuardrail => 4
  | ToolSanitizeRequestGuardrail => 5
  | ToolSanitizeResponseGuardrail => 6
  | ToolConditionalExecutionGuardrail => 7
  | ToolRequestIntercept => 8
  | ToolExecutionIntercept => 9
  | LlmSanitizeRequestGuardrail => 10
  | LlmSanitizeResponseGuardrail => 11
  | LlmConditionalExecutionGuardrail => 12
  | LlmRequestIntercept => 13
  | LlmExecutionIntercept => 14
  | LlmStreamExecutionIntercept => 15
  end.

(** ** Registration payloads *)

Record RequestIntercept (F : Type) : Type := {
  break_chain : bool;
  callable : F;
}.

Arguments break_chain {F} _.
Arguments callable {F} _.
Arguments Build_RequestIntercept {F} _ _.

Abbreviation Guardrail F := (RegistryRecord F).
Abbreviation MetadataInjector := (RegistryRecord Callback).
Abbreviation Intercept F := (RegistryRecord (RequestIntercept F)).
Abbreviation ExecutionIntercept F := (RegistryRecord F).

(** ** The registries of a scope

    [NemoRelayContextState] has the same sixteen fields; its model embeds
    this record. *)
Record ScopeLocalRegistries : Type := mk_registries {
  event_metadata_injectors : SortedRegistry MetadataInjector;
  mark_sanitize_guardrails : SortedRegistry (Guardrail Callback);
  scope_sanitize_start_guardrails : SortedRegistry (Guardrail Callback);
  scope_sanitize_end_guardrails : SortedRegistry (Guardrail Callback);
  tool_sanitize_request_guardrails : SortedRegistry (Guardrail Callback);
  tool_sanitize_response_guardrails : SortedRegistry (Guardrail Callback);
  tool_conditional_execution_guardrails : SortedRegistry (Guardrail Callback);
  tool_request_intercepts : SortedRegistry (Intercept Callback);
  tool_execution_intercepts : SortedRegistry (ExecutionIntercept Callback);
  llm_sanitize_request_guardrails : SortedRegistry (Guardrail Callback);
  llm_sanitize_response_guardrails : SortedRegistry (Guardrail Callback);
  llm_conditional_execution_guardrails : SortedRegistry (Guardrail Callback);
  llm_request_intercepts : SortedRegistry (Intercept Callback);
  llm_execution_intercepts : SortedRegistry (ExecutionIntercept Callback);
  llm_stream_execution_intercepts : SortedRegistry (ExecutionIntercept Callback);
  event_subscribers : gmap string Callback;
}.

Definition new_registries : ScopeLocalRegistries := {|
  event_metadata_injectors := Registry.new;
  mark_sanitize_guardrails := Registry.new;
  scope_sanitize_start_guardrails := Registry.new;
  scope_sanitize_end_guardrails := Registry.new;
  tool_sanitize_request_guardrails := Registry.new;
  tool_sanitize_response_guardrails := Registry.new;
  tool_conditional_execution_guardrails := Registry.new;
  tool_request_intercepts := Registry.new;
  tool_execution_intercepts := Registry.new;
  llm_sanitize_request_guardrails := Registry.new;
  llm_sanitize_response_guardrails := Registry.new;
  llm_conditional_execution_guardrails := Registry.new;
  llm_request_intercepts := Registry.new;
  llm_execution_intercepts := Registry.new;
  llm_stream_execution_intercepts := Registry.new;
  event_subscribers := ∅;
|}.

(** A registry field, as the registration macros ([$field:ident]) name it:
    a projection and the assignment through it. *)
Record Field (P : Type) : Type := {
  field_get : ScopeLocalRegistries → SortedRegistry (RegistryRecord P);
  field_set : SortedRegistry (RegistryRecord P) → ScopeLocalRegistries → ScopeLocalRegistries;
}.

Arguments field_get {P} _ _.
Arguments field_set {P} _ _ _.
Arguments Build_Field {P} _ _.

Definition F_event_metadata_injectors : Field Callback := Build_Field event_metadata_injectors
  (λ x '(mk_registries a b c d e f g h i j k l m n o s),
    mk_registries x b c d e f g h i j k l m n o s).

Definition F_mark_sanitize_guardrails : Field Callback := Build_Field mark_sanitize_guardrails
  (λ x '(mk_registries a b c d e f g h i j k l m n o s),
    mk_registries a x c d e f g h i j k l m n o s).

Definition F_scope_sanitize_start_guardrails : Field Callback := Build_Field scope_sanitize_start_guardrails
  (λ x '(mk_registries a b c d e f g h i j k l m n o s),
    mk_registries a b x d e f g h i j k l m n o s).

Definition F_scope_sanitize_end_guardrails : Field Callback := Build_Field scope_sanitize_end_guardrails
  (λ x '(mk_registries a b c d e f g h i j k l m n o s),
    mk_registries a b c x e f g h i j k l m n o s).

Definition F_tool_sanitize_request_guardrails : Field Callback := Build_Field tool_sanitize_request_guardrails
  (λ x '(mk_registries a b c d e f g h i j k l m n o s),
    mk_registries a b c d x f g h i j k l m n o s).

Definition F_tool_sanitize_response_guardrails : Field Callback := Build_Field tool_sanitize_response_guardrails
  (λ x '(mk_registries a b c d e f g h i j k l m n o s),
    mk_registries a b c d e x g h i j k l m n o s).

Definition F_tool_conditional_execution_guardrails : Field Callback := Build_Field tool_conditional_execution_guardrails
  (λ x '(mk_registries a b c d e f g h i j k l m n o s),
    mk_registries a b c d e f x h i j k l m n o s).

Definition F_tool_request_intercepts : Field (RequestIntercept Callback) := Build_Field tool_request_intercepts
  (λ x '(mk_registries a b c d e f g h i j k l m n o s),
    mk_registries a b c d e f g x i j k l m n o s).

Definition F_tool_execution_intercepts : Field Callback := Build_Field tool_execution_intercepts
  (λ x '(mk_registries a b c d e f g h i j k l m n o s),
    mk_registries a b c d e f g h x j k l m n o s).

Definition F_llm_sanitize_request_guardrails : Field Callback := Build_Field llm_sanitize_request_guardrails
  (λ x '(mk_registries a b c d e f g h i j k l m n o s),
    mk_registries a b c d e f g h i x k l m n o s).

Definition F_llm_sanitize_response_guardrails : Field Callback := Build_Field llm_sanitize_response_guardrails
  (λ x '(mk_registries a b c d e f g h i j k l m n o s),
    mk_registries a b c d e f g h i j x l m n o s).

Definition F_llm_conditional_execution_guardrails : Field Callback := Build_Field llm_conditional_execution_guardrails
  (λ x '(mk_registries a b c d e f g h i j k l m n o s),
    mk_registries a b c d e f g h i j k x m n o s).

Definition F_llm_request_intercepts : Field (RequestIntercept Callback) := Build_Field llm_request_intercepts
  (λ x '(mk_registries a b c d e f g h i j k l m n o s),
    mk_registries a b c d e f g h i j k l x n o s).

Definition F_llm_execution_intercepts : Field Callback := Build_Field llm_execution_intercepts
  (λ x '(mk_registries a b c d e f g h i j k l m n o s),
    mk_registries a b c d e f g h i j k l m x o s).

Definition F_llm_stream_execution_intercepts : Field Callback := Build_Field llm_stream_execution_intercepts
  (λ x '(mk_registries a b c d e f g h i j k l m n o s),
    mk_registries a b c d e f g h i j k l m n x s).

Definition set_event_subscribers (x : gmap string Callback)
    (r : ScopeLocalRegistries) : ScopeLocalRegistries :=
  let '(mk_registries a b c d e f g h i j k l m n o s) := r in
  mk_registries a b c d e f g h i j k l m n o x.

(** ** Conditional middleware gates *)

Record ConditionalMiddlewareGuardrail : Type := {
  kinds : list RuntimeRegistrationKind;
  registration_name : string;
  gate_callback : Callback;
}.

(** The process-wide table and whether its lock is poisoned. *)
Record GateTable : Type := {
  gates : gmap string ConditionalMiddlewareGuardrail;
  gates_poisoned : bool;
}.

Definition gate_matches (kind : RuntimeRegistrationKind) (effective_name : string)
    (g : ConditionalMiddlewareGuardrail) : bool :=
  bool_decide (kind ∈ kinds g) && bool_decide (registration_name g = effective_name).

Section Gates.
(** What a gate callback answers: [None] keeps the registration enabled,
    [Some reason] disables it, and it may panic. *)
Context (gate_run :
  Callback → list RuntimeRegistrationKind → string → outcome Empty_set (option string)).

(** The loop over the matching gates, in gate-name order. *)
Fixpoint gates_allow (matching : list ConditionalMiddlewareGuardrail)
    (effective_name : string) : bool :=
  match matching with
  | [] => true
  | g :: rest =>
      match gate_run (gate_callback g) (kinds g) effective_name with
      | Ok None => gates_allow rest effective_name
      | Ok (Some reason) => false
      | Err _ | Panic => gates_allow rest effective_name
      end
  end.

Definition runtime_registration_is_enabled (t : GateTable)
    (kind : RuntimeRegistrationKind) (effective_name : string) : bool :=
  if gates_poisoned t then true
  else
    gates_allow
      (filter (λ g, gate_matches kind effective_name g = true) (btree_iter (gates t)).*2)
      effective_name.

Lemma gates_allow_false matching n :
  gates_allow matching n = false
  ↔ ∃ g, g ∈ matching
      ∧ ∃ reason, gate_run (gate_callback g) (kinds g) n = Ok (Some reason).
Proof.
  induction matching as [|g rest IH]; cbn.
  { split; [done|]. by intros (g & Hg%elem_of_nil & _). }
  setoid_rewrite elem_of_cons.
  destruct (gate_run (gate_callback g) (kinds g) n) as [[r|]|[]|] eqn:Hg.
  - split; [|done]. intros _. exists g. eauto.
  - rewrite IH. split; [naive_solver|]. intros (g' & [->|Hg'] & r & Hr); [congruence|eauto].
  - rewrite IH. split; [naive_solver|]. intros (g' & [->|Hg'] & r & Hr); [congruence|eauto].
Qed.

Lemma elem_of_gate_list (t : GateTable) g :
  g ∈ (btree_iter (gates t)).*2 ↔ ∃ gate_name, gates t !! gate_name = Some g.
Proof.
  rewrite list_elem_of_fmap. split.
  - intros ([k g'] & -> & Hin). exists k. by apply elem_of_btree_iter.
  - intros [k Hk]. exists (k, g). split; [done|]. by apply elem_of_btree_iter.
Qed.

End Gates.

(** ** Merging global and scope-local entries *)

Definition priority_le {P : Type} (e1 e2 : RegistryRecord P) : Prop :=
  (priority e1 ≤ priority e2)%Z.

#[global] Instance priority_le_dec {P : Type} : RelDecision (@priority_le P).
Proof. intros ? ?. unfold priority_le. apply _. Defined.

#[global] Instance priority_le_total {P : Type} : Total (@priority_le P).
Proof. intros ? ?. unfold priority_le. lia. Qed.

#[global] Instance priority_le_trans {P : Type} : Transitive (@priority_le P).
Proof. intros ? ? ?. unfold priority_le. lia. Qed.

#[global] Instance entry_le_dec {P : Type} :
  RelDecision (Registry.entry_le (T := RegistryRecord P)).
Proof. intros ? ?. unfold Registry.entry_le. apply _. Defined.

#[global] Instance entry_le_total {P : Type} : Total (Registry.entry_le (T := RegistryRecord P)).
Proof.
  intros e1 e2. unfold Registry.entry_le.
  destruct (Z.lt_trichotomy (entry_priority e1) (entry_priority e2)) as [?|[?|?]];
    [by left; left| |by right; left].
  destruct (total String.le (entry_name e1) (entry_name e2)); [left|right]; right; by split.
Qed.

#[global] Instance entry_le_trans {P : Type} :
  Transitive (Registry.entry_le (T := RegistryRecord P)).
Proof.
  intros e1 e2 e3 [?|[? ?]] [?|[? ?]]; unfold Registry.entry_le; [left; lia..|].
  right. split; [lia|]. by etrans.
Qed.

Section Merge.
(** Whether the gates currently allow a global registration. *)
Context (enabled : RuntimeRegistrationKind → string → bool).

(** [all] before the sort: the enabled global entries, then the entries of
    each scope-local registry in the order given. *)
Definition collected {P : Type} (global : SortedRegistry (RegistryRecord P))
    (scope_locals : list (SortedRegistry (RegistryRecord P)))
    (kind : RuntimeRegistrationKind) : list (RegistryRecord P) :=
  filter (λ e, enabled kind (name e) = true) (Registry.sorted_values global)
  ++ (scope_locals ≫= Registry.sorted_values).

Definition merge_event_metadata_injector_entries
    (global : SortedRegistry MetadataInjector)
    (scope_locals : list (SortedRegistry MetadataInjector)) : list MetadataInjector :=
  stable_sort Registry.entry_le
    (collected global scope_locals EventMetadataInjector).

Definition merge_guardrail_entries {F : Type} (global : SortedRegistry (Guardrail F))
    (scope_locals : list (SortedRegistry (Guardrail F)))
    (kind : RuntimeRegistrationKind) : list (Guardrail F) :=
  stable_sort priority_le (collected global scope_locals kind).

Definition merge_intercept_entries {F : Type} (global : SortedRegistry (Intercept F))
    (scope_locals : list (SortedRegistry (Intercept F)))
    (kind : RuntimeRegistrationKind) : list (Intercept F) :=
  stable_sort priority_le (collected global scope_locals kind).

(** The pairs [(callable, priority)] that the execution chain is built from. *)
Definition pair_priority_le {F : Type} (p1 p2 : F * Z) : Prop := (p1.2 ≤ p2.2)%Z.

#[global] Instance pair_priority_le_dec {F : Type} : RelDecision (@pair_priority_le F).
Proof. intros ? ?. unfold pair_priority_le. apply _. Defined.

Definition merge_execution_intercept_callables {F : Type}
    (global : SortedRegistry (ExecutionIntercept F))
    (scope_locals : list (SortedRegistry (ExecutionIntercept F)))
    (kind : RuntimeRegistrationKind) : list (F * Z) :=
  let all :=
    (Registry.sorted_values global ≫= λ e,
       if enabled kind (name e) then [(payload e, priority e)] else [])
    ++ (scope_locals ≫= λ r,
         (λ e, (payload e, priority e)) <$> Registry.sorted_values r) in
  stable_sort pair_priority_le all.

Lemma collected_callables {F : Type} (global : SortedRegistry (ExecutionIntercept F))
    scope_locals kind :
  (λ e, (payload e, priority e)) <$> collected global scope_locals kind
  = (Registry.sorted_values global ≫= λ e,
       if enabled kind (name e) then [(payload e, priority e)] else [])
    ++ (scope_locals ≫= λ r,
         (λ e, (payload e, priority e)) <$> Registry.sorted_values r).
Proof.
  unfold collected. rewrite fmap_app. f_equal.
  - induction (Registry.sorted_values global) as [|e l IH]; [done|].
    rewrite filter_cons. cbn. rewrite <-IH. by destruct (enabled kind (name e)).
  - induction scope_locals as [|r rs IH]; [done|]. cbn. by rewrite fmap_app, IH.
Qed.

(** Projecting before or after the sort makes no difference. *)
Lemma merge_execution_intercept_callables_entries {F : Type}
    (global : SortedRegistry (ExecutionIntercept F)) scope_locals kind :
  merge_execution_intercept_callables global scope_locals kind
  = (λ e, (payload e, priority e)) <$> merge_guardrail_entries global scope_locals kind.
Proof.
  unfold merge_execution_intercept_callables, merge_guardrail_entries.
  rewrite (stable_sort_fmap priority_le pair_priority_le) by done.
  by rewrite collected_callables.
Qed.

End Merge.

(** The entries of a priority class, in order. *)
Definition at_priority {P : Type} (p : Z) (l : list (RegistryRecord P)) :
    list (RegistryRecord P) :=
  filter (λ e, priority e = p) l.

Lemma at_priority_same_class {P : Type} p (l : list (RegistryRecord P)) e :
  priority e = p → at_priority p l = same_class priority_le e l.
Proof.
  intros <-. unfold at_priority, same_class. apply list_filter_iff.
  intros e'. unfold priority_le. lia.
Qed.

Lemma stable_sort_at_priority {P : Type} p (l : list (RegistryRecord P)) :
  at_priority p (stable_sort priority_le l) = at_priority p l.
Proof.
  assert (at_priority p (stable_sort priority_le l) ≡ₚ at_priority p l) as Hperm.
  { unfold at_priority. by rewrite stable_sort_Permutation. }
  destruct (at_priority p l) as [|e l'] eqn:Hl.
  { by apply Permutation_nil_r in Hperm. }
  assert (priority e = p) as He.
  { assert (e ∈ at_priority p l) as Hin by (rewrite Hl; left).
    by apply list_elem_of_filter in Hin as [? _]. }
  rewrite <-Hl, !(at_priority_same_class p _ e He). apply stable_sort_same_class. apply _.
Qed.

Lemma at_priority_app {P : Type} p (l1 l2 : list (RegistryRecord P)) :
  at_priority p (l1 ++ l2) = at_priority p l1 ++ at_priority p l2.
Proof. apply filter_app. Qed.

Lemma at_priority_bind {P : Type} p (rs : list (SortedRegistry (RegistryRecord P))) :
  at_priority p (rs ≫= Registry.sorted_values)
  = rs ≫= λ r, at_priority p (Registry.sorted_values r).
Proof.
  induction rs as [|r rs IH]; [done|]. by rewrite !bind_cons, at_priority_app, IH.
Qed.

(** A conditional gate decides by what it answers and nothing else: a
    global registration is disabled exactly when the gate table is readable
    and some gate for its kind and name answers with a reason; a gate that
    panics, a gate for another kind or name and an unreadable table leave it
    enabled. *)
Lemma registration_disabled_iff gate_run t kind n :
  runtime_registration_is_enabled gate_run t kind n = false
  ↔ gates_poisoned t = false
    ∧ ∃ gate_name g reason, gates t !! gate_name = Some g
      ∧ kind ∈ kinds g ∧ registration_name g = n
      ∧ gate_run (gate_callback g) (kinds g) n = Ok (Some reason).
Proof.
  unfold runtime_registration_is_enabled. destruct (gates_poisoned t); [naive_solver|].
  split.
  - intros Hf. split; [done|]. apply gates_allow_false in Hf as (g & Hin & reason & Hg).
    apply list_elem_of_filter in Hin as [Hm Hin]. apply elem_of_gate_list in Hin as [k Hk].
    apply andb_true_iff in Hm as [Hk1 Hk2]. exists k, g, reason.
    by split_and!; [|apply bool_decide_eq_true in Hk1|apply bool_decide_eq_true in Hk2|].
  - intros (_ & k & g & reason & Hk & Hkind & Hn & Hg). apply gates_allow_false.
    exists g. split; [|by exists reason]. apply list_elem_of_filter. split.
    + unfold gate_matches. by rewrite !bool_decide_eq_true_2.
    + apply elem_of_gate_list. by exists k.
Qed.

(** ** Properties *)

(** C34: the merged guardrail order: the merge keeps
    exactly the enabled global entries and all scope-local ones, sorts them by
    ascending priority, and within one priority runs the global entries first
    and then each scope's, from the root scope outwards, every registry in
    its own order. *)
Theorem merge_guardrail_entries_spec {F : Type} enabled
    (global : SortedRegistry (Guardrail F)) scope_locals kind :
  let merged := merge_guardrail_entries enabled global scope_locals kind in
  merged ≡ₚ filter (λ e, enabled kind (name e) = true) (Registry.sorted_values global)
            ++ (scope_locals ≫= Registry.sorted_values)
  ∧ StronglySorted priority_le merged
  ∧ (∀ p, at_priority p merged
          = at_priority p
              (filter (λ e, enabled kind (name e) = true) (Registry.sorted_values global))
            ++ (scope_locals ≫= λ r, at_priority p (Registry.sorted_values r))).
Proof.
  cbv zeta. unfold merge_guardrail_entries. split_and!.
  - apply stable_sort_Permutation.
  - apply stable_sort_StronglySorted; apply _.
  - intros p. unfold collected. by rewrite stable_sort_at_priority, at_priority_app,
      at_priority_bind.
Qed.

(** C37: execution intercepts are merged by sorting cloned
    [(callable, priority)] pairs; that gives the callables of the merged
    records, in the order the guardrail merge defines. *)
Theorem merge_execution_intercepts_equiv {F : Type} enabled
    (global : SortedRegistry (ExecutionIntercept F)) scope_locals kind :
  merge_execution_intercept_callables enabled global scope_locals kind
  = (λ e, (payload e, priority e))
      <$> merge_guardrail_entries enabled global scope_locals kind.
Proof. apply merge_execution_intercept_callables_entries. Qed.

