(* ===== verification/ScopeStack.v ===== *)
(** * The scope stack ([crates/runtime/src/api/runtime/scope_stack.rs])

    The stack of active scopes of a task or thread, the registries each scope
    owns, the set of fresh agents and the imported propagation context.  The
    list [stack] is ordered from the root to the top; the implicit root is
    always there ([wf]).

    A method that panics on an empty stack ([expect]) returns [None] here;
    [reachable_wf] shows that this never happens. *)

From stdpp Require Import base gmap strings list.
From S2P Require Import Prelude Text Errors Json Registry Trace Events Registries.

(** [crates/runtime/src/api/scope.rs]. *)
Record ScopeHandle : Type := {
  sh_uuid : uuid;
  sh_started_at : timestamp;
  sh_scope_type : ScopeType;
  sh_name : string;
  sh_data : option Json;
  sh_metadata : option Json;
  sh_attributes : Z;
  sh_parent_uuid : option uuid;
}.

(** [ScopeHandle::builder()] with only identity, parent, name and type set. *)
Definition bare_handle (u : uuid) (now : timestamp) (parent : option uuid) (n : string)
    (t : ScopeType) : ScopeHandle := {|
  sh_uuid := u; sh_started_at := now; sh_scope_type := t; sh_name := n;
  sh_data := None; sh_metadata := None; sh_attributes := 0; sh_parent_uuid := parent;
|}.

Record PropagationContext : Type := {
  pc_version : Z;
  pc_root_uuid : option uuid;
  pc_parent_uuid : uuid;
  pc_traceparent : option string;
  pc_tracestate : option string;
}.

Record ScopeStack : Type := {
  stack : list ScopeHandle;
  scope_registries : gmap uuid ScopeLocalRegistries;
  fresh_agents : gset uuid;
  propagated_parent_uuid : option uuid;
  propagated_root_uuid : option uuid;
  propagated_traceparent : option string;
  propagated_tracestate : option string;
  is_rootless_propagation : bool;
}.

Definition is_agent (h : ScopeHandle) : bool :=
  match sh_scope_type h with Agent => true | _ => false end.

Definition has_uuid (u : uuid) (h : ScopeHandle) : bool := (sh_uuid h =? u)%Z.

Module Stack.

(** The struct update syntax for the three mutable fields. *)
Definition set_parts (st : list ScopeHandle) (regs : gmap uuid ScopeLocalRegistries)
    (fresh : gset uuid) (s : ScopeStack) : ScopeStack := {|
  stack := st;
  scope_registries := regs;
  fresh_agents := fresh;
  propagated_parent_uuid := propagated_parent_uuid s;
  propagated_root_uuid := propagated_root_uuid s;
  propagated_traceparent := propagated_traceparent s;
  propagated_tracestate := propagated_tracestate s;
  is_rootless_propagation := is_rootless_propagation s;
|}.

(** [ScopeStack::new]; the root's uuid and start time come from the builder's
    defaults. *)
Definition new (root_uuid : uuid) (now : timestamp) : ScopeStack := {|
  stack := [bare_handle root_uuid now None "root" Agent];
  scope_registries := ∅;
  fresh_agents := {[root_uuid]};
  propagated_parent_uuid := None;
  propagated_root_uuid := None;
  propagated_traceparent := None;
  propagated_tracestate := None;
  is_rootless_propagation := false;
|}.

Definition push (handle : ScopeHandle) (s : ScopeStack) : ScopeStack :=
  set_parts (stack s ++ [handle]) (scope_registries s)
    (if is_agent handle then {[sh_uuid handle]} ∪ fresh_agents s else fresh_agents s) s.

Definition top (s : ScopeStack) : option ScopeHandle := last (stack s).

(** A write through [top_mut]. *)
Definition update_top (f : ScopeHandle → ScopeHandle) (s : ScopeStack) : option ScopeStack :=
  match rev (stack s) with
  | [] => None
  | h :: below => Some (set_parts (rev below ++ [f h]) (scope_registries s) (fresh_agents s) s)
  end.

Definition root_uuid (s : ScopeStack) : option uuid := sh_uuid <$> head (stack s).

(** [None] is the panic of [root_uuid] on an empty stack. *)
Definition event_propagation_root_uuid (s : ScopeStack) : option (option uuid) :=
  match propagated_root_uuid s with
  | Some u => Some (Some u)
  | None =>
      match find (λ h, is_agent h && is_usable_relay_identifier (sh_uuid h))
              (drop 1 (stack s)) with
      | Some h => Some (Some (sh_uuid h))
      | None =>
          if negb (is_rootless_propagation s) then Some <$> root_uuid s else Some None
      end
  end.

Definition event_propagation_parent_uuid (s : ScopeStack) : option uuid :=
  propagated_parent_uuid s.

Definition is_propagated_parent (s : ScopeStack) (u : uuid) : bool :=
  bool_decide (propagated_parent_uuid s = Some u).

Definition find_scope (u : uuid) (s : ScopeStack) : option ScopeHandle :=
  find (has_uuid u) (stack s).

Definition remove (u : uuid) (s : ScopeStack) : result ScopeHandle * ScopeStack :=
  match rev (stack s) with
  | [] => (Panic, s)
  | top :: below =>
      if has_uuid u top then
        if (length (stack s) =? 1)%nat then
          (Err (InvalidArgument "root scope cannot be removed"), s)
        else
          (Ok top, set_parts (rev below) (delete u (scope_registries s))
                     (fresh_agents s ∖ {[u]}) s)
      else if existsb (has_uuid u) (stack s) then
        (Err (InvalidArgument "scope handle is not at the top of the stack"), s)
      else (Err (NotFound "scope handle not found"), s)
  end.

(** [iter().position(|scope| scope.uuid == u)]. *)
Fixpoint position (u : uuid) (l : list ScopeHandle) : option nat :=
  match l with
  | [] => None
  | h :: l => if has_uuid u h then Some 0 else S <$> position u l
  end.

(** [None] is the panic of the [expect]. *)
Definition owning_agent_uuid (parent_uuid : option uuid) (s : ScopeStack) : option uuid :=
  let search_end :=
    match parent_uuid ≫= λ p, position p (stack s) with
    | Some index => index + 1
    | None => length (stack s)
    end in
  sh_uuid <$> find is_agent (rev (take search_end (stack s))).

Definition take_agent_freshness (parent_uuid : option uuid) (s : ScopeStack) :
    option (bool * ScopeStack) :=
  u ← owning_agent_uuid parent_uuid s;
  Some (bool_decide (u ∈ fresh_agents s),
        set_parts (stack s) (scope_registries s) (fresh_agents s ∖ {[u]}) s).

Definition mark_agent_fresh (parent_uuid : option uuid) (s : ScopeStack) :
    option ScopeStack :=
  u ← owning_agent_uuid parent_uuid s;
  Some (set_parts (stack s) (scope_registries s) ({[u]} ∪ fresh_agents s) s).

(** [local_registries_mut] followed by a write [f] through the reference:
    the answer of [f], or [None] when the scope is not active. *)
Definition local_registries_mut {A : Type} (u : uuid)
    (f : ScopeLocalRegistries → A * ScopeLocalRegistries) (s : ScopeStack) :
    option A * ScopeStack :=
  if negb (existsb (has_uuid u) (stack s)) then (None, s)
  else
    let regs := default new_registries (scope_registries s !! u) in
    let '(a, regs) := f regs in
    (Some a, set_parts (stack s) (<[u := regs]> (scope_registries s)) (fresh_agents s) s).

Definition collect_scope_local_registries {A : Type} (field : ScopeLocalRegistries → A)
    (s : ScopeStack) : list A :=
  field <$> omap (λ h, scope_registries s !! sh_uuid h) (stack s).

(** Registries are values here, so cloning them is the identity. *)
Definition snapshot_scope_local_registries {P : Type}
    (field : ScopeLocalRegistries → SortedRegistry (RegistryRecord P)) (s : ScopeStack) :
    list (SortedRegistry (RegistryRecord P)) :=
  collect_scope_local_registries field s.

Definition collect_scope_local_subscribers (s : ScopeStack) : list Callback :=
  omap (λ h, scope_registries s !! sh_uuid h) (stack s)
    ≫= λ r, (map_to_list (event_subscribers r)).*2.

(** ** Snapshots *)

Definition snapshot (s : ScopeStack) : ScopeStack := {|
  stack := stack s;
  scope_registries := scope_registries s;
  fresh_agents := fresh_agents s;
  propagated_parent_uuid := propagated_parent_uuid s;
  propagated_root_uuid := propagated_root_uuid s;
  propagated_traceparent := propagated_traceparent s;
  propagated_tracestate := propagated_tracestate s;
  is_rootless_propagation := is_rootless_propagation s;
|}.

Definition root_only_snapshot (s : ScopeStack) : option ScopeStack :=
  root ← head (stack s);
  Some (set_parts [root]
    (match scope_registries s !! sh_uuid root with
     | Some registries => {[sh_uuid root := registries]}
     | None => ∅
     end)
    (if bool_decide (sh_uuid root ∈ fresh_agents s) then {[sh_uuid root]} else ∅) s).

Definition snapshot_through_scope (scope_uuid : uuid) (s : ScopeStack) : option ScopeStack :=
  end_ ← position scope_uuid (stack s);
  let st := take (S end_) (stack s) in
  let visible : gset uuid := list_to_set (sh_uuid <$> st) in
  Some (set_parts st (filter (λ kv, kv.1 ∈ visible) (scope_registries s))
          (fresh_agents s ∩ visible) s).

Record ScopeStackEntry : Type := { scope_id : uuid; entry_scope_type : ScopeType }.

(** [scope_stack_snapshot]: the detached identities. *)
Definition scope_stack_snapshot (s : ScopeStack) : list ScopeStackEntry :=
  (λ h, {| scope_id := sh_uuid h; entry_scope_type := sh_scope_type h |}) <$> stack s.

(** ** Propagation contexts *)

Definition VERSION : Z := 1.

Definition unusable (n : string) : FlowError :=
  InvalidArgument ("propagation context " +:+ n +:+ " is not a usable Relay identifier").

Definition validate (c : PropagationContext) : result unit :=
  if negb (pc_version c =? VERSION)%Z then
    Err (InvalidArgument
      ("unsupported propagation context version " +:+ dec_of_N (Z.to_N (pc_version c))
       +:+ "; expected " +:+ dec_of_N (Z.to_N VERSION)))
  else if negb (is_usable_relay_identifier (pc_parent_uuid c)) then Err (unusable "parent_uuid")
  else
    match pc_root_uuid c with
    | Some u => if negb (is_usable_relay_identifier u) then Err (unusable "root_uuid") else Ok ()
    | None => Ok ()
    end.

Section Propagation.
Context `{!Otel}.

Definition normalized (c : PropagationContext) : PropagationContext :=
  let '(traceparent, tracestate, _) :=
    normalize_w3c_headers (pc_traceparent c) (pc_tracestate c) in
  {| pc_version := pc_version c; pc_root_uuid := pc_root_uuid c;
     pc_parent_uuid := pc_parent_uuid c;
     pc_traceparent := traceparent; pc_tracestate := tracestate |}.

Definition to_traceparent (c : PropagationContext) : result string :=
  outcome_bind (validate c) (λ _,
    let context := normalized c in
    match pc_traceparent context with
    | Some traceparent => Ok traceparent
    | None =>
        match pc_root_uuid context with
        | None =>
            Err (InvalidArgument
              "rootless propagation context cannot be converted to traceparent")
        | Some root_uuid => Ok (format_traceparent root_uuid (pc_parent_uuid c))
        end
    end).

(** [now_root] and [now_parent] are the start times the two builders read. *)
Definition from_propagation (now_root now_parent : timestamp) (c : PropagationContext) :
    result ScopeStack :=
  outcome_bind (validate c) (λ _,
    let context := normalized c in
    let '(root, parent) :=
      match pc_root_uuid context with
      | Some root_uuid =>
          (bare_handle root_uuid now_root None "propagated-root" Agent,
           if negb (root_uuid =? pc_parent_uuid context)%Z then
             Some (bare_handle (pc_parent_uuid context) now_parent (Some root_uuid)
               "propagated-parent" Unknown)
           else None)
      | None =>
          (bare_handle (pc_parent_uuid context) now_root None "propagated-root" Agent, None)
      end in
    Ok {|
      stack := root :: match parent with Some parent => [parent] | None => [] end;
      scope_registries := ∅;
      fresh_agents := {[sh_uuid root]};
      propagated_parent_uuid := Some (pc_parent_uuid context);
      propagated_root_uuid := pc_root_uuid context;
      propagated_traceparent := pc_traceparent context;
      propagated_tracestate := pc_tracestate context;
      is_rootless_propagation := bool_decide (pc_root_uuid context = None);
    |}).

(** ** Trace contexts of scopes *)

Definition propagated_span_context (s : ScopeStack) (u : uuid) : option SpanContext :=
  if negb (bool_decide (propagated_parent_uuid s = Some u)) then None
  else
    match w3c_span_context (propagated_traceparent s) (propagated_tracestate s) with
    | Some context => Some context
    | None =>
        root_uuid ← propagated_root_uuid s;
        if negb (is_usable_relay_identifier root_uuid)
           || negb (is_usable_relay_identifier u)
        then None
        else Some (span_new (relay_trace_id root_uuid) (relay_span_id u) SAMPLED true
                     trace_state_default)
    end.

(** The context of a scope from that of its parent. *)
Definition child_span_context (u : uuid) (parent_context : option SpanContext) : SpanContext :=
  match parent_context with
  | Some parent =>
      span_new (trace_id parent) (relay_span_id u) (trace_flags parent) false
        (trace_state parent)
  | None =>
      span_new (relay_trace_id u) (relay_span_id u) SAMPLED false trace_state_default
  end.

Section Inner.
Context (s : ScopeStack).

(** [local_span_context_inner] and [parent_span_context_inner].  The argument
    [below] is [stack[1..before_index]], nearest scope first; every recursive
    call searches strictly below the scope that was found, so the recursion
    is structural.  [visiting] is the mutable set, threaded through.  The
    closure [search] is the part of [local_span_context_inner] after its two
    entry checks. *)
Definition local_entry (search : uuid → list uuid → option SpanContext * list uuid)
    (u : uuid) (visiting : list uuid) : option SpanContext * list uuid :=
  if negb (is_usable_relay_identifier u) || bool_decide (u ∈ visiting) then (None, visiting)
  else
    let visiting := u :: visiting in
    match propagated_span_context s u with
    | Some context => (Some context, filter (λ v, v ≠ u) visiting)
    | None => search u visiting
    end.

Definition parent_entry (search : uuid → list uuid → option SpanContext * list uuid)
    (u : uuid) (visiting : list uuid) : option SpanContext * list uuid :=
  match propagated_span_context s u with
  | Some context => (Some context, visiting)
  | None => local_entry search u visiting
  end.

(** [stack.get(index - 1)]: the scope below, the root below the first. *)
Definition below_parent (lower : list ScopeHandle) : option ScopeHandle :=
  match lower with
  | h :: _ => Some h
  | [] => head (stack s)
  end.

Definition stack_parent_context (search : uuid → list uuid → option SpanContext * list uuid)
    (below : option ScopeHandle) (visiting : list uuid) : option SpanContext * list uuid :=
  match below with
  | Some parent => parent_entry search (sh_uuid parent) visiting
  | None => (None, visiting)
  end.

(** [parent_context] in the source. *)
Definition scope_parent_context (search : uuid → list uuid → option SpanContext * list uuid)
    (below : option ScopeHandle) (scope : ScopeHandle) (visiting : list uuid) :
    option SpanContext * list uuid :=
  match sh_parent_uuid scope with
  | Some parent_uuid =>
      let '(context, visiting) := parent_entry search parent_uuid visiting in
      match context with
      | Some context => (Some context, visiting)
      | None =>
          if is_usable_relay_identifier parent_uuid
             && bool_decide (find_scope parent_uuid s = None)
          then stack_parent_context search below visiting
          else (None, visiting)
      end
  | None => stack_parent_context search below visiting
  end.

(** The rest of [local_span_context_inner] once the scope is found. *)
Definition found_context (search : uuid → list uuid → option SpanContext * list uuid)
    (below : option ScopeHandle) (scope : ScopeHandle) (u : uuid) (visiting : list uuid) :
    option SpanContext * list uuid :=
  let '(parent_context, visiting) := scope_parent_context search below scope visiting in
  let context := child_span_context u parent_context in
  (if is_valid context then Some context else None, filter (λ v, v ≠ u) visiting).

Fixpoint search_below (below : list ScopeHandle) (u : uuid) (visiting : list uuid) :
    option SpanContext * list uuid :=
  match below with
  | [] => (None, visiting)
  | scope :: lower =>
      if has_uuid u scope
      then found_context (search_below lower) (below_parent lower) scope u visiting
      else search_below lower u visiting
  end.

Definition local_span_context (u : uuid) : option SpanContext :=
  (local_entry (search_below (rev (drop 1 (stack s)))) u []).1.

Definition w3c_headers_for_span (span_uuid causal_parent_uuid : uuid) :
    option (option string * option string) :=
  if (span_uuid =? causal_parent_uuid)%Z
     && bool_decide (propagated_parent_uuid s = Some causal_parent_uuid)
     && bool_decide (is_Some (propagated_traceparent s))
  then Some (propagated_traceparent s, propagated_tracestate s)
  else
    let headers := λ context : option SpanContext,
      match context with
      | Some parent => w3c_headers_for_parent parent span_uuid
      | None => (None, None)
      end in
    match local_span_context causal_parent_uuid with
    | Some context => Some (headers (Some context))
    | None =>
        if is_usable_relay_identifier causal_parent_uuid
           && bool_decide (find_scope causal_parent_uuid s = None)
        then top ← top s; Some (headers (local_span_context (sh_uuid top)))
        else Some (headers None)
    end.

Definition event_w3c_headers (parent_uuid : option uuid) :
    option (option string * option string) :=
  match parent_uuid with
  | None => Some (None, None)
  | Some parent_uuid =>
      if bool_decide (propagated_parent_uuid s = Some parent_uuid)
         && bool_decide (is_Some (propagated_traceparent s))
      then Some (propagated_traceparent s, propagated_tracestate s)
      else if bool_decide (propagated_parent_uuid s = Some parent_uuid)
              && bool_decide (propagated_root_uuid s = None)
      then Some (None, None)
      else w3c_headers_for_span parent_uuid parent_uuid
  end.

End Inner.
End Propagation.

(** ** Invariant *)

Definition uuids (s : ScopeStack) : gset uuid := list_to_set (sh_uuid <$> stack s).

Record wf (s : ScopeStack) : Prop := {
  wf_root : ∃ root, head (stack s) = Some root ∧ is_agent root = true;
  wf_registries : dom (scope_registries s) ⊆ uuids s;
  wf_fresh : fresh_agents s ⊆ uuids s;
}.

(** Every way a stack comes to exist or changes.  A write through [top_mut]
    keeps the identity and the type of the scope, as its callers do. *)
Inductive initial `{!Otel} : ScopeStack → Prop :=
| initial_new u now : initial (new u now)
| initial_propagation now1 now2 c s : from_propagation now1 now2 c = Ok s → initial s.

Inductive step : ScopeStack → ScopeStack → Prop :=
| step_push h s : step s (push h s)
| step_remove u s : step s (remove u s).2
| step_update_top f s s' :
    (∀ h, sh_uuid (f h) = sh_uuid h ∧ sh_scope_type (f h) = sh_scope_type h) →
    update_top f s = Some s' → step s s'
| step_take p s b s' : take_agent_freshness p s = Some (b, s') → step s s'
| step_mark p s s' : mark_agent_fresh p s = Some s' → step s s'
| step_registries A u f s : step s (local_registries_mut (A := A) u f s).2
| step_snapshot s : step s (snapshot s)
| step_root_only s s' : root_only_snapshot s = Some s' → step s s'
| step_through u s s' : snapshot_through_scope u s = Some s' → step s s'.

Definition reachable `{!Otel} (s : ScopeStack) : Prop :=
  ∃ s0, initial s0 ∧ rtc step s0 s.

(** ** Preservation *)

Lemma elem_of_uuids u s : u ∈ uuids s ↔ ∃ h, h ∈ stack s ∧ sh_uuid h = u.
Proof. unfold uuids. rewrite elem_of_list_to_set, list_elem_of_fmap. naive_solver. Qed.

Lemma uuids_app st1 st2 regs fresh s :
  uuids (set_parts (st1 ++ st2) regs fresh s)
  = list_to_set (sh_uuid <$> st1) ∪ list_to_set (sh_uuid <$> st2).
Proof. unfold uuids. cbn. by rewrite fmap_app, list_to_set_app_L. Qed.

Lemma existsb_uuid u s : existsb (has_uuid u) (stack s) = true ↔ u ∈ uuids s.
Proof.
  rewrite elem_of_uuids, existsb_exists. unfold has_uuid. split.
  - intros (h & Hin & Hu%Z.eqb_eq). exists h. by rewrite list_elem_of_In.
  - intros (h & Hin & Hu). exists h. by rewrite <-list_elem_of_In, Z.eqb_eq.
Qed.

Lemma initial_wf `{!Otel} s : initial s → wf s.
Proof.
  destruct 1 as [u now|now1 now2 c s Hs].
  - split; cbn; [by eexists| |]; unfold uuids; cbn; set_solver.
  - unfold from_propagation in Hs. destruct (validate c); try done. cbn in Hs.
    destruct (normalized c) as [v [r|] p tp ts]; cbn in Hs; injection Hs as <-;
      (split; cbn; [by eexists| |]; unfold uuids; cbn; set_solver).
Qed.

Lemma push_wf h s : wf s → wf (push h s).
Proof.
  intros [(root & Hr & Ha) Hregs Hfresh]. unfold push. split.
  - exists root. split; [|done]. cbn. by destruct (stack s).
  - rewrite uuids_app. cbn. fold (uuids s). set_solver.
  - rewrite uuids_app. cbn. fold (uuids s). destruct (is_agent h); set_solver.
Qed.

(** The stack as root-to-below plus top. *)
Lemma rev_stack_cons s h below : rev (stack s) = h :: below → stack s = rev below ++ [h].
Proof. intros H. by rewrite <-(rev_involutive (stack s)), H. Qed.

Lemma uuids_snoc s below h :
  stack s = below ++ [h] → uuids s = list_to_set (sh_uuid <$> below) ∪ {[sh_uuid h]}.
Proof. intros H. unfold uuids. rewrite H, fmap_app, list_to_set_app_L. cbn. set_solver. Qed.

Lemma remove_wf u s : wf s → wf (remove u s).2.
Proof.
  intros Hwf. unfold remove. destruct (rev (stack s)) as [|top below] eqn:Hst; [done|].
  apply rev_stack_cons in Hst. destruct (has_uuid u top) eqn:Htop; [|by case_match].
  destruct (length (stack s) =? 1)%nat eqn:Hlen; [done|]. cbn.
  destruct Hwf as [(root & Hr & Ha) Hregs Hfresh].
  apply Z.eqb_eq in Htop. rewrite (uuids_snoc s (rev below) top Hst) in Hregs, Hfresh.
  split; cbn.
  - exists root. split; [|done]. rewrite Hst in Hr, Hlen. by destruct (rev below).
  - rewrite dom_delete. unfold uuids. cbn. set_solver.
  - unfold uuids. cbn. set_solver.
Qed.

Lemma find_elem_of (p : ScopeHandle → bool) l h : find p l = Some h → h ∈ l ∧ p h = true.
Proof. intros [Hin Hp]%List.find_some. by rewrite list_elem_of_In. Qed.

Lemma elem_of_take_stack (l : list ScopeHandle) n h : h ∈ take n l → h ∈ l.
Proof. intros H. rewrite <-(take_drop n l), elem_of_app. by left. Qed.

Lemma owning_agent_spec p s u :
  owning_agent_uuid p s = Some u →
  ∃ h, h ∈ stack s ∧ is_agent h = true ∧ sh_uuid h = u.
Proof.
  unfold owning_agent_uuid. intros (h & Hh & ->)%fmap_Some.
  apply find_elem_of in Hh as [Hin Ha]. exists h. split_and!; [|done|done].
  rewrite list_elem_of_In, <-in_rev, <-list_elem_of_In in Hin.
  by eapply elem_of_take_stack.
Qed.

Lemma owning_agent_elem p s u : owning_agent_uuid p s = Some u → u ∈ uuids s.
Proof. intros (h & ? & _ & ?)%owning_agent_spec. apply elem_of_uuids. eauto. Qed.

Lemma position_Some u l i :
  position u l = Some i →
  ∃ h, l !! i = Some h ∧ sh_uuid h = u ∧ ∀ j h', j < i → l !! j = Some h' → sh_uuid h' ≠ u.
Proof.
  revert i. induction l as [|h l IH]; intros i; cbn; [done|].
  destruct (has_uuid u h) eqn:Hu.
  - intros [= <-]. apply Z.eqb_eq in Hu. exists h. split_and!; [done|done|]. lia.
  - intros (j & Hj & ->)%fmap_Some. destruct (IH j Hj) as (h' & Hl & Hh' & Hfirst).
    exists h'. split_and!; [done|done|]. intros [|k] h'' Hk; cbn.
    + intros [= <-]. by apply Z.eqb_neq in Hu.
    + apply Hfirst. lia.
Qed.

Lemma set_fresh_wf (fresh : gset uuid) s :
  wf s → fresh ⊆ uuids s → wf (set_parts (stack s) (scope_registries s) fresh s).
Proof. intros [Hr Hregs _] Hf. by split. Qed.

Lemma update_top_wf f s s' :
  (∀ h, sh_uuid (f h) = sh_uuid h ∧ sh_scope_type (f h) = sh_scope_type h) →
  update_top f s = Some s' → wf s → wf s'.
Proof.
  intros Hf Hs [(root & Hr & Ha) Hregs Hfresh]. unfold update_top in Hs.
  destruct (rev (stack s)) as [|h below] eqn:Hst; [done|]. injection Hs as <-.
  apply rev_stack_cons in Hst. destruct (Hf h) as [Hu Ht].
  rewrite (uuids_snoc s (rev below) h Hst) in Hregs, Hfresh. split.
  - cbn. rewrite Hst in Hr. destruct (rev below) as [|x l]; cbn in *; [|by exists root].
    injection Hr as ->. exists (f root). split; [done|]. unfold is_agent in *. by rewrite Ht.
  - rewrite uuids_app. cbn. rewrite Hu. set_solver.
  - rewrite uuids_app. cbn. rewrite Hu. set_solver.
Qed.

Lemma local_registries_mut_wf {A} u (f : _ → A * _) s :
  wf s → wf (local_registries_mut u f s).2.
Proof.
  intros Hwf. unfold local_registries_mut. destruct (existsb _ _) eqn:Hu; [|done].
  apply existsb_uuid in Hu. cbn. destruct (f _) as [a regs]. cbn.
  destruct Hwf as [Hr Hregs Hfresh]. split; [done| |done]. cbn.
  rewrite dom_insert. unfold uuids in *. cbn. set_solver.
Qed.

Lemma through_wf u s s' : snapshot_through_scope u s = Some s' → wf s → wf s'.
Proof.
  unfold snapshot_through_scope.
  intros (i & Hi & [= <-])%bind_Some [(root & Hr & Ha) Hregs Hfresh]. split; cbn.
  - exists root. split; [|done]. by destruct (stack s).
  - intros v. rewrite elem_of_dom. by intros [r [_ Hv]%map_lookup_filter_Some].
  - unfold uuids. cbn. set_solver.
Qed.

Lemma root_only_wf s s' : root_only_snapshot s = Some s' → wf s → wf s'.
Proof.
  unfold root_only_snapshot. intros (root & Hroot & [= <-])%bind_Some [(r & Hr & Ha) _ _].
  rewrite Hroot in Hr. injection Hr as ->. split; cbn; [by exists r|..]; unfold uuids; cbn.
  - destruct (scope_registries s !! sh_uuid r); [rewrite dom_singleton|rewrite dom_empty];
      set_solver.
  - case_bool_decide; set_solver.
Qed.

Lemma step_wf s s' : step s s' → wf s → wf s'.
Proof.
  destruct 1 as [h s|u s|f s s' Hf Hs|p s b s' Hs|p s s' Hs|A u f s|s|s s' Hs|u s s' Hs];
    intros Hwf.
  - by apply push_wf.
  - by apply remove_wf.
  - by eapply update_top_wf.
  - apply bind_Some in Hs as (u & Hu & [= <- <-]). apply set_fresh_wf; [done|].
    pose proof (wf_fresh s Hwf). set_solver.
  - apply bind_Some in Hs as (u & Hu%owning_agent_elem & [= <-]). apply set_fresh_wf; [done|].
    pose proof (wf_fresh s Hwf). set_solver.
  - by apply local_registries_mut_wf.
  - by destruct s, Hwf.
  - by eapply root_only_wf.
  - by eapply through_wf.
Qed.

Lemma reachable_wf `{!Otel} s : reachable s → wf s.
Proof.
  intros (s0 & H0%initial_wf & Hsteps). induction Hsteps as [|s1 s2 s3 H12 _ IH]; [done|].
  apply IH. by eapply step_wf.
Qed.

(** ** Facts about the operations *)

Lemma find_is_Some (p : ScopeHandle → bool) l h : h ∈ l → p h = true → is_Some (find p l).
Proof.
  intros Hin Hp. destruct (find p l) as [x|] eqn:Hf; [done|].
  rewrite (List.find_none p l Hf h) in Hp; [done|]. by apply list_elem_of_In.
Qed.

Lemma owning_agent_total p s : wf s → is_Some (owning_agent_uuid p s).
Proof.
  intros [(root & Hr & Ha) _ _]. unfold owning_agent_uuid. apply fmap_is_Some.
  destruct (stack s) as [|r st]; [done|]. injection Hr as ->.
  apply (find_is_Some _ _ root); [|done].
  rewrite list_elem_of_In, <-in_rev, <-list_elem_of_In.
  destruct (p ≫= _) as [i|]; [rewrite Nat.add_1_r|]; cbn; by left.
Qed.

Lemma remove_top s below h :
  stack s = below ++ [h] → below ≠ [] →
  remove (sh_uuid h) s
  = (Ok h, set_parts below (delete (sh_uuid h) (scope_registries s))
             (fresh_agents s ∖ {[sh_uuid h]}) s).
Proof.
  intros Hst Hne. unfold remove. rewrite Hst, rev_app_distr. cbn. unfold has_uuid.
  rewrite Z.eqb_refl, length_app. cbn.
  destruct (Nat.eqb_spec (length below + 1) 1) as [Hl|_].
  { destruct below; [done|]. cbn in Hl. lia. }
  by rewrite rev_involutive.
Qed.

(** Opening and closing a scope is the identity on the stack. *)
Lemma remove_push h s :
  wf s → sh_uuid h ∉ uuids s → remove (sh_uuid h) (push h s) = (Ok h, s).
Proof.
  intros [(root & Hr & _) Hregs Hfresh] Hnew.
  rewrite (remove_top _ (stack s) h); [|done|by intros Hst; rewrite Hst in Hr].
  f_equal. destruct s as [st regs fresh pp pr tp ts rl]. unfold push, set_parts.
  cbn in *. f_equal.
  - apply delete_id, not_elem_of_dom. set_solver.
  - destruct (is_agent h); set_solver.
Qed.

Lemma take_through_prefix u s i :
  position u (stack s) = Some i →
  omap (λ h, filter (λ kv : uuid * ScopeLocalRegistries,
      kv.1 ∈ (list_to_set (sh_uuid <$> take (S i) (stack s)) : gset uuid))
      (scope_registries s) !! sh_uuid h) (take (S i) (stack s))
  = omap (λ h, scope_registries s !! sh_uuid h) (take (S i) (stack s)).
Proof.
  intros _. set (st := take (S i) (stack s)).
  assert (∀ l, l ⊆ st →
    omap (λ h, filter (λ kv : uuid * ScopeLocalRegistries,
      kv.1 ∈ (list_to_set (sh_uuid <$> st) : gset uuid)) (scope_registries s) !! sh_uuid h) l
    = omap (λ h, scope_registries s !! sh_uuid h) l) as H; [|by apply H].
  intros l. induction l as [|h l IH]; intros Hl; [done|]. cbn.
  rewrite IH by set_solver.
  assert (sh_uuid h ∈ (list_to_set (sh_uuid <$> st) : gset uuid)) as Hh.
  { apply elem_of_list_to_set, list_elem_of_fmap. exists h. split; [done|]. set_solver. }
  assert (filter (λ kv : uuid * ScopeLocalRegistries,
      kv.1 ∈ (list_to_set (sh_uuid <$> st) : gset uuid)) (scope_registries s) !! sh_uuid h
    = scope_registries s !! sh_uuid h) as ->; [|done].
  apply option_eq. intros r. rewrite map_lookup_filter_Some. naive_solver.
Qed.

Lemma find_rev_nearest (p : ScopeHandle → bool) l h :
  find p (rev l) = Some h →
  ∃ j, l !! j = Some h ∧ p h = true
    ∧ ∀ k h', j < k → l !! k = Some h' → p h' = false.
Proof.
  induction l as [|x l IH] using rev_ind; [done|]. rewrite rev_app_distr. cbn.
  destruct (p x) eqn:Hx.
  - intros [= <-]. exists (length l). rewrite lookup_app_r, Nat.sub_diag by done.
    split_and!; [done|done|]. intros k h' Hk Hl. apply lookup_lt_Some in Hl.
    rewrite length_app in Hl. cbn in Hl. lia.
  - intros Hf. destruct (IH Hf) as (j & Hj & Hp & Hnear). exists j. split_and!; [|done|].
    + by apply lookup_app_l_Some.
    + intros k h' Hk Hl. apply lookup_app_Some in Hl as [Hl|[_ Hl]]; [by eapply Hnear|].
      by apply list_lookup_singleton_Some in Hl as [_ <-].
Qed.

Lemma position_take u l i : position u l = Some i → position u (take (S i) l) = Some i.
Proof.
  revert i. induction l as [|h l IH]; intros i; [done|]. cbn.
  destruct (has_uuid u h); [done|]. intros (j & Hj & ->)%fmap_Some.
  by rewrite (IH j Hj).
Qed.

Lemma validate_ok c :
  validate c = Ok ()
  ↔ pc_version c = 1%Z ∧ is_usable_relay_identifier (pc_parent_uuid c) = true
    ∧ (∀ r, pc_root_uuid c = Some r → is_usable_relay_identifier r = true).
Proof.
  unfold validate, VERSION.
  destruct (Z.eqb_spec (pc_version c) 1) as [Hv|Hv]; cbn [negb];
    [|by split; [|intros (? & _)]].
  destruct (is_usable_relay_identifier (pc_parent_uuid c)); cbn [negb];
    [|by split; [|intros (_ & ? & _)]].
  destruct (pc_root_uuid c) as [r|]; [|by split].
  destruct (is_usable_relay_identifier r) eqn:Hr; cbn [negb].
  - split; [|done]. intros _. split_and!; [done|done|]. by intros r' [= <-].
  - split; [done|]. intros (_ & _ & Hall). specialize (Hall r eq_refl). congruence.
Qed.

Lemma normalized_ids `{!Otel} c :
  pc_root_uuid (normalized c) = pc_root_uuid c
  ∧ pc_parent_uuid (normalized c) = pc_parent_uuid c.
Proof. unfold normalized. by destruct (normalize_w3c_headers _ _) as [[] ?]. Qed.

Lemma from_propagation_ok `{!Otel} now1 now2 c :
  (∃ s, from_propagation now1 now2 c = Ok s) ↔ validate c = Ok ().
Proof.
  unfold from_propagation. destruct (validate c) as [[]|e|]; cbn; split; try done.
  - intros _. destruct (pc_root_uuid (normalized c)); by eexists.
  - by intros [s [=]].
  - by intros [s [=]].
Qed.

(** ** Trace contexts: the visiting set never matters on distinct scopes *)

Section TraceFacts.
Context `{!Otel} (s : ScopeStack).
Implicit Types (below lower : list ScopeHandle).

Lemma search_below_absent below u v :
  u ∉ (sh_uuid <$> below) → search_below s below u v = (None, v).
Proof.
  induction below as [|h below IH]; intros Hu; [done|]. cbn in Hu |- *.
  apply not_elem_of_cons in Hu as [Hne Hu].
  assert (has_uuid u h = false) as -> by (apply Z.eqb_neq; congruence). by apply IH.
Qed.

(** [v] holds no scope of [below]. *)
Definition away (v : list uuid) below : Prop := ∀ x, x ∈ (sh_uuid <$> below) → x ∉ v.

(** [v] holds no scope of [below] other than the one searched for. *)
Definition away_but (u : uuid) (v : list uuid) below : Prop :=
  ∀ x, x ∈ (sh_uuid <$> below) → x ≠ u → x ∉ v.

Definition search_irrelevant lower : Prop :=
  ∀ u v1 v2, away_but u v1 lower → away_but u v2 lower →
    (search_below s lower u v1).1 = (search_below s lower u v2).1.

Lemma parent_entry_absent lower p v :
  p ∉ (sh_uuid <$> lower) → away v lower →
  away (parent_entry s (search_below s lower) p v).2 lower.
Proof.
  intros Hp Hv. unfold parent_entry, local_entry.
  destruct (propagated_span_context s p); [done|].
  destruct (_ || _); [done|]. rewrite search_below_absent by done. cbn.
  intros x Hx. rewrite not_elem_of_cons. split; [by intros ->|by apply Hv].
Qed.

Lemma parent_entry_irrelevant lower p v1 v2 :
  search_irrelevant lower → away v1 lower → away v2 lower →
  (parent_entry s (search_below s lower) p v1).1
  = (parent_entry s (search_below s lower) p v2).1.
Proof.
  intros Hirr H1 H2. unfold parent_entry, local_entry.
  destruct (propagated_span_context s p); [done|].
  destruct (is_usable_relay_identifier p); cbn [negb orb]; [|done].
  assert (∀ v, away v lower → p ∈ v → ∀ w, (search_below s lower p w).1 = None) as Hin.
  { intros v Hv Hpv w. rewrite search_below_absent; [done|]. intros Hp. by apply (Hv p). }
  case_bool_decide as Hp1; case_bool_decide as Hp2; cbn [fst].
  - done.
  - symmetry. exact (Hin v1 H1 Hp1 _).
  - exact (Hin v2 H2 Hp2 _).
  - apply Hirr; intros x Hx Hne; apply not_elem_of_cons; (split; [done|]); [by apply H1|by apply H2].
Qed.

Lemma found_context_irrelevant lower scope u v1 v2 :
  search_irrelevant lower → away v1 lower → away v2 lower →
  (∀ h, h ∈ lower → h ∈ stack s) →
  (found_context s (search_below s lower) (below_parent s lower) scope u v1).1
  = (found_context s (search_below s lower) (below_parent s lower) scope u v2).1.
Proof.
  intros Hirr H1 H2 Hsub.
  assert (∀ v1 v2, away v1 lower → away v2 lower →
    (stack_parent_context s (search_below s lower) (below_parent s lower) v1).1
    = (stack_parent_context s (search_below s lower) (below_parent s lower) v2).1) as Hspc.
  { intros w1 w2 Hw1 Hw2. unfold stack_parent_context.
    destruct (below_parent s lower); [by apply parent_entry_irrelevant|done]. }
  assert (∀ v1 v2, away v1 lower → away v2 lower →
    (scope_parent_context s (search_below s lower) (below_parent s lower) scope v1).1
    = (scope_parent_context s (search_below s lower) (below_parent s lower) scope v2).1) as Hpc.
  { intros w1 w2 Hw1 Hw2. unfold scope_parent_context.
    destruct (sh_parent_uuid scope) as [p|]; [|by apply Hspc].
    pose proof (parent_entry_irrelevant lower p w1 w2 Hirr Hw1 Hw2) as Heq.
    pose proof (λ Hp, parent_entry_absent lower p w1 Hp Hw1) as Ha1.
    pose proof (λ Hp, parent_entry_absent lower p w2 Hp Hw2) as Ha2.
    destruct (parent_entry s _ p w1) as [c1 w1'], (parent_entry s _ p w2) as [c2 w2'].
    cbn in Heq, Ha1, Ha2. subst c2. destruct c1; [done|].
    destruct (is_usable_relay_identifier p); [|done]. cbn [andb].
    case_bool_decide as Hf; [|done].
    assert (p ∉ (sh_uuid <$> lower)) as Hp.
    { intros (h & -> & Hh%Hsub)%list_elem_of_fmap. unfold find_scope in Hf.
      destruct (find_is_Some (has_uuid (sh_uuid h)) (stack s) h) as [? Hs]; [done|..].
      - by apply Z.eqb_eq.
      - congruence. }
    apply Hspc; auto. }
  unfold found_context. specialize (Hpc v1 v2 H1 H2).
  destruct (scope_parent_context s _ _ scope v1) as [c1 w1].
  destruct (scope_parent_context s _ _ scope v2) as [c2 w2]. cbn in *. by subst.
Qed.

Lemma search_below_irrelevant lower :
  NoDup (sh_uuid <$> lower) → (∀ h, h ∈ lower → h ∈ stack s) → search_irrelevant lower.
Proof.
  induction lower as [|h lower IH]; intros Hnd Hsub u v1 v2 H1 H2; [done|].
  cbn in Hnd. apply NoDup_cons in Hnd as [Hh Hnd]. cbn [search_below].
  assert (∀ h', h' ∈ lower → h' ∈ stack s) as Hsub' by (intros; apply Hsub; by right).
  specialize (IH Hnd Hsub').
  destruct (has_uuid u h) eqn:Hu.
  - apply Z.eqb_eq in Hu as <-.
    apply found_context_irrelevant; [done| | |done]; intros x Hx.
    + apply H1; [by right|]. by intros ->.
    + apply H2; [by right|]. by intros ->.
  - apply IH; intros x Hx; [apply H1|apply H2]; by right.
Qed.

(** The context of a scope does not depend on the scopes above it. *)
Lemma search_below_skip above lower u v :
  u ∉ (sh_uuid <$> above) → search_below s (above ++ lower) u v = search_below s lower u v.
Proof.
  induction above as [|h above IH]; intros Hu; [done|]. cbn in Hu |- *.
  apply not_elem_of_cons in Hu as [Hne Hu].
  assert (has_uuid u h = false) as -> by (apply Z.eqb_neq; congruence). by apply IH.
Qed.

Lemma local_span_context_parent above child parent lower c :
  rev (drop 1 (stack s)) = above ++ child :: parent :: lower →
  NoDup (sh_uuid <$> above ++ child :: parent :: lower) →
  sh_parent_uuid child = Some (sh_uuid parent) →
  is_usable_relay_identifier (sh_uuid child) = true →
  propagated_parent_uuid s ≠ Some (sh_uuid child) →
  local_span_context s (sh_uuid parent) = Some c →
  local_span_context s (sh_uuid child)
  = (let context := child_span_context (sh_uuid child) (Some c) in
     if is_valid context then Some context else None).
Proof.
  intros Hst Hnd Hpar Huse Hprop. unfold local_span_context. rewrite Hst.
  assert (∀ h, h ∈ lower → h ∈ stack s) as Hsub.
  { intros h Hh. rewrite <-(take_drop 1 (stack s)), elem_of_app. right.
    rewrite list_elem_of_In, in_rev, Hst, <-list_elem_of_In. set_solver. }
  rewrite fmap_app in Hnd. apply NoDup_app in Hnd as (_ & Habove & Hnd).
  rewrite !fmap_cons in Hnd, Habove.
  apply NoDup_cons in Hnd as [Hchild Hnd]. apply NoDup_cons in Hnd as [Hparent Hnd].
  assert (sh_uuid parent ∉ (sh_uuid <$> above)) as Hpa.
  { intros Hx. apply (Habove _ Hx). right. by left. }
  assert (sh_uuid child ∉ (sh_uuid <$> above)) as Hca.
  { intros Hx. apply (Habove _ Hx). by left. }
  assert (sh_uuid parent ≠ sh_uuid child) as Hpc.
  { intros Hx. apply Hchild. rewrite <-Hx. by left. }
  assert (propagated_span_context s (sh_uuid child) = None) as Hcp.
  { unfold propagated_span_context. by rewrite bool_decide_eq_false_2. }
  unfold local_entry at 1. intros Hc.
  unfold local_entry at 1. rewrite Huse, bool_decide_eq_false_2 by apply not_elem_of_nil.
  cbn [negb orb]. rewrite Hcp, search_below_skip by done.
  cbn [search_below]. unfold has_uuid at 1. rewrite Z.eqb_refl.
  unfold found_context at 1, scope_parent_context at 1. rewrite Hpar.
  assert ((parent_entry s (search_below s (parent :: lower)) (sh_uuid parent)
    [sh_uuid child]).1 = Some c) as Hentry.
  { unfold parent_entry, local_entry.
    destruct (is_usable_relay_identifier (sh_uuid parent)); cbn [negb orb] in Hc |- *; [|done].
    rewrite bool_decide_eq_false_2 in Hc by apply not_elem_of_nil.
    destruct (propagated_span_context s (sh_uuid parent)); [done|].
    rewrite bool_decide_eq_false_2 by (by rewrite list_elem_of_singleton).
    rewrite search_below_skip in Hc by done. cbn [search_below] in Hc |- *.
    unfold has_uuid in Hc |- *. rewrite Z.eqb_refl in Hc |- *.
    destruct (Z.eqb_spec (sh_uuid child) (sh_uuid parent)); [congruence|].
    rewrite <-Hc.
    assert (∀ v, v ⊆ [sh_uuid parent; sh_uuid child] → away v lower) as Haway.
    { intros v Hv x Hx Hin%Hv. apply elem_of_cons in Hin as [->|Hin]; [done|].
      apply list_elem_of_singleton in Hin as ->. apply Hchild. by right. }
    apply found_context_irrelevant; [by apply search_below_irrelevant|..|done];
      apply Haway; set_solver. }
  destruct (parent_entry s _ _ _) as [c' v']. cbn in Hentry. by subst.
Qed.

End TraceFacts.

End Stack.

#[export] Hint Resolve Stack.push_wf Stack.remove_wf Stack.local_registries_mut_wf : relay.

(** ** Properties *)

Section StackProperties.
Context `{!Otel}.
Implicit Types (s : ScopeStack).

(** C16: in every stack that can arise (created or imported, then pushed,
    popped, snapshotted, edited), the implicit root is there and is an agent,
    only active scopes own registries or freshness, and no accessor panics:
    there is a top, a root, an event root lookup and an owning agent for any
    parent. *)
Theorem scope_stack_invariant s :
  Stack.reachable s →
  Stack.wf s
  ∧ is_Some (Stack.top s) ∧ is_Some (Stack.root_uuid s)
  ∧ is_Some (Stack.event_propagation_root_uuid s)
  ∧ (∀ p, is_Some (Stack.owning_agent_uuid p s))
  ∧ (∀ u, (Stack.remove u s).1 ≠ Panic).
Proof.
  intros Hwf%Stack.reachable_wf. split; [done|].
  pose proof (λ p, Stack.owning_agent_total p s Hwf) as Hown.
  destruct Hwf as [(root & Hr & _) _ _].
  destruct (stack s) as [|h0 st] eqn:Hst; [done|]. injection Hr as ->.
  assert (is_Some (Stack.root_uuid s)) as Hroot by (unfold Stack.root_uuid; by rewrite Hst).
  split_and!; [|done| |done|].
  - unfold Stack.top. rewrite Hst. by apply last_is_Some.
  - unfold Stack.event_propagation_root_uuid.
    destruct (propagated_root_uuid s); [done|]. destruct (find _ _); [done|].
    destruct (negb _); [|done]. by apply fmap_is_Some.
  - intros u. unfold Stack.remove. destruct (rev (stack s)) eqn:Hrev.
    { rewrite Hst in Hrev. apply (f_equal length) in Hrev.
      rewrite length_rev in Hrev. done. }
    repeat case_match; done.
Qed.

(** [remove] is a LIFO pop with classified errors: it removes exactly
    the top scope with its registries and freshness, refuses the root and a
    scope that is not on top with [InvalidArgument] and an unknown scope with
    [NotFound], and a refused call changes nothing. *)
Theorem remove_classification u s below top :
  stack s = below ++ [top] →
  let '(res, s') := Stack.remove u s in
  if has_uuid u top then
    match below with
    | [] => res = Err (InvalidArgument "root scope cannot be removed") ∧ s' = s
    | _ => res = Ok top ∧ stack s' = below
           ∧ scope_registries s' = delete u (scope_registries s)
           ∧ fresh_agents s' = fresh_agents s ∖ {[u]}
    end
  else if bool_decide (u ∈ Stack.uuids s) then
    res = Err (InvalidArgument "scope handle is not at the top of the stack") ∧ s' = s
  else res = Err (NotFound "scope handle not found") ∧ s' = s.
Proof.
  intros Hst. destruct (has_uuid u top) eqn:Htop.
  - pose proof (proj1 (Z.eqb_eq _ _) Htop) as <-. destruct below as [|b below].
    + unfold Stack.remove. rewrite Hst. cbn. by rewrite Htop.
    + by rewrite (Stack.remove_top s (b :: below) top Hst).
  - unfold Stack.remove. rewrite Hst, rev_app_distr. cbn [rev app]. rewrite Htop.
    pose proof (Stack.existsb_uuid u s) as Hex. rewrite Hst in Hex.
    destruct (existsb (has_uuid u) (below ++ [top])).
    + by rewrite bool_decide_eq_true_2 by (by apply Hex).
    + rewrite bool_decide_eq_false_2; [done|]. intros Hin%Hex. done.
Qed.

(** Freshness belongs to the nearest agent: the owning agent of an
    active parent is the closest agent at or below it, and no scope between
    them is an agent. *)
Theorem owning_agent_nearest p i s u :
  Stack.position p (stack s) = Some i →
  Stack.owning_agent_uuid (Some p) s = Some u →
  ∃ j h, j ≤ i ∧ stack s !! j = Some h ∧ is_agent h = true ∧ sh_uuid h = u
    ∧ ∀ k h', j < k ≤ i → stack s !! k = Some h' → is_agent h' = false.
Proof.
  intros Hpos. unfold Stack.owning_agent_uuid. cbn. rewrite Hpos, Nat.add_1_r.
  intros (h & Hh & ->)%fmap_Some. apply Stack.find_rev_nearest in Hh as (j & Hj & Ha & Hnear).
  apply lookup_take_Some in Hj as [Hj Hlt]. exists j, h. split_and!; [lia|done|done|done|].
  intros k h' Hk Hl. apply (Hnear k h'); [lia|]. apply lookup_take_Some. split; [done|lia].
Qed.

(** An agent's freshness is consumed once: a second request under the
    same owner finds it stale, until the owner is marked fresh again; taking
    or marking it never changes another agent's. *)
Theorem agent_freshness_single_use p s b s1 u :
  Stack.owning_agent_uuid p s = Some u →
  Stack.take_agent_freshness p s = Some (b, s1) →
  b = bool_decide (u ∈ fresh_agents s)
  ∧ (∃ s2, Stack.take_agent_freshness p s1 = Some (false, s2))
  ∧ (∃ s2 s3, Stack.mark_agent_fresh p s1 = Some s2
       ∧ Stack.take_agent_freshness p s2 = Some (true, s3))
  ∧ (∀ v, v ≠ u → v ∈ fresh_agents s1 ↔ v ∈ fresh_agents s).
Proof.
  intros Hu Ht. unfold Stack.take_agent_freshness, Stack.mark_agent_fresh in *.
  rewrite Hu in Ht. cbn in Ht. injection Ht as <- <-.
  assert (∀ s', stack s' = stack s → Stack.owning_agent_uuid p s' = Some u) as Hown.
  { intros s' Hs'. rewrite <-Hu. unfold Stack.owning_agent_uuid. by rewrite Hs'. }
  split_and!; [done|..].
  - rewrite Hown by done. cbn. eexists. f_equal. f_equal. apply bool_decide_eq_false. set_solver.
  - rewrite Hown by done. cbn. do 2 eexists. split; [done|]. rewrite Hown by done. cbn.
    f_equal. f_equal. apply bool_decide_eq_true. set_solver.
  - cbn. set_solver.
Qed.

(** A snapshot through a scope shows exactly what is visible from it:
    the stack up to that scope, the registries those scopes own in the same
    order (the full stack only adds more after them), nothing of the scopes
    above, and the same owning agent. *)
Theorem snapshot_visible_prefix {A} (field : ScopeLocalRegistries → A) u s s' :
  Stack.snapshot_through_scope u s = Some s' →
  (∃ h below above, stack s = stack s' ++ above ∧ stack s' = below ++ [h] ∧ sh_uuid h = u)
  ∧ Stack.collect_scope_local_registries field s'
      `prefix_of` Stack.collect_scope_local_registries field s
  ∧ dom (scope_registries s') ⊆ Stack.uuids s'
  ∧ Stack.owning_agent_uuid (Some u) s' = Stack.owning_agent_uuid (Some u) s.
Proof.
  unfold Stack.snapshot_through_scope. intros (i & Hi & [= <-])%bind_Some.
  pose proof (Stack.position_Some _ _ _ Hi) as (h & Hh & Hu & _).
  split_and!; cbn.
  - exists h, (take i (stack s)), (drop (S i) (stack s)).
    by rewrite take_drop, (take_S_r _ _ h).
  - unfold Stack.collect_scope_local_registries. cbn.
    rewrite (Stack.take_through_prefix u s i Hi).
    exists (field <$> omap (λ h, scope_registries s !! sh_uuid h) (drop (S i) (stack s))).
    by rewrite <-fmap_app, <-omap_app, take_drop.
  - intros v. rewrite elem_of_dom. by intros [r [_ Hv]%map_lookup_filter_Some].
  - unfold Stack.owning_agent_uuid. cbn. rewrite Hi, Stack.position_take by done.
    by rewrite take_take, Nat.min_l by lia.
Qed.

(** A child scope stays in its parent's trace: if its parent (the scope
    right below it) has a trace context, the child's context has the same
    trace id, flags and vendor state and its own span id. *)
Theorem child_joins_parent_trace `{!OtelLaws} s above child parent lower c :
  rev (drop 1 (stack s)) = above ++ child :: parent :: lower →
  NoDup (sh_uuid <$> above ++ child :: parent :: lower) →
  sh_parent_uuid child = Some (sh_uuid parent) →
  is_usable_relay_identifier (sh_uuid child) = true →
  propagated_parent_uuid s ≠ Some (sh_uuid child) →
  Stack.local_span_context s (sh_uuid parent) = Some c → trace_id c ≠ 0%Z →
  ∃ c', Stack.local_span_context s (sh_uuid child) = Some c'
    ∧ trace_id c' = trace_id c ∧ trace_flags c' = trace_flags c
    ∧ trace_state c' = trace_state c ∧ span_id c' = relay_span_id (sh_uuid child).
Proof.
  intros Hst Hnd Hpar Huse Hprop Hc Htr.
  rewrite (Stack.local_span_context_parent s above child parent lower c) by done.
  cbv zeta. unfold Stack.child_span_context. rewrite is_valid_new, trace_id_new, span_id_new.
  rewrite is_usable_span_id in Huse. rewrite Huse.
  destruct (Z.eqb_spec (trace_id c) 0); [done|]. cbn. eexists. split; [done|].
  by rewrite trace_id_new, trace_flags_new, trace_state_new, span_id_new.
Qed.

(** Importing a propagation context succeeds exactly when its version is
    the supported one and its identifiers are usable; the imported stack then
    has the imported parent on top, attaches events to the imported root
    (none when rootless), and forwards the normalized W3C parent
    unchanged. *)
Theorem propagation_import now1 now2 c :
  ((∃ s, Stack.from_propagation now1 now2 c = Ok s)
   ↔ pc_version c = 1%Z ∧ is_usable_relay_identifier (pc_parent_uuid c) = true
     ∧ (∀ r, pc_root_uuid c = Some r → is_usable_relay_identifier r = true))
  ∧ ∀ s, Stack.from_propagation now1 now2 c = Ok s →
      (∃ h, Stack.top s = Some h ∧ sh_uuid h = pc_parent_uuid c)
      ∧ Stack.event_propagation_root_uuid s = Some (pc_root_uuid c)
      ∧ Stack.is_propagated_parent s (pc_parent_uuid c) = true
      ∧ (is_Some (pc_traceparent (Stack.normalized c)) ∨ pc_root_uuid c = None →
         Stack.event_w3c_headers s (Some (pc_parent_uuid c))
         = Some (pc_traceparent (Stack.normalized c),
                 match pc_traceparent (Stack.normalized c) with
                 | Some _ => pc_tracestate (Stack.normalized c)
                 | None => None
                 end)).
Proof.
  split.
  - rewrite Stack.from_propagation_ok. apply Stack.validate_ok.
  - intros s Hs. pose proof (Stack.normalized_ids c) as [Hr Hp].
    unfold Stack.from_propagation in Hs. destruct (Stack.validate c) as [[]|e|]; try done.
    cbn in Hs. rewrite Hr, Hp in Hs.
    assert (stack s ≠ [] ∧ propagated_root_uuid s = pc_root_uuid c
      ∧ propagated_parent_uuid s = Some (pc_parent_uuid c)
      ∧ propagated_traceparent s = pc_traceparent (Stack.normalized c)
      ∧ propagated_tracestate s = pc_tracestate (Stack.normalized c)
      ∧ is_rootless_propagation s = bool_decide (pc_root_uuid c = None)
      ∧ (∃ h, Stack.top s = Some h ∧ sh_uuid h = pc_parent_uuid c)
      ∧ (pc_root_uuid c = None → length (stack s) = 1))
      as (_ & Hroot & Hpar & Htp & Hts & Hrl & Htop & Hone).
    { destruct (pc_root_uuid c) as [r|] eqn:Hc; injection Hs as <-; split_and!; cbn; try done.
      - unfold Stack.top. cbn. destruct (Z.eqb_spec r (pc_parent_uuid c)); by eexists.
      - unfold Stack.top. by eexists. }
    split_and!; [done| | |].
    + unfold Stack.event_propagation_root_uuid. rewrite Hroot, Hrl.
      destruct (pc_root_uuid c) as [r|]; [done|]. specialize (Hone eq_refl).
      by destruct (stack s) as [|h [|]].
    + unfold Stack.is_propagated_parent. rewrite Hpar. by apply bool_decide_eq_true.
    + intros Hor. unfold Stack.event_w3c_headers. rewrite Hpar, Hroot, Htp, Hts.
      rewrite bool_decide_eq_true_2 by done. cbn [andb].
      destruct (pc_traceparent (Stack.normalized c)) as [tp|].
      * by rewrite bool_decide_eq_true_2.
      * rewrite bool_decide_eq_false_2 by (by intros []).
        destruct Hor as [[]|Hor]; [done|]. by rewrite Hor, bool_decide_eq_true_2.
Qed.

End StackProperties.

(** *** Witnesses *)

#[local] Existing Instance plain_otel.

Definition demo_child (u parent : uuid) (t : ScopeType) : ScopeHandle :=
  bare_handle u 0 (Some parent) "scope" t.

Definition demo_stack : ScopeStack :=
  Stack.push (demo_child 3 2 Agent) (Stack.push (demo_child 2 1 Function) (Stack.new 1 0)).

Lemma demo_reachable : Stack.reachable demo_stack.
Proof.
  exists (Stack.new 1 0). split; [constructor|].
  eapply rtc_l; [constructor|]. eapply rtc_l; [constructor|]. apply rtc_refl.
Qed.

Lemma scope_stack_invariant_witness :
  Stack.wf demo_stack ∧ is_Some (Stack.top demo_stack).
Proof.
  destruct (scope_stack_invariant demo_stack demo_reachable) as (Hwf & Htop & _).
  split; [exact Hwf|exact Htop].
Defined.

Lemma remove_classification_witness :
  (Stack.remove 2 demo_stack).1
  = Err (InvalidArgument "scope handle is not at the top of the stack")
  ∧ (Stack.remove 3 demo_stack).1 = Ok (demo_child 3 2 Agent).
Proof.
  pose (below := stack (Stack.push (demo_child 2 1 Function) (Stack.new 1 0))).
  split.
  - exact (proj1 (remove_classification 2 demo_stack below (demo_child 3 2 Agent) eq_refl)).
  - exact (proj1 (remove_classification 3 demo_stack below (demo_child 3 2 Agent) eq_refl)).
Defined.

Lemma owning_agent_nearest_witness :
  ∃ j h, j ≤ 1 ∧ stack demo_stack !! j = Some h ∧ is_agent h = true ∧ sh_uuid h = 1%Z
    ∧ ∀ k h', j < k ≤ 1 → stack demo_stack !! k = Some h' → is_agent h' = false.
Proof. apply (owning_agent_nearest 2 1 demo_stack 1); reflexivity. Defined.

Lemma agent_freshness_single_use_witness :
  ∃ s1 s2, Stack.take_agent_freshness (Some 3%Z) demo_stack = Some (true, s1)
    ∧ Stack.take_agent_freshness (Some 3%Z) s1 = Some (false, s2).
Proof.
  destruct (Stack.take_agent_freshness (Some 3%Z) demo_stack) as [[b s1]|] eqn:Ht;
    [|discriminate Ht].
  destruct (agent_freshness_single_use (Some 3%Z) demo_stack b s1 3 eq_refl Ht)
    as (Hb & (s2 & Hs2) & _).
  exists s1, s2. split; [|exact Hs2]. rewrite Hb. reflexivity.
Defined.

Lemma snapshot_visible_prefix_witness :
  ∃ s', Stack.snapshot_through_scope 2 demo_stack = Some s'
    ∧ Stack.owning_agent_uuid (Some 2%Z) s' = Some 1%Z.
Proof.
  destruct (Stack.snapshot_through_scope 2 demo_stack) as [s'|] eqn:Hs; [|discriminate Hs].
  exists s'. split; [reflexivity|].
  destruct (snapshot_visible_prefix event_subscribers 2 demo_stack s' Hs) as (_ & _ & _ & Ho).
  rewrite Ho. reflexivity.
Defined.

Lemma child_joins_parent_trace_witness :
  ∃ c', Stack.local_span_context demo_stack 3 = Some c' ∧ trace_id c' = 2%Z ∧ span_id c' = 3%Z.
Proof.
  destruct (child_joins_parent_trace (H0 := plain_otel_laws) demo_stack []
    (demo_child 3 2 Agent) (demo_child 2 1 Function) []
    (Build_plain_span 2 2 1 false [])) as (c' & Hc & Ht & _ & _ & Hs).
  - reflexivity.
  - apply (bool_decide_unpack _). vm_compute. exact I.
  - reflexivity.
  - reflexivity.
  - discriminate.
  - vm_compute. reflexivity.
  - discriminate.
  - exists c'. split_and!; [exact Hc|rewrite Ht; reflexivity|rewrite Hs; reflexivity].
Defined.
