(* ===== verification/ContextState.v ===== *)
(** * Process-global runtime state and event builders
    ([crates/runtime/src/api/runtime/state.rs], first half)

    [NemoRelayContextState] holds the global registries and builds the handles
    and lifecycle events of scopes, tools and LLM calls.  [Utc::now] and
    [Uuid::now_v7] are arguments. *)

From stdpp Require Import base gmap strings list.
From S2P Require Import Prelude Text Errors Json Float64 LlmTypes Registry Trace Events Registries.
From S2P Require Import ScopeStack.

(** ** Handles of tools and LLM calls *)

Record ToolHandle : Type := {
  th_uuid : uuid;
  th_started_at : timestamp;
  th_name : string;
  th_data : option Json;
  th_metadata : option Json;
  th_attributes : Z;
  th_parent_uuid : option uuid;
  th_tool_call_id : option string;
}.

(** The serialized fields; the optimization recorder and the captured stack
    of an LLM handle are not read by the builders below. *)
Record LlmHandle : Type := {
  lh_uuid : uuid;
  lh_started_at : timestamp;
  lh_name : string;
  lh_data : option Json;
  lh_metadata : option Json;
  lh_attributes : Z;
  lh_parent_uuid : option uuid;
  lh_model_name : option string;
  (** The optimization recorder and the scope stack of the call, by address. *)
  lh_recorder : N;
  lh_scope_stack : N;
}.

(** ** The state *)

Record NemoRelayContextState : Type := {
  regs : ScopeLocalRegistries;
  observability_full_payloads_enabled : bool;
  (** [HashMap<String, Box<dyn Any>>]: a value is its type and its identity. *)
  extensions : gmap string (N * N);
}.

Module State.

Definition new : NemoRelayContextState := {|
  regs := new_registries;
  observability_full_payloads_enabled := false;
  extensions := ∅;
|}.

Definition set_regs (r : ScopeLocalRegistries) (st : NemoRelayContextState) :
    NemoRelayContextState := {|
  regs := r;
  observability_full_payloads_enabled := observability_full_payloads_enabled st;
  extensions := extensions st;
|}.

Definition set_observability_full_payloads_enabled (enabled : bool)
    (st : NemoRelayContextState) : NemoRelayContextState := {|
  regs := regs st;
  observability_full_payloads_enabled := enabled;
  extensions := extensions st;
|}.

Definition set_extension (key : string) (value : N * N) (st : NemoRelayContextState) :
    NemoRelayContextState := {|
  regs := regs st;
  observability_full_payloads_enabled := observability_full_payloads_enabled st;
  extensions := <[key := value]> (extensions st);
|}.

(** [downcast_ref::<T>()]: only at the type it was stored with. *)
Definition get_extension (ty : N) (key : string) (st : NemoRelayContextState) : option N :=
  '(t, v) ← extensions st !! key;
  if (t =? ty)%N then Some v else None.

Definition remove_extension (key : string) (st : NemoRelayContextState) :
    bool * NemoRelayContextState :=
  (bool_decide (is_Some (extensions st !! key)),
   {| regs := regs st;
      observability_full_payloads_enabled := observability_full_payloads_enabled st;
      extensions := delete key (extensions st) |}).

(** One arm of the [match kind] of [registry_snapshot]. *)
Definition copy_kind (kind : RuntimeRegistrationKind) (self snapshot : ScopeLocalRegistries) :
    ScopeLocalRegistries :=
  let copy {P} (f : Field P) := field_set f (field_get f self) snapshot in
  match kind with
  | Subscriber => set_event_subscribers (event_subscribers self) snapshot
  | EventMetadataInjector => copy F_event_metadata_injectors
  | MarkSanitizeGuardrail => copy F_mark_sanitize_guardrails
  | ScopeSanitizeStartGuardrail => copy F_scope_sanitize_start_guardrails
  | ScopeSanitizeEndGuardrail => copy F_scope_sanitize_end_guardrails
  | ToolSanitizeRequestGuardrail => copy F_tool_sanitize_request_guardrails
  | ToolSanitizeResponseGuardrail => copy F_tool_sanitize_response_guardrails
  | ToolConditionalExecutionGuardrail => copy F_tool_conditional_execution_guardrails
  | ToolRequestIntercept => copy F_tool_request_intercepts
  | ToolExecutionIntercept => copy F_tool_execution_intercepts
  | LlmSanitizeRequestGuardrail => copy F_llm_sanitize_request_guardrails
  | LlmSanitizeResponseGuardrail => copy F_llm_sanitize_response_guardrails
  | LlmConditionalExecutionGuardrail => copy F_llm_conditional_execution_guardrails
  | LlmRequestIntercept => copy F_llm_request_intercepts
  | LlmExecutionIntercept => copy F_llm_execution_intercepts
  | LlmStreamExecutionIntercept => copy F_llm_stream_execution_intercepts
  end.

Definition registry_snapshot (kinds : list RuntimeRegistrationKind)
    (st : NemoRelayContextState) : NemoRelayContextState := {|
  regs := foldl (λ snapshot kind, copy_kind kind (regs st) snapshot) new_registries kinds;
  observability_full_payloads_enabled := observability_full_payloads_enabled st;
  extensions := ∅;
|}.

(** Global subscribers in the map's iteration order, then the scope-local
    ones. *)
Definition collect_event_subscribers (enabled : RuntimeRegistrationKind → string → bool)
    (scope_local_subscribers : list Callback) (st : NemoRelayContextState) : list Callback :=
  (filter (λ kv, enabled Subscriber kv.1 = true)
     (map_to_list (event_subscribers (regs st)))).*2
  ++ scope_local_subscribers.

(** ** Clocks *)

Definition end_timestamp_after (now started_at : timestamp) : timestamp :=
  Z.max now (started_at + microsecond)%Z.

(** ** Scopes *)

Definition create_scope_handle (fresh_uuid : uuid) (now : timestamp) (n : string)
    (parent_uuid : option uuid) (scope_type : ScopeType) (attributes : Z)
    (data metadata : option Json) (ts : option timestamp) : ScopeHandle := {|
  sh_uuid := fresh_uuid;
  sh_started_at := default now ts;
  sh_scope_type := scope_type;
  sh_name := n;
  sh_data := data;
  sh_metadata := metadata;
  sh_attributes := attributes;
  sh_parent_uuid := parent_uuid;
|}.

Definition build_scope_start_event (handle : ScopeHandle) (data : option Json) : Event :=
  Scope (scope_event
    (base_event (sh_parent_uuid handle) (sh_uuid handle) (sh_started_at handle)
       (sh_name handle) data None (sh_metadata handle))
    Start (scope_attributes_to_strings (sh_attributes handle))
    (category_of_scope_type (sh_scope_type handle)) None).

Definition build_scope_end_event (now : timestamp) (handle : ScopeHandle)
    (data metadata : option Json) (ts : option timestamp) : Event :=
  Scope (scope_event
    (base_event (sh_parent_uuid handle) (sh_uuid handle)
       (default (end_timestamp_after now (sh_started_at handle)) ts)
       (sh_name handle) data None (merge_json (sh_metadata handle) metadata))
    End (scope_attributes_to_strings (sh_attributes handle))
    (category_of_scope_type (sh_scope_type handle)) None).

(** ** Tools *)

Definition create_tool_handle (fresh_uuid : uuid) (now : timestamp) (n : string)
    (parent_uuid : option uuid) (attributes : Z) (data metadata : option Json)
    (tool_call_id : option string) (ts : option timestamp) : ToolHandle := {|
  th_uuid := fresh_uuid;
  th_started_at := default now ts;
  th_name := n;
  th_data := data;
  th_metadata := metadata;
  th_attributes := attributes;
  th_parent_uuid := parent_uuid;
  th_tool_call_id := tool_call_id;
|}.

(** [CategoryProfile::builder().tool_call_id_opt(..).build()]. *)
Definition tool_profile (call_id : option string) : CategoryProfile := {|
  model_name := None; tool_call_id := call_id; subtype := None;
  tool_result_annotation := None; extra := [];
  annotated_request := None; annotated_response := None; time_to_first_chunk := None;
|}.

Definition build_tool_start_event (handle : ToolHandle) (data : option Json) : Event :=
  Scope (scope_event
    (base_event (th_parent_uuid handle) (th_uuid handle) (th_started_at handle)
       (th_name handle) data None (th_metadata handle))
    Start (tool_attributes_to_strings (th_attributes handle))
    "tool" (Some (tool_profile (th_tool_call_id handle)))).

Definition build_tool_end_event (now : timestamp) (handle : ToolHandle)
    (data metadata : option Json) (ts : option timestamp) : Event :=
  Scope (scope_event
    (base_event (th_parent_uuid handle) (th_uuid handle)
       (default (end_timestamp_after now (th_started_at handle)) ts)
       (th_name handle) data None (merge_json (th_metadata handle) metadata))
    End (tool_attributes_to_strings (th_attributes handle))
    "tool" (Some (tool_profile (th_tool_call_id handle)))).

(** ** LLM calls *)

Definition create_llm_handle (fresh_uuid : uuid) (now : timestamp) (n : string)
    (u : option uuid) (parent_uuid : option uuid) (attributes : Z)
    (data metadata : option Json) (model : option string) (ts : option timestamp)
    (recorder scope_stack : N) : LlmHandle := {|
  lh_uuid := default fresh_uuid u;
  lh_started_at := default now ts;
  lh_name := n;
  lh_data := data;
  lh_metadata := metadata;
  lh_attributes := attributes;
  lh_parent_uuid := parent_uuid;
  lh_model_name := model;
  lh_recorder := recorder;
  lh_scope_stack := scope_stack;
|}.

Definition llm_profile (model : option string)
    (request : option AnnotatedLlmRequest) (response : option AnnotatedLlmResponse)
    (ttfc : option Z) : CategoryProfile := {|
  model_name := model; tool_call_id := None; subtype := None;
  tool_result_annotation := None; extra := [];
  annotated_request := request; annotated_response := response;
  time_to_first_chunk := ttfc;
|}.

Definition build_llm_start_event (handle : LlmHandle) (data : option Json)
    (request : option AnnotatedLlmRequest) : Event :=
  Scope (scope_event
    (base_event (lh_parent_uuid handle) (lh_uuid handle) (lh_started_at handle)
       (lh_name handle) data None (lh_metadata handle))
    Start (llm_attributes_to_strings (lh_attributes handle))
    "llm" (Some (llm_profile (lh_model_name handle) request None None))).

Definition llm_end_metadata (metadata : option Json) : option Json :=
  match m ← metadata; v ← get m otel_code; as_str v with
  | Some code =>
      if decide (code = "OK") then metadata_with_otel_status metadata "OK" None
      else if decide (code = "UNSET") then metadata_with_otel_status metadata "UNSET" None
      else metadata
  | None => metadata
  end.

Definition build_llm_end_event (now : timestamp) (handle : LlmHandle)
    (data metadata : option Json) (response : option AnnotatedLlmResponse) (ttfc : option Z)
    (ts : option timestamp) : Event :=
  Scope (scope_event
    (base_event (lh_parent_uuid handle) (lh_uuid handle)
       (default (end_timestamp_after now (lh_started_at handle)) ts)
       (lh_name handle) data None
       (llm_end_metadata (merge_json (lh_metadata handle) metadata)))
    End (llm_attributes_to_strings (lh_attributes handle))
    "llm" (Some (llm_profile (lh_model_name handle) None response ttfc))).

(** ** Guardrail scopes: the events of [emit_guardrail_scope_start/end] *)

Definition guardrail_handle (fresh_uuid : uuid) (now : timestamp) (n : string)
    (parent_uuid : option uuid) (metadata : option Json) : ScopeHandle := {|
  sh_uuid := fresh_uuid; sh_started_at := now; sh_scope_type := Events.Guardrail;
  sh_name := n; sh_data := None; sh_metadata := metadata; sh_attributes := 0;
  sh_parent_uuid := parent_uuid;
|}.

Definition guardrail_start_event (handle : ScopeHandle) (input : Json) : Event :=
  build_scope_start_event handle (Some input).

Definition guardrail_end_event (now : timestamp) (handle : ScopeHandle) (output : Json) :
    Event :=
  Scope (scope_event
    (base_event (sh_parent_uuid handle) (sh_uuid handle)
       (end_timestamp_after now (sh_started_at handle))
       (sh_name handle) (Some output) None (sh_metadata handle))
    End (scope_attributes_to_strings (sh_attributes handle))
    (category_of_scope_type (sh_scope_type handle)) None).

(** ** Reading the registries by kind *)

Inductive Part : Type :=
| PGuardrails (r : SortedRegistry (RegistryRecord Callback))
| PIntercepts (r : SortedRegistry (RegistryRecord (RequestIntercept Callback)))
| PSubscribers (m : gmap string Callback).

Definition part (kind : RuntimeRegistrationKind) (r : ScopeLocalRegistries) : Part :=
  match kind with
  | Subscriber => PSubscribers (event_subscribers r)
  | EventMetadataInjector => PGuardrails (event_metadata_injectors r)
  | MarkSanitizeGuardrail => PGuardrails (mark_sanitize_guardrails r)
  | ScopeSanitizeStartGuardrail => PGuardrails (scope_sanitize_start_guardrails r)
  | ScopeSanitizeEndGuardrail => PGuardrails (scope_sanitize_end_guardrails r)
  | ToolSanitizeRequestGuardrail => PGuardrails (tool_sanitize_request_guardrails r)
  | ToolSanitizeResponseGuardrail => PGuardrails (tool_sanitize_response_guardrails r)
  | ToolConditionalExecutionGuardrail => PGuardrails (tool_conditional_execution_guardrails r)
  | ToolRequestIntercept => PIntercepts (tool_request_intercepts r)
  | ToolExecutionIntercept => PGuardrails (tool_execution_intercepts r)
  | LlmSanitizeRequestGuardrail => PGuardrails (llm_sanitize_request_guardrails r)
  | LlmSanitizeResponseGuardrail => PGuardrails (llm_sanitize_response_guardrails r)
  | LlmConditionalExecutionGuardrail => PGuardrails (llm_conditional_execution_guardrails r)
  | LlmRequestIntercept => PIntercepts (llm_request_intercepts r)
  | LlmExecutionIntercept => PGuardrails (llm_execution_intercepts r)
  | LlmStreamExecutionIntercept => PGuardrails (llm_stream_execution_intercepts r)
  end.

Lemma part_copy_kind k k' self snapshot :
  part k (copy_kind k' self snapshot) = part k (if decide (k = k') then self else snapshot).
Proof. destruct snapshot, k, k'; reflexivity. Qed.

Lemma part_copy_kinds kinds k self snapshot :
  part k (foldl (λ snapshot kind, copy_kind kind self snapshot) snapshot kinds)
  = part k (if decide (k ∈ kinds) then self else snapshot).
Proof.
  revert snapshot. induction kinds as [|k' kinds IH]; intros snapshot; [done|].
  cbn [foldl fold_left]. rewrite IH.
  destruct (decide (k ∈ kinds)) as [Hk|Hk].
  - rewrite decide_True by (by right). done.
  - rewrite part_copy_kind. destruct (decide (k = k')) as [->|Hne].
    + rewrite decide_True by (by left). done.
    + rewrite decide_False; [done|]. by rewrite not_elem_of_cons.
Qed.

(** ** The two events of one span *)

(** [e1] opens and [e2] closes the same span. *)
Definition span_pair (e1 e2 : Event) : Prop :=
  match e1, e2 with
  | Scope s1, Scope s2 =>
      scope_category s1 = Start ∧ scope_category s2 = End
      ∧ se_category s1 = se_category s2 ∧ attributes s1 = attributes s2
      ∧ ev_uuid (se_base s1) = ev_uuid (se_base s2)
      ∧ parent_uuid (se_base s1) = parent_uuid (se_base s2)
      ∧ ev_name (se_base s1) = ev_name (se_base s2)
  | _, _ => False
  end.

Lemma end_timestamp_after_start now started_at :
  (started_at < end_timestamp_after now started_at)%Z
  ∧ (now ≤ end_timestamp_after now started_at)%Z.
Proof. unfold end_timestamp_after, microsecond. lia. Qed.

End State.

(** ** Properties *)

(** [registry_snapshot] copies exactly what was asked for: a requested
    kind has the registrations of the state, any other kind is empty, the
    extensions never leave the state and the payload flag is kept. *)
Theorem registry_snapshot_exact kinds st k :
  State.part k (regs (State.registry_snapshot kinds st))
  = State.part k (if decide (k ∈ kinds) then regs st else new_registries)
  ∧ extensions (State.registry_snapshot kinds st) = ∅
  ∧ observability_full_payloads_enabled (State.registry_snapshot kinds st)
    = observability_full_payloads_enabled st.
Proof. split; [|done]. apply State.part_copy_kinds. Qed.

(** The start and the end event of a scope, of a tool call and of an LLM
    call describe one span: same uuid, parent, name, category and attributes;
    when the caller gives no end time, the end is strictly later than the
    start and not before the current time, whatever the clock did. *)
Theorem lifecycle_events_pair now (sh : ScopeHandle) (th : ToolHandle) (lh : LlmHandle)
    d1 d2 md req resp ttfc :
  State.span_pair (State.build_scope_start_event sh d1)
    (State.build_scope_end_event now sh d2 md None)
  ∧ State.span_pair (State.build_tool_start_event th d1)
      (State.build_tool_end_event now th d2 md None)
  ∧ State.span_pair (State.build_llm_start_event lh d1 req)
      (State.build_llm_end_event now lh d2 md resp ttfc None)
  ∧ let later e1 e2 :=
      (ev_timestamp (base e1) < ev_timestamp (base e2))%Z
      ∧ (now ≤ ev_timestamp (base e2))%Z in
    later (State.build_scope_start_event sh d1) (State.build_scope_end_event now sh d2 md None)
    ∧ later (State.build_tool_start_event th d1) (State.build_tool_end_event now th d2 md None)
    ∧ later (State.build_llm_start_event lh d1 req)
        (State.build_llm_end_event now lh d2 md resp ttfc None).
Proof.
  split; [by cbn|]. split; [by cbn|]. split; [by cbn|]. cbn.
  split_and!; apply State.end_timestamp_after_start.
Qed.
