(* ===== verification/Chains.v ===== *)
(** * Middleware chains ([crates/runtime/src/api/runtime/state.rs], second half)

    The chains that run an ordered snapshot of entries: metadata injection,
    event sanitizers, payload sanitizers, request intercepts and execution
    intercepts.

    A callback may read and change anything the program shares; [W] is that
    shared world.  What a callback does is a parameter [run]: from its handle,
    its arguments and the world to an outcome ([Err] for an error it returns,
    [Panic] for an unwind) and the world after it.  [catch_unwind] makes the
    third case visible to the chain. *)

From Stdlib Require Import Ascii.
From stdpp Require Import base gmap strings list.
From S2P Require Import Prelude Text Errors Json Float64 LlmTypes Codec Registry Trace Events.
From S2P Require Import Registries.

(** ** Attribute validation *)

Definition is_valid_event_metadata_attribute_key (key : string) : bool :=
  forallb (λ segment,
    negb (str_empty segment)
    && str_all (λ c, is_ascii_alphanumeric c || Ascii.eqb c "_" || Ascii.eqb c "-") segment)
    (split_on "." key).

Inductive OtelAttributePrimitiveKind : Type := KBoolean | KNumber | KString.

#[global] Instance OtelAttributePrimitiveKind_eq_dec : EqDecision OtelAttributePrimitiveKind.
Proof. solve_decision. Defined.

(** [as_u64] is [Some] for the non-negative integers only; [as_f64] always is
    for the other numbers. *)
Definition otel_compatible_attribute_number_kind (value : Number) :
    option OtelAttributePrimitiveKind :=
  match value with
  | PosInt n => if (n <=? 2 ^ 63 - 1)%Z then Some KNumber else None
  | NegInt _ | Float _ => Some KNumber
  end.

Definition is_otel_compatible_attribute_number (value : Number) : bool :=
  bool_decide (is_Some (otel_compatible_attribute_number_kind value)).

Definition primitive_kind (value : Json) : option OtelAttributePrimitiveKind :=
  match value with
  | Bool _ => Some KBoolean
  | Num n => otel_compatible_attribute_number_kind n
  | Str _ => Some KString
  | _ => None
  end.

Definition is_otel_compatible_attribute_value (value : Json) : bool :=
  match value with
  | Bool _ | Str _ => true
  | Num n => is_otel_compatible_attribute_number n
  | Array values =>
      match head values ≫= primitive_kind with
      | None => bool_decide (values = [])
      | Some kind => forallb (λ v, bool_decide (primitive_kind v = Some kind)) values
      end
  | Null | Object _ => false
  end.

(** [attributes] is a [BTreeMap]: its pairs in key order. *)
Fixpoint validate_event_metadata_attributes (attributes : list (string * Json)) :
    outcome string unit :=
  match attributes with
  | [] => Ok ()
  | (key, value) :: attributes =>
      if negb (is_valid_event_metadata_attribute_key key) then
        Err ("attribute key `" +:+ key +:+ "` must contain letter, number, underscore, "
             +:+ "or hyphen segments separated by single dots")
      else if negb (is_otel_compatible_attribute_value value) then
        Err ("attribute `" +:+ key +:+ "` must be a primitive or homogeneous primitive list")
      else validate_event_metadata_attributes attributes
  end.

(** ** Injection into an event *)

Definition set_metadata (m : option Json) (e : Event) : Event :=
  set_base (set_data_metadata (data (base e)) m (base e)) e.

(** From [if attributes.is_empty()] to the end of the loop body. *)
Definition insert_attributes (attributes : list (string * Json)) (e : Event) : Event :=
  match attributes with
  | [] => e
  | _ =>
      match default (Object []) (metadata (base e)) with
      | Object m =>
          set_metadata
            (Some (Object (foldl (λ m kv, obj_or_insert kv.1 kv.2 m) m attributes))) e
      | _ => e
      end
  end.

Section Chains.
Context {W : Type}.

Section Injection.
Context (run : Callback → Event → W → outcome FlowError (list (string * Json)) * W).

Definition event_metadata_injection_step (entry : MetadataInjector) (e : Event) (w : W) :
    Event * W :=
  let '(res, w) := run (payload entry) e w in
  match res with
  | Ok attributes =>
      if is_ok (validate_event_metadata_attributes attributes)
      then (insert_attributes attributes e, w)
      else (e, w)
  | Err _ | Panic => (e, w)
  end.

Fixpoint event_metadata_injection_snapshot_chain (e : Event)
    (entries : list MetadataInjector) (w : W) : Event * W :=
  match entries with
  | [] => (e, w)
  | entry :: entries =>
      let '(e, w) := event_metadata_injection_step entry e w in
      event_metadata_injection_snapshot_chain e entries w
  end.

End Injection.

(** [F] is the type of sanitizer functions: registered callbacks and the
    built-in one of a failed snapshot. *)
Section EventSanitize.
Context {F : Type} (run : F → Event → EventSanitizeFields → W →
  outcome FlowError EventSanitizeFields * W).

Fixpoint event_sanitize_snapshot_chain (e : Event) (entries : list (Guardrail F))
    (w : W) : Event * W :=
  match entries with
  | [] => (e, w)
  | entry :: entries =>
      let fields := sanitize_fields e in
      let '(res, w) := run (payload entry) e fields w in
      match res with
      | Ok fields => event_sanitize_snapshot_chain (apply_sanitize_fields fields e) entries w
      | Err _ | Panic => (apply_sanitize_fields default_fields e, w)
      end
  end.

(** Whether every sanitizer that runs answers with fields. *)
Fixpoint event_sanitizers_ok (e : Event) (entries : list (Guardrail F)) (w : W) :
    bool :=
  match entries with
  | [] => true
  | entry :: entries =>
      let '(res, w) := run (payload entry) e (sanitize_fields e) w in
      match res with
      | Ok fields => event_sanitizers_ok (apply_sanitize_fields fields e) entries w
      | Err _ | Panic => false
      end
  end.

End EventSanitize.

(** ** Payload sanitizers *)

(** [tool_sanitize_request_snapshot_chain] and
    [tool_sanitize_response_snapshot_chain] have the same body. *)
Section ToolSanitize.
Context (run : Callback → string → Json → W → outcome FlowError Json * W).

Fixpoint tool_sanitize_loop (n : string) (value : option Json)
    (entries : list (Guardrail Callback)) (w : W) : option Json * W :=
  match entries with
  | [] => (value, w)
  | entry :: entries =>
      match value with
      | Some current =>
          let '(res, w) := run (payload entry) n current w in
          match res with
          | Ok next => tool_sanitize_loop n (Some next) entries w
          | Err _ | Panic => tool_sanitize_loop n None entries w
          end
      | None => tool_sanitize_loop n None entries w
      end
  end.

Definition tool_sanitize_request_snapshot_chain (n : string) (args : Json)
    (entries : list (Guardrail Callback)) (w : W) : option Json * W :=
  tool_sanitize_loop n (Some args) entries w.

Definition tool_sanitize_response_snapshot_chain (n : string) (result : Json)
    (entries : list (Guardrail Callback)) (w : W) : option Json * W :=
  tool_sanitize_loop n (Some result) entries w.

End ToolSanitize.

(** The LLM sanitizers may also omit the payload themselves. *)
Section LlmSanitize.
Context {V C : Type} (run : Callback → V → C → W → outcome FlowError (option V) * W).

Fixpoint llm_sanitize_loop (value : option V) (context : C)
    (entries : list (Guardrail Callback)) (w : W) : option V * W :=
  match entries with
  | [] => (value, w)
  | entry :: entries =>
      match value with
      | Some current =>
          let '(res, w) := run (payload entry) current context w in
          match res with
          | Ok next => llm_sanitize_loop next context entries w
          | Err _ | Panic => llm_sanitize_loop None context entries w
          end
      | None => llm_sanitize_loop None context entries w
      end
  end.

(** [llm_sanitize_request_snapshot_chain] ([V] an LLM request) and
    [llm_sanitize_response_snapshot_chain] ([V] a JSON response). *)
Definition llm_sanitize_snapshot_chain (value : V) (context : C)
    (entries : list (Guardrail Callback)) (w : W) : option V * W :=
  llm_sanitize_loop (Some value) context entries w.

End LlmSanitize.

(** ** Request intercepts *)

Section ToolRequest.
Context (run : Callback → string → Json → W → outcome FlowError Json * W).

Fixpoint tool_request_intercepts_snapshot_chain (n : string) (value : Json)
    (entries : list (Intercept Callback)) (w : W) : result Json * W :=
  match entries with
  | [] => (Ok value, w)
  | entry :: entries =>
      let '(res, w) := run (callable (payload entry)) n value w in
      match res with
      | Ok value =>
          if break_chain (payload entry) then (Ok value, w)
          else tool_request_intercepts_snapshot_chain n value entries w
      | Err e => (Err e, w)
      | Panic =>
          (Err (Internal ("tool request intercept '" +:+ name entry +:+ "' panicked")), w)
      end
  end.

End ToolRequest.
End Chains.

(** An annotated request and a contribution are values the chain passes on. *)
Record LlmRequestInterceptOutcome (Annotated Contribution : Type) : Type := {
  o_request : LlmRequest;
  o_annotated : option Annotated;
  o_marks : list PendingMarkSpec;
  o_contributions : list Contribution;
}.

Arguments o_request {Annotated Contribution} _.
Arguments o_annotated {Annotated Contribution} _.
Arguments o_marks {Annotated Contribution} _.
Arguments o_contributions {Annotated Contribution} _.
Arguments Build_LlmRequestInterceptOutcome {Annotated Contribution} _ _ _ _.

Section LlmRequest.
Context {W Annotated Contribution : Type}.
Context (run : Callback → string → LlmRequest → option Annotated → W →
  outcome FlowError (LlmRequestInterceptOutcome Annotated Contribution) * W).
(** [recorder.record_all] of a managed call, [None] without a recorder. *)
Context (recorder : option (list Contribution → W → W)).

Definition content_changed_error (n : string) : FlowError :=
  InvalidArgument ("LLM request intercept '" +:+ n
    +:+ "' changed request.content while a request codec is active; "
    +:+ "modify annotated_request instead").

Definition annotation_omitted_error (n : string) : FlowError :=
  InvalidArgument ("LLM request intercept '" +:+ n
    +:+ "' omitted annotated_request while a request codec is active").

(** [acc] holds the four accumulators of the loop. *)
Fixpoint llm_request_intercepts_loop (n : string)
    (acc : LlmRequestInterceptOutcome Annotated Contribution)
    (entries : list (Intercept Callback)) (codec_active : bool) (w : W) :
    result (LlmRequestInterceptOutcome Annotated Contribution) * W :=
  match entries with
  | [] => (Ok acc, w)
  | entry :: entries =>
      let '(res, w) := run (callable (payload entry)) n (o_request acc) (o_annotated acc) w in
      match res with
      | Err e => (Err e, w)
      | Panic =>
          (Err (Internal ("LLM request intercept '" +:+ name entry +:+ "' panicked")), w)
      | Ok outcome =>
          if codec_active
             && negb (value_eqb (content (o_request outcome)) (content (o_request acc)))
          then (Err (content_changed_error (name entry)), w)
          else if codec_active && bool_decide (o_annotated outcome = None :> option Annotated)
          then (Err (annotation_omitted_error (name entry)), w)
          else
            let '(contributions, w) :=
              match recorder with
              | Some record_all => (o_contributions acc, record_all (o_contributions outcome) w)
              | None => (o_contributions acc ++ o_contributions outcome, w)
              end in
            let acc := {|
              o_request := o_request outcome;
              o_annotated := o_annotated outcome;
              o_marks := o_marks acc ++ o_marks outcome;
              o_contributions := contributions;
            |} in
            if break_chain (payload entry) then (Ok acc, w)
            else llm_request_intercepts_loop n acc entries codec_active w
      end
  end.

Definition llm_request_intercepts_snapshot_chain_with_recorder (n : string)
    (request : LlmRequest) (annotated : option Annotated)
    (entries : list (Intercept Callback)) (codec_active : bool) (w : W) :
    result (LlmRequestInterceptOutcome Annotated Contribution) * W :=
  llm_request_intercepts_loop n (Build_LlmRequestInterceptOutcome request annotated [] [])
    entries codec_active w.

End LlmRequest.

(** ** Lemmas: what the callbacks preserve, the chains preserve *)

Section Preserve.
Context {W : Type} (R : relation W) `{!PreOrder R}.

Lemma injection_chain_preserves run e entries (w : W) :
  (∀ cb e w, R w (run cb e w).2) →
  R w (event_metadata_injection_snapshot_chain run e entries w).2.
Proof.
  intros Hrun. revert e w. induction entries as [|entry entries IH]; intros e w; cbn; [done|].
  unfold event_metadata_injection_step. pose proof (Hrun (payload entry) e w) as HR.
  destruct (run (payload entry) e w) as [[attrs|?|] w']; cbn in *; [|by etrans..].
  destruct (is_ok _); by etrans.
Qed.

Lemma event_sanitize_chain_preserves {F} run e (entries : list (Guardrail F)) (w : W) :
  (∀ f e fields w, R w (run f e fields w).2) →
  R w (event_sanitize_snapshot_chain run e entries w).2.
Proof.
  intros Hrun. revert e w. induction entries as [|entry entries IH]; intros e w; cbn; [done|].
  pose proof (Hrun (payload entry) e (sanitize_fields e) w) as HR.
  destruct (run (payload entry) e (sanitize_fields e) w) as [[fields|?|] w']; cbn in *;
    [by etrans|done..].
Qed.

Lemma tool_sanitize_loop_preserves run n v entries (w : W) :
  (∀ cb n v w, R w (run cb n v w).2) → R w (tool_sanitize_loop run n v entries w).2.
Proof.
  intros Hrun. revert v w. induction entries as [|entry entries IH]; intros v w; cbn; [done|].
  destruct v as [v|]; [|apply IH]. pose proof (Hrun (payload entry) n v w) as HR.
  destruct (run (payload entry) n v w) as [[fields|?|] w']; cbn in *; by etrans.
Qed.

Lemma llm_sanitize_loop_preserves {V C} run (v : option V) (c : C) entries (w : W) :
  (∀ cb v c w, R w (run cb v c w).2) → R w (llm_sanitize_loop run v c entries w).2.
Proof.
  intros Hrun. revert v w. induction entries as [|entry entries IH]; intros v w; cbn; [done|].
  destruct v as [v|]; [|apply IH]. pose proof (Hrun (payload entry) v c w) as Hw.
  destruct (run _ _ _ w) as [[?|?|] w']; cbn in Hw; (etrans; [exact Hw|apply IH]).
Qed.

Lemma llm_request_loop_preserves {Annotated Contribution} run recorder n
    (acc : LlmRequestInterceptOutcome Annotated Contribution) entries active (w : W) :
  (∀ cb n r a w, R w (run cb n r a w).2) →
  (∀ record l w, recorder = Some record → R w (record l w)) →
  R w (llm_request_intercepts_loop run recorder n acc entries active w).2.
Proof.
  intros Hrun Hrec. revert acc w. induction entries as [|entry entries IH]; intros acc w; cbn; [done|].
  pose proof (Hrun (callable (payload entry)) n (o_request acc) (o_annotated acc) w) as Hw.
  destruct (run _ _ _ _ w) as [[outcome|e|] w']; cbn in Hw; [|done|done].
  destruct (_ && _); [done|]. destruct (_ && _); [done|].
  destruct recorder as [record|]; (destruct (break_chain _); [|etrans; [exact Hw|]]).
  - etrans; [exact Hw|]. by apply Hrec.
  - etrans; [by apply (Hrec record)|apply IH].
  - done.
  - apply IH.
Qed.

Lemma tool_request_chain_preserves run n v entries (w : W) :
  (∀ cb n v w, R w (run cb n v w).2) →
  R w (tool_request_intercepts_snapshot_chain run n v entries w).2.
Proof.
  intros Hrun. revert v w. induction entries as [|entry entries IH]; intros v w; cbn; [done|].
  pose proof (Hrun (callable (payload entry)) n v w) as HR.
  destruct (run (callable (payload entry)) n v w) as [[v'|?|] w']; cbn in *; [|done..].
  destruct (break_chain (payload entry)); [done|by etrans].
Qed.

End Preserve.

(** ** Lemmas: injection *)

(** What injection may do to metadata: keep what is there, add valid
    attributes, leave a non-object alone. *)
Record metadata_extends (m1 m2 : option Json) : Prop := {
  me_keeps : ∀ k v, meta_get m1 k = Some v → meta_get m2 k = Some v;
  me_valid : ∀ k v, meta_get m2 k = Some v → meta_get m1 k = Some v
    ∨ (is_valid_event_metadata_attribute_key k = true
       ∧ is_otel_compatible_attribute_value v = true);
  me_non_object : ∀ j, m1 = Some j → as_object j = None → m2 = m1;
}.

Lemma metadata_extends_refl m : metadata_extends m m.
Proof. split; auto. Qed.

Lemma metadata_extends_trans m1 m2 m3 :
  metadata_extends m1 m2 → metadata_extends m2 m3 → metadata_extends m1 m3.
Proof.
  intros [K1 V1 N1] [K2 V2 N2]. split; [auto| |].
  - intros k v [H|H]%V2; auto.
  - intros j Hj Ho. rewrite (N2 j); [by rewrite (N1 j)|by rewrite (N1 j)|done].
Qed.

Lemma foldl_or_insert_get attrs m k :
  obj_get k (foldl (λ m kv, obj_or_insert kv.1 kv.2 m) m attrs)
  = match obj_get k m with Some v => Some v | None => obj_get k attrs end.
Proof.
  revert m. induction attrs as [|[k' v] attrs IH]; intros m; cbn.
  { by destruct (obj_get k m). }
  rewrite IH, obj_get_or_insert. destruct (obj_get k m); [done|].
  cbn. by case_decide.
Qed.

Lemma validate_attributes_all attrs k v :
  is_ok (validate_event_metadata_attributes attrs) = true → obj_get k attrs = Some v →
  is_valid_event_metadata_attribute_key k = true
  ∧ is_otel_compatible_attribute_value v = true.
Proof.
  induction attrs as [|[k' v'] attrs IH]; cbn; [done|].
  destruct (is_valid_event_metadata_attribute_key k') eqn:Hk; [|done].
  destruct (is_otel_compatible_attribute_value v') eqn:Hv; [|done]. cbn. intros Hok.
  case_decide; [by intros [= <-]; subst|]. by apply IH.
Qed.

Lemma set_metadata_fields m e :
  identity (set_metadata m e) = identity e
  ∧ data (base (set_metadata m e)) = data (base e)
  ∧ category_profile (set_metadata m e) = category_profile e
  ∧ metadata (base (set_metadata m e)) = m.
Proof. by destruct e as [[[] ? ? ? ?]|[[] ? ?]]. Qed.

Lemma insert_attributes_extends attrs e :
  is_ok (validate_event_metadata_attributes attrs) = true →
  metadata_extends (metadata (base e)) (metadata (base (insert_attributes attrs e))).
Proof.
  intros Hok. unfold insert_attributes. destruct attrs as [|kv attrs].
  { apply metadata_extends_refl. }
  remember (kv :: attrs) as all eqn:Hall. clear Hall kv attrs.
  assert (∀ m, metadata (base e) = None ∧ m = [] ∨ metadata (base e) = Some (Object m) →
    metadata_extends (metadata (base e))
      (Some (Object (foldl (λ m kv, obj_or_insert kv.1 kv.2 m) m all)))) as Hobj.
  { intros m Hm. assert (∀ k, meta_get (metadata (base e)) k = obj_get k m) as Hget.
    { intros k. destruct Hm as [[-> ->]| ->]; done. }
    split.
    - intros k v. rewrite Hget. cbn. intros Hkv. by rewrite foldl_or_insert_get, Hkv.
    - intros k v. rewrite Hget. cbn. rewrite foldl_or_insert_get.
      destruct (obj_get k m); [by left|]. intros Hkv. right.
      by eapply validate_attributes_all.
    - intros j Hj Hno. destruct Hm as [[Hm _]|Hm]; rewrite Hm in Hj; [done|].
      injection Hj as <-. done. }
  destruct (metadata (base e)) as [j|] eqn:Hm; cbn.
  - destruct j; try (rewrite Hm; apply metadata_extends_refl).
    rewrite (proj2 (proj2 (proj2 (set_metadata_fields _ _)))). apply Hobj. by right.
  - rewrite (proj2 (proj2 (proj2 (set_metadata_fields _ _)))). apply Hobj. by left.
Qed.

Lemma insert_attributes_rest attrs e :
  identity (insert_attributes attrs e) = identity e
  ∧ data (base (insert_attributes attrs e)) = data (base e)
  ∧ category_profile (insert_attributes attrs e) = category_profile e.
Proof.
  unfold insert_attributes. destruct attrs; [done|].
  destruct (default (Object []) (metadata (base e))); try done.
  destruct (set_metadata_fields (Some (Object (foldl (λ m kv, obj_or_insert kv.1 kv.2 m) m
    (p :: attrs)))) e) as (? & ? & ? & _). done.
Qed.

Section ChainLemmas.
Context {W : Type}.

Lemma injection_step_extends run entry e (w : W) :
  let e' := (event_metadata_injection_step run entry e w).1 in
  identity e' = identity e ∧ data (base e') = data (base e)
  ∧ category_profile e' = category_profile e
  ∧ metadata_extends (metadata (base e)) (metadata (base e')).
Proof.
  cbv zeta. unfold event_metadata_injection_step.
  assert (metadata_extends (metadata (base e)) (metadata (base e))) as Hrefl
    by apply metadata_extends_refl.
  destruct (run (payload entry) e w) as [[attrs|err|] w']; [|done|done].
  destruct (is_ok (validate_event_metadata_attributes attrs)) eqn:Hok; [|done]. cbn.
  destruct (insert_attributes_rest attrs e) as (? & ? & ?).
  split_and!; [done..|]. by apply insert_attributes_extends.
Qed.

(** *** Payload sanitizers as a sequence of steps *)

Section Steps.
Context {V : Type} (step : Guardrail Callback → V → W → option V * W).

(** Every sanitizer of the list accepted the payload it was given. *)
Inductive accepted : list (Guardrail Callback) → V → W → V → W → Prop :=
| accepted_nil v w : accepted [] v w v w
| accepted_cons entry entries v w v1 w1 v2 w2 :
    step entry v w = (Some v1, w1) → accepted entries v1 w1 v2 w2 →
    accepted (entry :: entries) v w v2 w2.

(** Some sanitizer dropped the payload; the ones after it did not run. *)
Definition dropped (entries : list (Guardrail Callback)) (v : V) (w w' : W) : Prop :=
  ∃ pre entry post v1 w1, entries = pre ++ entry :: post
    ∧ accepted pre v w v1 w1 ∧ step entry v1 w1 = (None, w').

Definition chain_spec (entries : list (Guardrail Callback)) (v : V) (w : W)
    (res : option V * W) : Prop :=
  match res with
  | (Some v', w') => accepted entries v w v' w'
  | (None, w') => dropped entries v w w'
  end.

Lemma chain_spec_cons entry entries v w res :
  match step entry v w with
  | (Some v1, w1) => chain_spec entries v1 w1 res
  | (None, w1) => res = (None, w1)
  end → chain_spec (entry :: entries) v w res.
Proof.
  destruct (step entry v w) as [[v1|] w1] eqn:Hstep.
  - destruct res as [[v2|] w2]; cbn.
    + by econstructor.
    + intros (pre & x & post & v3 & w3 & -> & Hacc & Hx).
      exists (entry :: pre), x, post, v3, w3. split_and!; [done| |done]. by econstructor.
  - intros ->. exists [], entry, entries, v, w. split_and!; [done|constructor|done].
Qed.

End Steps.

(** How one tool or LLM sanitizer treats its payload. *)
Definition tool_step (run : Callback → string → Json → W → outcome FlowError Json * W)
    (n : string) (entry : Guardrail Callback) (v : Json) (w : W) : option Json * W :=
  match run (payload entry) n v w with
  | (Ok next, w) => (Some next, w)
  | (Err _, w) | (Panic, w) => (None, w)
  end.

Definition llm_step {V C} (run : Callback → V → C → W → outcome FlowError (option V) * W)
    (c : C) (entry : Guardrail Callback) (v : V) (w : W) : option V * W :=
  match run (payload entry) v c w with
  | (Ok next, w) => (next, w)
  | (Err _, w) | (Panic, w) => (None, w)
  end.

Lemma tool_sanitize_loop_none run n entries (w : W) :
  tool_sanitize_loop run n None entries w = (None, w).
Proof. induction entries as [|entry entries IH]; [done|]. exact IH. Qed.

Lemma llm_sanitize_loop_none {V C} run (c : C) entries (w : W) :
  llm_sanitize_loop (V := V) run None c entries w = (None, w).
Proof. induction entries as [|entry entries IH]; [done|]. exact IH. Qed.

Lemma tool_sanitize_loop_spec run n entries v (w : W) :
  chain_spec (tool_step run n) entries v w (tool_sanitize_loop run n (Some v) entries w).
Proof.
  revert v w. induction entries as [|entry entries IH]; intros v w; [constructor|]. cbn.
  apply chain_spec_cons. unfold tool_step.
  destruct (run (payload entry) n v w) as [[next|err|] w']; [apply IH|..];
    by rewrite tool_sanitize_loop_none.
Qed.

Lemma llm_sanitize_loop_spec {V C} run (c : C) entries (v : V) (w : W) :
  chain_spec (llm_step run c) entries v w (llm_sanitize_loop run (Some v) c entries w).
Proof.
  revert v w. induction entries as [|entry entries IH]; intros v w; [constructor|]. cbn.
  apply chain_spec_cons. unfold llm_step.
  destruct (run (payload entry) v c w) as [[[next|]|err|] w']; [apply IH|..];
    by rewrite llm_sanitize_loop_none.
Qed.

End ChainLemmas.

(** ** Properties *)

Section ChainProperties.
Context {W : Type}.

(** Metadata injectors can only add: whatever the injectors return,
    error or panic, the event keeps its identity, data and profile, every
    metadata key it had keeps its value, a non-object metadata is left alone,
    and every added key is a valid attribute key with an OpenTelemetry
    compatible value. *)
Lemma injection_insert_only run e entries (w : W) :
  let e' := (event_metadata_injection_snapshot_chain run e entries w).1 in
  identity e' = identity e ∧ data (base e') = data (base e)
  ∧ category_profile e' = category_profile e
  ∧ metadata_extends (metadata (base e)) (metadata (base e')).
Proof.
  cbv zeta. revert e w. induction entries as [|entry entries IH]; intros e w; cbn.
  { split_and!; [done..|apply metadata_extends_refl]. }
  pose proof (injection_step_extends run entry e w) as (Hi & Hd & Hp & Hm). cbv zeta in *.
  destruct (event_metadata_injection_step run entry e w) as [e1 w1]. cbn in *.
  destruct (IH e1 w1) as (Hi' & Hd' & Hp' & Hm').
  split_and!; [congruence..|]. by eapply metadata_extends_trans.
Qed.

(** Event sanitizers fail closed and cannot forge: whatever they return,
    the published event has the identity of the emitted one (uuid, parent,
    name, time, category, attributes, propagation), and if any sanitizer that
    runs errors or panics, its data, profile and metadata are cleared. *)
Lemma event_sanitize_fail_closed {F} run e (entries : list (Guardrail F)) (w : W) :
  let e' := (event_sanitize_snapshot_chain run e entries w).1 in
  identity e' = identity e
  ∧ (event_sanitizers_ok run e entries w = false → sanitize_fields e' = default_fields).
Proof.
  cbv zeta. revert e w. induction entries as [|entry entries IH]; intros e w; cbn; [done|].
  destruct (run (payload entry) e (sanitize_fields e) w) as [[fields|err|] w'].
  - destruct (IH (apply_sanitize_fields fields e) w') as [Hi Hf].
    split; [by rewrite Hi, identity_apply|done].
  - cbn. by rewrite identity_apply, sanitize_fields_apply.
  - cbn. by rewrite identity_apply, sanitize_fields_apply.
Qed.

(** C33: a payload is published only if every sanitizer accepted it: the tool
    request, tool response and LLM chains return a payload exactly as the
    result of all sanitizers in order, each on the previous result; otherwise
    a first sanitizer failed, panicked or omitted it, the payload is dropped
    and no later sanitizer ran. *)
Theorem payload_sanitize_fail_closed {V C} run_tool run_llm n (c : C)
    (v : Json) (lv : V) entries (w : W) :
  chain_spec (tool_step run_tool n) entries v w
    (tool_sanitize_request_snapshot_chain run_tool n v entries w)
  ∧ chain_spec (tool_step run_tool n) entries v w
      (tool_sanitize_response_snapshot_chain run_tool n v entries w)
  ∧ chain_spec (llm_step run_llm c) entries lv w
      (llm_sanitize_snapshot_chain run_llm lv c entries w).
Proof.
  split_and!; [apply tool_sanitize_loop_spec..|apply llm_sanitize_loop_spec].
Qed.

(** [break_chain] ends the request chain for tools and for LLM calls:
    entries after one that is marked never run and never change the
    result. *)
Theorem break_chain_stops {Annotated Contribution} run_tool run_llm recorder n
    (v : Json) (acc : LlmRequestInterceptOutcome Annotated Contribution) codec
    pre entry post (w : W) :
  break_chain (payload entry) = true →
  tool_request_intercepts_snapshot_chain run_tool n v (pre ++ entry :: post) w
  = tool_request_intercepts_snapshot_chain run_tool n v (pre ++ [entry]) w
  ∧ llm_request_intercepts_loop run_llm recorder n acc (pre ++ entry :: post) codec w
    = llm_request_intercepts_loop run_llm recorder n acc (pre ++ [entry]) codec w.
Proof.
  intros Hbreak. split.
  - revert v w. induction pre as [|x pre IH]; intros v w; cbn.
    + by rewrite Hbreak.
    + destruct (run_tool (callable (payload x)) n v w) as [[next|err|] w']; [|done|done].
      by rewrite IH.
  - revert acc w. induction pre as [|x pre IH]; intros acc w; cbn.
    + by rewrite Hbreak.
    + destruct (run_llm _ n (o_request acc) (o_annotated acc) w) as [[out|err|] w']; [|done|done].
      destruct (codec && negb _); [done|]. destruct (codec && bool_decide _); [done|].
      destruct recorder; by rewrite IH.
Qed.

(** With an active request codec an intercept cannot rewrite the body:
    a successful chain returns a request whose content equals the original
    one and, if there was an annotation, an annotation; marks accumulate in
    chain order. *)
Theorem codec_protects_content {Annotated Contribution} run_llm recorder n request annotated
    entries (w w' : W) (out : LlmRequestInterceptOutcome Annotated Contribution) :
  llm_request_intercepts_snapshot_chain_with_recorder run_llm recorder n request annotated
    entries true w = (Ok out, w') →
  value_eqb (content (o_request out)) (content request) = true
  ∧ (is_Some annotated → is_Some (o_annotated out)).
Proof.
  unfold llm_request_intercepts_snapshot_chain_with_recorder.
  assert (∀ entries acc w,
    llm_request_intercepts_loop run_llm recorder n acc entries true w = (Ok out, w') →
    value_eqb (content (o_request out)) (content (o_request acc)) = true
    ∧ (is_Some (o_annotated acc) → is_Some (o_annotated out))) as Hloop;
    [|by intros H%Hloop].
  clear. induction entries as [|entry entries IH]; intros acc w; cbn.
  { intros [= -> _]. split; [|done]. apply compare_json_refl, number_eqb_refl. }
  destruct (run_llm _ n (o_request acc) (o_annotated acc) w) as [[o|err|] w1]; [|done|done].
  destruct (value_eqb (content (o_request o)) (content (o_request acc))) eqn:Heq; [|done].
  cbn [negb andb]. case_bool_decide as Ha; [done|].
  assert (is_Some (o_annotated o)) as Hann by (by apply not_eq_None_Some).
  assert (∀ acc' w, o_request acc' = o_request o → o_annotated acc' = o_annotated o →
    (if break_chain (payload entry) then (Ok acc', w)
     else llm_request_intercepts_loop run_llm recorder n acc' entries true w) = (Ok out, w') →
    value_eqb (content (o_request out)) (content (o_request acc)) = true
    ∧ (is_Some (o_annotated acc) → is_Some (o_annotated out))) as Hstep.
  { intros acc' w2 Hr Hao. destruct (break_chain (payload entry)).
    - intros [= <- _]. by rewrite Hr, Hao.
    - intros (Hv & Ho)%IH. rewrite Hr in Hv. rewrite Hao in Ho. split; [|auto].
      eapply compare_json_trans; [apply number_eqb_trans|exact Hv|exact Heq]. }
  destruct recorder as [record_all|]; intros Hrest; by eapply Hstep; [..|exact Hrest].
Qed.

End ChainProperties.

(** *** Witnesses *)

Definition demo_intercept (n : string) (stop : bool) (cb : Callback) : Intercept Callback :=
  Build_RegistryRecord n 0 (Build_RequestIntercept stop cb).

Lemma break_chain_stops_witness :
  tool_request_intercepts_snapshot_chain (λ cb _ v (w : nat), (Ok (Array [v; v]), S w)) "t"
    Null ([] ++ demo_intercept "a" true 1%N :: [demo_intercept "b" false 2%N]) 0
  = (Ok (Array [Null; Null]), 1).
Proof.
  rewrite (proj1 (break_chain_stops (Annotated := unit) (Contribution := unit)
    (λ cb _ v w, (Ok (Array [v; v]), S w))
    (λ _ _ r a w, (Ok (Build_LlmRequestInterceptOutcome r a [] []), w)) None "t" Null
    (Build_LlmRequestInterceptOutcome {| headers := []; content := Null |} None [] []) false
    [] (demo_intercept "a" true 1%N) [demo_intercept "b" false 2%N] 0 eq_refl)).
  reflexivity.
Defined.

Lemma codec_protects_content_witness :
  value_eqb (content {| headers := []; content := Str "body" |}) (Str "body") = true
  ∧ is_Some (Some 7).
Proof.
  destruct (codec_protects_content (Contribution := unit)
    (λ _ _ r a (w : nat), (Ok (Build_LlmRequestInterceptOutcome r a [] []), S w))
    None "llm" {| headers := []; content := Str "body" |} (Some 7)
    [demo_intercept "a" false 1%N] 0 1
    (Build_LlmRequestInterceptOutcome {| headers := []; content := Str "body" |} (Some 7) [] []))
    as [Hv Ha].
  - vm_compute. reflexivity.
  - split; [exact Hv|]. apply Ha. by eexists.
Defined.
