(* ===== verification/Execution.v ===== *)
(** * Execution intercept chains ([tool_build_execution_chain] and
    [llm_build_execution_chain] of [state.rs], the tool results of
    [crates/types/src/api/tool.rs])

    An execution intercept wraps the rest of the chain: it gets the arguments
    and a continuation [next], may call it any number of times and returns an
    outcome.  The marks of the downstream calls are collected per call and
    put before the intercept's own marks, in the order in which the calls
    were started.

    What an intercept does is a program [Prog]: it reads and changes the
    shared world, calls [next] and returns.  A program cannot call [next]
    after it returned; the source enforces the same by revoking the lease
    when the intercept settles.

    Each intercept captures its context before it runs, and each call of
    [next] runs in a copy of that context.  The chains are defined against the
    interface [Leases] of that mechanism; [Continuation] implements it. *)

From stdpp Require Import base gmap strings list sorting.
From S2P Require Import Prelude Errors Json Registry Trace Events Registries.

(** ** Tool results *)

Definition normalize_annotation (annotation : option Json) : option Json :=
  match annotation with
  | Some Null => None
  | a => a
  end.

Record ToolExecutionResult : Type := {
  r_result : Json;
  r_annotation : option Json;
}.

Record ToolExecutionInterceptOutcome : Type := {
  i_result : Json;
  i_annotation : option Json;
  pending_marks : list PendingMarkSpec;
}.

(** [From<ToolExecutionResult>]. *)
Definition outcome_of_result (r : ToolExecutionResult) : ToolExecutionInterceptOutcome := {|
  i_result := r_result r;
  i_annotation := normalize_annotation (r_annotation r);
  pending_marks := [];
|}.

Definition into_execution_result (o : ToolExecutionInterceptOutcome) : ToolExecutionResult := {|
  r_result := i_result o;
  r_annotation := normalize_annotation (i_annotation o);
|}.

Record ToolExecutionContext : Type := {
  c_tool_name : string;
  c_args : Json;
  c_tool_call_id : option string;
}.

Definition with_args (args : Json) (c : ToolExecutionContext) : ToolExecutionContext := {|
  c_tool_name := c_tool_name c; c_args := args; c_tool_call_id := c_tool_call_id c;
|}.

(** ** Programs of intercepts *)

Inductive Prog (W Args Res Out : Type) : Type :=
| Return (r : outcome FlowError Out)
| Touch (f : W → Prog W Args Res Out * W)
| CallNext (a : Args) (k : outcome FlowError Res → Prog W Args Res Out).

Arguments Return {W Args Res Out} r.
Arguments Touch {W Args Res Out} f.
Arguments CallNext {W Args Res Out} a k.

Section Run.
Context {W Args Res Out : Type}.

(** Run a program against a continuation that itself carries a state [S]
    (the counters and accumulators of the layer). *)
Fixpoint run_prog {S : Type} (next : Args → S → W → outcome FlowError Res * S * W)
    (p : Prog W Args Res Out) (s : S) (w : W) : outcome FlowError Out * S * W :=
  match p with
  | Return r => (r, s, w)
  | Touch f =>
      let '(p, w) := f w in
      run_prog next p s w
  | CallNext a k =>
      let '(r, s, w) := next a s w in
      run_prog next (k r) s w
  end.

End Run.

(** ** Continuation leases

    [MiddlewareContinuationLease::capture], [begin] and
    [MiddlewareContinuationInvocation::invoke] of [continuation_context.rs], for
    an intercept that has not settled. *)

Class Leases (W : Type) : Type := {
  Captured : Type;
  capture_lease : W → result Captured * W;
  begin_lease : Captured → W → result Captured * W;
  invoke_lease : ∀ {X : Type}, Captured → (W → result X * W) → W → result X * W;
}.

(** [continuation.begin()?.invoke(..)]. *)
Definition continue_lease {W X} `{!Leases W} (c : Captured) (m : W → result X * W) (w : W) :
    result X * W :=
  match begin_lease c w with
  | (Ok invocation, w) => invoke_lease invocation m w
  | (Err e, w) => (Err e, w)
  | (Panic, w) => (Panic, w)
  end.

(** Capture, then go on. *)
Definition with_lease {W X} `{!Leases W} (k : Captured → W → result X * W) (w : W) :
    result X * W :=
  match capture_lease w with
  | (Ok c, w) => k c w
  | (Err e, w) => (Err e, w)
  | (Panic, w) => (Panic, w)
  end.

(** What leases promise to their callers: where [I] holds, capturing and running
    a continuation keep [R] if the continuation does. *)
Class LeaseLaws {W : Type} (R : relation W) (I : W → Prop) `{!Leases W} : Type := {
  lease_valid : Captured → W → Prop;
  lease_inv : ∀ w w', R w w' → I w → I w';
  lease_stable : ∀ c w w', R w w' → I w → lease_valid c w → lease_valid c w';
  capture_law : ∀ w, I w →
    R w (capture_lease w).2
    ∧ ∀ c, (capture_lease w).1 = Ok c → lease_valid c (capture_lease w).2;
  continue_law : ∀ X c (m : W → result X * W) w, I w → lease_valid c w →
    (∀ w, I w → R w (m w).2) → R w (continue_lease c m w).2;
}.

(** ** The tool chain *)

Section ToolChain.
Context {W : Type} `{!Leases W}.
Context (run : Callback → ToolExecutionContext →
  Prog W Json ToolExecutionResult ToolExecutionInterceptOutcome).

Abbreviation OutcomeNext := (Json → W → result ToolExecutionInterceptOutcome * W).

(** [next_sequence] and [downstream_marks] of one layer. *)
Record Layer : Type := {
  next_sequence : nat;
  downstream_marks : list (nat * list PendingMarkSpec);
}.

Definition sequence_le (b1 b2 : nat * list PendingMarkSpec) : Prop := b1.1 ≤ b2.1.

#[global] Instance sequence_le_dec : RelDecision sequence_le.
Proof. intros ? ?. unfold sequence_le. apply _. Defined.

(** [raw_next]: number the call, run it, keep its marks aside. *)
Definition raw_next (continuation : Captured) (current_next : OutcomeNext) (args : Json)
    (s : Layer) (w : W) : result ToolExecutionResult * Layer * W :=
  let sequence := next_sequence s in
  let s := {| next_sequence := S sequence; downstream_marks := downstream_marks s |} in
  let '(r, w) := continue_lease continuation (current_next args) w in
  match r with
  | Ok outcome =>
      (Ok (into_execution_result outcome),
       {| next_sequence := next_sequence s;
          downstream_marks := downstream_marks s ++ [(sequence, pending_marks outcome)] |}, w)
  | Err e => (Err e, s, w)
  | Panic => (Panic, s, w)
  end.

(** The marks after an intercept settled: downstream ones by call, then its
    own. *)
Definition assemble_marks (batches : list (nat * list PendingMarkSpec))
    (own : list PendingMarkSpec) : list PendingMarkSpec :=
  (stable_sort sequence_le batches ≫= snd) ++ own.

Definition set_marks (marks : list PendingMarkSpec) (o : ToolExecutionInterceptOutcome) :
    ToolExecutionInterceptOutcome := {|
  i_result := i_result o; i_annotation := i_annotation o; pending_marks := marks;
|}.

Definition wrap (context : ToolExecutionContext) (callable : Callback)
    (current_next : OutcomeNext) : OutcomeNext := λ args,
  with_lease (λ continuation w,
    let '(r, s, w) :=
      run_prog (raw_next continuation current_next) (run callable (with_args args context))
        {| next_sequence := 0; downstream_marks := [] |} w in
    (outcome_map (λ o, set_marks (assemble_marks (downstream_marks s) (pending_marks o)) o) r, w)).

Definition default_next (default_fn : Json → W → result ToolExecutionResult * W) :
    OutcomeNext := λ args w,
  let '(r, w) := default_fn args w in (outcome_map outcome_of_result r, w).

(** [for (callable, _) in matching.into_iter().rev()]: the last entry is
    wrapped first, so the first one is outermost. *)
Definition tool_build_execution_chain (matching : list (Callback * Z))
    (context : ToolExecutionContext)
    (default_fn : Json → W → result ToolExecutionResult * W) : OutcomeNext :=
  foldl (λ next '(callable, _), wrap context callable next) (default_next default_fn)
    (rev matching).

End ToolChain.

(** ** The LLM chain: the same nesting without marks *)

Section LlmChain.
Context {W Request Response : Type} `{!Leases W}.
Context (run : Callback → string → Request → Prog W Request Response Response).

(** [raw_next]. *)
Definition llm_next (continuation : Captured)
    (current_next : Request → W → result Response * W) (request : Request) (s : unit) (w : W) :
    result Response * unit * W :=
  let '(r, w) := continue_lease continuation (current_next request) w in (r, s, w).

Definition llm_wrap (n : string) (callable : Callback)
    (current_next : Request → W → result Response * W) : Request → W → result Response * W :=
  λ request,
    with_lease (λ continuation w,
      let '(r, _, w) :=
        run_prog (llm_next continuation current_next) (run callable n request) () w in
      (r, w)).

Definition llm_build_execution_chain (matching : list (Callback * Z)) (n : string)
    (default_fn : Request → W → result Response * W) : Request → W → result Response * W :=
  foldl (λ next '(callable, _), llm_wrap n callable next) default_fn (rev matching).

(** The streaming chain: the stream a continuation returns runs in the context
    of its invocation, the one an intercept returns holds the intercept's
    guards. *)
Context (contextualize_stream : Captured → Response → Response).
Context (guard_execution_stream : Response → Response).

Definition llm_stream_next (continuation : Captured)
    (current_next : Request → W → result Response * W) (request : Request) (s : unit) (w : W) :
    result Response * unit * W :=
  match begin_lease continuation w with
  | (Ok invocation, w) =>
      let '(r, w) := invoke_lease invocation (current_next request) w in
      (outcome_map (contextualize_stream invocation) r, s, w)
  | (Err e, w) => (Err e, s, w)
  | (Panic, w) => (Panic, s, w)
  end.

Definition llm_stream_wrap (n : string) (callable : Callback)
    (current_next : Request → W → result Response * W) : Request → W → result Response * W :=
  λ request,
    with_lease (λ continuation w,
      let '(r, _, w) :=
        run_prog (llm_stream_next continuation current_next) (run callable n request) () w in
      (outcome_map guard_execution_stream r, w)).

Definition llm_stream_build_execution_chain (matching : list (Callback * Z)) (n : string)
    (default_fn : Request → W → result Response * W) : Request → W → result Response * W :=
  foldl (λ next '(callable, _), llm_stream_wrap n callable next) default_fn (rev matching).

End LlmChain.

(** ** Lemmas *)

Lemma tool_chain_cons {W} `{!Leases W} run cb p matching context default_fn :
  tool_build_execution_chain (W := W) run ((cb, p) :: matching) context default_fn
  = wrap run context cb (tool_build_execution_chain run matching context default_fn).
Proof. unfold tool_build_execution_chain. cbn. by rewrite foldl_app. Qed.

Lemma llm_chain_cons {W Request Response} `{!Leases W} run cb p matching n default_fn :
  llm_build_execution_chain (W := W) (Request := Request) (Response := Response)
    run ((cb, p) :: matching) n default_fn
  = llm_wrap run n cb (llm_build_execution_chain run matching n default_fn).
Proof. unfold llm_build_execution_chain. cbn. by rewrite foldl_app. Qed.

Lemma stream_chain_cons {W Request Response} `{!Leases W} run ctx guard cb p matching n
    default_fn :
  llm_stream_build_execution_chain (W := W) (Request := Request) (Response := Response)
    run ctx guard ((cb, p) :: matching) n default_fn
  = llm_stream_wrap run ctx guard n cb
      (llm_stream_build_execution_chain run ctx guard matching n default_fn).
Proof. unfold llm_stream_build_execution_chain. cbn. by rewrite foldl_app. Qed.

(** *** What intercepts and the tool preserve, the chain preserves *)

Fixpoint prog_preserves {W Args Res Out : Type} (R : relation W) (p : Prog W Args Res Out) :
    Prop :=
  match p with
  | Return _ => True
  | Touch f => ∀ w, let '(p, w') := f w in R w w' ∧ prog_preserves R p
  | CallNext a k => ∀ r, prog_preserves R (k r)
  end.

Section Preserves.
Context {W : Type} (R : relation W) (I : W → Prop) `{!PreOrder R, !Leases W, !LeaseLaws R I}.

Lemma run_prog_preserves {Args Res Out S : Type} (J : W → Prop)
    (next : Args → S → W → outcome FlowError Res * S * W) (p : Prog W Args Res Out) s w :
  (∀ w w', R w w' → J w → J w') → (∀ a s w, J w → R w (next a s w).2) → prog_preserves R p →
  J w → R w (run_prog next p s w).2.
Proof.
  intros HJ Hnext. revert p s w. fix IH 1. intros [r|f|a k] s w Hp Hw; cbn in *; [done| |].
  - specialize (Hp w). destruct (f w) as [p w'].
    destruct Hp as [HR Hp]. etrans; [exact HR|]. by apply IH; [|eapply HJ].
  - pose proof (Hnext a s w Hw) as HR. destruct (next a s w) as [[r s'] w'].
    etrans; [exact HR|]. by apply IH; [|eapply HJ].
Qed.

(** An intercept that runs with its lease. *)
Lemma with_lease_preserves {X} (k : Captured → W → result X * W) w :
  (∀ c w, I w → lease_valid c w → R w (k c w).2) → I w → R w (with_lease k w).2.
Proof.
  intros Hk Hw. unfold with_lease. destruct (capture_law w Hw) as [HR Hv].
  pose proof (lease_inv _ _ HR Hw) as Hw'.
  destruct (capture_lease w) as [[c|e|] w']; cbn in *; [|done..].
  etrans; [exact HR|]. by apply Hk; [|apply Hv].
Qed.

Lemma leased_prog_preserves {Args Res Out S : Type} c
    (next : Args → S → W → outcome FlowError Res * S * W) (p : Prog W Args Res Out) s w :
  (∀ a s w, I w → lease_valid c w → R w (next a s w).2) → prog_preserves R p →
  I w → lease_valid c w → R w (run_prog next p s w).2.
Proof.
  intros Hnext Hp Hw Hc. apply (run_prog_preserves (λ w, I w ∧ lease_valid c w)); [| |done|done].
  - intros w0 w1 HR [H1 H2]. split; [by eapply lease_inv|by eapply lease_stable].
  - intros a s0 w0 []. by apply Hnext.
Qed.

Lemma tool_chain_preserves run matching context default_fn args w :
  (∀ cb c, prog_preserves R (run cb c)) → (∀ a w, I w → R w (default_fn a w).2) → I w →
  R w (tool_build_execution_chain run matching context default_fn args w).2.
Proof.
  intros Hrun Hfn. revert args w. induction matching as [|[cb p] matching IH]; intros args w Hw.
  - cbn. unfold default_next. pose proof (Hfn args w Hw). by destruct (default_fn args w).
  - rewrite tool_chain_cons. apply with_lease_preserves; [|done]. clear w Hw. intros c w Hw Hc.
    set (chain := tool_build_execution_chain run matching context default_fn) in *.
    pose proof (leased_prog_preserves c (raw_next c chain) (run cb (with_args args context))
      {| next_sequence := 0; downstream_marks := [] |} w) as HR.
    destruct (run_prog _ _ _ w) as [[r s] w']. apply HR; [|apply Hrun|done..].
    intros a s' w0 Hw0 Hc0. unfold raw_next.
    pose proof (continue_law _ c (chain a) w0 Hw0 Hc0 (IH a)) as HR'.
    by destruct (continue_lease c (chain a) w0) as [[]].
Qed.

Lemma llm_chain_preserves {Request Response : Type}
    (run : Callback → string → Request → Prog W Request Response Response) matching n default_fn
    request w :
  (∀ cb n r, prog_preserves R (run cb n r)) → (∀ r w, I w → R w (default_fn r w).2) → I w →
  R w (llm_build_execution_chain run matching n default_fn request w).2.
Proof.
  intros Hrun Hfn. revert request w.
  induction matching as [|[cb p] matching IH]; intros request w Hw; [by apply Hfn|].
  rewrite llm_chain_cons. apply with_lease_preserves; [|done]. clear w Hw. intros c w Hw Hc.
  set (chain := llm_build_execution_chain run matching n default_fn) in *.
  pose proof (leased_prog_preserves c (llm_next c chain) (run cb n request) () w) as HR.
  destruct (run_prog _ _ _ w) as [[r s] w']. apply HR; [|apply Hrun|done..].
  intros a s' w0 Hw0 Hc0. unfold llm_next.
  pose proof (continue_law _ c (chain a) w0 Hw0 Hc0 (IH a)) as HR'.
  by destruct (continue_lease c (chain a) w0).
Qed.

Lemma stream_chain_preserves {Request Response : Type}
    (run : Callback → string → Request → Prog W Request Response Response) ctx guard matching n
    default_fn request w :
  (∀ cb n r, prog_preserves R (run cb n r)) → (∀ r w, I w → R w (default_fn r w).2) → I w →
  R w (llm_stream_build_execution_chain run ctx guard matching n default_fn request w).2.
Proof.
  intros Hrun Hfn. revert request w.
  induction matching as [|[cb p] matching IH]; intros request w Hw; [by apply Hfn|].
  rewrite stream_chain_cons. apply with_lease_preserves; [|done]. clear w Hw. intros c w Hw Hc.
  set (chain := llm_stream_build_execution_chain run ctx guard matching n default_fn) in *.
  pose proof (leased_prog_preserves c (llm_stream_next ctx c chain) (run cb n request) () w) as HR.
  destruct (run_prog _ _ _ w) as [[r s] w']. apply HR; [|apply Hrun|done..].
  intros a s' w0 Hw0 Hc0. unfold llm_stream_next.
  pose proof (continue_law _ c (chain a) w0 Hw0 Hc0 (IH a)) as HR'. unfold continue_lease in HR'.
  destruct (begin_lease c w0) as [[inv|e|] w1]; cbn in *; [|done..].
  by destruct (invoke_lease inv (chain a) w1).
Qed.

End Preserves.

#[global] Instance sequence_le_total : Total sequence_le.
Proof. intros ? ?. unfold sequence_le. lia. Qed.

#[global] Instance sequence_le_trans : Transitive sequence_le.
Proof. intros ? ? ?. unfold sequence_le. lia. Qed.

(** Batches numbered from [k] upwards are already in call order. *)
Lemma numbered_sorted (l : list (list PendingMarkSpec)) k :
  StronglySorted sequence_le (zip (seq k (length l)) l).
Proof.
  revert k. induction l as [|x l IH]; intros k; cbn; [constructor|]. constructor; [done|].
  apply Forall_forall. intros [i y] Hin. apply elem_of_zip_l in Hin.
  apply elem_of_seq in Hin. unfold sequence_le. cbn. lia.
Qed.

(** Sorting any completion order of numbered batches gives call order back. *)
Lemma sort_completion_order (l : list (list PendingMarkSpec)) batches :
  batches ≡ₚ zip (seq 0 (length l)) l →
  stable_sort sequence_le batches = zip (seq 0 (length l)) l.
Proof.
  intros Hperm.
  assert (∀ l1 l2 : list (nat * list PendingMarkSpec),
    StronglySorted sequence_le l1 → StronglySorted sequence_le l2 →
    NoDup l1.*1 → l1 ≡ₚ l2 → l1 = l2) as Huniq.
  { intros l1. induction l1 as [|[i x] l1 IH]; intros l2 H1 H2 Hnd Hp.
    { by apply Permutation_nil_l in Hp. }
    destruct l2 as [|[j y] l2]; [by apply Permutation_nil_r in Hp|].
    apply StronglySorted_inv in H1 as [H1 Hx]. apply StronglySorted_inv in H2 as [H2 Hy].
    cbn in Hnd. apply NoDup_cons in Hnd as [Hi Hnd].
    assert ((i, x) = (j, y)) as [= <- <-].
    { assert ((j, y) ∈ (i, x) :: l1) as Hj by (rewrite Hp; left).
      assert ((i, x) ∈ (j, y) :: l2) as Hi' by (rewrite <-Hp; left).
      apply elem_of_cons in Hj as [Hj|Hj]; [done|].
      apply elem_of_cons in Hi' as [Hi'|Hi']; [done|].
      rewrite Forall_forall in Hx, Hy. specialize (Hx _ Hj). specialize (Hy _ Hi').
      unfold sequence_le in Hx, Hy. cbn in Hx, Hy. assert (i = j) as <- by lia.
      destruct Hi. apply list_elem_of_fmap. by exists (i, y). }
    f_equal. apply IH; [done..|]. by apply Permutation_cons_inv in Hp. }
  apply Huniq.
  - apply stable_sort_StronglySorted; apply _.
  - apply numbered_sorted.
  - rewrite stable_sort_Permutation, Hperm. rewrite fst_zip by (by rewrite length_seq).
    apply NoDup_seq.
  - by rewrite stable_sort_Permutation.
Qed.

Lemma zip_bind_snd (l : list (list PendingMarkSpec)) k :
  zip (seq k (length l)) l ≫= snd = concat l.
Proof. revert k. induction l as [|x l IH]; intros k; cbn; [done|]. by rewrite IH. Qed.

Lemma normalize_annotation_idem a :
  normalize_annotation (normalize_annotation a) = normalize_annotation a.
Proof. by destruct a as [[]|]. Qed.

(** ** Properties *)

(** Marks of concurrent downstream calls are published in the order the
    calls were started, whatever the order in which they completed, and
    before the marks of the intercept that made them. *)
Theorem marks_in_call_order (calls : list (list PendingMarkSpec)) batches own :
  batches ≡ₚ zip (seq 0 (length calls)) calls →
  assemble_marks batches own = concat calls ++ own.
Proof.
  intros Hperm. unfold assemble_marks. by rewrite (sort_completion_order calls), zip_bind_snd.
Qed.

(** An intercept that passes (possibly changed) arguments on once and adjusts
    the result it gets back. *)
Definition around {W} (f : Json → Json) (g : ToolExecutionResult → ToolExecutionResult)
    (marks : list PendingMarkSpec) (c : ToolExecutionContext) :
    Prog W Json ToolExecutionResult ToolExecutionInterceptOutcome :=
  CallNext (f (c_args c)) (λ r,
    Return (outcome_map (λ x, set_marks marks (outcome_of_result (g x))) r)).

(** C35: execution intercepts nest by priority: the chain of a list of
    intercepts that wrap the call runs the first one outermost (its argument
    change is applied first, its result change last), the rest of the chain as
    one continuation of the context it captured, and the marks come out
    innermost first. *)
Theorem execution_chain_nests {W} `{!Leases W} run cb p f g marks matching context default_fn args
    (w : W) :
  (∀ c, run cb c = around f g marks c) →
  tool_build_execution_chain run ((cb, p) :: matching) context default_fn args w
  = with_lease (λ c w,
      let '(r, w) := continue_lease c
        (tool_build_execution_chain run matching context default_fn (f args)) w in
      (outcome_map (λ o,
         let x := outcome_of_result (g (into_execution_result o)) in
         set_marks (pending_marks o ++ marks) x) r, w)) w.
Proof.
  intros Hrun. rewrite tool_chain_cons. unfold wrap, with_lease.
  destruct (capture_lease w) as [[c|e|] w1]; [|done..].
  rewrite Hrun. unfold around. cbn. unfold raw_next. cbn.
  destruct (continue_lease c _ w1) as [[o|e|] w']; [|done|done].
  cbn. unfold assemble_marks. cbn. by rewrite app_nil_r.
Qed.

(** An intercept that returns without calling [next] replaces the rest
    of the chain: neither the later intercepts nor the tool itself run, for
    tools and for LLM calls alike. *)
Theorem execution_short_circuit {W Request Response} `{!Leases W} run run_llm cb p o
    (resp : result Response) matching context default_fn n default_llm args (request : Request) c
    (w w' : W) :
  (∀ c, run cb c = Return o) → (∀ n q, run_llm cb n q = Return resp) →
  capture_lease w = (Ok c, w') →
  tool_build_execution_chain run ((cb, p) :: matching) context default_fn args w = (o, w')
  ∧ llm_build_execution_chain run_llm ((cb, p) :: matching) n default_llm request w
    = (resp, w').
Proof.
  intros Hrun Hllm Hc. split.
  - rewrite tool_chain_cons. unfold wrap, with_lease. rewrite Hc, Hrun. cbn. f_equal.
    destruct o as [o|e|]; [|done|done]. by destruct o.
  - rewrite llm_chain_cons. unfold llm_wrap, with_lease. by rewrite Hc, Hllm.
Qed.

(** *** Witnesses *)

Definition demo_mark (n : string) : PendingMarkSpec := {|
  pm_name := n; pm_category := None; pm_profile := None; pm_data := None;
  pm_data_schema := None; pm_metadata := None; pm_severity := None;
|}.

Lemma marks_in_call_order_witness :
  assemble_marks [(1, [demo_mark "b"]); (0, [demo_mark "a"])] [demo_mark "own"]
  = [demo_mark "a"; demo_mark "b"; demo_mark "own"].
Proof.
  apply (marks_in_call_order [[demo_mark "a"]; [demo_mark "b"]]). apply Permutation_swap.
Defined.

Definition demo_context : ToolExecutionContext :=
  {| c_tool_name := "t"; c_args := Null; c_tool_call_id := None |}.

(** Leases that isolate nothing. *)
#[local] Instance plain_leases : Leases nat := {|
  Captured := unit; capture_lease w := (Ok (), w); begin_lease c w := (Ok c, w);
  invoke_lease _ _ m w := m w;
|}.

Lemma execution_chain_nests_witness :
  tool_build_execution_chain (W := nat)
    (λ _ c, around (λ v, Array [v]) (λ r, r) [demo_mark "outer"] c)
    [(1%N, 0%Z)] demo_context
    (λ v w, (Ok {| r_result := v; r_annotation := None |}, S w)) Null 0
  = (Ok {| i_result := Array [Null]; i_annotation := None;
           pending_marks := [demo_mark "outer"] |}, 1).
Proof.
  rewrite (execution_chain_nests _ 1%N 0%Z (λ v, Array [v]) (λ r, r) [demo_mark "outer"] []
    demo_context _ Null 0 (λ _, eq_refl)).
  reflexivity.
Defined.

Lemma execution_short_circuit_witness :
  (tool_build_execution_chain (W := nat) (λ _ _, Return (Err (Internal "blocked")))
    [(1%N, 0%Z)] demo_context (λ v w, (Panic, S w)) Null 0)
  = (Err (Internal "blocked"), 0).
Proof.
  exact (proj1 (execution_short_circuit (λ _ _, Return (Err (Internal "blocked")))
    (λ _ _ _, Return (Ok 3)) 1%N 0%Z (Err (Internal "blocked")) (Ok 3) [] demo_context
    (λ v w, (Panic, S w)) "llm" (λ q w, (Panic, S w)) Null 5 () 0 0
    (λ _, eq_refl) (λ _ _, eq_refl) eq_refl)).
Defined.
