(* ===== verification/World.v ===== *)
(** * The shared world of the runtime

    The process-global context, the gate table, the scope stacks behind their
    [Arc<RwLock<..>>] handles, the binding of the current thread or task, the
    clocks and the queue of publications, with the operations that read and
    change them ([scope_stack.rs], second half; [shared.rs]; the dispatch
    functions of [subscriber_dispatcher.rs]).

    - A [ScopeStackHandle] is the address of a stack on a heap; addresses are
      never reused, so comparing addresses is [Arc::ptr_eq].  The heap keeps
      every stack.
    - A lock is poisoned or not; reading a poisoned lock is an error or a
      panic, as the call site decides.
    - [Uuid::now_v7] and [Utc::now] read the [n]-th value of a sequence given
      as a parameter.
    - The answer of [ensure_process_runtime_owner] is part of the world. *)

From stdpp Require Import base gmap strings list.
From S2P Require Import Prelude Text Errors Json Float64 LlmTypes Pricing Optimization Codec.
From S2P Require Import Registry Trace Events Registries ScopeStack ContextState Chains.

(** ** W3C contexts and active events *)

Record W3cTraceContext : Type := {
  w3c_traceparent : string;
  w3c_tracestate : option string;
}.

Record AnchoredActiveEvent : Type := {
  event_uuid : uuid;
  ae_scope_stack : N;
  anchor_scope_uuid : uuid;
}.

(** The task-local and thread-local slots of the current context. *)
Record Binding : Type := {
  scope_stack_override : option N;
  task_scope_stack : option N;
  thread_scope_stack : N;
  thread_scope_stack_explicit : bool;
  active_event : option AnchoredActiveEvent;
  active_event_trace : option (option W3cTraceContext);
  thread_active : option AnchoredActiveEvent;
  thread_active_trace : option W3cTraceContext;
}.

(** ** Publications *)

(** An event sanitizer: a registered callback, or the built-in that clears
    the fields when the snapshot of sanitizers failed. *)
Inductive SanitizeFn : Type :=
| SanitizeCallback (cb : Callback)
| SanitizeClear.

(** The closures the tool and LLM APIs hand to the dispatcher. *)
Inductive Transform : Type :=
| ToolRequestTransform (tool_name : string) (raw_args : Json)
    (entries : list (Guardrail Callback))
| ToolResponseTransform (tool_name : string) (result : Json)
    (entries : list (Guardrail Callback)) (fallback annotation : option Json)
| CompletionMarkTransform (tool_name : string) (args result : Json)
    (requests responses : list (Guardrail Callback))
| LlmStartTransform (handle : LlmHandle) (request : LlmRequest)
    (annotated : option AnnotatedLlmRequest) (codec : option LlmCodec)
    (entries : list (Guardrail Callback)) (full_payloads agent_is_fresh : bool)
    (decode_missing : bool)
| LlmEndTransform (handle : LlmHandle) (response : Json) (fallback : option Json)
    (annotated : option AnnotatedLlmResponse) (codec : option LlmResponseCodec)
    (entries : list (Guardrail Callback)) (metadata : option Json) (ts : option timestamp)
    (manual : bool)
| LlmFailedEndTransform (handle : LlmHandle) (metadata : option Json)
    (codec : option LlmResponseCodec) (entries : list (Guardrail Callback)) (ts : timestamp)
| LlmCancelledEndTransform (handle : LlmHandle) (metadata : option Json)
    (codec : option LlmResponseCodec) (entries : option (list (Guardrail Callback))).

(** [DispatcherMessage::Deliver]. *)
Record Delivery : Type := {
  d_event : Event;
  d_transform : option Transform;
  d_injectors : list MetadataInjector;
  d_sanitizers : list (Guardrail SanitizeFn);
  d_subscribers : list Callback;
  d_scope_stack : N;
  d_tracked : bool;
}.

(** ** The world *)

(** The optimization recorders of LLM calls behind their [Arc], the one of the
    current task, and the active pricing resolver. *)
Record LlmWorld : Type := {
  l_recorders : gmap N AccumulatorState;
  l_next_recorder : N;
  l_current_recorder : option N;
  l_pricing : ActiveResolver;
}.

Definition new_llm_world : LlmWorld := {|
  l_recorders := ∅; l_next_recorder := 0%N; l_current_recorder := None;
  l_pricing := {| active := default_resolver; active_poisoned := false |};
|}.

Record World : Type := {
  w_global : NemoRelayContextState;
  w_global_poisoned : bool;
  w_gates : GateTable;
  w_heap : gmap N ScopeStack;
  w_poisoned : gset N;
  w_next_stack : N;
  w_binding : Binding;
  w_owner : outcome FlowError unit;
  w_uuids : nat;
  w_clock : nat;
  (** Whether the dispatcher accepts messages. *)
  w_dispatcher_ok : bool;
  w_queue : list Delivery;
  w_agents : gmap uuid N;
  w_llm : LlmWorld;
}.

Definition set_global (g : NemoRelayContextState) (w : World) : World :=
  let '(Build_World _ p gt h ps nx b o u c d q a l) := w in
  Build_World g p gt h ps nx b o u c d q a l.
Definition set_gates (gt : GateTable) (w : World) : World :=
  let '(Build_World g p _ h ps nx b o u c d q a l) := w in
  Build_World g p gt h ps nx b o u c d q a l.
Definition set_heap (h : gmap N ScopeStack) (w : World) : World :=
  let '(Build_World g p gt _ ps nx b o u c d q a l) := w in
  Build_World g p gt h ps nx b o u c d q a l.
Definition set_next_stack (nx : N) (w : World) : World :=
  let '(Build_World g p gt h ps _ b o u c d q a l) := w in
  Build_World g p gt h ps nx b o u c d q a l.
Definition set_binding (b : Binding) (w : World) : World :=
  let '(Build_World g p gt h ps nx _ o u c d q a l) := w in
  Build_World g p gt h ps nx b o u c d q a l.
Definition set_uuids (u : nat) (w : World) : World :=
  let '(Build_World g p gt h ps nx b o _ c d q a l) := w in
  Build_World g p gt h ps nx b o u c d q a l.
Definition set_clock (c : nat) (w : World) : World :=
  let '(Build_World g p gt h ps nx b o u _ d q a l) := w in
  Build_World g p gt h ps nx b o u c d q a l.
Definition set_queue (q : list Delivery) (w : World) : World :=
  let '(Build_World g p gt h ps nx b o u c d _ a l) := w in
  Build_World g p gt h ps nx b o u c d q a l.
Definition set_agents (a : gmap uuid N) (w : World) : World :=
  let '(Build_World g p gt h ps nx b o u c d q _ l) := w in
  Build_World g p gt h ps nx b o u c d q a l.

Definition set_llm (l : LlmWorld) (w : World) : World :=
  let '(Build_World g p gt h ps nx b o u c d q a _) := w in
  Build_World g p gt h ps nx b o u c d q a l.

(** ** Computations on the world *)

Definition M (X : Type) : Type := World → outcome FlowError X * World.

Definition ret {X} (x : X) : M X := λ w, (Ok x, w).
Definition fail {X} (e : FlowError) : M X := λ w, (Err e, w).
Definition panic {X} : M X := λ w, (Panic, w).

(** [?]: an error or a panic ends the function, keeping what was done. *)
Definition bind {X Y} (m : M X) (k : X → M Y) : M Y := λ w,
  match m w with
  | (Ok x, w) => k x w
  | (Err e, w) => (Err e, w)
  | (Panic, w) => (Panic, w)
  end.

Notation "'let!' x ':=' m 'in' k" := (bind m (λ x, k))
  (at level 10, x pattern, m at level 100, k at level 200) : relay_scope.
Notation "m1 ';!' m2" := (bind m1 (λ _, m2))
  (at level 100, right associativity) : relay_scope.

Open Scope relay_scope.

Definition gets {X} (f : World → X) : M X := λ w, (Ok (f w), w).
Definition modify (f : World → World) : M unit := λ w, (Ok (), f w).
Definition of_result {X} (r : outcome FlowError X) : M X := λ w, (r, w).
Definition of_option {X} (o : option X) : M X :=
  match o with Some x => ret x | None => panic end.

(** [map_err(|error| FlowError::Internal(error.to_string()))] on a poisoned
    lock. *)
Definition poison_error : FlowError :=
  Internal "poisoned lock: another task failed inside".

Definition ensure_runtime_owner : M unit := λ w, (w_owner w, w).

(** ** Locks *)

Definition current_scope_stack_of (b : Binding) : N :=
  match scope_stack_override b with
  | Some stack => stack
  | None => default (thread_scope_stack b) (task_scope_stack b)
  end.

Definition current_scope_stack : M N := gets (λ w, current_scope_stack_of (w_binding w)).

(** The stack behind a handle, whatever its lock says. *)
Definition deref (h : N) : M ScopeStack := λ w,
  match w_heap w !! h with
  | Some s => (Ok s, w)
  | None => (Panic, w)
  end.

(** [handle.read().map_err(..)?]. *)
Definition read_stack (h : N) : M ScopeStack :=
  let! poisoned := gets (λ w, bool_decide (h ∈ w_poisoned w)) in
  if poisoned then fail poison_error else deref h.

(** [handle.read().expect(..)]. *)
Definition read_stack_expect (h : N) : M ScopeStack :=
  let! poisoned := gets (λ w, bool_decide (h ∈ w_poisoned w)) in
  if poisoned then panic else deref h.

Definition write_stack (h : N) (s : ScopeStack) : M unit :=
  modify (λ w, set_heap (<[h := s]> (w_heap w)) w).

(** [Arc::new(RwLock::new(stack))]. *)
Definition alloc_stack (s : ScopeStack) : M N := λ w,
  let h := w_next_stack w in
  (Ok h, set_next_stack (h + 1)%N (set_heap (<[h := s]> (w_heap w)) w)).

Definition read_global : M NemoRelayContextState := λ w,
  if w_global_poisoned w then (Err poison_error, w) else (Ok (w_global w), w).

Section World.
Context `{!Otel}.
Context (now_v7 : nat → uuid) (utc_now : nat → timestamp).
Context (gate_run :
  Callback → list RuntimeRegistrationKind → string → outcome Empty_set (option string)).

Definition fresh_uuid : M uuid := λ w,
  (Ok (now_v7 (w_uuids w)), set_uuids (S (w_uuids w)) w).

Definition now : M timestamp := λ w,
  (Ok (utc_now (w_clock w)), set_clock (S (w_clock w)) w).

(** [timestamp.unwrap_or_else(Utc::now)]. *)
Definition timestamp_or_now (ts : option timestamp) : M timestamp :=
  match ts with
  | Some t => ret t
  | None => now
  end.

Definition enabled (w : World) : RuntimeRegistrationKind → string → bool :=
  runtime_registration_is_enabled gate_run (w_gates w).

(** ** Active stack operations ([scope_stack.rs]) *)

Definition task_scope_top : M ScopeHandle :=
  let! h := current_scope_stack in
  let! s := read_stack_expect h in
  of_option (Stack.top s).

Definition task_scope_push (handle : ScopeHandle) : M unit :=
  let! h := current_scope_stack in
  let! s := read_stack_expect h in
  write_stack h (Stack.push handle s).

Definition task_scope_remove (u : uuid) : M ScopeHandle :=
  let! h := current_scope_stack in
  let! s := read_stack_expect h in
  let '(res, s') := Stack.remove u s in
  write_stack h s' ;! of_result res.

Definition set_thread_active (e : option AnchoredActiveEvent) (b : Binding) : Binding :=
  {| scope_stack_override := scope_stack_override b; task_scope_stack := task_scope_stack b;
     thread_scope_stack := thread_scope_stack b;
     thread_scope_stack_explicit := thread_scope_stack_explicit b;
     active_event := active_event b; active_event_trace := active_event_trace b;
     thread_active := e; thread_active_trace := thread_active_trace b |}.

Definition thread_active_event : M (option AnchoredActiveEvent) :=
  let! b := gets w_binding in
  match thread_active b with
  | None => ret None
  | Some event =>
      let! h := current_scope_stack in
      if negb (ae_scope_stack event =? h)%N then ret None
      else
        let! s := deref h in
        let! top := of_option (Stack.top s) in
        if (anchor_scope_uuid event =? sh_uuid top)%Z then ret (Some event)
        else
          match Stack.find_scope (anchor_scope_uuid event) s with
          | Some _ => ret None
          | None =>
              let event := {| event_uuid := event_uuid event;
                              ae_scope_stack := ae_scope_stack event;
                              anchor_scope_uuid := sh_uuid top |} in
              modify (λ w, set_binding (set_thread_active (Some event) (w_binding w)) w) ;!
              ret (Some event)
          end
  end.

Definition thread_active_event_uuid : M (option uuid) :=
  let! event := thread_active_event in
  ret (event_uuid <$> event).

Definition active_event_uuid : M (option uuid) :=
  let! b := gets w_binding in
  match active_event b with
  | Some event => ret (Some (event_uuid event))
  | None => thread_active_event_uuid
  end.

Definition active_event_trace_context : M (option W3cTraceContext) :=
  let! b := gets w_binding in
  match active_event_trace b with
  | Some context => ret context
  | None =>
      let! event := thread_active_event in
      match event with
      | None => ret None
      | Some _ => gets (λ w, thread_active_trace (w_binding w))
      end
  end.

Definition resolve_parent_uuid (parent : option ScopeHandle) : M (option uuid) :=
  match parent with
  | Some handle => ret (Some (sh_uuid handle))
  | None =>
      let! active := thread_active_event_uuid in
      match active with
      | Some u => ret (Some u)
      | None => let! top := task_scope_top in ret (Some (sh_uuid top))
      end
  end.

(** ** Snapshots of middleware ([shared.rs]) *)

Definition snapshot_event_subscribers (scope_local_subscribers : list Callback) :
    M (list Callback) :=
  let! g := read_global in
  let state := State.registry_snapshot [Subscriber] g in
  gets (λ w, State.collect_event_subscribers (enabled w) scope_local_subscribers state).

Definition snapshot_failure : list (Guardrail SanitizeFn) :=
  [Build_RegistryRecord "event-sanitizer-snapshot-failure" (- 2 ^ 31)%Z SanitizeClear].

(** The registration kind and the field for an event. *)
Definition sanitizer_kind (e : Event) : RuntimeRegistrationKind :=
  match e with
  | Mark _ => MarkSanitizeGuardrail
  | Scope s =>
      match scope_category s with
      | Start => ScopeSanitizeStartGuardrail
      | End => ScopeSanitizeEndGuardrail
      end
  end.

Definition sanitizer_field (e : Event) : Field Callback :=
  match e with
  | Mark _ => F_mark_sanitize_guardrails
  | Scope s =>
      match scope_category s with
      | Start => F_scope_sanitize_start_guardrails
      | End => F_scope_sanitize_end_guardrails
      end
  end.

Definition as_sanitizer (e : Guardrail Callback) : Guardrail SanitizeFn :=
  Build_RegistryRecord (name e) (priority e) (SanitizeCallback (payload e)).

(** Always [Some] in the source; a poisoned lock gives the clearing
    sanitizer. *)
Definition snapshot_event_sanitizers (e : Event) (h : N) : M (list (Guardrail SanitizeFn)) :=
  let! poisoned := gets (λ w, bool_decide (h ∈ w_poisoned w)) in
  if poisoned then ret snapshot_failure
  else
    let! s := deref h in
    let locals := Stack.snapshot_scope_local_registries (field_get (sanitizer_field e)) s in
    λ w,
      if w_global_poisoned w then (Ok snapshot_failure, w)
      else
        let state := State.registry_snapshot [sanitizer_kind e] (w_global w) in
        (Ok (as_sanitizer <$>
           merge_guardrail_entries (enabled w) (field_get (sanitizer_field e) (regs state))
             locals (sanitizer_kind e)), w).

Definition snapshot_event_metadata_injectors (h : N) : M (list MetadataInjector) :=
  let! poisoned := gets (λ w, bool_decide (h ∈ w_poisoned w)) in
  if poisoned then ret []
  else
    let! s := deref h in
    let locals := Stack.snapshot_scope_local_registries event_metadata_injectors s in
    λ w,
      if w_global_poisoned w then (Ok [], w)
      else
        let state := State.registry_snapshot [EventMetadataInjector] (w_global w) in
        (Ok (merge_event_metadata_injector_entries (enabled w)
               (event_metadata_injectors (regs state)) locals), w).

(** ** Publishing ([subscriber_dispatcher.rs]) *)

(** [snapshot_scope_stack] reads through a poisoned lock. *)
Definition snapshot_scope_stack (h : N) : M N :=
  let! s := deref h in
  alloc_stack (Stack.snapshot s).

Definition set_event_w3c_context (e : Event) (h : N) : M Event :=
  let! active := active_event_uuid in
  let! active_context :=
    (if decide (parent_uuid (base e) = active) then active_event_trace_context
     else ret None) in
  let! headers :=
    match active_context with
    | Some c => ret (Some (w3c_traceparent c), w3c_tracestate c)
    | None =>
        let! s := deref h in
        of_option (Stack.event_w3c_headers s (parent_uuid (base e)))
    end in
  let '(traceparent, tracestate) := headers in
  ret (set_base (set_propagation (propagation_root_uuid (base e))
        (propagation_parent_uuid (base e)) traceparent tracestate (base e)) e).

(** [enqueue_dispatch_message] for a delivery: the queue is the nested buffer
    of a dispatcher callback or the dispatcher's channel. *)
Definition enqueue (d : Delivery) : M bool := λ w,
  if w_dispatcher_ok w then (Ok true, set_queue (w_queue w ++ [d]) w) else (Ok false, w).

(** The common part of the dispatch functions, after the check for
    subscribers. *)
Definition prepare_and_enqueue (e : Event) (transform : option Transform)
    (sanitizers : list (Guardrail SanitizeFn)) (subscribers : list Callback) (h : N)
    (tracked : bool) : M bool :=
  let! h := snapshot_scope_stack h in
  let! s := deref h in
  let! root := of_option (Stack.event_propagation_root_uuid s) in
  let e := set_base (set_propagation root (Stack.event_propagation_parent_uuid s)
    (propagation_traceparent (base e)) (propagation_tracestate (base e)) (base e)) e in
  let! e := set_event_w3c_context e h in
  let! injectors := snapshot_event_metadata_injectors h in
  enqueue {|
    d_event := e; d_transform := transform; d_injectors := injectors;
    d_sanitizers := sanitizers; d_subscribers := subscribers; d_scope_stack := h;
    d_tracked := tracked;
  |}.

Definition dispatch_sanitized_event (e : Event) (sanitizers : list (Guardrail SanitizeFn))
    (subscribers : list Callback) (h : N) : M bool :=
  match subscribers with
  | [] => ret true
  | _ => prepare_and_enqueue e None sanitizers subscribers h false
  end.

(** The receipt is an already completed one ([false]) or a pending one. *)
Definition dispatch_sanitized_event_with_delivery (e : Event)
    (sanitizers : list (Guardrail SanitizeFn)) (subscribers : list Callback) (h : N) :
    M bool :=
  match subscribers with
  | [] => ret false
  | _ =>
      let! queued := prepare_and_enqueue e None sanitizers subscribers h true in
      if queued : bool then ret true
      else fail (Internal "failed to queue tracked subscriber delivery")
  end.

(** Not skipped without subscribers: the transform runs either way. *)
Definition dispatch_transformed_event (e : Event) (transform : Transform)
    (sanitizers : list (Guardrail SanitizeFn)) (subscribers : list Callback) (h : N) : M bool :=
  prepare_and_enqueue e (Some transform) sanitizers subscribers h false.

End World.
