(* ===== verification/LlmTransforms.v ===== *)
(** * What LLM events carry ([crates/runtime/src/api/llm.rs])

    The closures that fill in the payload of an LLM start or end event on the
    dispatcher: the request without credentials, sanitized and limited to the
    current user turn; the response, sanitized, with its annotation, its
    estimated cost and its optimization summary.

    - What sanitizer callbacks do is a parameter of the section; codecs are
      [Codec] records.
    - A closure resolves to an event or unwinds.
    - [finish] of the recorder blocks while a record is in flight; that wait is
      the subject of [Optimization], here it has ended. *)

From stdpp Require Import base gmap strings list.
From S2P Require Import Prelude Text Errors Json Float64 LlmTypes Pricing Optimization Summary.
From S2P Require Import Codec Registry Trace Events Registries ScopeStack ContextState Chains World.

(** ** Requests *)

Definition OBSERVABILITY_CREDENTIAL_HEADERS : list string :=
  ["authorization"; "proxy-authorization"; "cookie"; "x-api-key"; "api-key";
   "anthropic-api-key"; "x-goog-api-key"].

Definition is_credential_header (n : string) : bool :=
  existsb (eq_ignore_ascii_case n) OBSERVABILITY_CREDENTIAL_HEADERS.

Definition remove_observability_credential_headers (request : LlmRequest) : LlmRequest := {|
  headers := filter (λ kv, is_credential_header kv.1 = false) (headers request);
  content := content request;
|}.

(** [Iterator::rposition]. *)
Fixpoint rposition {T} (p : T → bool) (items : list T) : option nat :=
  match items with
  | [] => None
  | x :: items =>
      match rposition p items with
      | Some i => Some (S i)
      | None => if p x then Some 0 else None
      end
  end.

Section Turn.
Context {T : Type} (is_user is_instruction : T → bool).

Definition request_turn_projection_needed (items : list T) : bool :=
  match length items with
  | 0 => false
  | S last_index =>
      match rposition is_user items with
      | Some start => existsb (λ item, negb (is_instruction item)) (take start items)
      | None =>
          existsb (λ '(index, item),
            negb (index =? last_index)%nat && negb (is_instruction item))
            (zip (seq 0 (length items)) items)
      end
  end.

(** [retain] with the running index of the closure. *)
Fixpoint retain_last (last_index index : nat) (items : list T) : list T :=
  match items with
  | [] => []
  | item :: items =>
      let rest := retain_last last_index (S index) items in
      if (index =? last_index)%nat || is_instruction item then item :: rest else rest
  end.

Definition retain_current_request_turn (items : list T) : bool * list T :=
  if negb (request_turn_projection_needed items) then (false, items)
  else
    match rposition is_user items with
    | None => (true, retain_last (length items - 1) 0 items)
    | Some start =>
        (true, filter (λ item, is_instruction item = true) (take start items)
               ++ drop start items)
    end.

End Turn.

Definition request_message_role (message : Message) : option string :=
  match message with
  | MUser _ _ => Some "user"
  | MSystem _ _ => Some "system"
  | MDeveloper _ _ => Some "developer"
  | MProviderNative provider kind value =>
      if bool_decide (provider = "openai_responses") && bool_decide (kind = "message")
      then get_str value "role" else None
  | _ => None
  end.

Definition is_user_message (m : Message) : bool :=
  bool_decide (request_message_role m = Some "user").

Definition is_instruction_message (m : Message) : bool :=
  bool_decide (request_message_role m = Some "system")
  || bool_decide (request_message_role m = Some "developer").

Definition limit_annotated_request_history_to_current_user_turn (annotated : AnnotatedLlmRequest) :
    bool * AnnotatedLlmRequest :=
  let '(projected, messages) :=
    retain_current_request_turn is_user_message is_instruction_message (ar_messages annotated) in
  (projected, set_messages messages annotated).

(** A failing codec keeps the full history. *)
Definition project_llm_request_to_current_user_turn (request : LlmRequest)
    (annotated : option AnnotatedLlmRequest) (codec : option LlmCodec) :
    outcome Empty_set (LlmRequest * option AnnotatedLlmRequest) :=
  match annotated with
  | None => Ok (request, None)
  | Some annotation =>
      if negb (request_turn_projection_needed is_user_message is_instruction_message
                 (ar_messages annotation))
      then Ok (request, Some annotation)
      else
        let '(_, projected) :=
          limit_annotated_request_history_to_current_user_turn annotation in
        match codec with
        | None => Ok (request, Some projected)
        | Some codec =>
            match codec_encode codec projected request with
            | Ok encoded => Ok (encoded, Some projected)
            | Err _ => Ok (request, Some annotation)
            | Panic => Panic
            end
        end
  end.

(** [LlmRequest::eq]. *)
Definition request_eqb (a b : LlmRequest) : bool :=
  value_eqb (Object (headers a)) (Object (headers b)) && value_eqb (content a) (content b).

Definition llm_request_event_input (request : LlmRequest) : Json :=
  json_obj [("headers", Object (headers request)); ("content", content request)].

(** ** Recorders by address *)

Definition recorder_state (r : N) (w : World) : AccumulatorState :=
  default default_accumulator (l_recorders (w_llm w) !! r).

Definition set_recorder (r : N) (s : AccumulatorState) (w : World) : World :=
  set_llm {| l_recorders := <[r := s]> (l_recorders (w_llm w));
             l_next_recorder := l_next_recorder (w_llm w);
             l_current_recorder := l_current_recorder (w_llm w);
             l_pricing := l_pricing (w_llm w) |} w.

(** [finalize_optimization_summary] with the active pricing resolver. *)
Definition finalize_summary (handle : LlmHandle) (response : option AnnotatedLlmResponse)
    (w : World) :
    option LlmOptimizationSummary * option AnnotatedLlmResponse * World :=
  let '(finished, s) := finish_waited (recorder_state (lh_recorder handle) w) in
  let pricing := active_pricing_resolver (l_pricing (w_llm w)) in
  let '(summary, response) :=
    summarize (H := resolver_estimator pricing) finished response (lh_model_name handle) in
  (summary, response, set_recorder (lh_recorder handle) s w).

Definition summary_response (summary : LlmOptimizationSummary) : AnnotatedLlmResponse :=
  set_summary (Some summary) default_response.

(** ** Responses *)

Record LlmEndPayload : Type := {
  lp_data : option Json;
  lp_annotated_response : option AnnotatedLlmResponse;
  lp_decode_error : option FlowError;
}.

Definition resolve_llm_end_annotation (pricing : ActiveResolver)
    (annotated_response : option AnnotatedLlmResponse) (codec : option LlmResponseCodec)
    (data : option Json) (attach_estimated_cost : bool) (provider_name : string) :
    outcome Empty_set (option AnnotatedLlmResponse * option FlowError) :=
  match annotated_response with
  | Some annotated =>
      let allowed :=
        match data, codec with
        | Some response, Some codec => allows_estimated_cost codec response
        | _, _ => true
        end in
      Ok (Some (if attach_estimated_cost && allowed
                then attach_estimated_cost_for_provider pricing annotated (Some provider_name)
                else annotated), None)
  | None =>
      match codec, data with
      | Some codec, Some response =>
          match decode_response codec response with
          | Ok decoded =>
              Ok (Some (if attach_estimated_cost && allows_estimated_cost codec response
                        then attach_estimated_cost_for_provider pricing decoded
                               (Some provider_name)
                        else decoded), None)
          | Err error => Ok (None, Some error)
          | Panic => Panic
          end
      | _, _ => Ok (None, None)
      end
  end.

Definition is_null_or_none (data : option Json) : bool :=
  match data with Some v => is_null v | None => true end.

(** The end event's metadata of a manual call: the caller's status, or OK. *)
Definition manual_end_metadata (metadata : option Json) : option Json :=
  match m ← metadata; v ← get m otel_code; as_str v with
  | Some code =>
      if decide (code = "ERROR") then metadata
      else if decide (code = "UNSET") then metadata_with_otel_status metadata "UNSET" None
      else metadata_with_otel_status metadata "OK" None
  | None => metadata_with_otel_status metadata "OK" None
  end.

Section Transforms.
Context (utc_now : nat → timestamp).
Context (run_llm_request : Callback → LlmRequest → LlmSanitizeRequestContext → World →
  outcome FlowError (option LlmRequest) * World).
Context (run_llm_response : Callback → Json → LlmSanitizeResponseContext → World →
  outcome FlowError (option Json) * World).

Definition sanitize_observable_llm_request (request : LlmRequest) (codec : option LlmCodec)
    (entries : list (Guardrail Callback)) (w : World) : option LlmRequest * bool * World :=
  match entries with
  | [] => (Some request, false, w)
  | _ =>
      let '(sanitized, w) :=
        llm_sanitize_snapshot_chain run_llm_request request (for_request_codec codec) entries w in
      let changed :=
        match sanitized with
        | Some sanitized => negb (request_eqb sanitized request)
        | None => false
        end in
      (sanitized, changed, w)
  end.

(** The annotation of the sanitized request. *)
Definition start_annotation (sanitized : option LlmRequest) (changed : bool)
    (annotated : option AnnotatedLlmRequest) (codec : option LlmCodec) (decode_missing : bool) :
    outcome Empty_set (option AnnotatedLlmRequest) :=
  match sanitized with
  | None => Ok None
  | Some sanitized =>
      match codec with
      | Some codec =>
          if changed || (decode_missing && bool_decide (annotated = None))
          then result_ok (codec_decode codec sanitized)
          else Ok annotated
      | None => Ok (if changed then None else annotated)
      end
  end.

(** The closures of [llm_call] and [queue_llm_start_with_subscribers]. *)
Definition llm_start_transform (handle : LlmHandle) (request : LlmRequest)
    (annotated : option AnnotatedLlmRequest) (codec : option LlmCodec)
    (entries : list (Guardrail Callback)) (full_payloads agent_is_fresh decode_missing : bool)
    (event : Event) (w : World) : outcome Empty_set Event * World :=
  let '(sanitized, changed, w) := sanitize_observable_llm_request request codec entries w in
  let resolved :=
    let? annotation := start_annotation sanitized changed annotated codec decode_missing in
    match sanitized with
    | Some request =>
        if negb full_payloads && negb agent_is_fresh then
          let? (request, annotation) :=
            project_llm_request_to_current_user_turn request annotation codec in
          Ok (Some request, annotation)
        else Ok (Some request, annotation)
    | None => Ok (None, annotation)
    end in
  match resolved with
  | Ok (request, annotation) =>
      (Ok (if w_global_poisoned w then event
           else State.build_llm_start_event handle (llm_request_event_input <$> request)
                  annotation), w)
  | Err e => (Err e, w)
  | Panic => (Panic, w)
  end.

Definition build_llm_end_payload (handle : LlmHandle) (response : Json)
    (fallback_data : option Json) (annotated_response : option AnnotatedLlmResponse)
    (codec : option LlmResponseCodec) (entries : list (Guardrail Callback))
    (attach_estimated_cost : bool) (w : World) : outcome Empty_set LlmEndPayload * World :=
  let response_was_null_without_fallback :=
    is_null response && bool_decide (fallback_data = None) in
  let response := if is_null response then default response fallback_data else response in
  let original_response :=
    if negb (bool_decide (length entries = 0)) && bool_decide (is_Some annotated_response)
    then Some response else None in
  let '(sanitized_response, w) :=
    match entries with
    | [] => (Some response, w)
    | _ => llm_sanitize_snapshot_chain run_llm_response response (for_response_codec codec)
             entries w
    end in
  let response_changed :=
    match original_response, sanitized_response with
    | Some original, Some sanitized => negb (value_eqb original sanitized)
    | _, _ => false
    end in
  let data :=
    match sanitized_response with
    | Some response =>
        if response_was_null_without_fallback && is_null response then None else Some response
    | None => None
    end in
  let annotation_omitted := is_null_or_none data in
  match
    (if annotation_omitted then Ok (None, None)
     else resolve_llm_end_annotation (l_pricing (w_llm w))
            (if response_changed then None else annotated_response) codec data
            attach_estimated_cost (lh_name handle))
  with
  | Ok (annotated, decode_error) =>
      let '(summary, annotated, w) := finalize_summary handle annotated w in
      let annotated :=
        match annotated, summary with
        | None, Some summary =>
            if annotation_omitted then None else Some (summary_response summary)
        | _, _ => annotated
        end in
      (Ok {| lp_data := data; lp_annotated_response := annotated;
             lp_decode_error := decode_error |}, w)
  | Err e => (Err e, w)
  | Panic => (Panic, w)
  end.

(** [build_llm_end_event] on the current state; [event] when its lock is
    poisoned. *)
Definition rebuild_llm_end (handle : LlmHandle) (data metadata : option Json)
    (response : option AnnotatedLlmResponse) (ts : option timestamp) (event : Event) (w : World) :
    outcome Empty_set Event * World :=
  if w_global_poisoned w then (Ok event, w)
  else
    let '(t, w) :=
      match ts with
      | Some t => (t, w)
      | None => (utc_now (w_clock w), set_clock (S (w_clock w)) w)
      end in
    (Ok (State.build_llm_end_event t handle data metadata response None ts), w).

(** The closures of [llm_call_end] and [llm_call_end_with_behavior]. *)
Definition llm_end_transform (handle : LlmHandle) (response : Json) (fallback : option Json)
    (annotated : option AnnotatedLlmResponse) (codec : option LlmResponseCodec)
    (entries : list (Guardrail Callback)) (metadata : option Json) (ts : option timestamp)
    (manual : bool) (event : Event) (w : World) : outcome Empty_set Event * World :=
  let '(payload, w) :=
    build_llm_end_payload handle response fallback annotated codec entries true w in
  match payload with
  | Ok payload =>
      let end_metadata :=
        if manual then manual_end_metadata metadata
        else metadata_with_otel_status metadata "OK" None in
      rebuild_llm_end handle (lp_data payload) end_metadata (lp_annotated_response payload) ts
        event w
  | Err e => (Err e, w)
  | Panic => (Panic, w)
  end.

(** The closure of [emit_llm_end_without_output]. *)
Definition llm_failed_end_transform (handle : LlmHandle) (metadata : option Json)
    (codec : option LlmResponseCodec) (entries : list (Guardrail Callback)) (ts : timestamp)
    (event : Event) (w : World) : outcome Empty_set Event * World :=
  let fallback_data := lh_data handle in
  let '(data, w) :=
    match fallback_data with
    | Some data =>
        llm_sanitize_snapshot_chain run_llm_response data (for_response_codec codec) entries w
    | None => (None, w)
    end in
  let annotation_omitted :=
    (bool_decide (is_Some fallback_data) && bool_decide (data = None))
    || match data with Some v => is_null v | None => false end in
  let '(annotated, w) :=
    if annotation_omitted then (None, w)
    else
      let '(summary, _, w) := finalize_summary handle None w in
      (summary_response <$> summary, w) in
  rebuild_llm_end handle data metadata annotated (Some ts) event w.

(** The closure of [ManagedLlmCompletion::drop]. *)
Definition llm_cancelled_end_transform (handle : LlmHandle) (metadata : option Json)
    (codec : option LlmResponseCodec) (entries : option (list (Guardrail Callback)))
    (event : Event) (w : World) : outcome Empty_set Event * World :=
  match lh_data handle, entries with
  | Some data, Some entries =>
      let '(data, w) :=
        llm_sanitize_snapshot_chain run_llm_response data (for_response_codec codec) entries w in
      let '(annotated, w) :=
        if is_null_or_none data then (None, w)
        else
          let '(summary, _, w) := finalize_summary handle None w in
          (summary_response <$> summary, w) in
      rebuild_llm_end handle data metadata annotated None event w
  | _, _ => (Ok event, w)
  end.

End Transforms.

(** ** The current turn *)

Section CurrentTurn.
Context {T : Type} (is_user is_instruction : T → bool).

(** Item [i] is in the current turn: the last user item is at or before it, or
    there is none and it is the last item. *)
Definition in_turn (items : list T) (i : nat) : bool :=
  if existsb is_user items
  then existsb is_user (take (S i) items) && negb (existsb is_user (drop (S i) items))
  else (S i =? length items)%nat.

(** The instructions and the items of the current turn, in order. *)
Definition current_turn (items : list T) : list T :=
  snd <$> filter (λ ix, in_turn items ix.1 || is_instruction ix.2 = true)
    (imap pair items).

Lemma rposition_spec items :
  match rposition is_user items with
  | Some start => ∃ x, items !! start = Some x ∧ is_user x = true
      ∧ existsb is_user (drop (S start) items) = false
  | None => existsb is_user items = false
  end.
Proof.
  induction items as [|x items IH]; [done|]. cbn. destruct (rposition is_user items) as [i|].
  - destruct IH as (y & Hy & Hu & Hd). by exists y.
  - destruct (is_user x) eqn:Hx; [by exists x|]. by rewrite IH.
Qed.

(** Where the current turn starts. *)
Definition turn_start (items : list T) : nat :=
  match rposition is_user items with
  | Some start => start
  | None => (length items - 1)%nat
  end.

#[local] Notation instructions := (filter (λ item, is_instruction item = true)).

Lemma existsb_negb_filter items :
  existsb (λ item, negb (is_instruction item)) items = false → instructions items = items.
Proof.
  induction items as [|x items IH]; [done|]. cbn [existsb]. rewrite filter_cons.
  intros [Hx Hl]%orb_false_iff. apply negb_false_iff in Hx. rewrite decide_True by done.
  by rewrite IH.
Qed.

Lemma retain_last_split (init : list T) x index :
  retain_last is_instruction (index + length init) index (init ++ [x])
  = instructions init ++ [x].
Proof.
  revert index. induction init as [|y init IH]; intros index; cbn [retain_last length app].
  - by rewrite Nat.add_0_r, Nat.eqb_refl.
  - replace (index + S (length init))%nat with (S index + length init)%nat by lia. rewrite IH.
    rewrite (proj2 (Nat.eqb_neq index (S index + length init))) by lia.
    rewrite filter_cons. cbn [orb]. destruct (is_instruction y) eqn:Hy.
    + by rewrite decide_True by done.
    + by rewrite decide_False by done.
Qed.

Lemma needed_last (init : list T) x k :
  existsb (λ '(index, item), negb (index =? k + length init)%nat && negb (is_instruction item))
    (zip (seq k (length (init ++ [x]))) (init ++ [x]))
  = existsb (λ item, negb (is_instruction item)) init.
Proof.
  revert k. induction init as [|y init IH]; intros k; cbn.
  - by rewrite Nat.add_0_r, Nat.eqb_refl.
  - specialize (IH (S k)). replace (k + S (length init))%nat with (S k + length init)%nat by lia.
    rewrite IH. by rewrite (proj2 (Nat.eqb_neq k (S k + length init))) by lia.
Qed.

(** Both branches keep the instructions before the turn and the turn. *)
Lemma retain_split items :
  retain_current_request_turn is_user is_instruction items
  = (existsb (λ item, negb (is_instruction item)) (take (turn_start items) items),
     instructions (take (turn_start items) items) ++ drop (turn_start items) items).
Proof.
  assert (request_turn_projection_needed is_user is_instruction items
    = existsb (λ item, negb (is_instruction item)) (take (turn_start items) items)) as Hn.
  { unfold request_turn_projection_needed, turn_start. destruct (rposition is_user items) as [k|];
      [by destruct items; [rewrite take_nil|]|].
    destruct items as [|x items _] using rev_ind; [done|].
    rewrite length_app, Nat.add_comm. cbn [length Nat.add]. rewrite Nat.sub_succ, Nat.sub_0_r.
    rewrite take_app_length.
    pose proof (needed_last items x 0) as Hz. rewrite length_app, (Nat.add_comm _ (length [x])) in Hz.
    exact Hz. }
  unfold retain_current_request_turn. rewrite Hn.
  destruct (existsb _ (take _ items)) eqn:Hb; cbn [negb].
  - unfold turn_start in *. destruct (rposition is_user items) as [k|]; [done|].
    destruct items as [|x items _] using rev_ind; [done|].
    rewrite length_app, Nat.add_comm. cbn [length Nat.add]. rewrite Nat.sub_succ, Nat.sub_0_r.
    rewrite take_app_length, drop_app_length. f_equal. apply (retain_last_split items x 0).
  - by rewrite existsb_negb_filter, take_drop by done.
Qed.

(** *** The specification by index *)

Lemma in_turn_start items i :
  (i < length items)%nat → in_turn items i = bool_decide (turn_start items ≤ i)%nat.
Proof.
  intros Hi. pose proof (rposition_spec items) as Hs. unfold in_turn, turn_start.
  destruct (rposition is_user items) as [start|].
  - destruct Hs as (x & Hx & Hu & Hd).
    rewrite <-(take_drop_middle items start x Hx) at 1. rewrite existsb_app. cbn [existsb].
    rewrite Hu, orb_true_r. case_bool_decide as Hle.
    + assert (existsb is_user (take (S i) items) = true) as ->.
      { apply existsb_exists. exists x. split; [|done]. apply list_elem_of_In.
        apply (list_elem_of_lookup_2 _ start). by rewrite lookup_take_lt by lia. }
      rewrite <-(take_drop (i - start) (drop (S start) items)), existsb_app, drop_drop in Hd.
      apply orb_false_iff in Hd as [_ Hd].
      replace (S start + (i - start))%nat with (S i) in Hd by lia. by rewrite Hd.
    + assert (existsb is_user (drop (S i) items) = true) as ->; [|by rewrite andb_false_r].
      apply existsb_exists. exists x. split; [|done]. apply list_elem_of_In.
      apply (list_elem_of_lookup_2 _ (start - S i)). rewrite lookup_drop.
      by replace (S i + (start - S i))%nat with start by lia.
  - rewrite Hs. case_bool_decide; [apply Nat.eqb_eq|apply Nat.eqb_neq]; lia.
Qed.

Lemma keep_indexed (p : nat → bool) (b : bool) k items :
  (∀ i, i < length items → p (k + i) = b)%nat →
  snd <$> filter (λ ix, p ix.1 || is_instruction ix.2 = true) (imap (λ i x, (k + i, x)%nat) items)
  = if b then items else instructions items.
Proof.
  revert k. induction items as [|x items IH]; intros k Hp; [by destruct b|].
  cbn [imap]. rewrite !filter_cons.
  assert (p (k + 0)%nat = b) as Hx by (apply Hp; cbn; lia).
  assert (imap ((λ (i : nat) (x0 : T), ((k + i)%nat, x0)) ∘ S) items
    = imap (λ i x, (S k + i, x)%nat) items) as ->.
  { apply imap_ext. intros i y _. cbn. f_equal. lia. }
  assert (∀ i, i < length items → p (S k + i) = b)%nat as Hp'.
  { intros i Hi. rewrite <-(Hp (S i)) by (cbn; lia). f_equal. lia. }
  case_decide as Hd; cbn [fst snd] in Hd; rewrite Hx in Hd; [rewrite fmap_cons|];
    rewrite (IH (S k) Hp'); destruct b; cbn [orb] in Hd; try done;
    by case_decide.
Qed.

Lemma current_turn_split items :
  current_turn items
  = instructions (take (turn_start items) items) ++ drop (turn_start items) items.
Proof.
  unfold current_turn. set (k := turn_start items).
  assert (k ≤ length items)%nat as Hk.
  { unfold k, turn_start. pose proof (rposition_spec items) as Hs. destruct (rposition _ _).
    - destruct Hs as (x & Hx & _). apply lookup_lt_Some in Hx. lia.
    - lia. }
  replace (imap pair items) with (imap pair (take k items ++ drop k items))
    by (by rewrite take_drop).
  rewrite imap_app, filter_app, fmap_app. f_equal.
  - apply (keep_indexed (in_turn items) false 0). intros i. rewrite length_take. intros Hi.
    rewrite in_turn_start by lia. apply bool_decide_eq_false. fold k. lia.
  - rewrite length_take, Nat.min_l by done.
    apply (keep_indexed (in_turn items) true k). intros i. rewrite length_drop. intros Hi.
    rewrite in_turn_start by lia. apply bool_decide_eq_true. fold k. lia.
Qed.

(** The projected list starts its turn where its instructions end. *)
Lemma turn_start_projected items :
  items ≠ [] →
  turn_start (current_turn items) = length (instructions (take (turn_start items) items)).
Proof.
  intros Hne. rewrite current_turn_split. set (pre := instructions _).
  pose proof (rposition_spec items) as Hs. unfold turn_start at 1.
  destruct (rposition is_user items) as [k|] eqn:Hr.
  - destruct Hs as (x & Hx & Hu & Hd).
    assert (turn_start items = k) as -> by (unfold turn_start; by rewrite Hr).
    rewrite (drop_S _ _ _ Hx).
    assert (rposition is_user (pre ++ x :: drop (S k) items) = Some (length pre)) as ->; [|done].
    clear -Hu Hd. induction pre as [|y pre IH]; cbn; [|by rewrite IH].
    pose proof (rposition_spec (drop (S k) items)) as Hs.
    destruct (rposition is_user (drop (S k) items)) as [j|]; [|by rewrite Hu].
    destruct Hs as (z & Hz & Huz & _). exfalso. apply not_true_iff_false in Hd. apply Hd.
    apply existsb_exists. exists z. split; [|done].
    by apply list_elem_of_In, (list_elem_of_lookup_2 _ j).
  - assert (turn_start items = length items - 1)%nat as Ht by (unfold turn_start; by rewrite Hr).
    destruct items as [|x items _] using rev_ind; [done|].
    unfold pre in *. rewrite Ht in *. rewrite length_app, Nat.add_sub in *.
    rewrite take_app_length, drop_app_length.
    set (kept := instructions items ++ [x]).
    assert (rposition is_user kept = None) as ->.
    { pose proof (rposition_spec kept) as Hk. destruct (rposition is_user kept) as [j|]; [|done].
      destruct Hk as (z & Hz & Huz & _). exfalso. apply not_true_iff_false in Hs. apply Hs.
      apply existsb_exists. exists z. split; [|done]. apply list_elem_of_In.
      apply (list_elem_of_lookup_2) in Hz. unfold kept in Hz. rewrite elem_of_app in *.
      rewrite list_elem_of_filter in Hz. tauto. }
    unfold kept. rewrite length_app. cbn. lia.
Qed.

Lemma retain_idempotent items :
  retain_current_request_turn is_user is_instruction (current_turn items)
  = (false, current_turn items).
Proof.
  destruct items as [|x items]; [done|]. set (l := x :: items).
  assert (l ≠ []) as Hne by done. rewrite retain_split, (turn_start_projected l Hne).
  rewrite current_turn_split. set (pre := instructions (take _ l)).
  rewrite take_app_length, drop_app_length.
  assert (existsb (λ item, negb (is_instruction item)) pre = false) as Hpre.
  { apply not_true_is_false. intros (y & Hy%list_elem_of_In & Hn)%existsb_exists.
    apply list_elem_of_filter in Hy as [Hy _]. by rewrite Hy in Hn. }
  by rewrite Hpre, existsb_negb_filter by done.
Qed.

End CurrentTurn.

#[local] Notation turn := (current_turn is_user_message is_instruction_message).

Lemma limit_spec annotation :
  let '(projected, out) := limit_annotated_request_history_to_current_user_turn annotation in
  out = set_messages (turn (ar_messages annotation)) annotation
  ∧ projected = request_turn_projection_needed is_user_message is_instruction_message
      (ar_messages annotation)
  ∧ (projected = true ↔ turn (ar_messages annotation) ≠ ar_messages annotation).
Proof.
  unfold limit_annotated_request_history_to_current_user_turn.
  set (ms := ar_messages annotation). set (k := turn_start is_user_message ms).
  assert ((retain_current_request_turn is_user_message is_instruction_message ms).1
    = request_turn_projection_needed is_user_message is_instruction_message ms) as Hn.
  { unfold retain_current_request_turn. destruct (request_turn_projection_needed _ _ _); [|done].
    by destruct (rposition _ _). }
  rewrite retain_split, <-current_turn_split in *. cbn in Hn. rewrite Hn.
  split_and!; [done..|]. rewrite <-Hn, current_turn_split. fold k. split.
  - intros (x & Hx%list_elem_of_In & Hi)%existsb_exists Heq.
    apply (f_equal length) in Heq. rewrite <-(take_drop k ms) in Heq at 3.
    rewrite !length_app in Heq.
    pose proof (length_filter_lt (λ item, is_instruction_message item = true) (take k ms) x Hx)
      as Hlt.
    cbv beta in Hlt. destruct (is_instruction_message x); [done|].
    assert (false ≠ true) as Hf by done. specialize (Hlt Hf). lia.
  - intros Hne. apply not_false_is_true. intros He. apply Hne.
    by rewrite existsb_negb_filter, take_drop by done.
Qed.

(** Events after an agent's first call show the current user turn only. The
    projection keeps exactly the system and developer messages and the messages
    from the last user message on (without one, the last message), in order,
    and nothing else of the annotation changes; it reports a change exactly when
    a message was dropped, and projecting twice changes nothing more. The
    request copy is encoded from the projected annotation; when the codec
    fails, both keep the full history. *)
Theorem current_turn_exact annotation :
  let '(projected, out) := limit_annotated_request_history_to_current_user_turn annotation in
  out = set_messages (current_turn is_user_message is_instruction_message (ar_messages annotation))
          annotation
  ∧ (projected = true ↔ ar_messages out ≠ ar_messages annotation)
  ∧ limit_annotated_request_history_to_current_user_turn out = (false, out)
  ∧ ∀ request codec r a,
      project_llm_request_to_current_user_turn request (Some annotation) codec = Ok (r, a) →
      a = Some out
        ∧ match codec with
          | Some codec => if projected then codec_encode codec out request = Ok r else r = request
          | None => r = request
          end
      ∨ a = Some annotation ∧ r = request
        ∧ ∃ c e, codec = Some c ∧ codec_encode c out request = Err e.
Proof.
  pose proof (limit_spec annotation) as Hspec.
  destruct (limit_annotated_request_history_to_current_user_turn annotation)
    as [projected out] eqn:Hl. destruct Hspec as (-> & Hn & Hp).
  set (out := set_messages _ _).
  split_and!; [done|done| |].
  - unfold limit_annotated_request_history_to_current_user_turn.
    assert (ar_messages out = turn (ar_messages annotation)) as -> by done.
    by rewrite retain_idempotent.
  - intros request codec r a. unfold project_llm_request_to_current_user_turn.
    rewrite <-Hn, Hl. destruct projected; cbn [negb].
    + destruct codec as [c|]; [|intros [= <- <-]; by left].
      fold out. destruct (codec_encode c out request) as [x|e|] eqn:He; [..|done].
      * intros [= <- <-]. by left.
      * intros [= <- <-]. right. split_and!; [done..|]. by exists c, e.
    + intros [= <- <-]. left. split; [|by destruct codec]. f_equal. unfold out.
      rewrite current_turn_split, existsb_negb_filter, take_drop; [by destruct annotation|].
      unfold limit_annotated_request_history_to_current_user_turn in Hl.
      rewrite retain_split in Hl. congruence.
Qed.
