(* ===== verification/LlmPayloads.v ===== *)
(** * What LLM events may show ([LlmTransforms])

    The payload of an end event is what the response sanitizers let through,
    and its annotation is derived from nothing else; the payload of a start
    event does not depend on credential headers. *)

From stdpp Require Import base gmap strings list.
From S2P Require Import Prelude Text Errors Json Float64 LlmTypes Pricing Optimization Summary.
From S2P Require Import Codec Registry Events Registries ScopeStack ContextState Chains World.
From S2P Require Import LlmTransforms.

(** ** Accounting changes nothing else *)

(** Equal but for usage and the optimization summary. *)
Definition same_response (a b : AnnotatedLlmResponse) : Prop :=
  set_usage None (set_summary None a) = set_usage None (set_summary None b).

#[export] Instance same_response_equivalence : Equivalence same_response.
Proof. unfold same_response. split; red; congruence. Qed.

Lemma same_response_usage u a : same_response a (set_usage u a).
Proof. done. Qed.

Lemma same_response_summary s a : same_response a (set_summary s a).
Proof. done. Qed.

#[export] Hint Resolve same_response_usage same_response_summary : relay.

Lemma attach_cost_same pricing a provider :
  same_response a (attach_estimated_cost_for_provider pricing a provider).
Proof.
  unfold attach_estimated_cost_for_provider.
  destruct (rs_usage a ≫= cost); [done|]. destruct (rs_model a), (rs_usage a); done.
Qed.

Lemma infer_total_same e a : same_response a (infer_response_total e a).
Proof. unfold infer_response_total. repeat case_match; done. Qed.

Lemma response_cost_same c a : same_response a (set_response_cost c a).
Proof. unfold set_response_cost. by destruct (rs_usage a). Qed.

Lemma derive_response response tokens_saved totals limitations :
  ∃ e, (derive_optimization_usage response tokens_saved totals limitations).1.2
    = infer_response_total e <$> response.
Proof.
  unfold derive_optimization_usage. destruct (response ≫= rs_usage) as [usage|].
  - destruct (note_missing_core_usage usage _) as [u n]. eexists.
    by destruct (derive_baseline_usage _ _ _ _ _).
  - by eexists.
Qed.

(** A summary is stored on the response and only its accounting changes. *)
Lemma summarize_response `{CostEstimator} finished response model :
  let '(_, response') := summarize finished response model in
  match response, response' with
  | Some a, Some b => same_response a b
  | None, None => True
  | _, _ => False
  end.
Proof.
  unfold summarize. destruct (_ && _); [by destruct response|].
  match goal with |- context [derive_optimization_usage ?r ?t ?c ?l] =>
    destruct (derive_response r t c l) as [e He];
    destruct (derive_optimization_usage r t c l) as [[usage r1] lim] end.
  cbn in He. subst r1. unfold price_optimization_usage.
  match goal with |- context [calculate_estimated_cost_saved ?b ?c ?l] =>
    destruct (calculate_estimated_cost_saved b c l) as [[saved currency] lim'] end.
  destruct response as [a|]; [|done]. cbn [fmap option_fmap option_map].
  etrans; [apply infer_total_same|]. etrans; [apply response_cost_same|].
  apply same_response_summary.
Qed.

Lemma finalize_response handle response w :
  let '(_, response', _) := finalize_summary handle response w in
  match response, response' with
  | Some a, Some b => same_response a b
  | None, None => True
  | _, _ => False
  end.
Proof.
  unfold finalize_summary. destruct (finish_waited _) as [finished s].
  match goal with |- context [@summarize ?h finished response ?m] =>
    pose proof (@summarize_response h finished response m) as Hs;
    destruct (@summarize h finished response m) as [summary response'] end.
  exact Hs.
Qed.

(** ** The payload of an end event *)

Section EndPayload.
Context (run_llm_response : Callback → Json → LlmSanitizeResponseContext → World →
  outcome FlowError (option Json) * World).

(** What the response sanitizers make of a payload. *)
Definition sanitized (codec : option LlmResponseCodec) (entries : list (Guardrail Callback))
    (v : Json) (w : World) : option Json :=
  (llm_sanitize_snapshot_chain run_llm_response v (for_response_codec codec) entries w).1.

(** Where the annotation of an end event may come from: the caller's
    annotation of a payload the sanitizers left alone, the codec's reading of
    the sanitized payload [d], or the accounting alone. *)
Definition annotation_source (annotated : option AnnotatedLlmResponse)
    (codec : option LlmResponseCodec) (unchanged : Prop) (d : Json)
    (a : AnnotatedLlmResponse) : Prop :=
  (∃ a0, annotated = Some a0 ∧ unchanged ∧ same_response a0 a)
  ∨ (∃ c a0, codec = Some c ∧ decode_response c d = Ok a0 ∧ same_response a0 a)
  ∨ same_response default_response a.

Lemma resolve_annotation_source pricing annotated codec d attach n a e :
  resolve_llm_end_annotation pricing annotated codec (Some d) attach n = Ok (Some a, e) →
  annotation_source annotated codec True d a.
Proof.
  unfold resolve_llm_end_annotation. destruct annotated as [a0|].
  - intros [= <- <-]. left. exists a0. split_and!; [done..|].
    destruct (_ && _); [apply attach_cost_same|done].
  - destruct codec as [c|]; [|done]. destruct (decode_response c d) as [a0|err|] eqn:Hd; [|done..].
    intros [= <- <-]. right. left. exists c, a0. split_and!; [done..|].
    destruct (_ && _); [apply attach_cost_same|done].
Qed.

(** C14: an end event shows what the response sanitizers let through and
    nothing else. The data of an end payload is the result of the sanitizer
    chain on the response (or, for a null response, on the fallback data); when
    the chain fails, panics or omits the payload there is neither data nor
    annotation; an annotation is the caller's only if the sanitizers left the
    response unchanged, and otherwise the codec's reading of the sanitized data
    or the bare accounting of the call. *)
Theorem end_payload_fail_closed handle response fallback annotated codec entries attach w :
  let input := if is_null response then default response fallback else response in
  let published := sanitized codec entries input w in
  match build_llm_end_payload run_llm_response handle response fallback annotated codec entries
          attach w with
  | (Ok p, _) =>
      (published = None → lp_data p = None)
      ∧ (∀ d, lp_data p = Some d → published = Some d)
      ∧ (∀ d, published = Some d → lp_data p = Some d
           ∨ lp_data p = None ∧ response = Null ∧ fallback = None ∧ d = Null)
      ∧ ∀ a, lp_annotated_response p = Some a →
          ∃ d, lp_data p = Some d ∧ d ≠ Null
            ∧ annotation_source annotated codec (entries = [] ∨ value_eqb input d = true) d a
  | (Err _, _) | (Panic, _) => True
  end.
Proof.
  intros input published. unfold build_llm_end_payload. fold input.
  assert (match entries with
    | [] => (Some input, w)
    | _ => llm_sanitize_snapshot_chain run_llm_response input (for_response_codec codec) entries w
    end = llm_sanitize_snapshot_chain run_llm_response input (for_response_codec codec) entries w)
    as -> by (by destruct entries).
  unfold published, sanitized.
  destruct (llm_sanitize_snapshot_chain _ _ _ _ w) as [out w1]. cbn [fst].
  set (omit := is_null response && bool_decide (fallback = None)).
  set (data := match out with Some d => if omit && is_null d then None else Some d
               | None => None end).
  set (changed := match _, out with Some o, Some d => negb (value_eqb o d) | _, _ => false end).
  destruct (if is_null_or_none data then Ok (None, None) else _) as [[ann err]|e|] eqn:Hres;
    [|done|done].
  pose proof (finalize_response handle ann w1) as Hfin.
  destruct (finalize_summary handle ann w1) as [[summary ann'] w2]. cbn [lp_data
    lp_annotated_response].
  split_and!.
  - by intros ->.
  - unfold data. intros d. destruct out as [d'|]; [|done]. destruct (omit && is_null d'); [done|].
    by intros [= ->].
  - unfold data, omit. intros d ->. destruct (is_null response) eqn:Hn; cbn; [|by left].
    case_bool_decide as Hf; cbn; [|by left]. destruct (is_null d) eqn:Hd; [|by left].
    right. destruct response, d; done.
  - intros a Ha.
    assert (is_null_or_none data = false) as Hnn.
    { destruct (is_null_or_none data); [|done]. injection Hres as <- <-.
      destruct ann'; [done|]. by destruct summary. }
    rewrite Hnn in Hres. destruct data as [d|] eqn:Hdata; [|done]. exists d. split; [done|].
    split; [by destruct d|].
    assert (out = Some d) as ->.
    { unfold data in Hdata. destruct out as [d'|]; [|done].
      destruct (omit && is_null d'); congruence. }
    destruct ann as [a0|], ann' as [a1|]; try done.
    + injection Ha as <-. apply resolve_annotation_source in Hres as [(x & Hx & _ & Hs)|Hs].
      * left. exists x. destruct changed eqn:Hch; [done|]. split; [done|]. split; [|by etrans].
        unfold changed in Hch. rewrite Hx in Hch.
        destruct entries; [by left|right]. cbn in Hch. by apply negb_false_iff in Hch.
      * destruct Hs as [(c & x & Hc & Hd & Hs)|Hs]; right; [left|right].
        -- exists c, x. split_and!; [done..|by etrans].
        -- by etrans.
    + destruct summary as [summary|]; [|done]. rewrite Hnn in Ha. injection Ha as <-. by do 2 right.
Qed.

End EndPayload.
