(* ===== verification/WorldFacts.v ===== *)
(** * Facts about the shared world

    What the helper computations of [World] leave alone ([frame]) and when
    they return ([ready]): the lemmas that the API theorems are proved
    from. *)

From stdpp Require Import base gmap strings list.
From S2P Require Import Prelude Text Errors Json Registry Trace Events Registries.
From S2P Require Import ScopeStack ContextState Chains World.

(** ** Stepping through a computation *)

Lemma bind_ok {X Y} (m : M X) (k : X → M Y) w x w' :
  m w = (Ok x, w') → bind m k w = k x w'.
Proof. intros Hm. unfold bind. by rewrite Hm. Qed.

Lemma bind_err {X Y} (m : M X) (k : X → M Y) w e w' :
  m w = (Err e, w') → bind m k w = (Err e, w').
Proof. intros Hm. unfold bind. by rewrite Hm. Qed.

Lemma bind_gets {X Y} (f : World → X) (k : X → M Y) w : bind (gets f) k w = k (f w) w.
Proof. done. Qed.

Lemma bind_ret {X Y} (x : X) (k : X → M Y) w : bind (ret x) k w = k x w.
Proof. done. Qed.

Lemma bind_modify {Y} (f : World → World) (k : unit → M Y) w :
  bind (modify f) k w = k () (f w).
Proof. done. Qed.

(** [mstep H] runs the first computation of a [bind] by [H]. *)
Ltac mstep H := erewrite (bind_ok _ _ _ _ _ H); cbv beta.

(** No stack and no lock lives at an address that is not handed out yet. *)
Definition heap_fresh (w : World) : Prop :=
  ∀ h, (w_next_stack w ≤ h)%N → w_heap w !! h = None ∧ h ∉ w_poisoned w.

Definition current (w : World) : N := current_scope_stack_of (w_binding w).

(** Where [current] looks: the override, the task's stack, the thread's stack. *)
Definition places_of (b : Binding) : option N * option N * N :=
  (scope_stack_override b, task_scope_stack b, thread_scope_stack b).
Definition places (w : World) : option N * option N * N := places_of (w_binding w).

Lemma places_current w w' : places w' = places w → current w' = current w.
Proof. unfold places, places_of, current, current_scope_stack_of. by intros [= -> -> ->]. Qed.

(** [w'] differs from [w] in the queue, in freshly allocated stacks and in the
    re-anchoring of the thread's active event only. *)
Record frame (w w' : World) : Prop := {
  fr_global : w_global w' = w_global w;
  fr_global_poisoned : w_global_poisoned w' = w_global_poisoned w;
  fr_gates : w_gates w' = w_gates w;
  fr_poisoned : w_poisoned w' = w_poisoned w;
  fr_owner : w_owner w' = w_owner w;
  fr_dispatcher : w_dispatcher_ok w' = w_dispatcher_ok w;
  fr_uuids : w_uuids w' = w_uuids w;
  fr_clock : w_clock w' = w_clock w;
  fr_agents : w_agents w' = w_agents w;
  fr_llm : w_llm w' = w_llm w;
  fr_places : places w' = places w;
  fr_heap : ∀ h s, w_heap w !! h = Some s → w_heap w' !! h = Some s;
  fr_next : (w_next_stack w ≤ w_next_stack w')%N;
  fr_fresh : heap_fresh w → heap_fresh w';
}.

Lemma fr_current w w' : frame w w' → current w' = current w.
Proof. intros H. by apply places_current, fr_places. Qed.

#[global] Instance frame_preorder : PreOrder frame.
Proof.
  split; [done|].
  intros w1 w2 w3 [] []. split; try congruence; eauto. lia.
Qed.

(** The current stack is there, well formed and not poisoned. *)
Record ready (w : World) (s : ScopeStack) : Prop := {
  rd_fresh : heap_fresh w;
  rd_stack : w_heap w !! current w = Some s;
  rd_wf : Stack.wf s;
  rd_lock : current w ∉ w_poisoned w;
}.

Lemma ready_frame w w' s : ready w s → frame w w' → ready w' s.
Proof.
  intros [Hf Hs Hwf Hl] Hfr. pose proof (fr_current _ _ Hfr) as Hc. split.
  - by apply (fr_fresh _ _ Hfr).
  - rewrite Hc. by apply (fr_heap _ _ Hfr).
  - done.
  - by rewrite Hc, (fr_poisoned _ _ Hfr).
Qed.

Lemma set_binding_frame b w :
  places_of b = places w → frame w (set_binding b w).
Proof. intros Hb. destruct w. split; cbn in *; auto; lia. Qed.

Lemma set_queue_frame q w : frame w (set_queue q w).
Proof. destruct w. split; cbn in *; auto; lia. Qed.

Lemma alloc_stack_spec s w :
  heap_fresh w →
  ∃ h w', alloc_stack s w = (Ok h, w') ∧ frame w w' ∧ w_queue w' = w_queue w
    ∧ w_heap w' !! h = Some s ∧ w_heap w !! h = None ∧ h ∉ w_poisoned w.
Proof.
  intros Hfresh. unfold alloc_stack. eexists _, _. split; [done|].
  assert (w_heap w !! w_next_stack w = None) as Hnone by (apply Hfresh; lia).
  destruct w as [g p gt hp ps nx b o u c d q a]; cbn in *. split_and!.
  - split; cbn; auto; [|lia|].
    + intros h s' Hh. rewrite lookup_insert_ne; [done|]. intros <-. congruence.
    + unfold heap_fresh in *; cbn in *. intros _ h Hh.
      rewrite lookup_insert_ne by lia. apply Hfresh. lia.
  - done.
  - apply lookup_insert_eq.
  - done.
  - apply Hfresh. cbn. lia.
Qed.

(** ** Reading *)

Lemma top_total s : Stack.wf s → ∃ h, Stack.top s = Some h.
Proof.
  intros [(root & Hr & _) _ _]. unfold Stack.top. destruct (stack s) as [|x l]; [done|].
  destruct (last (x :: l)) as [h|] eqn:Hl; [by eauto|]. by apply last_None in Hl.
Qed.

Lemma root_total s : Stack.wf s → ∃ u, Stack.root_uuid s = Some u.
Proof. intros [(root & Hr & _) _ _]. unfold Stack.root_uuid. rewrite Hr. by eexists. Qed.

Lemma event_root_total s : Stack.wf s → ∃ u, Stack.event_propagation_root_uuid s = Some u.
Proof.
  intros (u & Hu)%root_total. unfold Stack.event_propagation_root_uuid.
  destruct (propagated_root_uuid s); [by eexists|]. destruct (find _ _); [by eexists|].
  destruct (negb _); [|by eexists]. rewrite Hu. by eexists.
Qed.

Lemma w3c_headers_total `{!Otel} s u p :
  Stack.wf s → ∃ hs, Stack.w3c_headers_for_span s u p = Some hs.
Proof.
  intros (top & Ht)%top_total. unfold Stack.w3c_headers_for_span.
  destruct (_ && _ && _); [by eexists|].
  destruct (Stack.local_span_context s p); [by eexists|].
  destruct (_ && _); [|by eexists]. rewrite Ht. by eexists.
Qed.

Lemma event_w3c_total `{!Otel} s p :
  Stack.wf s → ∃ hs, Stack.event_w3c_headers s p = Some hs.
Proof.
  intros Hwf. unfold Stack.event_w3c_headers. destruct p as [p|]; [|by eexists].
  destruct (_ && _); [by eexists|]. destruct (_ && _); [by eexists|].
  by apply w3c_headers_total.
Qed.

Lemma read_stack_ready w s :
  ready w s → read_stack (current w) w = (Ok s, w) ∧ read_stack_expect (current w) w = (Ok s, w)
    ∧ deref (current w) w = (Ok s, w).
Proof.
  intros [_ Hs _ Hl]. unfold read_stack, read_stack_expect, bind, gets, deref.
  rewrite !bool_decide_eq_false_2 by done. by rewrite Hs.
Qed.

Lemma task_scope_top_ready w s top :
  ready w s → Stack.top s = Some top → task_scope_top w = (Ok top, w).
Proof.
  intros Hr Ht. unfold task_scope_top, current_scope_stack, bind, gets.
  destruct (read_stack_ready w s Hr) as (_ & He & _). unfold current in He.
  rewrite He, Ht. done.
Qed.

(** A computation that returns, changes nothing but the anchor and queues
    nothing. *)
Definition quiet {X} (m : M X) (w : World) : Prop :=
  ∃ x w', m w = (Ok x, w') ∧ frame w w' ∧ w_queue w' = w_queue w.

(** [w'] is [w] with another event (or the same) active on the thread. *)
Definition reanchored (w w' : World) : Prop :=
  ∃ e, w' = set_binding (set_thread_active e (w_binding w)) w.

#[global] Instance reanchored_preorder : PreOrder reanchored.
Proof.
  split.
  - intros w. exists (thread_active (w_binding w)). by destruct w as [? ? ? ? ? ? []].
  - intros w1 w2 w3 [e ->] [e' ->]. exists e'. by destruct w1 as [? ? ? ? ? ? []].
Qed.

Lemma reanchored_frame w w' :
  reanchored w w' → frame w w' ∧ w_queue w' = w_queue w
    ∧ active_event (w_binding w') = active_event (w_binding w)
    ∧ thread_active_trace (w_binding w') = thread_active_trace (w_binding w).
Proof.
  intros [e ->]. split_and!; [|by destruct w..].
  apply set_binding_frame. by destruct w as [? ? ? ? ? ? []].
Qed.

Lemma find_scope_None u s : Stack.find_scope u s = None ↔ u ∉ Stack.uuids s.
Proof.
  unfold Stack.find_scope. rewrite Stack.elem_of_uuids. split.
  - intros Hf (h & Hin & <-).
    destruct (Stack.find_is_Some (has_uuid (sh_uuid h)) (stack s) h Hin) as [x Hx];
      [unfold has_uuid; by rewrite Z.eqb_refl|congruence].
  - intros Hn. destruct (find _ _) as [h|] eqn:Hf; [|done].
    apply Stack.find_elem_of in Hf as [Hin Hu%Z.eqb_eq]. destruct Hn. eauto.
Qed.

(** The event a thread works for: its active event, if it was bound on the
    current stack and its anchor is on top or closed. *)
Definition observed_event (w : World) (s : ScopeStack) : option uuid :=
  e ← thread_active (w_binding w);
  if bool_decide (ae_scope_stack e = current w)
     && (bool_decide (sh_uuid <$> Stack.top s = Some (anchor_scope_uuid e))
         || bool_decide (anchor_scope_uuid e ∉ Stack.uuids s))
  then Some (event_uuid e) else None.

Lemma thread_active_event_reanchored w s :
  ready w s →
  ∃ e w', thread_active_event w = (Ok e, w') ∧ reanchored w w'
    ∧ event_uuid <$> e = observed_event w s.
Proof.
  intros Hr. unfold thread_active_event, observed_event, current_scope_stack, bind, gets.
  destruct (thread_active (w_binding w)) as [e|] eqn:He; [|by eexists _, _]. cbn.
  fold (current w).
  destruct (N.eqb_spec (ae_scope_stack e) (current w)) as [Hst|Hst]; cbn;
    [rewrite bool_decide_eq_true_2 by done|].
  2: { rewrite bool_decide_eq_false_2 by done. by eexists _, _. }
  destruct (read_stack_ready w s Hr) as (_ & _ & Hd). rewrite Hd.
  destruct (top_total s (rd_wf w s Hr)) as [top Ht]. rewrite Ht. cbn.
  destruct (Z.eqb_spec (anchor_scope_uuid e) (sh_uuid top)) as [Ha|Ha].
  { rewrite bool_decide_eq_true_2 by congruence. by eexists _, _. }
  rewrite (bool_decide_eq_false_2 (Some _ = _)) by congruence. cbn.
  destruct (Stack.find_scope (anchor_scope_uuid e) s) as [h|] eqn:Hf; cbn.
  - rewrite bool_decide_eq_false_2; [by eexists _, _|].
    rewrite <-find_scope_None. congruence.
  - rewrite bool_decide_eq_true_2 by (by apply find_scope_None).
    eexists _, _. split_and!; [done|by eexists|done].
Qed.

Lemma active_event_uuid_reanchored w s :
  ready w s → ∃ u w', active_event_uuid w = (Ok u, w') ∧ reanchored w w'.
Proof.
  intros Hr. unfold active_event_uuid, bind at 1, gets.
  destruct (active_event (w_binding w)); [by eexists _, _|].
  destruct (thread_active_event_reanchored w s Hr) as (e & w' & He & Ha & _).
  unfold thread_active_event_uuid, bind. rewrite He. by eexists _, _.
Qed.

Lemma active_event_trace_reanchored w s :
  ready w s → ∃ c w', active_event_trace_context w = (Ok c, w') ∧ reanchored w w'.
Proof.
  intros Hr. unfold active_event_trace_context, bind, gets.
  destruct (active_event_trace (w_binding w)); [by eexists _, _|].
  destruct (thread_active_event_reanchored w s Hr) as (e & w' & He & Ha & _). rewrite He.
  destruct e; by eexists _, _.
Qed.

Lemma reanchored_quiet {X} (m : M X) w :
  (∃ x w', m w = (Ok x, w') ∧ reanchored w w') → quiet m w.
Proof.
  intros (x & w' & Hm & (Hf & Hq & _)%reanchored_frame). by eexists _, _.
Qed.

Lemma active_event_uuid_quiet w s : ready w s → quiet active_event_uuid w.
Proof. intros Hr. apply reanchored_quiet. by apply (active_event_uuid_reanchored w s). Qed.

Lemma active_event_trace_quiet w s : ready w s → quiet active_event_trace_context w.
Proof. intros Hr. apply reanchored_quiet. by apply (active_event_trace_reanchored w s). Qed.

(** The parent of what is emitted in [w]: the explicit one, the observed event,
    or the top of the stack. *)
Definition causal_parent (w : World) (s : ScopeStack) (parent : option ScopeHandle) :
    option uuid :=
  match parent, observed_event w s with
  | Some h, _ => Some (sh_uuid h)
  | None, Some u => Some u
  | None, None => sh_uuid <$> Stack.top s
  end.

Lemma resolve_parent_quiet w s parent :
  ready w s →
  ∃ w', resolve_parent_uuid parent w = (Ok (causal_parent w s parent), w') ∧ frame w w'
    ∧ w_queue w' = w_queue w.
Proof.
  intros Hr. unfold resolve_parent_uuid, causal_parent. destruct parent as [h|]; [by exists w|].
  destruct (thread_active_event_reanchored w s Hr) as (e & w1 & He & Ha & Hobs).
  destruct (reanchored_frame _ _ Ha) as (Hf & Hq & _).
  assert (thread_active_event_uuid w = (Ok (observed_event w s), w1)) as Hu
    by (unfold thread_active_event_uuid; mstep He; by rewrite <-Hobs).
  mstep Hu. destruct (observed_event w s) as [u|]; [by eexists|].
  destruct (top_total s (rd_wf w s Hr)) as [top Ht].
  mstep (task_scope_top_ready w1 s top (ready_frame _ _ _ Hr Hf) Ht). rewrite Ht. by eexists.
Qed.

(** ** Publishing *)

Section Publishing.
Context `{!Otel}.
Context (gate_run :
  Callback → list RuntimeRegistrationKind → string → outcome Empty_set (option string)).

Lemma set_event_w3c_quiet w s e h st :
  ready w s → w_heap w !! h = Some st → Stack.wf st →
  ∃ e' w', set_event_w3c_context e h w = (Ok e', w') ∧ frame w w' ∧ w_queue w' = w_queue w
    ∧ ∃ tp ts, e' = set_base (set_propagation (propagation_root_uuid (base e))
        (propagation_parent_uuid (base e)) tp ts (base e)) e.
Proof.
  intros Hr Hh Hwf. unfold set_event_w3c_context.
  destruct (active_event_uuid_quiet w s Hr) as (a & w1 & Ha & Hf1 & Hq1).
  unfold bind at 1. rewrite Ha.
  assert (quiet (if decide (parent_uuid (base e) = a) then active_event_trace_context
    else ret None) w1) as (c & w2 & Hc & Hf2 & Hq2).
  { case_decide; [by apply (active_event_trace_quiet w1 s), (ready_frame w w1)|by eexists _, _]. }
  unfold bind at 1. rewrite Hc.
  assert (frame w w2) as Hf by (by etrans).
  destruct c as [c|].
  - cbn. eexists _, _. split; [done|]. split; [done|]. split; [congruence|]. by eexists _, _.
  - assert (w_heap w2 !! h = Some st) as Hh2 by (by apply (fr_heap w w2)).
    destruct (event_w3c_total st (parent_uuid (base e)) Hwf) as [[tp ts] Hhs].
    unfold bind, deref. rewrite Hh2, Hhs. cbn.
    eexists _, _. split; [done|]. split; [done|]. split; [congruence|]. by eexists _, _.
Qed.

Lemma injectors_quiet w h st :
  w_heap w !! h = Some st →
  ∃ l, snapshot_event_metadata_injectors gate_run h w = (Ok l, w).
Proof.
  intros Hh. unfold snapshot_event_metadata_injectors, bind, gets, deref.
  case_bool_decide; [by eexists|]. rewrite Hh. cbn.
  destruct (w_global_poisoned w); by eexists.
Qed.

(** [e'] is [e] with propagation fields filled in. *)
Definition same_event (e e' : Event) : Prop :=
  ∃ root parent tp ts, e' = set_base (set_propagation root parent tp ts (base e)) e.

Lemma prepare_and_enqueue_spec w s e transform sanitizers subscribers h st tracked :
  ready w s → w_heap w !! h = Some st → Stack.wf st →
  ∃ e' injectors h' w',
    prepare_and_enqueue gate_run e transform sanitizers subscribers h tracked w
    = (Ok (w_dispatcher_ok w), w')
    ∧ frame w w' ∧ same_event e e' ∧ w_heap w' !! h' = Some (Stack.snapshot st)
    ∧ w_queue w' = w_queue w ++
        (if w_dispatcher_ok w
         then [{| d_event := e'; d_transform := transform; d_injectors := injectors;
                  d_sanitizers := sanitizers; d_subscribers := subscribers;
                  d_scope_stack := h'; d_tracked := tracked |}]
         else []).
Proof.
  intros Hr Hh Hwf. unfold prepare_and_enqueue.
  destruct (alloc_stack_spec (Stack.snapshot st) w (rd_fresh w s Hr))
    as (h' & w1 & Hal & Hf1 & Hq1 & Hh1 & _).
  unfold bind at 1, snapshot_scope_stack, bind at 1, deref at 1. rewrite Hh, Hal.
  unfold bind at 1, deref at 1. rewrite Hh1.
  assert (Stack.wf (Stack.snapshot st)) as Hwf' by (by destruct st, Hwf).
  destruct (event_root_total _ Hwf') as [root Hroot]. rewrite Hroot. unfold bind at 1, of_option.
  cbn [ret].
  set (e1 := set_base _ e).
  destruct (set_event_w3c_quiet w1 s e1 h' (Stack.snapshot st)
    (ready_frame _ _ _ Hr Hf1) Hh1 Hwf') as (e2 & w2 & He2 & Hf2 & Hq2 & tp & ts & Heq).
  unfold bind at 1. rewrite He2.
  assert (w_heap w2 !! h' = Some (Stack.snapshot st)) as Hh2 by (by apply (fr_heap w1 w2)).
  destruct (injectors_quiet w2 h' _ Hh2) as [l Hl]. unfold bind at 1. rewrite Hl.
  assert (frame w w2) as Hf by (by etrans).
  assert (same_event e e2) as Hsame.
  { rewrite Heq. unfold e1, same_event.
    eexists _, _, _, _. by destruct e as [[[] ? ? ? ?]|[[] ? ?]]. }
  unfold enqueue. rewrite (fr_dispatcher w w2 Hf).
  destruct (w_dispatcher_ok w); eexists e2, l, h', _; (split; [done|]).
  - split; [etrans; [exact Hf|apply set_queue_frame]|]. split; [done|].
    split; [by destruct w2|]. destruct w2; cbn in *. congruence.
  - split_and!; [done..|]. rewrite app_nil_r. congruence.
Qed.

End Publishing.

(** ** What an API call leaves alone *)

(** [w'] comes from [w] by an API call: besides the queue, fresh stacks,
    clocks and the agent table, at most the current stack changed. *)
Record api_frame (w w' : World) : Prop := {
  af_global : w_global w' = w_global w;
  af_global_poisoned : w_global_poisoned w' = w_global_poisoned w;
  af_gates : w_gates w' = w_gates w;
  af_poisoned : w_poisoned w' = w_poisoned w;
  af_owner : w_owner w' = w_owner w;
  af_dispatcher : w_dispatcher_ok w' = w_dispatcher_ok w;
  af_places : places w' = places w;
  af_heap : ∀ h s, h ≠ current w → w_heap w !! h = Some s → w_heap w' !! h = Some s;
}.

Lemma af_current w w' : api_frame w w' → current w' = current w.
Proof. intros H. by apply places_current, af_places. Qed.

#[global] Instance api_frame_preorder : PreOrder api_frame.
Proof.
  split; [done|]. intros w1 w2 w3 H1 H2.
  pose proof (af_current _ _ H1) as Hc. destruct H1, H2. split; try congruence.
  intros h s Hne Hs. rewrite Hc in *. eauto.
Qed.

Lemma frame_api w w' : frame w w' → api_frame w w'.
Proof. intros []. split; eauto. Qed.

Lemma set_uuids_api u w : api_frame w (set_uuids u w).
Proof. by destruct w. Qed.

Lemma set_clock_api c w : api_frame w (set_clock c w).
Proof. by destruct w. Qed.

Lemma set_agents_api a w : api_frame w (set_agents a w).
Proof. by destruct w. Qed.

Lemma set_stack_api s w : api_frame w (set_heap (<[current w := s]> (w_heap w)) w).
Proof.
  destruct w. split; cbn; try done. intros h x Hne Hx. rewrite lookup_insert_ne; done.
Qed.

Lemma ready_set_uuids u w s : ready w s → ready (set_uuids u w) s.
Proof. by destruct w; intros []; split. Qed.

Lemma ready_set_clock c w s : ready w s → ready (set_clock c w) s.
Proof. by destruct w; intros []; split. Qed.

Lemma ready_set_agents a w s : ready w s → ready (set_agents a w) s.
Proof. by destruct w; intros []; split. Qed.

Lemma ready_set_stack s' w s :
  ready w s → Stack.wf s' → ready (set_heap (<[current w := s']> (w_heap w)) w) s'.
Proof.
  intros [Hf Hs _ Hl] Hwf. destruct w as [g p gt hp ps nx b o u c d q a].
  unfold heap_fresh, current in *; cbn in *. split; [| |done|done].
  - unfold heap_fresh; cbn. intros h Hh.
    rewrite lookup_insert_ne; [by apply Hf|]. intros <-.
    rewrite (proj1 (Hf _ Hh)) in Hs. done.
  - unfold current; cbn. apply lookup_insert_eq.
Qed.

#[export] Hint Resolve set_uuids_api set_clock_api set_agents_api set_stack_api frame_api
  ready_set_uuids ready_set_clock ready_set_agents ready_set_stack : relay.

(** ** What gets published *)

(** The middleware in force for an event. *)
Definition sanitizers_in_force (gate_run :
    Callback → list RuntimeRegistrationKind → string → outcome Empty_set (option string))
    (w : World) (e : Event) (s : ScopeStack) : list (Guardrail SanitizeFn) :=
  as_sanitizer <$> merge_guardrail_entries (enabled gate_run w)
    (field_get (sanitizer_field e)
       (regs (State.registry_snapshot [sanitizer_kind e] (w_global w))))
    (Stack.snapshot_scope_local_registries (field_get (sanitizer_field e)) s)
    (sanitizer_kind e).

Definition subscribers_in_force (gate_run :
    Callback → list RuntimeRegistrationKind → string → outcome Empty_set (option string))
    (w : World) (s : ScopeStack) : list Callback :=
  State.collect_event_subscribers (enabled gate_run w)
    (Stack.collect_scope_local_subscribers s)
    (State.registry_snapshot [Subscriber] (w_global w)).

(** [ds] is the publication of [e] to [subscribers]: one delivery, or none
    when nobody listens or the dispatcher is gone. *)
Definition publishes (w : World) (e : Event) (transform : option Transform)
    (sanitizers : list (Guardrail SanitizeFn)) (subscribers : list Callback)
    (visible : ScopeStack) (ds : list Delivery) : Prop :=
  if w_dispatcher_ok w
  then ∃ d, ds = [d] ∧ same_event e (d_event d) ∧ d_transform d = transform
    ∧ d_sanitizers d = sanitizers ∧ d_subscribers d = subscribers
    ∧ w_heap w !! d_scope_stack d = Some visible
  else ds = [].

(** The same for an event without a transform, which nobody may want. *)
Definition publication (w : World) (e : Event) (sanitizers : list (Guardrail SanitizeFn))
    (subscribers : list Callback) (visible : ScopeStack) (ds : list Delivery) : Prop :=
  match subscribers with
  | [] => ds = []
  | _ => publishes w e None sanitizers subscribers visible ds
  end.

Lemma snapshot_idem s : Stack.snapshot (Stack.snapshot s) = Stack.snapshot s.
Proof. done. Qed.

Lemma in_force_api gate_run w w' :
  api_frame w w' →
  sanitizers_in_force gate_run w' = sanitizers_in_force gate_run w
  ∧ subscribers_in_force gate_run w' = subscribers_in_force gate_run w.
Proof.
  intros Hf. unfold sanitizers_in_force, subscribers_in_force, enabled.
  by rewrite (af_global _ _ Hf), (af_gates _ _ Hf).
Qed.

Section InForce.
Context `{!Otel}.
Context (gate_run :
  Callback → list RuntimeRegistrationKind → string → outcome Empty_set (option string)).

Lemma read_global_ok w : w_global_poisoned w = false → read_global w = (Ok (w_global w), w).
Proof. intros Hp. unfold read_global. by rewrite Hp. Qed.

Lemma snapshot_event_subscribers_ok w s :
  w_global_poisoned w = false →
  snapshot_event_subscribers gate_run (Stack.collect_scope_local_subscribers s) w
  = (Ok (subscribers_in_force gate_run w s), w).
Proof.
  intros Hp. unfold snapshot_event_subscribers. by mstep (read_global_ok w Hp).
Qed.

Lemma snapshot_event_sanitizers_ok w s e :
  ready w s → w_global_poisoned w = false →
  snapshot_event_sanitizers gate_run e (current w) w
  = (Ok (sanitizers_in_force gate_run w e s), w).
Proof.
  intros [_ Hs _ Hl] Hp. unfold snapshot_event_sanitizers, bind, gets, deref.
  rewrite bool_decide_eq_false_2 by done. by rewrite Hs, Hp.
Qed.

(** Whether a publication counts as made: nobody listens or it is queued. *)
Definition accepts (w : World) (subscribers : list Callback) : bool :=
  match subscribers with [] => true | _ => w_dispatcher_ok w end.

Lemma dispatch_sanitized_ok w s e sanitizers subscribers h st :
  ready w s → w_heap w !! h = Some st → Stack.wf st →
  ∃ w' ds, dispatch_sanitized_event gate_run e sanitizers subscribers h w
      = (Ok (accepts w subscribers), w')
    ∧ frame w w' ∧ w_queue w' = w_queue w ++ ds
    ∧ publication w' e sanitizers subscribers (Stack.snapshot st) ds.
Proof.
  intros Hr Hh Hwf. unfold dispatch_sanitized_event. destruct subscribers as [|c subs].
  { exists w, []. by rewrite app_nil_r. }
  destruct (prepare_and_enqueue_spec gate_run w s e None sanitizers (c :: subs) h st false
    Hr Hh Hwf) as (e' & inj & h' & w' & Heq & Hf & Hsame & Hh' & Hq).
  eexists w', _. split; [exact Heq|]. split; [done|]. split; [exact Hq|].
  unfold publication, publishes. rewrite (fr_dispatcher _ _ Hf).
  destruct (w_dispatcher_ok w); [|done]. by eexists.
Qed.

End InForce.

(** ** A concrete world for the witnesses: one bound stack, one subscriber *)

Definition demo_now_v7 (n : nat) : uuid := (100 + Z.of_nat n)%Z.

Definition demo_utc_now (n : nat) : timestamp := (1000 + Z.of_nat n)%Z.

(** A gate that never objects. *)
Definition demo_gate_run (cb : Callback) (kinds : list RuntimeRegistrationKind) (n : string) :
    outcome Empty_set (option string) := Ok None.

Definition demo_binding : Binding := {|
  scope_stack_override := None; task_scope_stack := None; thread_scope_stack := 0%N;
  thread_scope_stack_explicit := true; active_event := None; active_event_trace := None;
  thread_active := None; thread_active_trace := None;
|}.

Definition demo_world : World := {|
  w_global := State.set_regs (set_event_subscribers {["sink" := 9%N]} new_registries) State.new;
  w_global_poisoned := false; w_gates := {| gates := ∅; gates_poisoned := false |}; w_heap := {[0%N := demo_stack]};
  w_poisoned := ∅; w_next_stack := 1%N; w_binding := demo_binding; w_owner := Ok ();
  w_uuids := 0; w_clock := 0; w_dispatcher_ok := true; w_queue := []; w_agents := ∅;
  w_llm := new_llm_world;
|}.

Lemma demo_ready : ready demo_world demo_stack.
Proof.
  split.
  - intros h Hh. split; [|apply not_elem_of_empty]. apply lookup_singleton_ne. cbn in Hh. lia.
  - apply lookup_singleton_eq.
  - apply (Stack.reachable_wf (H := plain_otel)), demo_reachable.
  - apply not_elem_of_empty.
Qed.
