(* ===== verification/Context.v ===== *)
(** * The current stack and its propagation
    ([crates/runtime/src/api/runtime/scope_stack.rs], the functions below
    [create_scope_stack])

    Which stack a piece of code works on: the override, the task's stack or
    the thread's; how these are bound, saved and restored; and how the current
    position is captured as a [PropagationContext] for another process.  A
    drop guard runs however the guarded code ends, so the [with_*] functions
    restore after [Ok], [Err] and [Panic] alike. *)

From stdpp Require Import base gmap strings list.
From S2P Require Import Prelude Text Errors Json Registry Trace Events Registries.
From S2P Require Import ScopeStack ContextState Chains World WorldFacts.

(** Run [m] and restore afterwards, whatever its outcome. *)
Definition guarded {X} (restore : World → World) (m : M X) : M X := λ w,
  let '(r, w') := m w in (r, restore w').

(** ** Binding stacks *)

Record ThreadScopeStackBinding : Type := {
  tb_stack : N;
  tb_explicit : bool;
  tb_active_event : option AnchoredActiveEvent;
  tb_trace_context : option W3cTraceContext;
}.

Definition set_thread (stack : N) (explicit : bool) (e : option AnchoredActiveEvent)
    (c : option W3cTraceContext) (w : World) : World :=
  let b := w_binding w in
  set_binding {|
    scope_stack_override := scope_stack_override b; task_scope_stack := task_scope_stack b;
    thread_scope_stack := stack; thread_scope_stack_explicit := explicit;
    active_event := active_event b; active_event_trace := active_event_trace b;
    thread_active := e; thread_active_trace := c |} w.

Definition set_override (o : option N) (w : World) : World :=
  let b := w_binding w in
  set_binding {|
    scope_stack_override := o; task_scope_stack := task_scope_stack b;
    thread_scope_stack := thread_scope_stack b;
    thread_scope_stack_explicit := thread_scope_stack_explicit b;
    active_event := active_event b; active_event_trace := active_event_trace b;
    thread_active := thread_active b; thread_active_trace := thread_active_trace b |} w.

Definition set_task (stack : option N) (e : option AnchoredActiveEvent)
    (c : option (option W3cTraceContext)) (w : World) : World :=
  let b := w_binding w in
  set_binding {|
    scope_stack_override := scope_stack_override b; task_scope_stack := stack;
    thread_scope_stack := thread_scope_stack b;
    thread_scope_stack_explicit := thread_scope_stack_explicit b;
    active_event := e; active_event_trace := c;
    thread_active := thread_active b; thread_active_trace := thread_active_trace b |} w.

(** The binding after [clear_thread_active_event_for_stack_change] and the
    write of the stack. *)
Definition bind_thread (h : N) (explicit : bool) (w : World) : World :=
  let b := w_binding w in
  let stack_changed := negb (thread_scope_stack b =? h)%N in
  set_thread h explicit (if stack_changed then None else thread_active b)
    (if stack_changed then None else thread_active_trace b) w.

Definition set_thread_scope_stack (h : N) : M unit := modify (bind_thread h true).

Definition sync_thread_scope_stack (h : N) : M unit :=
  modify (λ w, bind_thread h (thread_scope_stack_explicit (w_binding w)) w).

Definition capture_thread_scope_stack : M ThreadScopeStackBinding :=
  gets (λ w,
    let b := w_binding w in
    {| tb_stack := thread_scope_stack b; tb_explicit := thread_scope_stack_explicit b;
       tb_active_event := thread_active b; tb_trace_context := thread_active_trace b |}).

Definition restore_thread (t : ThreadScopeStackBinding) : World → World :=
  set_thread (tb_stack t) (tb_explicit t) (tb_active_event t) (tb_trace_context t).

Definition restore_thread_scope_stack (t : ThreadScopeStackBinding) : M unit :=
  modify (restore_thread t).

Definition install_scope_stack_override (h : N) : M (option N) := λ w,
  (Ok (scope_stack_override (w_binding w)), set_override (Some h) w).

Definition with_scope_stack {X} (h : N) (f : M X) : M X :=
  let! previous := install_scope_stack_override h in
  guarded (set_override previous) f.

(** [TASK_SCOPE_STACK.scope(stack, future)]. *)
Definition with_task_scope_stack {X} (h : N) (future : M X) : M X := λ w,
  let b := w_binding w in
  guarded (λ w', let b' := w_binding w' in
      set_task (task_scope_stack b) (active_event b') (active_event_trace b') w') future
    (set_task (Some h) (active_event b) (active_event_trace b) w).

Definition scope_stack_identity_and_anchor : M (N * uuid) :=
  let! h := current_scope_stack in
  let! s := deref h in
  let! top := of_option (Stack.top s) in
  ret (h, sh_uuid top).

Definition with_anchored_active_event {X} (e : AnchoredActiveEvent)
    (c : option W3cTraceContext) (future : M X) : M X := λ w,
  let b := w_binding w in
  guarded (λ w',
      set_task (task_scope_stack (w_binding w')) (active_event b) (active_event_trace b) w')
    future (set_task (task_scope_stack b) (Some e) (Some c) w).

Definition with_active_event_trace_context {X} (u : uuid) (c : option W3cTraceContext)
    (future : M X) : M X :=
  let! (stack, anchor) := scope_stack_identity_and_anchor in
  with_anchored_active_event
    {| event_uuid := u; ae_scope_stack := stack; anchor_scope_uuid := anchor |} c future.

Definition with_active_event_uuid {X} (u : uuid) (future : M X) : M X :=
  with_active_event_trace_context u None future.

Definition set_thread_event (e : option AnchoredActiveEvent) (c : option W3cTraceContext)
    (w : World) : World :=
  let b := w_binding w in
  set_thread (thread_scope_stack b) (thread_scope_stack_explicit b) e c w.

Definition with_thread_active_event_trace_context {X} (u : uuid) (c : option W3cTraceContext)
    (callback : M X) : M X :=
  let! (stack, anchor) := scope_stack_identity_and_anchor in
  let! b := gets w_binding in
  modify (set_thread_event
    (Some {| event_uuid := u; ae_scope_stack := stack; anchor_scope_uuid := anchor |}) c) ;!
  guarded (set_thread_event (thread_active b) (thread_active_trace b)) callback.

Definition capture_anchored_active_event : M (option AnchoredActiveEvent) :=
  let! b := gets w_binding in
  match active_event b with
  | Some e => ret (Some e)
  | None => thread_active_event
  end.

Definition rebind_active_event_to_stack (e : AnchoredActiveEvent) (h : N) :
    M AnchoredActiveEvent :=
  let! s := deref h in
  let! top := of_option (Stack.top s) in
  ret {| event_uuid := event_uuid e; ae_scope_stack := h;
         anchor_scope_uuid :=
           match Stack.find_scope (anchor_scope_uuid e) s with
           | Some _ => anchor_scope_uuid e
           | None => sh_uuid top
           end |}.

Definition rebind_opt (e : option AnchoredActiveEvent) (h : N) : M (option AnchoredActiveEvent) :=
  match e with
  | Some e => let! e := rebind_active_event_to_stack e h in ret (Some e)
  | None => ret None
  end.

Definition install_thread_continuation_context (h : N) (e : option AnchoredActiveEvent)
    (c : option W3cTraceContext) : M ThreadScopeStackBinding :=
  let! previous := capture_thread_scope_stack in
  sync_thread_scope_stack h ;!
  let! e := rebind_opt e h in
  modify (set_thread_event e c) ;!
  ret previous.

Definition sync_thread_active_event_for_stack (h : N) : M unit :=
  let! e := capture_anchored_active_event in
  let! e := rebind_opt e h in
  let! c := match e with Some _ => active_event_trace_context | None => ret None end in
  modify (set_thread_event e c).

Definition explicit_thread_scope_stack : M (option N) :=
  gets (λ w, let b := w_binding w in
    if thread_scope_stack_explicit b then Some (thread_scope_stack b) else None).

Definition current_context_scope_stack : M (option N) :=
  gets (λ w, let b := w_binding w in
    match scope_stack_override b with Some h => Some h | None => task_scope_stack b end).

Definition scope_stack_active : M bool :=
  gets (λ w, let b := w_binding w in
    bool_decide (is_Some (scope_stack_override b))
    || bool_decide (is_Some (task_scope_stack b)) || thread_scope_stack_explicit b).

Definition propagate_scope_to_thread : M N :=
  let! active := scope_stack_active in
  if active : bool then current_scope_stack
  else fail (Internal "no active scope stack in current context; call create_scope_stack() and set_thread_scope_stack() first").

(** ** Creating stacks *)

Definition poisoned_stack_error : FlowError :=
  Internal "scope stack lock poisoned: poisoned lock: another task failed inside".

Definition read_stack_poisoned (h : N) : M ScopeStack :=
  let! poisoned := gets (λ w, bool_decide (h ∈ w_poisoned w)) in
  if poisoned then fail poisoned_stack_error else deref h.

Definition root_scope_stack_snapshot (h : N) : M N :=
  let! s := read_stack_poisoned h in
  let! root_only := of_option (Stack.root_only_snapshot s) in
  alloc_stack root_only.

Definition snapshot_scope_stack_through_scope (h : N) (u : uuid) : M (option N) :=
  let! s := read_stack_poisoned h in
  match Stack.snapshot_through_scope u s with
  | Some s => let! h := alloc_stack s in ret (Some h)
  | None => ret None
  end.

Section Context.
Context `{!Otel}.
Context (now_v7 : nat → uuid) (utc_now : nat → timestamp).

Definition create_scope_stack : M N :=
  let! u := fresh_uuid now_v7 in
  let! t := now utc_now in
  alloc_stack (Stack.new u t).

Definition create_scope_stack_from_propagation (c : PropagationContext) : M N :=
  let! t1 := now utc_now in
  let! t2 := now utc_now in
  let! s := of_result (Stack.from_propagation t1 t2 c) in
  alloc_stack s.

(** ** Capturing the position *)

(** [W3cTraceContext::new] and [span_context]. *)
Definition w3c_trace_context_new (traceparent : string) (tracestate : option string) :
    result W3cTraceContext :=
  match normalize_w3c_headers (Some traceparent) tracestate with
  | (Some tp, ts, _) => Ok {| w3c_traceparent := tp; w3c_tracestate := ts |}
  | (None, _, _) => Err (InvalidArgument "invalid W3C trace context")
  end.

Definition span_context (c : W3cTraceContext) : option SpanContext :=
  w3c_span_context (Some (w3c_traceparent c)) (w3c_tracestate c).

Definition captured_w3c_headers (s : ScopeStack) (active_uuid : option uuid)
    (parent_uuid : uuid) : M (option string * option string) :=
  let! context := active_event_trace_context in
  match context with
  | Some c => ret (Some (w3c_traceparent c), w3c_tracestate c)
  | None =>
      match active_uuid with
      | Some _ =>
          let! top := of_option (Stack.top s) in
          of_option (Stack.w3c_headers_for_span s parent_uuid (sh_uuid top))
      | None => of_option (Stack.event_w3c_headers s (Some parent_uuid))
      end
  end.

Definition captured_imported_w3c_headers (s : ScopeStack) (parent_uuid : uuid) :
    option string * option string :=
  if bool_decide (propagated_parent_uuid s = Some parent_uuid)
  then (propagated_traceparent s, propagated_tracestate s)
  else
    match w3c_span_context (propagated_traceparent s) (propagated_tracestate s) with
    | Some parent => w3c_headers_for_parent parent parent_uuid
    | None => (None, None)
    end.

Definition capture_propagation_context : M PropagationContext :=
  let! active_uuid := active_event_uuid in
  let! parent_uuid :=
    match active_uuid with
    | Some u => ret u
    | None => let! top := task_scope_top in ret (sh_uuid top)
    end in
  let! h := current_scope_stack in
  let! s := read_stack h in
  let! root_uuid := of_option (Stack.event_propagation_root_uuid s) in
  let! (traceparent, tracestate) := captured_w3c_headers s active_uuid parent_uuid in
  let traceparent :=
    match traceparent with
    | Some tp => Some tp
    | None => (λ u, format_traceparent u u) <$> active_uuid
    end in
  let context := {|
    pc_version := Stack.VERSION; pc_root_uuid := root_uuid; pc_parent_uuid := parent_uuid;
    pc_traceparent := traceparent; pc_tracestate := tracestate |} in
  of_result (Stack.validate context) ;!
  ret context.

Definition capture_rootless_propagation_context : M PropagationContext :=
  let! active_uuid := active_event_uuid in
  let! parent_uuid :=
    match active_uuid with
    | Some u => ret u
    | None => let! top := task_scope_top in ret (sh_uuid top)
    end in
  let! h := current_scope_stack in
  let! s := read_stack h in
  let '(traceparent, tracestate) := captured_imported_w3c_headers s parent_uuid in
  let context := {|
    pc_version := Stack.VERSION; pc_root_uuid := None; pc_parent_uuid := parent_uuid;
    pc_traceparent := traceparent; pc_tracestate := tracestate |} in
  of_result (Stack.validate context) ;!
  ret context.

Definition capture_propagation_context_with_root (root_uuid : option uuid) :
    M PropagationContext :=
  match root_uuid with
  | None => capture_rootless_propagation_context
  | Some root =>
      let! c := capture_rootless_propagation_context in
      let context := {|
        pc_version := pc_version c; pc_root_uuid := Some root;
        pc_parent_uuid := pc_parent_uuid c;
        pc_traceparent := pc_traceparent c; pc_tracestate := pc_tracestate c |} in
      of_result (Stack.validate context) ;!
      ret context
  end.

Definition fork_scope_stack : M N :=
  let! context := capture_propagation_context in
  create_scope_stack_from_propagation context.

Definition no_trace_error : FlowError :=
  InvalidArgument "no emitted Relay scope is available for W3C trace context capture".

Definition capture_w3c_trace_context : M W3cTraceContext :=
  let! context := capture_propagation_context in
  match pc_traceparent context with
  | None => fail no_trace_error
  | Some traceparent =>
      match w3c_trace_context_new traceparent (pc_tracestate context) with
      | Ok c => ret c
      | Err _ | Panic => fail no_trace_error
      end
  end.

Definition capture_traceparent : M string :=
  let! c := capture_w3c_trace_context in ret (w3c_traceparent c).

Definition trace_context_for_managed_span (span_uuid : uuid)
    (causal_parent_uuid : option uuid) : M W3cTraceContext :=
  let! h := current_scope_stack in
  let! s := read_stack h in
  let! active := active_event_uuid in
  let! (traceparent, tracestate) :=
    (if decide (causal_parent_uuid = active) then
       let! c := active_event_trace_context in
       match c ≫= span_context with
       | Some context => ret (w3c_headers_for_parent context span_uuid)
       | None =>
           let! top := of_option (Stack.top s) in
           of_option (Stack.w3c_headers_for_span s span_uuid (sh_uuid top))
       end
     else
       match causal_parent_uuid with
       | Some p => of_option (Stack.w3c_headers_for_span s span_uuid p)
       | None => ret (None, None)
       end) in
  of_result (w3c_trace_context_new
    (default (format_traceparent span_uuid span_uuid) traceparent) tracestate).

(** The context of a managed span may be an error, never a panic, and reading
    it at most moves the anchor of the thread's active event. *)
Lemma managed_span_context_total w s u p :
  ready w s →
  ∃ r w', trace_context_for_managed_span u p w = (r, w') ∧ r ≠ Panic ∧ reanchored w w'.
Proof.
  intros Hr. unfold trace_context_for_managed_span, current_scope_stack. rewrite bind_gets.
  fold (current w). mstep (proj1 (read_stack_ready w s Hr)).
  destruct (active_event_uuid_reanchored w s Hr) as (a & w1 & Ha & Hre1). mstep Ha.
  pose proof (ready_frame _ _ _ Hr (proj1 (reanchored_frame _ _ Hre1))) as Hr1.
  assert (∃ hs w2, (if decide (p = a) then
       let! c := active_event_trace_context in
       match c ≫= span_context with
       | Some context => ret (w3c_headers_for_parent context u)
       | None =>
           let! top := of_option (Stack.top s) in
           of_option (Stack.w3c_headers_for_span s u (sh_uuid top))
       end
     else
       match p with
       | Some p => of_option (Stack.w3c_headers_for_span s u p)
       | None => ret (None, None)
       end) w1 = (Ok hs, w2) ∧ reanchored w1 w2) as (hs & w2 & Hhs & Hre2).
  { case_decide.
    - destruct (active_event_trace_reanchored w1 s Hr1) as (c & w2 & Hc & Hre2). mstep Hc.
      destruct (c ≫= span_context); [by eexists _, _|].
      destruct (top_total s (rd_wf _ _ Hr)) as [top Ht]. rewrite Ht. cbn [of_option].
      rewrite bind_ret. destruct (w3c_headers_total s u (sh_uuid top) (rd_wf _ _ Hr)) as [hs Hhs].
      rewrite Hhs. by eexists _, _.
    - destruct p as [p|]; [|by eexists _, _].
      destruct (w3c_headers_total s u p (rd_wf _ _ Hr)) as [hs Hhs]. rewrite Hhs.
      by eexists _, _. }
  mstep Hhs. destruct hs as [tp ts]. eexists _, _. split; [done|]. split; [|by etrans].
  unfold w3c_trace_context_new. by destruct (normalize_w3c_headers _ _) as [[[?|] ?] ?].
Qed.

Lemma identity_and_anchor_ok w s :
  ready w s → ∃ anchor, scope_stack_identity_and_anchor w = (Ok (current w, anchor), w).
Proof.
  intros Hr. unfold scope_stack_identity_and_anchor, current_scope_stack. rewrite bind_gets.
  fold (current w). mstep (proj2 (proj2 (read_stack_ready w s Hr))).
  destruct (top_total s (rd_wf _ _ Hr)) as [top Ht]. rewrite Ht. by eexists.
Qed.

End Context.
