(* ===== verification/Delivery.v ===== *)
(** * Delivering one queued event
    ([crates/runtime/src/api/runtime/subscriber_dispatcher.rs],
    [deliver_event] and what it calls)

    On the dispatcher thread a queued event passes its transform, the metadata
    injectors and the event sanitizers, and then reaches every subscriber.

    - What callbacks do is a parameter of the section.
    - [runtime_ok] tells whether the asynchronous runtime that the stages of
      one event share could be built; it is built once per event.
    - While a stage runs, its publications go to a buffer of their own: the
      queue of the world is that buffer until the stage ends.  Publications of
      other threads in the meantime are the subject of [Flush].
    - [DispatchGuard] marks the thread for the re-entrancy check of flushes
      only. *)

From stdpp Require Import base gmap strings list.
From S2P Require Import Prelude Text Errors Json Float64 LlmTypes Codec Registry Trace Events.
From S2P Require Import Registries ScopeStack ContextState Chains World LlmTransforms WorldFacts.
From S2P Require Import Context.

(** ** Fields of an event *)

Definition set_data (d : option Json) (e : Event) : Event :=
  apply_sanitize_fields
    {| f_data := d; f_profile := category_profile e; f_metadata := metadata (base e) |} e.

Definition set_annotation (a : Json) (p : CategoryProfile) : CategoryProfile := {|
  model_name := model_name p; tool_call_id := tool_call_id p; subtype := subtype p;
  tool_result_annotation := Some a; extra := extra p;
  annotated_request := annotated_request p; annotated_response := annotated_response p;
  time_to_first_chunk := time_to_first_chunk p;
|}.

Definition attach_tool_result_annotation (annotation : option Json) (e : Event) : Event :=
  match annotation with
  | Some a =>
      if is_null a then e
      else
        match category_profile e with
        | Some p => set_category_profile (Some (set_annotation a p)) e
        | None => e
        end
  | None => e
  end.

(** The four [propagation_*] setters, with the values of [e]. *)
Definition keep_propagation (e transformed : Event) : Event :=
  set_base (set_propagation (propagation_root_uuid (base e)) (propagation_parent_uuid (base e))
    (propagation_traceparent (base e)) (propagation_tracestate (base e))
    (base transformed)) transformed.

Definition set_dispatcher_ok (d : bool) (w : World) : World :=
  let '(Build_World g p gt h ps nx b o u c _ q a l) := w in
  Build_World g p gt h ps nx b o u c d q a l.

(** ** Publications of a stage *)

(** A buffer accepts every message until it is taken. *)
Definition run_with_nested_publication_buffer {X}
    (future : World → outcome Empty_set X * World) (w : World) :
    outcome Empty_set X * list Delivery * World :=
  let queue := w_queue w in
  let dispatcher_ok := w_dispatcher_ok w in
  let '(output, w) := future (set_dispatcher_ok true (set_queue [] w)) in
  (output, w_queue w, set_dispatcher_ok dispatcher_ok (set_queue queue w)).

(** A future that resolves without unwinding. *)
Definition resolved {X} (m : World → X * World) (w : World) : outcome Empty_set X * World :=
  let '(x, w) := m w in (Ok x, w).

(** [.ok()] on a [Result]; an unwind goes on. *)
Definition to_option {X} (m : M X) : M (option X) := λ w,
  match m w with
  | (Ok x, w) => (Ok (Some x), w)
  | (Err _, w) => (Ok None, w)
  | (Panic, w) => (Panic, w)
  end.

Section Delivery.
Context `{!Otel}.
Context (utc_now : nat → timestamp).
Context (run_tool : Callback → string → Json → World → outcome FlowError Json * World).
Context (run_llm_request : Callback → LlmRequest → LlmSanitizeRequestContext → World →
  outcome FlowError (option LlmRequest) * World).
Context (run_llm_response : Callback → Json → LlmSanitizeResponseContext → World →
  outcome FlowError (option Json) * World).
Context (run_inject :
  Callback → Event → World → outcome FlowError (list (string * Json)) * World).
Context (run_sanitize : Callback → Event → EventSanitizeFields → World →
  outcome FlowError EventSanitizeFields * World).
Context (run_subscriber : Callback → Event → World → outcome Empty_set unit * World).

Definition run_sanitizer (f : SanitizeFn) (e : Event) (fields : EventSanitizeFields)
    (w : World) : outcome FlowError EventSanitizeFields * World :=
  match f with
  | SanitizeCallback cb => run_sanitize cb e fields w
  | SanitizeClear => (Ok default_fields, w)
  end.

(** ** Transforms: the closures of [tool.rs] and [llm.rs] *)

Definition run_transform (t : Transform) (e : Event) (w : World) :
    outcome Empty_set Event * World :=
  match t with
  | ToolRequestTransform tool_name raw_args entries =>
      let '(sanitized, w) :=
        tool_sanitize_request_snapshot_chain run_tool tool_name raw_args entries w in
      (Ok (set_data sanitized e), w)
  | ToolResponseTransform tool_name result entries fallback annotation =>
      let '(sanitized, w) :=
        tool_sanitize_response_snapshot_chain run_tool tool_name result entries w in
      let data :=
        match sanitized with
        | Some value => if is_null value then fallback else Some value
        | None => None
        end in
      (Ok (attach_tool_result_annotation annotation (set_data data e)), w)
  | CompletionMarkTransform tool_name args result requests responses =>
      let '(args, w) :=
        tool_sanitize_request_snapshot_chain run_tool tool_name args requests w in
      let '(result, w) :=
        match args with
        | Some _ => tool_sanitize_response_snapshot_chain run_tool tool_name result responses w
        | None => (None, w)
        end in
      match data (base e) with
      | Some (Object m) =>
          (Ok (set_data (Some (Object (obj_insert "result" (default Null result)
             (obj_insert "arguments" (default Null args) m)))) e), w)
      | _ => (Ok e, w)
      end
  | LlmStartTransform handle request annotated codec entries full fresh decode_missing =>
      llm_start_transform run_llm_request handle request annotated codec entries full fresh
        decode_missing e w
  | LlmEndTransform handle response fallback annotated codec entries metadata ts manual =>
      llm_end_transform utc_now run_llm_response handle response fallback annotated codec entries
        metadata ts manual e w
  | LlmFailedEndTransform handle metadata codec entries ts =>
      llm_failed_end_transform utc_now run_llm_response handle metadata codec entries ts e w
  | LlmCancelledEndTransform handle metadata codec entries =>
      llm_cancelled_end_transform utc_now run_llm_response handle metadata codec entries e w
  end.

(** ** The stages *)

Definition inject_event_metadata_snapshot (runtime_ok : bool) (e : Event)
    (injectors : list MetadataInjector) (w : World) : Event * list Delivery * World :=
  match injectors with
  | [] => (e, [], w)
  | _ =>
      if runtime_ok then
        let fallback := e in
        let '(injected, nested, w) := run_with_nested_publication_buffer
          (resolved (event_metadata_injection_snapshot_chain run_inject e injectors)) w in
        match injected with
        | Ok e => (e, nested, w)
        | Err _ | Panic => (fallback, nested, w)
        end
      else (e, [], w)
  end.

(** From the setters of the propagation fields on. *)
Definition sanitize_transformed (runtime_ok : bool) (e transformed : Event)
    (nested : list Delivery) (injectors : list MetadataInjector)
    (sanitizers : list (Guardrail SanitizeFn)) (w : World) :
    option Event * list Delivery * World :=
  let transformed := keep_propagation e transformed in
  let '(injected, more, w) :=
    inject_event_metadata_snapshot runtime_ok transformed injectors w in
  let nested := nested ++ more in
  match sanitizers with
  | [] => (Some injected, nested, w)
  | _ =>
      if runtime_ok then
        let fallback := injected in
        let '(sanitized, more, w) := run_with_nested_publication_buffer
          (resolved (event_sanitize_snapshot_chain run_sanitizer injected sanitizers)) w in
        let nested := nested ++ more in
        match sanitized with
        | Ok e => (Some e, nested, w)
        | Err _ | Panic => (Some (apply_sanitize_fields default_fields fallback), nested, w)
        end
      else (Some (apply_sanitize_fields default_fields injected), nested, w)
  end.

Definition sanitize_event_snapshot (runtime_ok : bool) (e : Event)
    (transform : option (Event → World → outcome Empty_set Event * World))
    (injectors : list MetadataInjector) (sanitizers : list (Guardrail SanitizeFn))
    (w : World) : option Event * list Delivery * World :=
  match transform with
  | Some transform =>
      if runtime_ok then
        let '(output, nested, w) := run_with_nested_publication_buffer (transform e) w in
        match output with
        | Ok transformed =>
            sanitize_transformed runtime_ok e transformed nested injectors sanitizers w
        | Err _ | Panic => (None, nested, w)
        end
      else (None, [], w)
  | None => sanitize_transformed runtime_ok e e [] injectors sanitizers w
  end.

(** A panicking subscriber is logged and the next one runs. *)
Fixpoint run_subscribers (e : Event) (subscribers : list Callback) (w : World) : World :=
  match subscribers with
  | [] => w
  | subscriber :: subscribers =>
      let '(_, w) := run_subscriber subscriber e w in
      run_subscribers e subscribers w
  end.

Definition deliver_event (runtime_ok : bool) (d : Delivery) : M (list Delivery) :=
  let! previous_scope_stack := capture_thread_scope_stack in
  set_thread_scope_stack (d_scope_stack d) ;!
  let! (event, nested) := λ w,
    let '(event, nested, w) := sanitize_event_snapshot runtime_ok (d_event d)
      (run_transform <$> d_transform d)
      (d_injectors d) (d_sanitizers d) w in
    (Ok (event, nested), w) in
  match event with
  | Some event =>
      let deliver : M unit := modify (run_subscribers event (d_subscribers d)) in
      if decide (scope_type event = Some Tool) then
        let! trace_context := to_option
          (trace_context_for_managed_span (ev_uuid (base event)) (parent_uuid (base event))) in
        with_thread_active_event_trace_context (ev_uuid (base event)) trace_context deliver
      else deliver
  | None => ret ()
  end ;!
  restore_thread_scope_stack previous_scope_stack ;!
  ret nested.

(** ** Facts *)

Lemma nested_buffer_queue {X} (future : World → outcome Empty_set X * World) w :
  let '(_, _, w') := run_with_nested_publication_buffer future w in w_queue w' = w_queue w.
Proof.
  unfold run_with_nested_publication_buffer. destruct (future _) as [x w']. by destruct w'.
Qed.

(** The world in which a stage runs. *)
Definition buffered (w : World) : World := set_dispatcher_ok true (set_queue [] w).

Lemma inject_snapshot_spec runtime_ok e injectors w :
  let '(e', _, w') := inject_event_metadata_snapshot runtime_ok e injectors w in
  w_queue w' = w_queue w ∧ identity e' = identity e ∧ data (base e') = data (base e)
  ∧ category_profile e' = category_profile e
  ∧ metadata_extends (metadata (base e)) (metadata (base e'))
  ∧ (runtime_ok = false → e' = e).
Proof.
  unfold inject_event_metadata_snapshot, run_with_nested_publication_buffer, resolved.
  destruct injectors as [|i injectors]; [by pose proof (metadata_extends_refl (metadata (base e)))|].
  destruct runtime_ok; [|by pose proof (metadata_extends_refl (metadata (base e)))].
  pose proof (injection_insert_only run_inject e (i :: injectors) (buffered w))
    as (Hi & Hd & Hp & Hm).
  destruct (event_metadata_injection_snapshot_chain run_inject e (i :: injectors) (buffered w))
    as [e' w'] eqn:He.
  unfold buffered in He. rewrite He. split_and!; [by destruct w'|done..].
Qed.

Lemma identity_keep_propagation e t :
  identity (keep_propagation e t) = keep_propagation e (identity t).
Proof. by destruct t as [[[] ? ? ? ?]|[[] ? ?]]. Qed.

(** What the stages after the transform may do to an event. *)
Record governed (runtime_ok : bool) (sanitizers : list (Guardrail SanitizeFn))
    (e t e' injected : Event) (w1 : World) : Prop := {
  gv_identity : identity e' = keep_propagation e (identity t);
  gv_injected : identity injected = identity e';
  gv_data : data (base injected) = data (base t);
  gv_profile : category_profile injected = category_profile t;
  gv_metadata : metadata_extends (metadata (base t)) (metadata (base injected));
  gv_chain : runtime_ok = true →
    e' = (event_sanitize_snapshot_chain run_sanitizer injected sanitizers w1).1;
  gv_closed : sanitizers ≠ [] →
    runtime_ok = false ∨ event_sanitizers_ok run_sanitizer injected sanitizers w1 = false →
    sanitize_fields e' = default_fields;
}.

Lemma sanitize_transformed_spec runtime_ok e t nested injectors sanitizers w :
  let '(out, _, w') :=
    sanitize_transformed runtime_ok e t nested injectors sanitizers w in
  w_queue w' = w_queue w
  ∧ ∃ e' injected w1, out = Some e' ∧ governed runtime_ok sanitizers e t e' injected w1.
Proof.
  unfold sanitize_transformed.
  pose proof (inject_snapshot_spec runtime_ok (keep_propagation e t) injectors w) as Hinj.
  destruct (inject_event_metadata_snapshot _ _ _ w) as [[injected more] w1].
  destruct Hinj as (Hq & Hi & Hd & Hp & Hm & Hsame).
  rewrite identity_keep_propagation in Hi.
  assert (data (base (keep_propagation e t)) = data (base t)
    ∧ category_profile (keep_propagation e t) = category_profile t
    ∧ metadata (base (keep_propagation e t)) = metadata (base t)) as (Hd' & Hp' & Hm')
    by (by destruct t).
  rewrite Hd' in Hd. rewrite Hp' in Hp. rewrite Hm' in Hm.
  destruct sanitizers as [|g sanitizers].
  { split; [done|]. exists injected, injected, w1. split; [done|]. by split. }
  destruct runtime_ok.
  - pose proof (event_sanitize_fail_closed run_sanitizer injected (g :: sanitizers)
      (buffered w1)) as (Hid & Hcl).
    unfold run_with_nested_publication_buffer, resolved.
    destruct (event_sanitize_snapshot_chain run_sanitizer injected (g :: sanitizers)
      (buffered w1)) as [e' w2] eqn:He.
    unfold buffered in He. rewrite He. cbn in Hid, Hcl.
    split; [by destruct w2|]. exists e', injected, (buffered w1). split; [done|].
    split; [congruence|congruence|done..| |].
    + intros _. unfold buffered. by rewrite He.
    + intros _ [?|?]; [done|]. by apply Hcl.
  - split; [done|]. eexists _, injected, w1. split; [done|].
    split; [by rewrite identity_apply|by rewrite identity_apply|done..|].
    intros _ _. by rewrite sanitize_fields_apply.
Qed.

(** ** Callbacks that leave the thread as they found it *)

(** The binding of the thread is the same and its stack is still healthy. *)
Definition tidy (w w' : World) : Prop :=
  w_binding w' = w_binding w ∧ ((∃ s, ready w s) → ∃ s, ready w' s).

#[local] Instance tidy_preorder : PreOrder tidy.
Proof.
  split; [done|]. intros w1 w2 w3 [Hb1 Hr1] [Hb2 Hr2]. split; [congruence|auto].
Qed.

Lemma buffer_tidy {X} (future : World → outcome Empty_set X * World) w :
  (∀ w, tidy w (future w).2) →
  tidy w (run_with_nested_publication_buffer future w).2.
Proof.
  intros Hf. unfold run_with_nested_publication_buffer. fold (buffered w).
  pose proof (Hf (buffered w)) as [Hb Hr]. destruct (future (buffered w)) as [x w']. cbn in *.
  split.
  - destruct w, w'. done.
  - intros [s Hs]. destruct Hr as [s' Hs'].
    + exists s. by destruct w, Hs.
    + exists s'. by destruct w', Hs'.
Qed.

Definition tidy_callbacks : Prop :=
  (∀ cb n v w, tidy w (run_tool cb n v w).2)
  ∧ (∀ cb v c w, tidy w (run_llm_request cb v c w).2)
  ∧ (∀ cb v c w, tidy w (run_llm_response cb v c w).2)
  ∧ (∀ cb e w, tidy w (run_inject cb e w).2)
  ∧ (∀ cb e fields w, tidy w (run_sanitize cb e fields w).2)
  ∧ (∀ cb e w, tidy w (run_subscriber cb e w).2).

Lemma tidy_clock c w : tidy w (set_clock c w).
Proof. split; [by destruct w|]. intros [s Hs]. exists s. by apply ready_set_clock. Qed.

Lemma tidy_llm l w : tidy w (set_llm l w).
Proof. split; [by destruct w|]. intros [s []]. exists s. by destruct w. Qed.

Lemma rebuild_tidy handle d m r ts e w : tidy w (rebuild_llm_end utc_now handle d m r ts e w).2.
Proof.
  unfold rebuild_llm_end. destruct (w_global_poisoned w); [done|].
  destruct ts; [done|apply tidy_clock].
Qed.

Lemma finalize_tidy handle r w : tidy w (finalize_summary handle r w).2.
Proof.
  unfold finalize_summary. destruct (Optimization.finish_waited _), (Summary.summarize _ _ _).
  apply tidy_llm.
Qed.

Lemma llm_chain_tidy {V C} run (v : V) (c : C) entries w :
  (∀ cb v c w, tidy w (run cb v c w).2) →
  tidy w (llm_sanitize_snapshot_chain run v c entries w).2.
Proof. intros Hrun. by apply (llm_sanitize_loop_preserves tidy). Qed.

Lemma llm_start_tidy handle request annotated codec entries full fresh missing e w :
  (∀ cb v c w, tidy w (run_llm_request cb v c w).2) →
  tidy w (llm_start_transform run_llm_request handle request annotated codec entries full fresh
    missing e w).2.
Proof.
  intros Hrun. unfold llm_start_transform.
  assert (tidy w (sanitize_observable_llm_request run_llm_request request codec entries w).2) as Hs.
  { unfold sanitize_observable_llm_request. destruct entries as [|x l]; [done|].
    pose proof (llm_chain_tidy run_llm_request request (for_request_codec codec) (x :: l) w Hrun).
    by destruct (llm_sanitize_snapshot_chain _ _ _ _ w). }
  destruct (sanitize_observable_llm_request _ _ _ _ w) as [[s c] w1]. cbn in Hs.
  by destruct (outcome_bind _ _) as [[]|[]|].
Qed.

Lemma end_payload_tidy handle response fallback annotated codec entries attach w :
  (∀ cb v c w, tidy w (run_llm_response cb v c w).2) →
  tidy w (build_llm_end_payload run_llm_response handle response fallback annotated codec entries
    attach w).2.
Proof.
  intros Hrun. unfold build_llm_end_payload. set (v := if is_null response then _ else _).
  assert (tidy w (match entries with
    | [] => (Some v, w)
    | _ => llm_sanitize_snapshot_chain run_llm_response v (for_response_codec codec) entries w
    end).2) as Hs.
  { destruct entries as [|x l]; [done|]. by apply llm_chain_tidy. }
  destruct (match entries with [] => _ | _ => _ end) as [s w1]. cbn in Hs.
  destruct (if is_null_or_none _ then _ else _) as [[a err]|[]|]; [|done].
  pose proof (finalize_tidy handle a w1) as Hf.
  destruct (finalize_summary handle a w1) as [[sm r] w2]. by etrans.
Qed.

Lemma run_llm_end_tidy handle response fallback annotated codec entries metadata ts manual e w :
  (∀ cb v c w, tidy w (run_llm_response cb v c w).2) →
  tidy w (llm_end_transform utc_now run_llm_response handle response fallback annotated codec
    entries metadata ts manual e w).2.
Proof.
  intros Hrun. unfold llm_end_transform.
  pose proof (end_payload_tidy handle response fallback annotated codec entries true w Hrun) as Hp.
  destruct (build_llm_end_payload _ _ _ _ _ _ _ _ w) as [[p|[]|] w1]; cbn in *; [|done].
  etrans; [exact Hp|apply rebuild_tidy].
Qed.

(** The summary part of the end events without an output. *)
Lemma summary_tidy (omitted : bool) handle w :
  tidy w (if omitted then (None, w) else
    let '(summary, _, w) := finalize_summary handle None w in
    (summary_response <$> summary, w)).2.
Proof.
  destruct omitted; [done|]. pose proof (finalize_tidy handle None w).
  by destruct (finalize_summary handle None w) as [[]].
Qed.

Lemma llm_failed_tidy handle metadata codec entries ts e w :
  (∀ cb v c w, tidy w (run_llm_response cb v c w).2) →
  tidy w (llm_failed_end_transform utc_now run_llm_response handle metadata codec entries ts e w).2.
Proof.
  intros Hrun. unfold llm_failed_end_transform.
  assert (tidy w (match lh_data handle with
    | Some d => llm_sanitize_snapshot_chain run_llm_response d (for_response_codec codec) entries w
    | None => (None, w)
    end).2) as Hs by (destruct (lh_data handle); [by apply llm_chain_tidy|done]).
  destruct (match lh_data handle with Some _ => _ | None => _ end) as [d w1]. cbn in Hs.
  set (omitted := _ || _). pose proof (summary_tidy omitted handle w1) as Hm.
  destruct (if omitted then _ else _) as [r w2]. etrans; [exact Hs|]. etrans; [exact Hm|].
  apply rebuild_tidy.
Qed.

Lemma llm_cancelled_tidy handle metadata codec entries e w :
  (∀ cb v c w, tidy w (run_llm_response cb v c w).2) →
  tidy w (llm_cancelled_end_transform utc_now run_llm_response handle metadata codec entries e w).2.
Proof.
  intros Hrun. unfold llm_cancelled_end_transform.
  destruct (lh_data handle) as [d|], entries as [l|]; try done.
  pose proof (llm_chain_tidy run_llm_response d (for_response_codec codec) l w Hrun) as Hs.
  destruct (llm_sanitize_snapshot_chain _ _ _ _ w) as [d' w1]. cbn in Hs.
  pose proof (summary_tidy (is_null_or_none d') handle w1) as Hm.
  destruct (if is_null_or_none d' then _ else _) as [r w2]. etrans; [exact Hs|].
  etrans; [exact Hm|]. apply rebuild_tidy.
Qed.

Lemma run_transform_tidy t e w : tidy_callbacks → tidy w (run_transform t e w).2.
Proof.
  intros (Htool & Hreq & Hresp & _). destruct t as [n v l|n v l f a|n a r l1 l2| | | |]; cbn;
    unfold tool_sanitize_request_snapshot_chain, tool_sanitize_response_snapshot_chain.
  - pose proof (tool_sanitize_loop_preserves tidy run_tool n (Some v) l w Htool).
    by destruct (tool_sanitize_loop _ _ _ _ w).
  - pose proof (tool_sanitize_loop_preserves tidy run_tool n (Some v) l w Htool).
    by destruct (tool_sanitize_loop _ _ _ _ w).
  - pose proof (tool_sanitize_loop_preserves tidy run_tool n (Some a) l1 w Htool) as H1.
    destruct (tool_sanitize_loop _ _ _ _ w) as [a' w1]. cbn in H1.
    assert (tidy w (match a' with
      | Some _ => tool_sanitize_loop run_tool n (Some r) l2 w1
      | None => (None, w1)
      end).2) as H2.
    { destruct a'; [|done]. etrans; [exact H1|].
      by apply (tool_sanitize_loop_preserves tidy). }
    destruct (match a' with Some _ => _ | None => _ end) as [r' w2].
    by destruct (data (base e)) as [[]|].
  - by apply llm_start_tidy.
  - by apply run_llm_end_tidy.
  - by apply llm_failed_tidy.
  - by apply llm_cancelled_tidy.
Qed.

(** Runs a buffered stage of the goal; the stage itself is left to prove
    tidy. *)
Ltac buffered_stage w :=
  match goal with |- context [run_with_nested_publication_buffer ?f w] =>
    let Hb := fresh "Hb" in
    assert (tidy w (run_with_nested_publication_buffer f w).2) as Hb;
    [apply buffer_tidy; intros ?w; unfold resolved
    |destruct (run_with_nested_publication_buffer f w) as [[[?|[]|] ?] ?]; cbn in Hb]
  end.

Lemma inject_snapshot_tidy runtime_ok e injectors w :
  tidy_callbacks → tidy w (inject_event_metadata_snapshot runtime_ok e injectors w).2.
Proof.
  intros (_ & _ & _ & Hinj & _). unfold inject_event_metadata_snapshot.
  destruct injectors as [|i l], runtime_ok; try done.
  buffered_stage w; [|done..].
  pose proof (injection_chain_preserves tidy run_inject e (i :: l) w0 Hinj).
  by destruct (event_metadata_injection_snapshot_chain _ _ _ w0).
Qed.

Lemma sanitize_transformed_tidy runtime_ok e t nested injectors sanitizers w :
  tidy_callbacks →
  tidy w (sanitize_transformed runtime_ok e t nested injectors sanitizers w).2.
Proof.
  intros Hc. unfold sanitize_transformed.
  pose proof (inject_snapshot_tidy runtime_ok (keep_propagation e t) injectors w Hc) as H1.
  destruct (inject_event_metadata_snapshot _ _ _ w) as [[x more] w1]. cbn in H1.
  destruct sanitizers as [|g l], runtime_ok; try done. etrans; [exact H1|].
  buffered_stage w1; [|done..]. destruct Hc as (_ & _ & _ & _ & Hsan & _).
  pose proof (event_sanitize_chain_preserves tidy run_sanitizer x (g :: l) w0) as Hs.
  destruct (event_sanitize_snapshot_chain _ _ _ w0). apply Hs.
  intros [cb|] e' f w'; [apply Hsan|done].
Qed.

Lemma sanitize_snapshot_tidy runtime_ok e transform injectors sanitizers w :
  tidy_callbacks →
  tidy w (sanitize_event_snapshot runtime_ok e
    (run_transform <$> transform) injectors sanitizers w).2.
Proof.
  intros Hc. unfold sanitize_event_snapshot.
  destruct transform as [t|]; [|by apply sanitize_transformed_tidy]. cbn.
  destruct runtime_ok; [|done]. buffered_stage w; [| |done].
  - by apply run_transform_tidy.
  - etrans; [exact Hb|by apply sanitize_transformed_tidy].
Qed.

Lemma run_subscribers_tidy e subscribers w :
  tidy_callbacks → tidy w (run_subscribers e subscribers w).
Proof.
  intros (_ & _ & _ & _ & _ & Hsub). revert w. induction subscribers as [|cb l IH]; intros w; cbn; [done|].
  pose proof (Hsub cb e w). destruct (run_subscriber cb e w) as [x w']. by etrans.
Qed.

(** C4: the delivery pipeline fails closed. An event is dropped exactly when
    its transform could not run or unwound. Otherwise the subscribers get an
    event with the identity and the propagation of the emitted one (the
    identity of its transform's answer, if it has a transform); injectors only
    added valid attributes to it; it is the answer of the sanitizer chain; and
    when it has sanitizers and the runtime is missing, or one of them fails,
    its data, profile and metadata are cleared. What the stages publish is
    returned and not put on the queue. *)
Theorem delivery_fail_closed runtime_ok e transform injectors sanitizers w :
  let '(out, nested, w') :=
    sanitize_event_snapshot runtime_ok e transform injectors sanitizers w in
  w_queue w' = w_queue w
  ∧ (out = None ↔ ∃ f, transform = Some f
       ∧ (runtime_ok = false ∨ is_ok (f e (buffered w)).1 = false))
  ∧ ∀ e', out = Some e' →
      ∃ t injected w1,
        match transform with
        | None => t = e
        | Some f => (f e (buffered w)).1 = Ok t
        end
        ∧ governed runtime_ok sanitizers e t e' injected w1.
Proof.
  unfold sanitize_event_snapshot. destruct transform as [f|].
  - destruct runtime_ok; [|by split_and!; [|split; eauto|]].
    unfold run_with_nested_publication_buffer. fold (buffered w).
    destruct (f e (buffered w)) as [[t|[]|] w1] eqn:Hf.
    + set (w2 := set_dispatcher_ok _ _).
      pose proof (sanitize_transformed_spec true e t (w_queue w1) injectors sanitizers w2) as Hs.
      destruct (sanitize_transformed _ _ _ _ _ _ w2) as [[out nested] w'].
      destruct Hs as (Hq & e' & injected & w3 & -> & Hg). split_and!.
      * rewrite Hq. subst w2. by destruct w1.
      * split; [done|]. intros (f' & [= <-] & [?|Hok]); [done|].
        by rewrite Hf in Hok.
      * intros e'' [= <-]. by exists t, injected, w3.
    + split_and!; [by destruct w1| |done]. split; [|done]. intros _. exists f.
      split; [done|]. right. by rewrite Hf.
  - pose proof (sanitize_transformed_spec runtime_ok e e [] injectors sanitizers w) as Hs.
    destruct (sanitize_transformed _ _ _ _ _ _ w) as [[out nested] w'].
    destruct Hs as (Hq & e' & injected & w3 & -> & Hg). split_and!; [done| |].
    + split; [done|]. by intros (? & ? & _).
    + intros e'' [= <-]. by exists e, injected, w3.
Qed.

(** The dispatcher thread: only the thread's own slot names a stack. *)
Definition dispatcher_thread (w : World) : Prop :=
  scope_stack_override (w_binding w) = None ∧ task_scope_stack (w_binding w) = None.

Lemma bind_thread_ready h s w :
  dispatcher_thread w → heap_fresh w → w_heap w !! h = Some s → Stack.wf s →
  h ∉ w_poisoned w → ready (bind_thread h true w) s ∧ current (bind_thread h true w) = h.
Proof.
  intros [Ho Ht] Hf Hs Hwf Hl. destruct w as [g p gt hp ps nx [] o u c d q a]. cbn in *. subst.
  by split; [split|].
Qed.

(** Two bindings that differ in the thread's active event only. *)
Definition same_slots (b b' : Binding) : Prop :=
  b' = {| scope_stack_override := scope_stack_override b;
          task_scope_stack := task_scope_stack b;
          thread_scope_stack := thread_scope_stack b;
          thread_scope_stack_explicit := thread_scope_stack_explicit b;
          active_event := active_event b; active_event_trace := active_event_trace b;
          thread_active := thread_active b'; thread_active_trace := thread_active_trace b' |}.

Lemma set_binding_same w b : w_binding w = b → set_binding b w = w.
Proof. intros <-. by destruct w. Qed.

(** What the subscribers of [event] see: the world of the dispatcher, with a
    tool event bound as the active one. *)
Definition observed_in (event : Event) (b : Binding) : Prop :=
  scope_type event = Some Tool →
  event_uuid <$> thread_active b = Some (ev_uuid (base event)).

Lemma deliver_subscribers_ok event subscribers w s :
  tidy_callbacks → ready w s →
  let deliver : M unit := modify (run_subscribers event subscribers) in
  ∃ b b', (if decide (scope_type event = Some Tool) then
      let! trace_context := to_option
        (trace_context_for_managed_span (ev_uuid (base event)) (parent_uuid (base event))) in
      with_thread_active_event_trace_context (ev_uuid (base event)) trace_context deliver
    else deliver) w
    = (Ok (), set_binding b' (run_subscribers event subscribers (set_binding b w)))
    ∧ same_slots (w_binding w) b ∧ same_slots (w_binding w) b' ∧ observed_in event b.
Proof.
  intros Hc Hr deliver. unfold observed_in. destruct (decide _) as [Htool|Hno].
  - destruct (managed_span_context_total w s (ev_uuid (base event)) (parent_uuid (base event)) Hr)
      as (r & w1 & Hctx & Hnp & [x Hre]).
    assert (∃ c, to_option (trace_context_for_managed_span (ev_uuid (base event))
      (parent_uuid (base event))) w = (Ok c, w1)) as [c Ho].
    { unfold to_option. rewrite Hctx. destruct r; [by eexists..|done]. }
    mstep Ho.
    assert (ready w1 s) as Hr1.
    { apply (ready_frame w); [done|]. by apply reanchored_frame; exists x. }
    destruct (identity_and_anchor_ok w1 s Hr1) as [anchor Ha].
    unfold with_thread_active_event_trace_context. mstep Ha. rewrite bind_gets, bind_modify.
    unfold guarded, deliver, modify.
    set (w2 := set_thread_event _ _ w1).
    destruct (run_subscribers_tidy event subscribers w2 Hc) as [Hb _].
    exists (w_binding w2).
    eexists. split_and!; [f_equal; f_equal|..].
    + unfold set_thread_event, set_thread. rewrite Hb.
      assert (set_binding (w_binding w2) w = w2) as -> by (subst w1 w2; by destruct w as [? ? ? ? ? ? []]).
      reflexivity.
    + subst w1 w2. by destruct w as [? ? ? ? ? ? []].
    + subst w1 w2. by destruct w as [? ? ? ? ? ? []].
    + intros _. subst w1 w2. by destruct w as [? ? ? ? ? ? []].
  - destruct (run_subscribers_tidy event subscribers w Hc) as [Hb _].
    exists (w_binding w), (w_binding w). unfold deliver, modify.
    rewrite (set_binding_same w), (set_binding_same (run_subscribers _ _ _)) by done.
    split_and!; [done|by destruct (w_binding w)..|done].
Qed.

(** Every subscriber is called, in order, each in the world that the one
    before it left - also when that one panicked. *)
Definition all_called (event : Event) (subscribers : list Callback) (w : World) : World :=
  foldl (λ w subscriber, (run_subscriber subscriber event w).2) w subscribers.

Lemma run_subscribers_all event subscribers w :
  run_subscribers event subscribers w = all_called event subscribers w.
Proof.
  revert w. induction subscribers as [|cb l IH]; intros w; [done|]. cbn.
  by destruct (run_subscriber cb event w); cbn; rewrite IH.
Qed.

(** C36: a delivery is isolated. With callbacks that leave the dispatcher
    thread as they found it, delivering a queued event on the dispatcher thread
    returns, whatever the middleware answers and whichever subscribers panic:
    the event that the pipeline lets through is passed to every subscriber, in
    order, the ones after a panicking one included, with the stack it was
    emitted under bound to the thread (and, for a tool event, that tool as the
    active event, so that marks derived from it attach to the tool); afterwards
    the thread is bound as before. *)
Theorem delivery_isolated runtime_ok d w s :
  tidy_callbacks → dispatcher_thread w → heap_fresh w →
  w_heap w !! d_scope_stack d = Some s → Stack.wf s → d_scope_stack d ∉ w_poisoned w →
  ∃ out nested w1 w',
    sanitize_event_snapshot runtime_ok (d_event d)
      (run_transform <$> d_transform d)
      (d_injectors d) (d_sanitizers d) (bind_thread (d_scope_stack d) true w)
    = (out, nested, w1)
    ∧ deliver_event runtime_ok d w = (Ok nested, w')
    ∧ match out with
      | None => w' = set_binding (w_binding w) w1
      | Some event => ∃ b,
          w' = set_binding (w_binding w)
            (all_called event (d_subscribers d) (set_binding b w1))
          ∧ thread_scope_stack b = d_scope_stack d ∧ observed_in event b
      end.
Proof.
  intros Hc Hd Hf Hs Hwf Hl.
  destruct (bind_thread_ready _ s w Hd Hf Hs Hwf Hl) as [Hr _].
  pose proof (sanitize_snapshot_tidy runtime_ok (d_event d) (d_transform d) (d_injectors d)
    (d_sanitizers d) (bind_thread (d_scope_stack d) true w) Hc) as [Hb Hr1].
  unfold deliver_event, capture_thread_scope_stack, set_thread_scope_stack.
  rewrite bind_gets, bind_modify. unfold bind at 1.
  destruct (sanitize_event_snapshot _ _ _ _ _ _) as [[out nested] w1]. cbn in Hb, Hr1.
  destruct Hr1 as [s1 Hr1]; [by eexists|].
  assert (thread_scope_stack (w_binding w1) = d_scope_stack d) as Hst
    by (rewrite Hb; by destruct w).
  assert (∀ b x, same_slots (w_binding w1) b →
    restore_thread {| tb_stack := thread_scope_stack (w_binding w);
      tb_explicit := thread_scope_stack_explicit (w_binding w);
      tb_active_event := thread_active (w_binding w);
      tb_trace_context := thread_active_trace (w_binding w) |} (set_binding b x)
    = set_binding (w_binding w) x) as Hrestore.
  { intros b x ->. rewrite Hb. by destruct w as [? ? ? ? ? ? []], x. }
  destruct out as [event|].
  - destruct (deliver_subscribers_ok event (d_subscribers d) w1 s1 Hc Hr1)
      as (b & b' & Hdel & Hsb & Hsb' & Hobs).
    eexists _, _, _, _. split; [done|]. split.
    { mstep Hdel. unfold restore_thread_scope_stack. rewrite bind_modify.
      by rewrite (Hrestore b' _ Hsb'). }
    exists b. rewrite <-run_subscribers_all. split_and!; [done| |done]. by rewrite Hsb.
  - eexists _, _, _, _. split; [done|]. split; [reflexivity|].
    rewrite <-(Hrestore (w_binding w1) w1), (set_binding_same w1); [done..|].
    by destruct (w_binding w1).
Qed.

End Delivery.

(** ** A concrete delivery *)

Definition demo_tool_event : Event :=
  State.build_tool_start_event
    (State.create_tool_handle 7 1000 "search" (Some 1%Z) 0 None None None None) None.

Definition demo_delivery : Delivery := {|
  d_event := demo_tool_event;
  d_transform := Some (ToolRequestTransform "search" (Str "query") []);
  d_injectors := []; d_sanitizers := []; d_subscribers := [9%N; 9%N];
  d_scope_stack := 0%N; d_tracked := false;
|}.

(** Sanitizers that answer unchanged, no attributes, and a subscriber that
    advances the clock and panics: both registrations of it are called. *)
Lemma delivery_isolated_witness :
  ∃ nested w' b event,
    deliver_event (H := plain_otel) demo_utc_now (λ _ _ v w, (Ok v, w))
      (λ _ v _ w, (Ok (Some v), w)) (λ _ v _ w, (Ok (Some v), w)) (λ _ _ w, (Ok [], w))
      (λ _ _ f w, (Ok f, w)) (λ _ _ w, (Panic, set_clock (S (w_clock w)) w)) true demo_delivery demo_world
    = (Ok nested, w')
    ∧ data (base event) = Some (Str "query") ∧ observed_in event b
    ∧ w_clock w' = S (S (w_clock demo_world)).
Proof.
  destruct (delivery_isolated (H := plain_otel) demo_utc_now (λ _ _ v w, (Ok v, w))
      (λ _ v _ w, (Ok (Some v), w)) (λ _ v _ w, (Ok (Some v), w)) (λ _ _ w, (Ok [], w))
    (λ _ _ f w, (Ok f, w)) (λ _ _ w, (Panic, set_clock (S (w_clock w)) w)) true demo_delivery demo_world demo_stack)
    as (out & nested & w1 & w' & Hout & Hdel & Hw).
  - by repeat (split; [done|]); intros; apply tidy_clock.
  - done.
  - apply demo_ready.
  - apply lookup_singleton_eq.
  - apply demo_ready.
  - apply not_elem_of_empty.
  - vm_compute in Hout. injection Hout as <- <- <-. destruct Hw as (b & Hw & _ & Hobs).
    eexists _, w', b, _. split_and!; [exact Hdel| |exact Hobs|rewrite Hw; reflexivity]. reflexivity.
Defined.
