(* ===== verification/ScopeApi.v ===== *)
(** * The scope API ([crates/runtime/src/api/scope.rs])

    Opening and closing scopes and emitting marks, with the completion-mark
    transform of [crates/runtime/src/api/tool.rs] that [event] uses.  Each
    function resolves its middleware while the scope is active, changes the
    stack and queues the lifecycle event. *)

From stdpp Require Import base gmap strings list.
From S2P Require Import Prelude Text Errors Json Float64 LlmTypes Registry Trace Events Registries.
From S2P Require Import ScopeStack ContextState Chains World WorldFacts.

Definition COMPACTION_EVENT_NAME : string := "compaction".

Definition metadata_with_log_severity (metadata : option Json)
    (severity : option LogSeverity) : result (option Json) :=
  match severity with
  | None => Ok metadata
  | Some severity =>
      match default (Object []) metadata with
      | Object m =>
          Ok (Some (Object
            (obj_insert LOG_SEVERITY_METADATA_KEY (Str (log_severity_as_str severity)) m)))
      | _ =>
          Err (InvalidArgument
            "mark metadata must be a JSON object when severity is provided")
      end
  end.

Record PushScopeParams : Type := {
  ps_name : string;
  ps_scope_type : ScopeType;
  ps_parent : option ScopeHandle;
  ps_attributes : Z;
  ps_data : option Json;
  ps_metadata : option Json;
  ps_input : option Json;
  ps_timestamp : option timestamp;
}.

Record PopScopeParams : Type := {
  pp_handle_uuid : uuid;
  pp_output : option Json;
  pp_metadata : option Json;
  pp_timestamp : option timestamp;
}.

Record EmitMarkEventParams : Type := {
  em_name : string;
  em_parent : option ScopeHandle;
  em_data : option Json;
  em_data_schema : option DataSchema;
  em_metadata : option Json;
  em_severity : option LogSeverity;
  em_category : option EventCategory;
  em_category_profile : option CategoryProfile;
  em_timestamp : option timestamp;
}.

Section ScopeApi.
Context `{!Otel}.
Context (now_v7 : nat → uuid) (utc_now : nat → timestamp).
Context (gate_run :
  Callback → list RuntimeRegistrationKind → string → outcome Empty_set (option string)).

Definition get_handle : M ScopeHandle :=
  ensure_runtime_owner ;! task_scope_top.

(** [AGENT_SCOPES] maps a scope to a [Weak] of its stack. The source also drops
    entries of freed stacks every 64 registrations; stacks are never freed
    here. *)
Definition register_agent_scope (u : uuid) (h : N) : M unit :=
  modify (λ w, set_agents (<[u := h]> (w_agents w)) w).

Definition unregister_agent_scope (u : uuid) : M unit :=
  modify (λ w, set_agents (delete u (w_agents w)) w).

Definition push_scope (params : PushScopeParams) : M ScopeHandle :=
  ensure_runtime_owner ;!
  let! parent_uuid := resolve_parent_uuid (ps_parent params) in
  let! scope_stack := current_scope_stack in
  let! scope_guard := read_stack scope_stack in
  let scope_subscribers := Stack.collect_scope_local_subscribers scope_guard in
  let! subscribers := snapshot_event_subscribers gate_run scope_subscribers in
  let! _ := read_global in
  let! u := fresh_uuid now_v7 in
  let! started_at := timestamp_or_now utc_now (ps_timestamp params) in
  let handle := State.create_scope_handle u started_at (ps_name params) parent_uuid
    (ps_scope_type params) (ps_attributes params) (ps_data params) (ps_metadata params)
    (ps_timestamp params) in
  let event := State.build_scope_start_event handle (ps_input params) in
  task_scope_push handle ;!
  (if is_agent handle
   then let! h := current_scope_stack in register_agent_scope (sh_uuid handle) h
   else ret ()) ;!
  let! sanitizers := snapshot_event_sanitizers gate_run event scope_stack in
  dispatch_sanitized_event gate_run event sanitizers subscribers scope_stack ;!
  ret handle.

(** The answer is whether a delivery receipt was created. *)
Definition pop_scope_inner (params : PopScopeParams) (track_delivery : bool) :
    M (option bool) :=
  ensure_runtime_owner ;!
  let! scope_stack := current_scope_stack in
  let! scope_guard := read_stack scope_stack in
  let! top := of_option (Stack.top scope_guard) in
  if negb (sh_uuid top =? pp_handle_uuid params)%Z then
    match Stack.find_scope (pp_handle_uuid params) scope_guard with
    | Some _ => fail (InvalidArgument "scope handle is not at the top of the stack")
    | None => fail (NotFound "scope handle not found")
    end
  else
    let scope_subscribers := Stack.collect_scope_local_subscribers scope_guard in
    let! subscribers := snapshot_event_subscribers gate_run scope_subscribers in
    let scope := top in
    let! _ := read_global in
    let! n :=
      match pp_timestamp params with Some ts => ret ts | None => now utc_now end in
    let event := State.build_scope_end_event n scope (pp_output params) (pp_metadata params)
      (pp_timestamp params) in
    let! sanitizers := snapshot_event_sanitizers gate_run event scope_stack in
    let! publication_scope_stack := snapshot_scope_stack scope_stack in
    let! removed := task_scope_remove (pp_handle_uuid params) in
    (if is_agent scope then unregister_agent_scope (sh_uuid scope) else ret ()) ;!
    if track_delivery then
      let! receipt := dispatch_sanitized_event_with_delivery gate_run event sanitizers
        subscribers publication_scope_stack in
      ret (Some receipt)
    else
      dispatch_sanitized_event gate_run event sanitizers subscribers
        publication_scope_stack ;!
      ret None.

Definition pop_scope (params : PopScopeParams) : M unit :=
  let! _ := pop_scope_inner params false in ret ().

Definition pop_scope_with_subscriber_delivery (params : PopScopeParams) : M bool :=
  let! receipt := pop_scope_inner params true in
  match receipt with
  | Some receipt => ret receipt
  | None =>
      fail (Internal "tracked scope pop did not create a subscriber delivery receipt")
  end.

(** ** Completion marks ([tool.rs], [completion_mark_transform]) *)

Definition completion_mark_transform (e : Event) (scope_stack : N) : M (option Transform) :=
  if negb (bool_decide (ev_name (base e) = "tool_end_without_start")) then ret None
  else
    match data (base e) with
    | None => fail (InvalidArgument "tool completion marks require data.tool_name")
    | Some data =>
        match v ← get data "tool_name"; as_str v with
        | Some tool_name =>
            if is_blank_text tool_name then
              fail (InvalidArgument
                "tool completion marks require a nonblank string data.tool_name")
            else
              let args := default Null (get data "arguments") in
              let result := default Null (get data "result") in
              let! scope := read_stack scope_stack in
              let request_locals := Stack.snapshot_scope_local_registries
                tool_sanitize_request_guardrails scope in
              let response_locals := Stack.snapshot_scope_local_registries
                tool_sanitize_response_guardrails scope in
              let! g := read_global in
              let state := State.registry_snapshot
                [ToolSanitizeRequestGuardrail; ToolSanitizeResponseGuardrail] g in
              let! entries := gets (λ w,
                (merge_guardrail_entries (enabled gate_run w)
                   (tool_sanitize_request_guardrails (regs state)) request_locals
                   ToolSanitizeRequestGuardrail,
                 merge_guardrail_entries (enabled gate_run w)
                   (tool_sanitize_response_guardrails (regs state)) response_locals
                   ToolSanitizeResponseGuardrail)) in
              ret (Some (CompletionMarkTransform tool_name args result entries.1 entries.2))
        | None =>
            fail (InvalidArgument
              "tool completion marks require a nonblank string data.tool_name")
        end
    end.

(** ** Marks *)

Definition partial_completion_names : list string :=
  ["agent_end_without_start"; "turn_end_without_start";
   "subagent_end_without_start"; "tool_end_without_start"].

Definition is_partial_completion (n : string) (metadata : option Json) : bool :=
  bool_decide (n ∈ partial_completion_names)
  && match m ← metadata; get m "start_observed" with
     | Some v => value_eqb v (Bool false)
     | None => false
     end.

Definition event (params : EmitMarkEventParams) : M unit :=
  ensure_runtime_owner ;!
  let! metadata := of_result (metadata_with_log_severity (em_metadata params)
    (em_severity params)) in
  let! scope_stack := current_scope_stack in
  let! detached :=
    (if is_partial_completion (em_name params) metadata
        && bool_decide (em_parent params = None)
     then
       let! s := read_stack scope_stack in
       let! top := of_option (Stack.top s) in
       let! root := of_option (Stack.root_uuid s) in
       ret (sh_uuid top =? root)%Z
     else ret false) in
  let! parent_uuid :=
    (if detached : bool then ret None else resolve_parent_uuid (em_parent params)) in
  let! scope_guard := read_stack scope_stack in
  let scope_subscribers := Stack.collect_scope_local_subscribers scope_guard in
  let! subscribers := snapshot_event_subscribers gate_run scope_subscribers in
  (if bool_decide (em_name params = COMPACTION_EVENT_NAME) then
     let! s := read_stack scope_stack in
     let! s := of_option (Stack.mark_agent_fresh parent_uuid s) in
     write_stack scope_stack s
   else ret ()) ;!
  let! _ := read_global in
  let! u := fresh_uuid now_v7 in
  let! ts := timestamp_or_now utc_now (em_timestamp params) in
  let event := Mark {|
    me_base := base_event parent_uuid u ts (em_name params) (em_data params)
      (em_data_schema params) metadata;
    me_category := em_category params;
    me_profile := em_category_profile params;
  |} in
  let! sanitizers := snapshot_event_sanitizers gate_run event scope_stack in
  let! transform := completion_mark_transform event scope_stack in
  match transform with
  | Some transform =>
      dispatch_transformed_event gate_run event transform sanitizers subscribers scope_stack ;!
      ret ()
  | None =>
      dispatch_sanitized_event gate_run event sanitizers subscribers scope_stack ;!
      ret ()
  end.

(** ** Facts *)

Lemma timestamp_or_now_ok ts w :
  ∃ t w', timestamp_or_now utc_now ts w = (Ok t, w')
    ∧ (w' = w ∧ ts = Some t ∨ w' = set_clock (S (w_clock w)) w ∧ ts = None).
Proof. destruct ts as [t|]; [exists t, w|eexists _, _]; (split; [done|]); auto. Qed.

(** The second half of [push_scope]: the new scope becomes visible, then its
    start event is published. *)
Lemma push_tail_ok handle input subscribers w s :
  ready w s → w_global_poisoned w = false →
  let start := State.build_scope_start_event handle input in
  ∃ w' ds,
    (task_scope_push handle ;!
     (if is_agent handle
      then let! h := current_scope_stack in register_agent_scope (sh_uuid handle) h
      else ret ()) ;!
     let! sanitizers := snapshot_event_sanitizers gate_run start (current w) in
     dispatch_sanitized_event gate_run start sanitizers subscribers (current w) ;!
     ret handle) w = (Ok handle, w')
    ∧ api_frame w w' ∧ ready w' (Stack.push handle s)
    ∧ w_agents w'
      = (if is_agent handle then <[sh_uuid handle := current w]> (w_agents w) else w_agents w)
    ∧ w_queue w' = w_queue w ++ ds
    ∧ publication w' start (sanitizers_in_force gate_run w start (Stack.push handle s))
        subscribers (Stack.snapshot (Stack.push handle s)) ds.
Proof.
  intros Hr Hg start. set (w1 := set_heap (<[current w := Stack.push handle s]> (w_heap w)) w).
  assert (ready w1 (Stack.push handle s)) as Hr1.
  { apply (ready_set_stack _ _ s); [done|]. apply Stack.push_wf, Hr. }
  assert (task_scope_push handle w = (Ok (), w1)) as Hpush.
  { unfold task_scope_push, current_scope_stack. rewrite bind_gets.
    by mstep (proj1 (proj2 (read_stack_ready w s Hr))). }
  mstep Hpush.
  set (w2 := if is_agent handle
             then set_agents (<[sh_uuid handle := current w]> (w_agents w)) w1 else w1).
  assert ((if is_agent handle
      then let! h := current_scope_stack in register_agent_scope (sh_uuid handle) h
      else ret ()) w1 = (Ok (), w2)) as Hreg.
  { subst w2. by destruct (is_agent handle), w. }
  mstep Hreg.
  assert (ready w2 (Stack.push handle s) ∧ api_frame w w2 ∧ w_queue w2 = w_queue w
    ∧ w_agents w2 = (if is_agent handle then <[sh_uuid handle := current w]> (w_agents w)
                     else w_agents w)) as (Hr2 & Hf2 & Hq2 & Ha2).
  { subst w2. assert (api_frame w w1) as Hf1 by apply set_stack_api.
    destruct (is_agent handle).
    - split_and!; [by apply ready_set_agents|etrans; [done|apply set_agents_api]|by destruct w..].
    - split_and!; [done|done|by destruct w..]. }
  pose proof (af_current _ _ Hf2) as Hc. rewrite <-Hc.
  assert (w_global_poisoned w2 = false) as Hg2 by (by rewrite (af_global_poisoned _ _ Hf2)).
  mstep (snapshot_event_sanitizers_ok gate_run w2 _ start Hr2 Hg2).
  destruct (dispatch_sanitized_ok gate_run w2 _ start
    (sanitizers_in_force gate_run w2 start (Stack.push handle s)) subscribers (current w2) _
    Hr2 (rd_stack _ _ Hr2) (rd_wf _ _ Hr2)) as (w3 & ds & Hd & Hf3 & Hq3 & Hp3).
  mstep Hd. rewrite (proj1 (in_force_api gate_run w w2 Hf2)) in Hp3.
  exists w3, ds. split_and!; [done|..].
  - etrans; [exact Hf2|by apply frame_api].
  - by apply (ready_frame w2).
  - rewrite (fr_agents _ _ Hf3), Ha2, Hc. done.
  - congruence.
  - exact Hp3.
Qed.

Lemma after_clock (ts : option timestamp) t w w' s :
  (w' = w ∧ ts = Some t ∨ w' = set_clock (S (w_clock w)) w ∧ ts = None) → ready w s →
  ready w' s ∧ api_frame w w' ∧ w_queue w' = w_queue w ∧ w_agents w' = w_agents w.
Proof.
  intros [[-> _]|[-> _]] Hr; [done|].
  split_and!; [by apply ready_set_clock|apply set_clock_api|by destruct w..].
Qed.

Lemma snapshot_current_ok w s :
  ready w s →
  ∃ h w', snapshot_scope_stack (current w) w = (Ok h, w') ∧ frame w w'
    ∧ w_queue w' = w_queue w ∧ w_heap w' !! h = Some (Stack.snapshot s) ∧ h ≠ current w'.
Proof.
  intros Hr. destruct (alloc_stack_spec (Stack.snapshot s) w (rd_fresh _ _ Hr))
    as (h & w' & Hal & Hf & Hq & Hh & Hnone & _).
  exists h, w'. split_and!; [|done..|].
  - unfold snapshot_scope_stack. by mstep (proj2 (proj2 (read_stack_ready w s Hr))).
  - rewrite (fr_current _ _ Hf). intros ->. by rewrite (rd_stack _ _ Hr) in Hnone.
Qed.

Lemma push_scope_ok params w s :
  ready w s → w_owner w = Ok () → w_global_poisoned w = false →
  ∃ handle w' ds, push_scope params w = (Ok handle, w')
    ∧ sh_uuid handle = now_v7 (w_uuids w)
    ∧ sh_name handle = ps_name params ∧ sh_scope_type handle = ps_scope_type params
    ∧ sh_parent_uuid handle = causal_parent w s (ps_parent params)
    ∧ api_frame w w' ∧ ready w' (Stack.push handle s)
    ∧ w_agents w'
      = (if is_agent handle then <[sh_uuid handle := current w]> (w_agents w) else w_agents w)
    ∧ w_queue w' = w_queue w ++ ds
    ∧ let start := State.build_scope_start_event handle (ps_input params) in
      publication w' start (sanitizers_in_force gate_run w start (Stack.push handle s))
        (subscribers_in_force gate_run w s) (Stack.snapshot (Stack.push handle s)) ds.
Proof.
  intros Hr Ho Hg. unfold push_scope, ensure_runtime_owner.
  unfold bind at 1. rewrite Ho.
  destruct (resolve_parent_quiet w s (ps_parent params) Hr) as (w1 & Hp & Hf1 & Hq1).
  mstep Hp. unfold current_scope_stack. rewrite bind_gets.
  pose proof (ready_frame _ _ _ Hr Hf1) as Hr1.
  assert (w_global_poisoned w1 = false) as Hg1 by (by rewrite (fr_global_poisoned _ _ Hf1)).
  mstep (proj1 (read_stack_ready w1 s Hr1)). cbv zeta.
  mstep (snapshot_event_subscribers_ok gate_run w1 s Hg1).
  mstep (read_global_ok w1 Hg1). unfold bind at 1, fresh_uuid.
  pose proof (ready_set_uuids (S (w_uuids w1)) _ _ Hr1) as Hr2.
  set (w2 := set_uuids _ w1) in *.
  destruct (timestamp_or_now_ok (ps_timestamp params) w2) as (t & w3 & Ht & Hw3).
  mstep Ht.
  assert (ready w3 s ∧ api_frame w w3 ∧ w_queue w3 = w_queue w ∧ w_agents w3 = w_agents w)
    as (Hr3 & Hf3 & Hq3 & Ha3).
  { assert (api_frame w w2) as Hf2
      by (etrans; [by apply frame_api|apply set_uuids_api]).
    pose proof (fr_agents _ _ Hf1). destruct Hw3 as [[-> _]|[-> _]].
    - split_and!; [done|done|by destruct w1..].
    - split_and!; [by apply ready_set_clock|etrans; [done|apply set_clock_api]|by destruct w1..]. }
  rewrite (fr_uuids _ _ Hf1). set (handle := State.create_scope_handle _ _ _ _ _ _ _ _ _).
  assert (current_scope_stack_of (w_binding w1) = current w3) as ->.
  { rewrite (af_current _ _ Hf3). apply (fr_current _ _ Hf1). }
  assert (w_global_poisoned w3 = false) as Hg3 by (by rewrite (af_global_poisoned _ _ Hf3)).
  destruct (push_tail_ok handle (ps_input params) (subscribers_in_force gate_run w1 s) w3 s
    Hr3 Hg3) as (w4 & ds & Heq & Hf4 & Hr4 & Ha4 & Hq4 & Hp4).
  exists handle, w4, ds. split; [exact Heq|].
  rewrite (proj1 (in_force_api gate_run _ _ Hf3)) in Hp4.
  rewrite (proj2 (in_force_api gate_run w w1 (frame_api _ _ Hf1))) in Hp4.
  split_and!; try done.
  - by etrans.
  - rewrite Ha4, Ha3, (af_current _ _ Hf3). done.
  - congruence.
Qed.
(** The second half of [pop_scope]: the scope leaves the stack, then its end
    event is published with the stack as it was before. *)
Lemma pop_tail_ok stop sanitizers subscribers h visible w s below top :
  ready w s → stack s = below ++ [top] → below ≠ [] →
  w_heap w !! h = Some visible → h ≠ current w → Stack.wf visible →
  ∃ w' ds,
    (let! _ := task_scope_remove (sh_uuid top) in
     (if is_agent top then unregister_agent_scope (sh_uuid top) else ret ()) ;!
     dispatch_sanitized_event gate_run stop sanitizers subscribers h ;!
     ret (None : option bool)) w = (Ok None, w')
    ∧ api_frame w w' ∧ ready w' (Stack.remove (sh_uuid top) s).2
    ∧ w_agents w' = (if is_agent top then delete (sh_uuid top) (w_agents w) else w_agents w)
    ∧ w_queue w' = w_queue w ++ ds
    ∧ publication w' stop sanitizers subscribers (Stack.snapshot visible) ds.
Proof.
  intros Hr Hst Hb Hh Hne Hwf. set (s' := (Stack.remove (sh_uuid top) s).2).
  set (w1 := set_heap (<[current w := s']> (w_heap w)) w).
  assert (task_scope_remove (sh_uuid top) w = (Ok top, w1)) as Hrem.
  { unfold task_scope_remove, current_scope_stack. rewrite bind_gets.
    mstep (proj1 (proj2 (read_stack_ready w s Hr))).
    subst w1 s'. rewrite (Stack.remove_top s below top Hst Hb). by destruct w. }
  mstep Hrem.
  assert (ready w1 s') as Hr1.
  { apply (ready_set_stack _ _ s); [done|]. apply Stack.remove_wf, Hr. }
  set (w2 := if is_agent top then set_agents (delete (sh_uuid top) (w_agents w)) w1 else w1).
  assert ((if is_agent top then unregister_agent_scope (sh_uuid top) else ret ()) w1
    = (Ok (), w2)) as Hreg by (subst w2; by destruct (is_agent top), w).
  mstep Hreg.
  assert (ready w2 s' ∧ api_frame w w2 ∧ w_queue w2 = w_queue w
    ∧ w_agents w2
      = (if is_agent top then delete (sh_uuid top) (w_agents w) else w_agents w))
    as (Hr2 & Hf2 & Hq2 & Ha2).
  { subst w2. assert (api_frame w w1) as Hf1 by apply set_stack_api.
    destruct (is_agent top).
    - split_and!; [by apply ready_set_agents|etrans; [done|apply set_agents_api]|by destruct w..].
    - split_and!; [done|done|by destruct w..]. }
  destruct (dispatch_sanitized_ok gate_run w2 s' stop sanitizers subscribers h visible Hr2
    (af_heap _ _ Hf2 _ _ Hne Hh) Hwf) as (w3 & ds & Hd & Hf3 & Hq3 & Hp3).
  mstep Hd. exists w3, ds. split_and!; [done|..].
  - etrans; [exact Hf2|by apply frame_api].
  - by apply (ready_frame w2).
  - by rewrite (fr_agents _ _ Hf3), Ha2.
  - congruence.
  - exact Hp3.
Qed.

(** Popping any scope but the root from the top. *)
Lemma pop_scope_ok params w s below top :
  ready w s → w_owner w = Ok () → w_global_poisoned w = false →
  stack s = below ++ [top] → below ≠ [] → sh_uuid top = pp_handle_uuid params →
  ∃ w' ds n, pop_scope params w = (Ok (), w')
    ∧ api_frame w w' ∧ ready w' (Stack.remove (sh_uuid top) s).2
    ∧ w_agents w' = (if is_agent top then delete (sh_uuid top) (w_agents w) else w_agents w)
    ∧ w_queue w' = w_queue w ++ ds
    ∧ let stop := State.build_scope_end_event n top (pp_output params) (pp_metadata params)
        (pp_timestamp params) in
      publication w' stop (sanitizers_in_force gate_run w stop s)
        (subscribers_in_force gate_run w s) (Stack.snapshot s) ds.
Proof.
  intros Hr Ho Hg Hst Hbelow Hu.
  assert (Stack.top s = Some top) as Htop by (unfold Stack.top; by rewrite Hst, last_snoc).
  unfold pop_scope, pop_scope_inner, ensure_runtime_owner.
  unfold bind at 1 2. rewrite Ho. unfold current_scope_stack. rewrite bind_gets.
  mstep (proj1 (read_stack_ready w s Hr)). rewrite Htop. cbn [of_option].
  rewrite bind_ret, Hu, Z.eqb_refl. cbn [negb].
  mstep (snapshot_event_subscribers_ok gate_run w s Hg). mstep (read_global_ok w Hg).
  destruct (timestamp_or_now_ok (pp_timestamp params) w) as (n & w1 & Hn & Hw1).
  unfold timestamp_or_now in Hn. mstep Hn.
  assert (ready w1 s ∧ api_frame w w1 ∧ w_queue w1 = w_queue w ∧ w_agents w1 = w_agents w)
    as (Hr1 & Hf1 & Hq1 & Ha1) by (by apply after_clock with (pp_timestamp params) n).
  set (stop := State.build_scope_end_event _ _ _ _ _).
  assert (w_global_poisoned w1 = false) as Hg1 by (by rewrite (af_global_poisoned _ _ Hf1)).
  assert (current_scope_stack_of (w_binding w) = current w1) as ->
    by apply (eq_sym (af_current _ _ Hf1)).
  mstep (snapshot_event_sanitizers_ok gate_run w1 s stop Hr1 Hg1).
  destruct (snapshot_current_ok w1 s Hr1) as (h' & w2 & Hsnap & Hf2 & Hq2 & Hh2 & Hne).
  mstep Hsnap. pose proof (ready_frame _ _ _ Hr1 Hf2) as Hr2.
  destruct (pop_tail_ok stop (sanitizers_in_force gate_run w1 stop s)
    (subscribers_in_force gate_run w s) h' (Stack.snapshot s) w2 s below top)
    as (w3 & ds & Heq & Hf3 & Hr3 & Ha3 & Hq3 & Hp3); [done..|by destruct s, (rd_wf _ _ Hr)|].
  rewrite Hu in *. rewrite Heq.
  rewrite (proj1 (in_force_api gate_run _ _ Hf1)), snapshot_idem in Hp3.
  exists w3, ds, n. split_and!; [done|..|done].
  - etrans; [exact Hf1|]. etrans; [by apply frame_api|done].
  - done.
  - by rewrite Ha3, (fr_agents _ _ Hf2), Ha1.
  - congruence.
Qed.

Lemma pop_scope_not_top params w s top :
  ready w s → w_owner w = Ok () → Stack.top s = Some top →
  sh_uuid top ≠ pp_handle_uuid params →
  pop_scope params w
  = (Err (if bool_decide (pp_handle_uuid params ∈ Stack.uuids s)
          then InvalidArgument "scope handle is not at the top of the stack"
          else NotFound "scope handle not found"), w).
Proof.
  intros Hr Ho Htop Hne. unfold pop_scope, pop_scope_inner, ensure_runtime_owner.
  unfold bind at 1 2. rewrite Ho. unfold current_scope_stack. rewrite bind_gets.
  mstep (proj1 (read_stack_ready w s Hr)). rewrite Htop. cbn [of_option].
  rewrite bind_ret. destruct (Z.eqb_spec (sh_uuid top) (pp_handle_uuid params)); [done|].
  cbn [negb]. unfold Stack.find_scope.
  pose proof (Stack.existsb_uuid (pp_handle_uuid params) s) as Hex.
  destruct (find (has_uuid _) (stack s)) as [h|] eqn:Hfind.
  - rewrite bool_decide_eq_true_2; [done|]. apply find_some in Hfind as [Hin Hh].
    apply Hex, existsb_exists. by exists h.
  - rewrite bool_decide_eq_false_2; [done|]. intros (h & Hin & Hh)%Hex%existsb_exists.
    by rewrite (find_none _ _ Hfind h Hin) in Hh.
Qed.

(** The root stays: the removal is refused after the end event was built, and
    nothing is published. *)
Lemma pop_scope_root params w s root :
  ready w s → w_owner w = Ok () → w_global_poisoned w = false →
  stack s = [root] → sh_uuid root = pp_handle_uuid params →
  ∃ w', pop_scope params w = (Err (InvalidArgument "root scope cannot be removed"), w')
    ∧ api_frame w w' ∧ ready w' s ∧ w_agents w' = w_agents w ∧ w_queue w' = w_queue w.
Proof.
  intros Hr Ho Hg Hst Hu.
  assert (Stack.top s = Some root) as Htop by (unfold Stack.top; by rewrite Hst).
  unfold pop_scope, pop_scope_inner, ensure_runtime_owner.
  unfold bind at 1 2. rewrite Ho. unfold current_scope_stack. rewrite bind_gets.
  mstep (proj1 (read_stack_ready w s Hr)). rewrite Htop. cbn [of_option].
  rewrite bind_ret, Hu, Z.eqb_refl. cbn [negb].
  mstep (snapshot_event_subscribers_ok gate_run w s Hg). mstep (read_global_ok w Hg).
  destruct (timestamp_or_now_ok (pp_timestamp params) w) as (n & w1 & Hn & Hw1).
  unfold timestamp_or_now in Hn. mstep Hn.
  assert (ready w1 s ∧ api_frame w w1 ∧ w_queue w1 = w_queue w ∧ w_agents w1 = w_agents w)
    as (Hr1 & Hf1 & Hq1 & Ha1) by (by apply after_clock with (pp_timestamp params) n).
  assert (w_global_poisoned w1 = false) as Hg1 by (by rewrite (af_global_poisoned _ _ Hf1)).
  assert (current_scope_stack_of (w_binding w) = current w1) as ->
    by apply (eq_sym (af_current _ _ Hf1)).
  mstep (snapshot_event_sanitizers_ok gate_run w1 s
    (State.build_scope_end_event n root (pp_output params) (pp_metadata params)
       (pp_timestamp params)) Hr1 Hg1).
  destruct (snapshot_current_ok w1 s Hr1) as (h' & w2 & Hsnap & Hf2 & Hq2 & _).
  mstep Hsnap. pose proof (ready_frame _ _ _ Hr1 Hf2) as Hr2.
  assert (Stack.remove (pp_handle_uuid params) s
    = (Err (InvalidArgument "root scope cannot be removed"), s)) as Hrem.
  { unfold Stack.remove, has_uuid. rewrite Hst. cbn. by rewrite Hu, Z.eqb_refl. }
  exists (set_heap (<[current w2 := s]> (w_heap w2)) w2). split.
  - unfold task_scope_remove, current_scope_stack, bind at 1 2. cbv beta iota delta [gets].
    by mstep (proj1 (proj2 (read_stack_ready w2 s Hr2))); rewrite Hrem.
  - split_and!.
    + etrans; [exact Hf1|]. etrans; [by apply frame_api|apply set_stack_api].
    + apply (ready_set_stack _ _ s Hr2), Hr.
    + pose proof (fr_agents _ _ Hf2). destruct w2. cbn in *. congruence.
    + destruct w2. cbn in *. congruence.
Qed.


(** Whether a mark of a partial completion stays without a parent. *)
Definition detached (params : EmitMarkEventParams) (metadata : option Json) (s : ScopeStack) :
    bool :=
  is_partial_completion (em_name params) metadata && bool_decide (em_parent params = None)
  && bool_decide (sh_uuid <$> Stack.top s = Stack.root_uuid s).

Lemma detached_ok params metadata w s :
  ready w s →
  (if is_partial_completion (em_name params) metadata
      && bool_decide (em_parent params = None)
   then
     let! s := read_stack (current w) in
     let! top := of_option (Stack.top s) in
     let! root := of_option (Stack.root_uuid s) in
     ret (sh_uuid top =? root)%Z
   else ret false) w = (Ok (detached params metadata s), w).
Proof.
  intros Hr. unfold detached. destruct (_ && bool_decide _); [|done].
  destruct (top_total s (rd_wf _ _ Hr)) as [top Ht], (root_total s (rd_wf _ _ Hr)) as [u Hu].
  mstep (proj1 (read_stack_ready w s Hr)). rewrite Ht, Hu. cbn.
  unfold ret. do 2 f_equal. apply eq_iff_eq_true. rewrite Z.eqb_eq, bool_decide_eq_true.
  naive_solver.
Qed.

(** The parent of a mark. *)
Definition mark_parent (params : EmitMarkEventParams) (metadata : option Json) (w : World)
    (s : ScopeStack) : option uuid :=
  if detached params metadata s then None else causal_parent w s (em_parent params).

Lemma event_parent_ok params metadata w s :
  ready w s →
  ∃ w', (if detached params metadata s then ret None
         else resolve_parent_uuid (em_parent params)) w
      = (Ok (mark_parent params metadata w s), w')
    ∧ frame w w' ∧ w_queue w' = w_queue w.
Proof.
  intros Hr. unfold mark_parent. destruct (detached _ _ _); [by exists w|].
  by apply resolve_parent_quiet.
Qed.

(** A compaction mark. *)
Lemma compaction_ok params p w s :
  ready w s →
  ∃ s' w', (if bool_decide (em_name params = COMPACTION_EVENT_NAME) then
     let! s := read_stack (current w) in
     let! s := of_option (Stack.mark_agent_fresh p s) in
     write_stack (current w) s
   else ret ()) w = (Ok (), w')
   ∧ api_frame w w' ∧ ready w' s' ∧ w_queue w' = w_queue w ∧ w_agents w' = w_agents w
   ∧ w_uuids w' = w_uuids w
   ∧ (if bool_decide (em_name params = COMPACTION_EVENT_NAME)
      then Stack.mark_agent_fresh p s = Some s' else s' = s).
Proof.
  intros Hr. case_bool_decide; [|by exists s, w].
  destruct (Stack.owning_agent_total p s (rd_wf _ _ Hr)) as [u Hu].
  assert (∃ s', Stack.mark_agent_fresh p s = Some s' ∧ Stack.wf s') as (s' & Hs' & Hwf).
  { unfold Stack.mark_agent_fresh. rewrite Hu. cbn. eexists. split; [done|].
    apply Stack.set_fresh_wf; [by destruct Hr|].
    pose proof (Stack.wf_fresh _ (rd_wf _ _ Hr)). pose proof (Stack.owning_agent_elem _ _ _ Hu).
    set_solver. }
  mstep (proj1 (read_stack_ready w s Hr)). rewrite Hs'.
  exists s', (set_heap (<[current w := s']> (w_heap w)) w).
  split_and!; [done|apply set_stack_api|by apply (ready_set_stack _ _ s)|by destruct w..|done].
Qed.

(** ** Properties *)

(** C1: opening and closing a scope through the API: [push_scope] puts the new
    scope on top of the current stack, as a child of the explicit parent, of
    the observed event or of the scope below, and [pop_scope] of its uuid
    restores the stack and the agent table exactly; the call queues one start and one
    end event of the same span (or none without listeners), the end event
    with the middleware and the stack that were visible inside the scope, and
    everything else is left alone. *)
Theorem scope_api_roundtrip params pop w s :
  ready w s → w_owner w = Ok () → w_global_poisoned w = false →
  now_v7 (w_uuids w) ∉ Stack.uuids s → w_agents w !! now_v7 (w_uuids w) = None →
  pp_handle_uuid pop = now_v7 (w_uuids w) →
  ∃ handle w1 w2 ds1 ds2 n,
    push_scope params w = (Ok handle, w1) ∧ pop_scope pop w1 = (Ok (), w2)
    ∧ sh_uuid handle = now_v7 (w_uuids w) ∧ sh_name handle = ps_name params
    ∧ sh_parent_uuid handle = causal_parent w s (ps_parent params)
    ∧ ready w1 (Stack.push handle s) ∧ ready w2 s
    ∧ api_frame w w2 ∧ w_agents w2 = w_agents w
    ∧ w_queue w2 = w_queue w ++ ds1 ++ ds2
    ∧ let start := State.build_scope_start_event handle (ps_input params) in
      let stop := State.build_scope_end_event n handle (pp_output pop) (pp_metadata pop)
        (pp_timestamp pop) in
      let inside := Stack.push handle s in
      State.span_pair start stop
      ∧ publication w1 start (sanitizers_in_force gate_run w start inside)
          (subscribers_in_force gate_run w s) (Stack.snapshot inside) ds1
      ∧ publication w2 stop (sanitizers_in_force gate_run w stop inside)
          (subscribers_in_force gate_run w inside) (Stack.snapshot inside) ds2.
Proof.
  intros Hr Ho Hg Hnew Hag Hpop.
  destruct (push_scope_ok params w s Hr Ho Hg)
    as (handle & w1 & ds1 & Hpush & Hu & Hn & _ & Hpar & Hf1 & Hr1 & Ha1 & Hq1 & Hp1).
  destruct (pop_scope_ok pop w1 (Stack.push handle s) (stack s) handle)
    as (w2 & ds2 & n & Hp & Hf2 & Hr2 & Ha2 & Hq2 & Hp2); [done|..].
  - by rewrite (af_owner _ _ Hf1).
  - by rewrite (af_global_poisoned _ _ Hf1).
  - done.
  - destruct (rd_wf _ _ Hr) as [(root & Hroot & _) _ _]. by intros Hnil; rewrite Hnil in Hroot.
  - congruence.
  - rewrite Stack.remove_push in Hr2 by (rewrite ?Hu; by destruct Hr). cbn in Hr2.
    destruct (in_force_api gate_run _ _ Hf1) as [Hs1 Hs2]. rewrite Hs1, Hs2 in Hp2.
    exists handle, w1, w2, ds1, ds2, n. split_and!; try done.
    + by etrans.
    + rewrite Ha2, Ha1, Hu. destruct (is_agent handle); [|done].
      by rewrite delete_insert_id.
    + rewrite Hq2, Hq1. by rewrite (assoc_L (++)).
Qed.

(** Closing scopes is LIFO at the API: [pop_scope] of any scope but the
    top one is refused, [InvalidArgument] when it is active and [NotFound]
    otherwise, with no effect at all; the root is refused with the stack, the
    agents and the queue unchanged; a non-root top scope is removed and its
    end event queued. *)
Theorem pop_scope_classified params w s below top :
  ready w s → w_owner w = Ok () → w_global_poisoned w = false →
  stack s = below ++ [top] →
  if has_uuid (pp_handle_uuid params) top then
    match below with
    | [] => ∃ w', pop_scope params w = (Err (InvalidArgument "root scope cannot be removed"), w')
        ∧ ready w' s ∧ w_agents w' = w_agents w ∧ w_queue w' = w_queue w
    | _ => ∃ w' ds n, pop_scope params w = (Ok (), w')
        ∧ ready w' (Stack.remove (sh_uuid top) s).2 ∧ w_queue w' = w_queue w ++ ds
        ∧ let stop := State.build_scope_end_event n top (pp_output params)
            (pp_metadata params) (pp_timestamp params) in
          publication w' stop (sanitizers_in_force gate_run w stop s)
            (subscribers_in_force gate_run w s) (Stack.snapshot s) ds
    end
  else
    pop_scope params w
    = (Err (if bool_decide (pp_handle_uuid params ∈ Stack.uuids s)
            then InvalidArgument "scope handle is not at the top of the stack"
            else NotFound "scope handle not found"), w).
Proof.
  intros Hr Ho Hg Hst. unfold has_uuid.
  destruct (Z.eqb_spec (sh_uuid top) (pp_handle_uuid params)) as [Heq|Hne].
  - destruct below as [|b below].
    + destruct (pop_scope_root params w s top) as (w' & ? & _ & ? & ? & ?); [done..|]. eauto 10.
    + destruct (pop_scope_ok params w s (b :: below) top)
        as (w' & ds & n & ? & _ & ? & _ & ? & ?); [done..|]. by exists w', ds, n.
  - apply (pop_scope_not_top params w s top); try done.
    unfold Stack.top. by rewrite Hst, last_snoc.
Qed.

(** A mark that is not a tool completion succeeds and publishes one event
    with a fresh uuid, attached to its explicit parent, the observed event or
    the top scope (a partial completion at the root to nothing); a compaction
    mark re-arms the freshness of the agent that owns the parent,
    any other mark leaves the stack as it is. *)
Theorem mark_event_published params w s metadata :
  ready w s → w_owner w = Ok () → w_global_poisoned w = false →
  metadata_with_log_severity (em_metadata params) (em_severity params) = Ok metadata →
  em_name params ≠ "tool_end_without_start" →
  let p := mark_parent params metadata w s in
  ∃ w' s' t ds, event params w = (Ok (), w') ∧ api_frame w w' ∧ ready w' s'
    ∧ w_agents w' = w_agents w
    ∧ (if bool_decide (em_name params = COMPACTION_EVENT_NAME)
       then Stack.mark_agent_fresh p s = Some s' else s' = s)
    ∧ w_queue w' = w_queue w ++ ds
    ∧ let mark := Mark {|
        me_base := base_event p (now_v7 (w_uuids w)) t (em_name params) (em_data params)
          (em_data_schema params) metadata;
        me_category := em_category params; me_profile := em_category_profile params |} in
      publication w' mark (sanitizers_in_force gate_run w mark s')
        (subscribers_in_force gate_run w s) (Stack.snapshot s') ds.
Proof.
  intros Hr Ho Hg Hmd Hname p. unfold event, ensure_runtime_owner.
  unfold bind at 1. rewrite Ho. unfold bind at 1, of_result. rewrite Hmd.
  unfold current_scope_stack. rewrite bind_gets. fold (current w).
  mstep (detached_ok params metadata w s Hr).
  destruct (event_parent_ok params metadata w s Hr) as (w1 & Hp & Hf1 & Hq1). fold p in Hp.
  mstep Hp. pose proof (ready_frame _ _ _ Hr Hf1) as Hr1.
  rewrite <-(fr_current _ _ Hf1).
  mstep (proj1 (read_stack_ready w1 s Hr1)).
  assert (w_global_poisoned w1 = false) as Hg1 by (by rewrite (fr_global_poisoned _ _ Hf1)).
  mstep (snapshot_event_subscribers_ok gate_run w1 s Hg1).
  destruct (compaction_ok params p w1 s Hr1)
    as (s' & w2 & Hc & Hf2 & Hr2 & Hq2 & Ha2 & Hu2 & Hs').
  mstep Hc.
  assert (w_global_poisoned w2 = false) as Hg2 by (by rewrite (af_global_poisoned _ _ Hf2)).
  mstep (read_global_ok w2 Hg2). unfold bind at 1, fresh_uuid.
  destruct (timestamp_or_now_ok (em_timestamp params) (set_uuids (S (w_uuids w2)) w2))
    as (t & w3 & Ht & Hw3).
  mstep Ht.
  destruct (after_clock _ _ _ _ s' Hw3 (ready_set_uuids _ _ _ Hr2)) as (Hr3 & Hf3 & Hq3 & Ha3).
  assert (api_frame w1 w3) as Hf13.
  { etrans; [exact Hf2|]. etrans; [apply set_uuids_api|exact Hf3]. }
  rewrite Hu2, (fr_uuids _ _ Hf1). set (mark := Mark _).
  assert (w_global_poisoned w3 = false) as Hg3 by (by rewrite (af_global_poisoned _ _ Hf13)).
  rewrite <-(af_current _ _ Hf13).
  mstep (snapshot_event_sanitizers_ok gate_run w3 s' mark Hr3 Hg3).
  assert (completion_mark_transform mark (current w3) w3 = (Ok None, w3)) as Hnone.
  { unfold completion_mark_transform. cbn. by rewrite bool_decide_eq_false_2. }
  mstep Hnone. cbv iota.
  destruct (dispatch_sanitized_ok gate_run w3 s' mark (sanitizers_in_force gate_run w3 mark s')
    (subscribers_in_force gate_run w1 s) (current w3) s' Hr3 (rd_stack _ _ Hr3) (rd_wf _ _ Hr3))
    as (w4 & ds & Hd & Hf4 & Hq4 & Hp4).
  mstep Hd. assert (api_frame w w3) as Hf by (etrans; [by apply frame_api|done]).
  rewrite (proj1 (in_force_api gate_run _ _ Hf)),
    (proj2 (in_force_api gate_run w w1 (frame_api _ _ Hf1))) in Hp4.
  exists w4, s', t, ds. split_and!; try done.
  - etrans; [exact Hf|by apply frame_api].
  - by apply (ready_frame w3).
  - rewrite (fr_agents _ _ Hf4), Ha3, <-(fr_agents _ _ Hf1), <-Ha2. by destruct w2.
  - rewrite Hq4, Hq3, <-Hq1, <-Hq2. by destruct w2.
Qed.

End ScopeApi.

(** *** Witnesses *)

#[local] Existing Instance plain_otel.

Definition demo_push : PushScopeParams := {|
  ps_name := "planner"; ps_scope_type := Agent; ps_parent := None; ps_attributes := 0;
  ps_data := None; ps_metadata := None; ps_input := Some (Str "goal"); ps_timestamp := None;
|}.

Definition demo_pop (u : uuid) : PopScopeParams := {|
  pp_handle_uuid := u; pp_output := Some (Str "done"); pp_metadata := None;
  pp_timestamp := None;
|}.

Definition demo_mark (n : string) : EmitMarkEventParams := {|
  em_name := n; em_parent := None; em_data := None; em_data_schema := None;
  em_metadata := None; em_severity := None; em_category := None;
  em_category_profile := None; em_timestamp := None;
|}.

Lemma scope_api_roundtrip_witness :
  ∃ handle w1 w2 ds1 ds2,
    push_scope demo_now_v7 demo_utc_now demo_gate_run demo_push demo_world = (Ok handle, w1)
    ∧ pop_scope demo_utc_now demo_gate_run (demo_pop 100) w1 = (Ok (), w2)
    ∧ ready w2 demo_stack ∧ w_queue w2 = ds1 ++ ds2.
Proof.
  destruct (scope_api_roundtrip demo_now_v7 demo_utc_now demo_gate_run demo_push (demo_pop 100)
    demo_world demo_stack demo_ready eq_refl eq_refl)
    as (h & w1 & w2 & ds1 & ds2 & n & H1 & H2 & _ & _ & _ & _ & H3 & _ & _ & H4 & _).
  - apply (bool_decide_unpack _). vm_compute. exact I.
  - reflexivity.
  - reflexivity.
  - exists h, w1, w2, ds1, ds2. split_and!; [exact H1|exact H2|exact H3|exact H4].
Defined.

Lemma pop_scope_classified_witness :
  pop_scope demo_utc_now demo_gate_run (demo_pop 2) demo_world
  = (Err (InvalidArgument "scope handle is not at the top of the stack"), demo_world)
  ∧ pop_scope demo_utc_now demo_gate_run (demo_pop 7) demo_world
    = (Err (NotFound "scope handle not found"), demo_world).
Proof.
  pose (below := [bare_handle 1 0 None "root" Agent; demo_child 2 1 Function]).
  split.
  - exact (pop_scope_classified demo_utc_now demo_gate_run (demo_pop 2) demo_world demo_stack
      below (demo_child 3 2 Agent) demo_ready eq_refl eq_refl eq_refl).
  - exact (pop_scope_classified demo_utc_now demo_gate_run (demo_pop 7) demo_world demo_stack
      below (demo_child 3 2 Agent) demo_ready eq_refl eq_refl eq_refl).
Defined.

Lemma mark_event_published_witness :
  ∃ w' s', event demo_now_v7 demo_utc_now demo_gate_run (demo_mark "compaction") demo_world
    = (Ok (), w') ∧ ready w' s' ∧ ∃ p, Stack.mark_agent_fresh p demo_stack = Some s'.
Proof.
  destruct (mark_event_published demo_now_v7 demo_utc_now demo_gate_run (demo_mark "compaction")
    demo_world demo_stack None demo_ready eq_refl eq_refl eq_refl)
    as (w' & s' & t & ds & H1 & _ & H2 & _ & H3 & _); [discriminate|].
  exists w', s'. split_and!; [exact H1|exact H2|]. eexists. exact H3.
Defined.
