(* ===== verification/Guardrails.v ===== *)
(** * Guardrail scopes and healthy worlds
    ([crates/runtime/src/api/runtime/state.rs], the conditional chains; what
    [crates/runtime/src/api/tool.rs] and [crates/runtime/src/api/llm.rs] share)

    The chain of conditional guardrails, with the guardrail scope of each, the
    drop guards of managed calls, and the facts both APIs need about worlds in
    which no lock is poisoned.

    - A future that is dropped before it resolves ends its function the way an
      unwind does: what was done stays done and the drop guards run. So [Panic]
      is the outcome of a function that unwound or was dropped; [None] is the
      answer of a conditional guardrail that was dropped, since the chain
      catches unwinds.
    - A drop guard that is armed runs its action on every exit that does not
      disarm it ([unless_disarmed]).
    - The tool chain and the LLM chain have the same body up to the names they
      report ([what], [input]) and the callback they ask. *)

From stdpp Require Import base gmap strings list.
From S2P Require Import Prelude Text Errors Json Registry Trace Events Registries.
From S2P Require Import ScopeStack ContextState Chains World WorldFacts Context ScopeApi.

(** ** Drop guards and ignored results *)

(** [let _ = m]: an error is dropped, an unwind goes on. *)
Definition ignore_err {X} (m : M X) : M unit := λ w,
  match m w with
  | (Panic, w) => (Panic, w)
  | (_, w) => (Ok (), w)
  end.

(** [m] with an armed guard that [Ok] disarms. *)
Definition unless_disarmed {X} (drop_guard : M unit) (m : M X) : M X := λ w,
  match m w with
  | (Ok x, w) => (Ok x, w)
  | (r, w) => (r, (drop_guard w).2)
  end.

Section Guardrails.
Context `{!Otel}.
Context (now_v7 : nat → uuid) (utc_now : nat → timestamp).
Context (gate_run :
  Callback → list RuntimeRegistrationKind → string → outcome Empty_set (option string)).

Definition queue_sanitized_event_with_scope_stack (e : Event) (subscribers : list Callback)
    (scope_stack : N) : M bool :=
  let! sanitizers := snapshot_event_sanitizers gate_run e scope_stack in
  dispatch_sanitized_event gate_run e sanitizers subscribers scope_stack.

(** The loops [for mark in marks { .. dispatch_sanitized_event(..) }]. *)
Fixpoint queue_marks (marks : list Event) (subscribers : list Callback) (scope_stack : N) :
    M unit :=
  match marks with
  | [] => ret ()
  | mark :: marks =>
      queue_sanitized_event_with_scope_stack mark subscribers scope_stack ;!
      queue_marks marks subscribers scope_stack
  end.

(** ** Conditional guardrails *)

Definition emit_guardrail_scope_start (n : string) (parent_uuid : option uuid)
    (metadata : option Json) (input : Json) (subscribers : list Callback) (scope_stack : N) :
    M ScopeHandle :=
  let! u := fresh_uuid now_v7 in
  let! t := now utc_now in
  let handle := State.guardrail_handle u t n parent_uuid metadata in
  let event := State.guardrail_start_event handle input in
  queue_sanitized_event_with_scope_stack event subscribers scope_stack ;!
  ret handle.

Definition emit_guardrail_scope_end (handle : ScopeHandle) (output : Json)
    (subscribers : list Callback) (scope_stack : N) : M unit :=
  let! t := now utc_now in
  let event := State.guardrail_end_event t handle output in
  queue_sanitized_event_with_scope_stack event subscribers scope_stack ;!
  ret ().

(** [GuardrailScopeCompletion::drop]. *)
Definition cancelled_output : Json :=
  json_obj [("allowed", Bool false); ("cancelled", Bool true);
            ("error", Str "guardrail evaluation cancelled")].
(** The answer of a callback after [catch_unwind]. *)
Definition caught (what entry : string) (r : outcome FlowError (option string)) :
    outcome FlowError (option string) :=
  match r with
  | Panic => Err (Internal (what +:+ " conditional guardrail '" +:+ entry +:+ "' panicked"))
  | r => r
  end.

Definition conditional_output (r : outcome FlowError (option string)) : Json :=
  match r with
  | Ok (Some reason) =>
      json_obj [("allowed", Bool false); ("rejected", Bool true);
                ("rejection_reason", Str reason)]
  | Ok None => json_obj [("allowed", Bool true); ("rejected", Bool false)]
  | Err error => json_obj [("allowed", Bool false); ("error", Str (error_to_string error))]
  | Panic => cancelled_output
  end.
(** [tool_conditional_execution_snapshot_chain] and
    [llm_conditional_execution_snapshot_chain]. *)
Section Chain.
Context (what : string) (input : Json).
Context (ask : Callback → World → option (outcome FlowError (option string)) * World).

Fixpoint conditional_chain (entries : list (Guardrail Callback)) (subscribers : list Callback)
    (parent_uuid : option uuid) (metadata : option Json) : M (option string) :=
  match entries with
  | [] => ret None
  | entry :: entries =>
      let! scope_stack := current_scope_stack in
      let! handle := emit_guardrail_scope_start (name entry) parent_uuid metadata
        input subscribers scope_stack in
      let! answer := λ w,
        let '(a, w) := ask (payload entry) w in (Ok a, w) in
      match answer with
      | None =>
          emit_guardrail_scope_end handle cancelled_output subscribers scope_stack ;! panic
      | Some result =>
          let result := caught what (name entry) result in
          emit_guardrail_scope_end handle (conditional_output result) subscribers scope_stack ;!
          let! rejection := of_result result in
          match rejection with
          | Some error => ret (Some error)
          | None => conditional_chain entries subscribers parent_uuid metadata
          end
      end
  end.

End Chain.

(** The entries of a kind that are in force on a stack. *)
Definition guardrail_entries (f : Field Callback) (kind : RuntimeRegistrationKind)
    (s : ScopeStack) (g : NemoRelayContextState) : M (list (Guardrail Callback)) :=
  let locals := Stack.snapshot_scope_local_registries (field_get f) s in
  let state := State.registry_snapshot [kind] g in
  gets (λ w, merge_guardrail_entries (enabled gate_run w) (field_get f (regs state)) locals kind).
(** The conditional guardrails and the subscribers in force. *)
Definition conditional_snapshot (f : Field Callback) (kind : RuntimeRegistrationKind) :
    M (list (Guardrail Callback) * list Callback) :=
  let! scope_stack := current_scope_stack in
  let! scope_guard := read_stack_expect scope_stack in
  let scope_locals := Stack.snapshot_scope_local_registries (field_get f) scope_guard in
  let scope_subscribers := Stack.collect_scope_local_subscribers scope_guard in
  let! g := read_global in
  let state := State.registry_snapshot [kind; Subscriber] g in
  gets (λ w,
    (merge_guardrail_entries (enabled gate_run w) (field_get f (regs state)) scope_locals kind,
     State.collect_event_subscribers (enabled gate_run w) scope_subscribers state)).

(** The mark of a rejected managed call. *)
Definition reject_call (n : string) (parent : option ScopeHandle) (metadata : option Json)
    (error : string) : M unit :=
  ignore_err (event now_v7 utc_now gate_run {|
    em_name := n; em_parent := parent;
    em_data := Some (json_obj [("rejected", Bool true); ("rejection_reason", Str error)]);
    em_data_schema := None; em_metadata := metadata; em_severity := None;
    em_category := None; em_category_profile := None; em_timestamp := None |}) ;!
  fail (GuardrailRejected error).

(** The first block of [tool_call_execute] and [llm_call_execute]: the
    guardrails, and the mark of a rejection. *)
Definition check_call (f : Field Callback) (kind : RuntimeRegistrationKind) (what : string)
    (input : Json) (ask : Callback → World → option (outcome FlowError (option string)) * World)
    (n : string) (parent : option ScopeHandle) (metadata : option Json) : M unit :=
  let! (entries, subscribers) := conditional_snapshot f kind in
  let! parent_uuid := resolve_parent_uuid parent in
  let! rejection := conditional_chain what input ask entries subscribers parent_uuid metadata in
  match rejection with
  | Some error => reject_call n parent metadata error
  | None => ret ()
  end.

(** ** Facts about healthy worlds *)

(** No lock is poisoned and the current stack is well formed. *)
Definition healthy (w : World) : Prop :=
  w_owner w = Ok () ∧ w_global_poisoned w = false ∧ ∃ s, ready w s.

(** A step that publishes nothing and leaves the stack alone. *)
Definition calm (w w' : World) : Prop :=
  api_frame w w' ∧ (∀ s, ready w s → ready w' s) ∧ w_queue w' = w_queue w.

#[export] Instance calm_preorder : PreOrder calm.
Proof.
  split; [done|]. intros w1 w2 w3 (Hf1 & Hr1 & Hq1) (Hf2 & Hr2 & Hq2).
  split_and!; [by etrans|auto|congruence].
Qed.

Lemma calm_uuids u w : calm w (set_uuids u w).
Proof. split_and!; [apply set_uuids_api|intros s; apply ready_set_uuids|by destruct w]. Qed.

Lemma calm_clock c w : calm w (set_clock c w).
Proof. split_and!; [apply set_clock_api|intros s; apply ready_set_clock|by destruct w]. Qed.

Lemma calm_frame w w' : frame w w' → w_queue w' = w_queue w → calm w w'.
Proof. intros Hf Hq. split_and!; [by apply frame_api|intros s Hs; by eapply ready_frame|done]. Qed.

Lemma calm_current w w' : calm w w' → current w' = current w.
Proof. intros [Hf _]. by apply af_current. Qed.

Lemma calm_healthy w w' : calm w w' → healthy w → healthy w'.
Proof.
  intros (Hf & Hr & _) (Ho & Hg & s & Hs). split_and!.
  - by rewrite (af_owner _ _ Hf).
  - by rewrite (af_global_poisoned _ _ Hf).
  - exists s. auto.
Qed.

(** From [w] to [w'] exactly [e] was published, to [subscribers], with the
    sanitizers in force; the stack is as before. *)
Definition emitted (w : World) (e : Event) (transform : option Transform)
    (subscribers : list Callback) (w' : World) : Prop :=
  ∃ s ds, ready w s ∧ ready w' s ∧ api_frame w w' ∧ w_queue w' = w_queue w ++ ds
    ∧ let sanitizers := sanitizers_in_force gate_run w e s in
      match transform with
      | None => publication w' e sanitizers subscribers (Stack.snapshot s) ds
      | Some _ => publishes w' e transform sanitizers subscribers (Stack.snapshot s) ds
      end.

Fixpoint emitted_all (w : World) (es : list Event) (subscribers : list Callback) (w' : World) :
    Prop :=
  match es with
  | [] => w' = w
  | e :: es => ∃ w1, emitted w e None subscribers w1 ∧ emitted_all w1 es subscribers w'
  end.

Lemma calm_emitted w w0 e transform subscribers w' s :
  ready w s → calm w w0 → emitted w0 e transform subscribers w' →
  emitted w e transform subscribers w'.
Proof.
  intros Hs (Hf & Hr & Hq) (s' & ds & Hs0 & Hs' & Hf' & Hq' & Hpub).
  assert (s' = s) as ->.
  { destruct (Hr s Hs) as [_ H1 _ _], Hs0 as [_ H2 _ _]. congruence. }
  exists s, ds. split_and!; [done|done|by etrans|congruence|].
  by rewrite (proj1 (in_force_api gate_run w w0 Hf)) in Hpub.
Qed.

Lemma emitted_healthy w e transform subscribers w' :
  emitted w e transform subscribers w' → healthy w → healthy w' ∧ current w' = current w.
Proof.
  intros (s & ds & _ & Hs & Hf & _) (Ho & Hg & _). split; [split_and!|].
  - by rewrite (af_owner _ _ Hf).
  - by rewrite (af_global_poisoned _ _ Hf).
  - by exists s.
  - by apply af_current.
Qed.

Lemma queue_sanitized_emitted e subscribers w :
  healthy w →
  ∃ w', queue_sanitized_event_with_scope_stack e subscribers (current w) w
      = (Ok (accepts w subscribers), w')
    ∧ emitted w e None subscribers w' ∧ w_llm w' = w_llm w.
Proof.
  intros (_ & Hg & s & Hs). unfold queue_sanitized_event_with_scope_stack.
  mstep (snapshot_event_sanitizers_ok gate_run w s e Hs Hg).
  destruct (dispatch_sanitized_ok gate_run w s e (sanitizers_in_force gate_run w e s) subscribers
    (current w) s Hs (rd_stack _ _ Hs) (rd_wf _ _ Hs)) as (w' & ds & Hd & Hf & Hq & Hp).
  exists w'. split; [done|]. split; [|apply Hf]. exists s, ds.
  split_and!; [done|by eapply ready_frame|by apply frame_api|done|done].
Qed.

Lemma dispatch_transformed_emitted e t subscribers w s :
  healthy w → ready w s →
  ∃ b w', dispatch_transformed_event gate_run e t (sanitizers_in_force gate_run w e s)
      subscribers (current w) w = (Ok b, w')
    ∧ emitted w e (Some t) subscribers w'.
Proof.
  intros (_ & Hg & _) Hs. unfold dispatch_transformed_event.
  destruct (prepare_and_enqueue_spec gate_run w s e (Some t) (sanitizers_in_force gate_run w e s)
    subscribers (current w) s false Hs (rd_stack _ _ Hs) (rd_wf _ _ Hs))
    as (e' & inj & h' & w' & Heq & Hf & Hsame & Hh' & Hq).
  eexists _, w'. split; [exact Heq|]. eexists s, _.
  split_and!; [done|by eapply ready_frame|by apply frame_api|exact Hq|].
  unfold publishes. rewrite (fr_dispatcher _ _ Hf).
  destruct (w_dispatcher_ok w); [|done]. by eexists.
Qed.

Lemma queue_marks_emitted es subscribers w :
  healthy w →
  ∃ w', queue_marks es subscribers (current w) w = (Ok (), w')
    ∧ emitted_all w es subscribers w' ∧ healthy w' ∧ current w' = current w.
Proof.
  revert w. induction es as [|e es IH]; intros w Hw; [by exists w|]. cbn [queue_marks].
  destruct (queue_sanitized_emitted e subscribers w Hw) as (w1 & Heq & Hem & _).
  destruct (emitted_healthy _ _ _ _ _ Hem Hw) as [Hw1 Hc].
  mstep Heq. rewrite <-Hc. destruct (IH w1 Hw1) as (w' & Heq' & Hall & Hw' & Hc').
  exists w'. split_and!; [done|by exists w1|done|congruence].
Qed.

(** ** The conditional chain *)

Lemma guardrail_start_emitted n parent metadata input subscribers w :
  healthy w →
  let handle := State.guardrail_handle (now_v7 (w_uuids w)) (utc_now (w_clock w)) n parent
    metadata in
  ∃ w', emit_guardrail_scope_start n parent metadata input subscribers (current w) w
      = (Ok handle, w')
    ∧ emitted w (State.guardrail_start_event handle input) None subscribers w'.
Proof.
  intros Hw handle. unfold emit_guardrail_scope_start, bind at 1, fresh_uuid, bind at 1, now.
  set (w0 := set_uuids _ w). set (w1 := set_clock _ w0).
  assert (calm w w1) as Hcalm by (etrans; [apply calm_uuids|apply calm_clock]).
  pose proof (calm_healthy _ _ Hcalm Hw) as Hw1.
  assert (w_clock w0 = w_clock w) as -> by (by destruct w). fold handle.
  assert (current w1 = current w) as <- by by apply calm_current.
  destruct (queue_sanitized_emitted (State.guardrail_start_event handle input) subscribers w1 Hw1)
    as (w' & Heq & Hem & _).
  exists w'. split; [by mstep Heq|].
  destruct Hw as (_ & _ & s & Hs). by apply (calm_emitted w w1 _ _ _ _ s).
Qed.

Lemma guardrail_end_emitted handle output subscribers w :
  healthy w →
  ∃ t w', emit_guardrail_scope_end handle output subscribers (current w) w = (Ok (), w')
    ∧ emitted w (State.guardrail_end_event t handle output) None subscribers w'.
Proof.
  intros Hw. unfold emit_guardrail_scope_end, bind at 1, now.
  set (w1 := set_clock _ w). set (t := utc_now _).
  assert (calm w w1) as Hcalm by apply calm_clock.
  pose proof (calm_healthy _ _ Hcalm Hw) as Hw1.
  assert (current w1 = current w) as <- by by apply calm_current.
  destruct (queue_sanitized_emitted (State.guardrail_end_event t handle output) subscribers w1 Hw1)
    as (w' & Heq & Hem & _).
  exists t, w'. split; [by mstep Heq|].
  destruct Hw as (_ & _ & s & Hs). by apply (calm_emitted w w1 _ _ _ _ s).
Qed.

(** A stack that can be read and written. *)
Definition usable_stack (w : World) (h : N) : Prop :=
  h ∉ w_poisoned w ∧ ∃ s, w_heap w !! h = Some s ∧ Stack.wf s.

(** What a callback keeps: the stack in force, its health, and every other
    stack's. *)
Record keeps (w w' : World) : Prop := {
  kp_places : places w' = places w;
  kp_healthy : healthy w → healthy w';
  kp_usable : healthy w → ∀ h, usable_stack w h → usable_stack w' h;
}.

#[export] Instance keeps_preorder : PreOrder keeps.
Proof.
  split; [done|]. intros w1 w2 w3 [] []. split; [congruence|auto|auto 10].
Qed.

Lemma kp_current w w' : keeps w w' → current w' = current w.
Proof. intros Hk. by apply places_current, kp_places. Qed.

Lemma ready_usable w s : ready w s → usable_stack w (current w).
Proof. intros []. split; [done|]. by exists s. Qed.

(** Calls that leave the other stacks alone. *)
Lemma api_keeps w w' :
  api_frame w w' → (∀ s, ready w s → ∃ s', ready w' s') → keeps w w'.
Proof.
  intros Hf Hr. split; [by apply af_places|..].
  - intros (Ho & Hg & s & Hs). split_and!; [by rewrite (af_owner _ _ Hf)| |by eapply Hr].
    by rewrite (af_global_poisoned _ _ Hf).
  - intros (_ & _ & s & Hs) h [Hl (s0 & Hh & Hwf)].
    destruct (decide (h = current w)) as [->|Hne].
    + destruct (Hr s Hs) as [s' Hs']. rewrite <-(af_current _ _ Hf). by eapply ready_usable.
    + split; [by rewrite (af_poisoned _ _ Hf)|]. exists s0. split; [|done].
      by apply (af_heap _ _ Hf).
Qed.

Lemma emitted_keeps w e transform subscribers w' :
  emitted w e transform subscribers w' → keeps w w'.
Proof.
  intros (s & ds & _ & Hs & Hf & _). apply api_keeps; [done|by eauto].
Qed.

Lemma calm_keeps w w' : calm w w' → keeps w w'.
Proof. intros (Hf & Hr & _). apply api_keeps; [done|by eauto]. Qed.

(** A computation that keeps a healthy world, whatever its outcome. *)
Definition keeping {X} (m : M X) : Prop := ∀ w, healthy w → keeps w (m w).2.

Lemma keeping_always {X} (m : M X) : (∀ w, keeps w (m w).2) → keeping m.
Proof. intros Hm w _. apply Hm. Qed.

Lemma keeping_ret {X} (x : X) : keeping (ret x).
Proof. done. Qed.

Lemma keeping_fail {X} e : keeping (fail (X := X) e).
Proof. done. Qed.

Lemma keeping_panic {X} : keeping (panic (X := X)).
Proof. done. Qed.

Lemma keeping_gets {X} (f : World → X) : keeping (gets f).
Proof. done. Qed.

Lemma keeping_of_result {X} (r : result X) : keeping (of_result r).
Proof. done. Qed.

Lemma keeping_bind {X Y} (m : M X) (k : X → M Y) :
  keeping m → (∀ x, keeping (k x)) → keeping (bind m k).
Proof.
  intros Hm Hk w Hw. unfold bind. pose proof (Hm w Hw) as H1.
  destruct (m w) as [[x|e|] w']; cbn in *; [|done..].
  etrans; [exact H1|]. by apply Hk, (kp_healthy _ _ H1).
Qed.

Lemma keeping_match {X Y} (o : option X) (f : X → M Y) (m : M Y) :
  (∀ x, keeping (f x)) → keeping m →
  keeping (match o with Some x => f x | None => m end).
Proof. by destruct o. Qed.

Lemma keeping_if {X} (b : bool) (m1 m2 : M X) :
  keeping m1 → keeping m2 → keeping (if b then m1 else m2).
Proof. by destruct b. Qed.

Lemma keeping_deref h : keeping (deref h).
Proof. intros w _. unfold deref. by destruct (w_heap w !! h). Qed.

Lemma keeping_read_stack h : keeping (read_stack h).
Proof.
  apply keeping_bind; [done|]. intros b. apply keeping_if; [done|apply keeping_deref].
Qed.

Lemma keeping_read_stack_expect h : keeping (read_stack_expect h).
Proof.
  apply keeping_bind; [done|]. intros b. apply keeping_if; [done|apply keeping_deref].
Qed.

Lemma keeping_read_global : keeping read_global.
Proof. intros w _. unfold read_global. by destruct (w_global_poisoned w). Qed.

(** *** Several events, and steps that publish nothing in between *)

Definition marked (w : World) (es : list Event) (subscribers : list Callback) (w' : World) :
    Prop :=
  ∃ w0, emitted_all w es subscribers w0 ∧ calm w0 w'.

Lemma emitted_all_keeps w es subscribers w' : emitted_all w es subscribers w' → keeps w w'.
Proof.
  revert w. induction es as [|e es IH]; cbn; intros w; [by intros ->|].
  intros (w1 & Hem%emitted_keeps & Hall). etrans; [exact Hem|by apply IH].
Qed.

Lemma marked_keeps w es subscribers w' : marked w es subscribers w' → keeps w w'.
Proof.
  intros (w0 & Hall%emitted_all_keeps & Hc%calm_keeps). by etrans.
Qed.

Lemma marked_nil w subscribers w' : calm w w' → marked w [] subscribers w'.
Proof. intros Hc. by exists w. Qed.

Lemma marked_calm w es subscribers w1 w' :
  marked w es subscribers w1 → calm w1 w' → marked w es subscribers w'.
Proof. intros (w0 & Hall & Hc) Hc'. exists w0. split; [done|by etrans]. Qed.

Lemma calm_marked w w0 es subscribers w' :
  healthy w → calm w w0 → marked w0 es subscribers w' → marked w es subscribers w'.
Proof.
  intros (_ & _ & s & Hs) Hc (w1 & Hall & Hc'). destruct es as [|e es]; cbn in Hall.
  - subst w1. exists w. split; [done|by etrans].
  - destruct Hall as (w2 & Hem & Hall). exists w1. split; [|done]. exists w2. split; [|done].
    by apply (calm_emitted w w0 _ _ _ _ s).
Qed.

Lemma marked_cons w e es subscribers w1 w' :
  emitted w e None subscribers w1 → marked w1 es subscribers w' →
  marked w (e :: es) subscribers w'.
Proof. intros Hem (w0 & Hall & Hc). exists w0. split; [by exists w1|done]. Qed.

(** The verdict of one guardrail: its answer, an error if it unwound, and no
    result if it was dropped. *)
Definition verdict (what : string) (entry : Guardrail Callback)
    (answer : option (outcome FlowError (option string))) : outcome FlowError (option string) :=
  match answer with
  | Some (Ok decision) => Ok decision
  | Some (Err error) => Err error
  | Some Panic =>
      Err (Internal (what +:+ " conditional guardrail '" +:+ name entry +:+ "' panicked"))
  | None => Panic
  end.

Lemma caught_verdict what entry result :
  caught what (name entry) result = verdict what entry (Some result).
Proof. by destruct result. Qed.

Section Traces.
Context (what : string) (input : Json).
Context (ask : Callback → World → option (outcome FlowError (option string)) * World).
Context (subscribers : list Callback) (parent : option uuid) (metadata : option Json).

(** One guardrail evaluated from [w] to [w']: its scope is opened, its callback
    asked once and its scope closed with the verdict. *)
Definition evaluated (entry : Guardrail Callback)
    (w : World) (v : outcome FlowError (option string)) (w' : World) : Prop :=
  ∃ u t t' w1 answer w2,
    let handle := State.guardrail_handle u t (name entry) parent metadata in
    let start := State.guardrail_start_event handle input in
    let stop := State.guardrail_end_event t' handle (conditional_output v) in
    emitted w start None subscribers w1
    ∧ ask (payload entry) w1 = (answer, w2)
    ∧ v = verdict what entry answer
    ∧ emitted w2 stop None subscribers w' ∧ State.span_pair start stop.

(** Guardrails are evaluated in order up to the first one that does not allow
    the call; its verdict is the result. *)
Inductive conditional_trace :
    list (Guardrail Callback) → World → outcome FlowError (option string) → World → Prop :=
| trace_end w : conditional_trace [] w (Ok None) w
| trace_allow entry entries w w1 r w' :
    evaluated entry w (Ok None) w1 → conditional_trace entries w1 r w' →
    conditional_trace (entry :: entries) w r w'
| trace_stop entry entries w v w' :
    evaluated entry w v w' → v ≠ Ok None → conditional_trace (entry :: entries) w v w'.

Lemma conditional_chain_traced entries w :
  (∀ cb w, keeps w (ask cb w).2) → healthy w →
  let '(r, w') := conditional_chain what input ask entries subscribers parent metadata w in
  conditional_trace entries w r w' ∧ keeps w w'.
Proof.
  intros Hrun. revert w. induction entries as [|entry entries IH]; intros w Hw.
  { split; [constructor|done]. }
  cbn [conditional_chain]. unfold current_scope_stack. rewrite bind_gets. fold (current w).
  destruct (guardrail_start_emitted (name entry) parent metadata input subscribers w Hw)
    as (w1 & Hst & Hem1).
  mstep Hst. pose proof (emitted_keeps _ _ _ _ _ Hem1) as Hk1.
  unfold bind at 1. pose proof (Hrun (payload entry) w1) as Hk2.
  destruct (ask (payload entry) w1) as [answer w2] eqn:Hans. cbn in Hk2.
  assert (keeps w w2) as Hk02 by (by etrans). pose proof (kp_healthy _ _ Hk02 Hw) as Hw2.
  set (handle := State.guardrail_handle _ _ _ _ _) in *.
  rewrite <-(kp_current _ _ Hk02).
  destruct (guardrail_end_emitted handle (conditional_output (verdict what entry answer))
    subscribers w2 Hw2) as (t' & w3 & Hend & Hem3).
  pose proof (emitted_keeps _ _ _ _ _ Hem3) as Hk3.
  assert (keeps w w3) as Hk by (by etrans).
  assert (evaluated entry w (verdict what entry answer) w3) as Hev.
  { eexists _, _, t', w1, answer, w2. by split_and!. }
  destruct answer as [result|].
  - rewrite caught_verdict. mstep Hend.
    destruct (verdict what entry (Some result)) as [[reason|]|e|] eqn:Hv.
    + split; [by constructor|done].
    + specialize (IH w3 (kp_healthy _ _ Hk Hw)). unfold of_result, bind.
      destruct (conditional_chain _ _ _ _ _ _ _ w3) as [r w'].
      destruct IH as [Htr Hk']. split; [by eapply trace_allow|by etrans].
    + split; [by constructor|done].
    + split; [by constructor|done].
  - mstep Hend. split; [by constructor|done].
Qed.

End Traces.

(** ** Small steps of the APIs *)

Lemma timestamp_calm ts w :
  ∃ t w', timestamp_or_now utc_now ts w = (Ok t, w') ∧ calm w w'.
Proof.
  destruct ts as [t|]; [by exists t, w|]. eexists _, _. split; [done|apply calm_clock].
Qed.

Lemma resolve_parent_calm parent w s :
  ready w s → ∃ w', resolve_parent_uuid parent w = (Ok (causal_parent w s parent), w') ∧ calm w w'.
Proof.
  intros Hs. destruct (resolve_parent_quiet w s parent Hs) as (w' & Hp & Hf & Hq).
  exists w'. split; [done|by apply calm_frame].
Qed.

Lemma owner_ok w : healthy w → ensure_runtime_owner w = (Ok (), w).
Proof. intros [Ho _]. unfold ensure_runtime_owner. by rewrite Ho. Qed.

(** *** The steps before a span *)

Lemma conditional_snapshot_ok f kind w :
  healthy w → ∃ entries subscribers, conditional_snapshot f kind w = (Ok (entries, subscribers), w).
Proof.
  intros (_ & Hg & s & Hs). unfold conditional_snapshot, current_scope_stack. rewrite bind_gets.
  fold (current w). mstep (proj1 (proj2 (read_stack_ready w s Hs))).
  mstep (read_global_ok w Hg). by eexists _, _.
Qed.

Lemma check_call_keeps f kind what input ask n parent metadata w w' :
  (∀ cb w, keeps w (ask cb w).2) → healthy w →
  check_call f kind what input ask n parent metadata w = (Ok (), w') → healthy w'.
Proof.
  intros Hrun Hw. unfold check_call.
  destruct (conditional_snapshot_ok f kind w Hw) as (entries & subs & Hsn). mstep Hsn.
  pose proof Hw as (_ & _ & s & Hs).
  destruct (resolve_parent_calm parent w s Hs) as (w1 & Hp & Hc). mstep Hp.
  set (p := causal_parent _ _ _).
  pose proof (calm_healthy _ _ Hc Hw) as Hw1.
  pose proof (conditional_chain_traced what input ask subs p metadata entries w1 Hrun Hw1) as Htr.
  unfold bind at 1.
  destruct (conditional_chain _ _ _ _ _ _ _ w1) as [[[reason|]|e|] w2];
    [|intros [= <-]; by apply Htr|done|done].
  intros Heq. exfalso. revert Heq. unfold reject_call, bind.
  by destruct (ignore_err _ w2) as [[]].
Qed.

(** Only the active event differs. *)
Lemma set_task_keeps a e w : keeps w (set_task (task_scope_stack (w_binding w)) a e w).
Proof.
  destruct w as [? ? ? ? ? ? []]. split; [done| |done].
  intros (? & ? & s & []). split_and!; [done..|]. exists s. by split.
Qed.

Lemma with_anchored_keeps {X} e c (m : M X) : keeping m → keeping (with_anchored_active_event e c m).
Proof.
  intros Hm w Hw. unfold with_anchored_active_event, guarded.
  set (w1 := set_task _ _ _ w). assert (keeps w w1) as Hk1 by apply set_task_keeps.
  pose proof (Hm w1 (kp_healthy _ _ Hk1 Hw)) as Hk. destruct (m w1) as [r w2]. cbn in Hk |- *.
  etrans; [exact Hk1|]. etrans; [exact Hk|]. apply set_task_keeps.
Qed.

Lemma with_active_event_keeps {X} u c (m : M X) w :
  healthy w → keeping m → keeps w (with_active_event_trace_context u c m w).2.
Proof.
  intros Hw Hm. pose proof Hw as (_ & _ & s & Hs). unfold with_active_event_trace_context.
  destruct (identity_and_anchor_ok w s Hs) as [anchor Ha].
  unfold bind. rewrite Ha. by apply with_anchored_keeps.
Qed.

End Guardrails.

#[export] Hint Resolve keeping_ret keeping_fail keeping_panic keeping_gets keeping_of_result
  keeping_bind keeping_match keeping_if keeping_deref keeping_read_stack
  keeping_read_stack_expect keeping_read_global : relay.

Lemma demo_healthy : healthy demo_world.
Proof. split_and!; [done..|]. exists demo_stack. apply demo_ready. Qed.
