(* ===== verification/LlmRequests.v ===== *)
(** * The request side of an LLM call ([crates/runtime/src/api/shared.rs];
    [llm_request_intercepts] of [crates/runtime/src/api/llm.rs];
    recording on the world's recorders)

    Request intercepts around a request codec, the session and trace headers of
    the outgoing request, and the recorder of the managed call that intercepts
    write to.

    - [serialize] is serde_json's output for a contribution ([Optimization]).
    - A record runs from its reservation to its drop without another thread in
      between, so it never retries ([Optimization.record_returns]). *)

From stdpp Require Import base gmap strings list.
From S2P Require Import Prelude Text Errors Json Float64 LlmTypes Pricing Optimization Codec.
From S2P Require Import Registry Trace Events Registries ScopeStack ContextState Chains World.
From S2P Require Import LlmTransforms WorldFacts Context ScopeApi Guardrails.

(** ** Headers *)

Definition DYNAMO_SESSION_ID_HEADER_KEY : string := "x-dynamo-session-id".
Definition DYNAMO_PARENT_SESSION_ID_HEADER_KEY : string := "x-dynamo-parent-session-id".
Definition TRACEPARENT_HEADER_KEY : string := "traceparent".
Definition TRACESTATE_HEADER_KEY : string := "tracestate".

Definition set_headers (h : list (string * Json)) (r : LlmRequest) : LlmRequest :=
  {| headers := h; content := content r |}.

Definition SESSION_METADATA_KEYS : list string :=
  ["codex_subagent_session_id"; "subagent_session_id"; "subagent_id"; "session_id"].

Definition agent_scope_id (scope : ScopeHandle) : string :=
  match sh_metadata scope ≫= λ metadata, find_map (get_str metadata) SESSION_METADATA_KEYS with
  | Some id => id
  | None => sh_name scope
  end.

(** The two innermost agent scopes above the root. *)
Definition agent_session_ids (s : ScopeStack) : option (string * option string) :=
  match rev (filter (λ h, sh_scope_type h = Agent) (tail (stack s))) with
  | [] => None
  | current :: rest => Some (agent_scope_id current, agent_scope_id <$> head rest)
  end.

(** [None] also when the stack's lock is poisoned. *)
Definition resolve_agent_session_ids : M (option (string * option string)) :=
  let! h := current_scope_stack in
  let! poisoned := gets (λ w, bool_decide (h ∈ w_poisoned w)) in
  if poisoned : bool then ret None
  else let! s := deref h in ret (agent_session_ids s).

Definition add_session_headers (current : string) (parent : option string)
    (h : list (string * Json)) : list (string * Json) :=
  let h := obj_insert DYNAMO_SESSION_ID_HEADER_KEY (Str current) h in
  match parent with
  | Some parent => obj_insert DYNAMO_PARENT_SESSION_ID_HEADER_KEY (Str parent) h
  | None => obj_remove DYNAMO_PARENT_SESSION_ID_HEADER_KEY h
  end.

Definition inject_dynamo_session_ids (request : LlmRequest) : M LlmRequest :=
  let! ids := resolve_agent_session_ids in
  match ids with
  | None => ret request
  | Some (current, parent) =>
      ret (set_headers (add_session_headers current parent (headers request)) request)
  end.

Definition is_trace_header (n : string) : bool :=
  eq_ignore_ascii_case n TRACEPARENT_HEADER_KEY || eq_ignore_ascii_case n TRACESTATE_HEADER_KEY.

Definition inject_trace_context_value (traceparent : string) (tracestate : option string)
    (request : LlmRequest) : LlmRequest :=
  let h := filter (λ kv, is_trace_header kv.1 = false) (headers request) in
  let h := obj_insert TRACEPARENT_HEADER_KEY (Str traceparent) h in
  set_headers
    match tracestate with
    | Some tracestate => obj_insert TRACESTATE_HEADER_KEY (Str tracestate) h
    | None => h
    end request.

Section Requests.
Context `{!Otel}.
Context (now_v7 : nat → uuid) (utc_now : nat → timestamp).
Context (gate_run :
  Callback → list RuntimeRegistrationKind → string → outcome Empty_set (option string)).
Context (serialize : LlmOptimizationContribution → list N * bool).
Context (run_intercept : Callback → string → LlmRequest → option AnnotatedLlmRequest → World →
  outcome FlowError
    (LlmRequestInterceptOutcome AnnotatedLlmRequest LlmOptimizationContribution) * World).

(** ** Recorders *)

(** [LlmOptimizationRecorder::default()]. *)
Definition new_recorder : M N := λ w,
  let l := w_llm w in
  let r := l_next_recorder l in
  (Ok r, set_llm {| l_recorders := <[r := default_accumulator]> (l_recorders l);
                    l_next_recorder := (r + 1)%N;
                    l_current_recorder := l_current_recorder l;
                    l_pricing := l_pricing l |} w).

(** One critical section on a recorder. *)
Definition on_recorder {X} (r : N) (f : AccumulatorState → X * AccumulatorState) : M X := λ w,
  let '(x, s) := f (recorder_state r w) in (Ok x, set_recorder r s w).

Definition update_recorder (r : N) (f : AccumulatorState → AccumulatorState) : M unit :=
  on_recorder r (λ s, ((), f s)).

(** [commit_contribution] reads the clock only when it commits. *)
Definition commit_on (r : N) (c : LlmOptimizationContribution) (bytes : Z) (sequence : nat) :
    M ContributionCommit := λ w,
  let '(x, s) := commit_contribution (utc_now (w_clock w)) c bytes sequence (recorder_state r w) in
  let w := set_recorder r s w in
  (Ok x, match x with Committed => set_clock (S (w_clock w)) w | _ => w end).

(** [record] after its reservation; whether the contribution was accepted. *)
Definition record_reserved (r : N) (c : LlmOptimizationContribution) : M bool :=
  if negb (payload_schema_is_valid c) then
    update_recorder r note_invalid_payload_schema ;! ret false
  else
    let! id := fresh_uuid now_v7 in
    let! next := on_recorder r (λ s, (next_contribution_sequence s, s)) in
    match next with
    | NoSequence => ret false
    | LimitReached => update_recorder r note_contribution_limit_exceeded ;! ret false
    | Sequence n =>
        let c := set_identity id (Z.of_nat n) c in
        match bounded_json_size serialize c MAX_LLM_OPTIMIZATION_CONTRIBUTION_BYTES with
        | Ok bytes =>
            let! commit := commit_on r c bytes n in
            ret match commit with Committed => true | Retry | Rejected => false end
        | Err LimitExceeded => update_recorder r note_contribution_limit_exceeded ;! ret false
        | Err Serialization | Panic =>
            update_recorder r note_invalid_payload_schema ;! ret false
        end
    end.

Definition record_on (r : N) (c : LlmOptimizationContribution) : M bool :=
  let! reserved := on_recorder r reserve_record_attempt in
  if reserved : bool then
    let! accepted := record_reserved r c in
    update_recorder r drop_record_attempt ;! ret accepted
  else ret false.

Fixpoint record_all_on (r : N) (l : list LlmOptimizationContribution) : M unit :=
  match l with
  | [] => ret ()
  | c :: l =>
      let! accepted := record_on r c in
      let! closed := on_recorder r (λ s, (is_closed s, s)) in
      if negb accepted && closed then ret () else record_all_on r l
  end.

Definition set_current_recorder (r : option N) (w : World) : World :=
  let l := w_llm w in
  set_llm {| l_recorders := l_recorders l; l_next_recorder := l_next_recorder l;
             l_current_recorder := r; l_pricing := l_pricing l |} w.

(** [current_llm_optimization_recorder] and
    [record_llm_optimization_contribution]. *)
Definition current_llm_optimization_recorder : M (option N) :=
  gets (λ w, l_current_recorder (w_llm w)).

Definition record_llm_optimization_contribution (c : LlmOptimizationContribution) : M bool :=
  let! r := current_llm_optimization_recorder in
  match r with
  | Some r => record_on r c
  | None => ret false
  end.

(** The task-local is restored on every exit. *)
Definition scope_llm_optimization_recorder {X} (r : N) (future : M X) : M X := λ w,
  let previous := l_current_recorder (w_llm w) in
  guarded (set_current_recorder previous) future (set_current_recorder (Some r) w).

(** ** Request intercepts *)

Definition request_intercept_entries (s : ScopeStack) (g : NemoRelayContextState) :
    M (list (Intercept Callback)) :=
  let scope_locals := Stack.snapshot_scope_local_registries llm_request_intercepts s in
  let state := State.registry_snapshot [LlmRequestIntercept] g in
  gets (λ w, merge_intercept_entries (enabled gate_run w) (llm_request_intercepts (regs state))
    scope_locals LlmRequestIntercept).

Record InterceptedLlmRequest : Type := {
  ir_request : LlmRequest;
  ir_annotated : option AnnotatedLlmRequest;
  ir_pending_marks : list PendingMarkSpec;
  ir_contributions : list LlmOptimizationContribution;
}.

Definition run_request_intercepts_with_codec_inner (n : string) (request : LlmRequest)
    (codec : option LlmCodec) (recorder : option N) : M InterceptedLlmRequest :=
  let! annotated :=
    match codec with
    | Some codec => let! a := of_result (codec_decode codec request) in ret (Some a)
    | None => ret None
    end in
  let! scope_stack := current_scope_stack in
  let! scope_guard := read_stack scope_stack in
  let! g := read_global in
  let! entries := request_intercept_entries scope_guard g in
  let baseline := match entries with [] => None | _ => annotated end in
  let! outcome := llm_request_intercepts_snapshot_chain_with_recorder run_intercept
    ((λ r l w, (record_all_on r l w).2) <$> recorder) n request annotated entries
    (bool_decide (is_Some codec)) in
  let! request := inject_dynamo_session_ids (o_request outcome) in
  match codec, o_annotated outcome with
  | Some codec, Some annotated =>
      let! encoded := of_result (encode_owned_with_baseline codec annotated request
        (default annotated baseline)) in
      ret {| ir_request := encoded; ir_annotated := Some annotated;
             ir_pending_marks := o_marks outcome;
             ir_contributions := o_contributions outcome |}
  | _, annotated =>
      ret {| ir_request := request; ir_annotated := annotated;
             ir_pending_marks := o_marks outcome;
             ir_contributions := o_contributions outcome |}
  end.

Definition run_request_intercepts_with_codec_and_recorder (n : string) (request : LlmRequest)
    (codec : option LlmCodec) (recorder : N) : M InterceptedLlmRequest :=
  run_request_intercepts_with_codec_inner n request codec (Some recorder).

Definition capture_trace_context : M (string * option string) :=
  let! c := capture_w3c_trace_context in ret (w3c_traceparent c, w3c_tracestate c).

Definition inject_traceparent (request : LlmRequest) (span_uuid : uuid)
    (causal_parent_uuid : option uuid) : M (LlmRequest * W3cTraceContext) :=
  let! c := trace_context_for_managed_span span_uuid causal_parent_uuid in
  ret (inject_trace_context_value (w3c_traceparent c) (w3c_tracestate c) request, c).

(** An error is dropped, an unwind goes on. *)
Definition inject_captured_trace (request : LlmRequest) : M LlmRequest := λ w,
  match capture_trace_context w with
  | (Ok (traceparent, tracestate), w) =>
      (Ok (inject_trace_context_value traceparent tracestate request), w)
  | (Err _, w) => (Ok request, w)
  | (Panic, w) => (Panic, w)
  end.

Definition llm_request_intercepts_inner (n : string) (request : LlmRequest)
    (retain_source : bool) :
    M (LlmRequestInterceptOutcome AnnotatedLlmRequest LlmOptimizationContribution
       * option Json) :=
  ensure_runtime_owner ;!
  let! scope_stack := current_scope_stack in
  let! scope_guard := read_stack_expect scope_stack in
  let! g := read_global in
  let! entries := request_intercept_entries scope_guard g in
  let source :=
    match entries with
    | [] => None
    | _ => if retain_source then Some (content request) else None
    end in
  let! outcome := llm_request_intercepts_snapshot_chain_with_recorder run_intercept None n
    request None entries false in
  let! request := inject_dynamo_session_ids (o_request outcome) in
  let! request := inject_captured_trace request in
  ret ({| o_request := request; o_annotated := o_annotated outcome;
          o_marks := o_marks outcome; o_contributions := o_contributions outcome |}, source).

Definition llm_request_intercepts_api (n : string) (request : LlmRequest) :
    M (LlmRequestInterceptOutcome AnnotatedLlmRequest LlmOptimizationContribution) :=
  let! (outcome, _) := llm_request_intercepts_inner n request false in ret outcome.

Definition llm_request_intercepts_with_source (n : string) (request : LlmRequest) :
    M (LlmRequestInterceptOutcome AnnotatedLlmRequest LlmOptimizationContribution
       * option Json) :=
  llm_request_intercepts_inner n request true.

(** ** What the world's recorders do *)

Lemma calm_llm l w : calm w (set_llm l w).
Proof.
  split_and!; [by destruct w| |by destruct w]. intros s []. by destruct w.
Qed.

Lemma recorder_state_set r s w : recorder_state r (set_recorder r s w) = s.
Proof. unfold recorder_state, set_recorder. destruct w; cbn. by rewrite lookup_insert_eq. Qed.

Lemma set_recorder_twice r s s' w : set_recorder r s' (set_recorder r s w) = set_recorder r s' w.
Proof. unfold set_recorder. destruct w; cbn. by rewrite insert_insert_eq. Qed.

Lemma on_recorder_calm {X} r (f : AccumulatorState → X * AccumulatorState) w :
  ∃ w', on_recorder r f w = (Ok (f (recorder_state r w)).1, w') ∧ calm w w'
    ∧ recorder_state r w' = (f (recorder_state r w)).2.
Proof.
  unfold on_recorder. destruct (f (recorder_state r w)) as [x s]. eexists. split; [done|].
  split; [apply calm_llm|apply recorder_state_set].
Qed.

Lemma update_recorder_calm r f w :
  ∃ w', update_recorder r f w = (Ok (), w') ∧ calm w w'
    ∧ recorder_state r w' = f (recorder_state r w).
Proof. apply (on_recorder_calm r (λ s, ((), f s))). Qed.

Lemma record_reserved_refines r c w :
  ∃ w' a, record_reserved r c w = (Ok (bool_decide (is_Some a)), w') ∧ calm w w'
    ∧ run_record serialize 4 (utc_now (w_clock w)) (recorder_state r w)
        (RCheck c (now_v7 (w_uuids w)))
      = (drop_record_attempt (recorder_state r w'), RDone a).
Proof.
  unfold record_reserved. cbn [run_record record_step].
  assert (∀ w0 f, calm w w0 → recorder_state r w0 = recorder_state r w →
    ∃ w', (update_recorder r f ;! ret false) w0 = (Ok false, w') ∧ calm w w'
      ∧ recorder_state r w' = f (recorder_state r w)) as Hnote.
  { intros w0 f Hc Hs. destruct (update_recorder_calm r f w0) as (w' & Hu & Hc' & Hs').
    exists w'. split; [by mstep Hu|]. split; [by etrans|congruence]. }
  destruct (payload_schema_is_valid c); cbn [negb record_step].
  2: { destruct (Hnote w note_invalid_payload_schema) as (w' & -> & Hc & <-); [done..|].
       by exists w', None. }
  unfold fresh_uuid. unfold bind at 1. set (w0 := set_uuids _ w).
  assert (calm w w0) as Hc0 by apply calm_uuids.
  assert (recorder_state r w0 = recorder_state r w) as Hs0 by (by destruct w).
  unfold bind at 1, on_recorder at 1. rewrite Hs0.
  set (w1 := set_recorder r (recorder_state r w) w0).
  assert (calm w w1) as Hc1 by (etrans; [exact Hc0|apply calm_llm]).
  assert (recorder_state r w1 = recorder_state r w) as Hs1 by apply recorder_state_set.
  destruct (next_contribution_sequence (recorder_state r w)) as [| |n] eqn:Hn; cbn [record_step].
  - exists w1, None. by rewrite Hs1.
  - destruct (Hnote w1 note_contribution_limit_exceeded) as (w' & -> & Hc & <-); [done..|].
    by exists w', None.
  - destruct (bounded_json_size _ _ _) as [bytes|[]|]; cbn [record_step].
    + unfold bind, commit_on. rewrite Hs1.
      assert (w_clock w1 = w_clock w) as -> by (by destruct w).
      set (c' := set_identity _ _ c).
      pose proof (commit_no_retry (utc_now (w_clock w)) c' bytes n _ Hn) as Hr.
      destruct (commit_contribution _ _ _ _ _) as [[] s2]; [|done|].
      * eexists _, (Some c'). split; [done|]. split.
        { etrans; [exact Hc1|]. etrans; [apply calm_llm|apply calm_clock]. }
        f_equal. f_equal. symmetry. etrans; [|apply (recorder_state_set r s2 w1)].
        by destruct (set_recorder r s2 w1).
      * eexists _, None. split; [done|]. split; [etrans; [exact Hc1|apply calm_llm]|].
        f_equal. f_equal. symmetry. apply recorder_state_set.
    + destruct (Hnote w1 note_contribution_limit_exceeded) as (w' & -> & Hc & <-); [done..|].
      by exists w', None.
    + destruct (Hnote w1 note_invalid_payload_schema) as (w' & -> & Hc & <-); [done..|].
      by exists w', None.
    + destruct (Hnote w1 note_invalid_payload_schema) as (w' & -> & Hc & <-); [done..|].
      by exists w', None.
Qed.

(** Recording on the world's recorder is [Optimization.record] with the clock
    and the fresh identifier of the moment. *)
Lemma record_on_refines r c w :
  let '(accepted, s) := record serialize (utc_now (w_clock w)) (now_v7 (w_uuids w)) c
    (recorder_state r w) in
  ∃ w', record_on r c w = (Ok accepted, w') ∧ calm w w' ∧ recorder_state r w' = s.
Proof.
  unfold record, record_on. rewrite run_record_S. unfold record_step at 1.
  unfold bind at 1, on_recorder at 1.
  destruct (reserve_record_attempt (recorder_state r w)) as [[] s1].
  2: { eexists. split; [done|]. split; [apply calm_llm|apply recorder_state_set]. }
  set (w1 := set_recorder r s1 w).
  destruct (record_reserved_refines r c w1) as (w2 & a & Hr & Hc2 & Hrun).
  assert (recorder_state r w1 = s1) as Hs1 by apply recorder_state_set.
  assert (w_clock w1 = w_clock w) as Hcl by (by destruct w).
  assert (w_uuids w1 = w_uuids w) as Hu by (by destruct w).
  rewrite Hs1, Hcl, Hu in Hrun. rewrite Hrun. mstep Hr.
  destruct (update_recorder_calm r drop_record_attempt w2) as (w3 & Hd & Hc3 & Hs3).
  exists w3. split; [|split; [|done]].
  - mstep Hd. by destruct a.
  - etrans; [apply calm_llm|]. by etrans.
Qed.

Lemma record_on_calm r c w : ∃ b w', record_on r c w = (Ok b, w') ∧ calm w w'.
Proof.
  pose proof (record_on_refines r c w) as Href. destruct (record _ _ _ _ _) as [b s].
  destruct Href as (w' & Hr & Hc & _). by exists b, w'.
Qed.

Lemma record_all_calm r l w : ∃ w', record_all_on r l w = (Ok (), w') ∧ calm w w'.
Proof.
  revert w. induction l as [|c l IH]; intros w; cbn; [by exists w|].
  destruct (record_on_calm r c w) as (b & w1 & Hr & Hc1). mstep Hr.
  destruct (on_recorder_calm r (λ s, (is_closed s, s)) w1) as (w2 & Ho & Hc2 & _). mstep Ho.
  assert (calm w w2) as Hc by (by etrans).
  destruct (_ && _); [by exists w2|]. destruct (IH w2) as (w' & Heq & Hc').
  exists w'. split; [done|by etrans].
Qed.

(** ** What request intercepts keep *)

Lemma scope_recorder_keeping {X} r (m : M X) :
  keeping m → keeping (scope_llm_optimization_recorder r m).
Proof.
  intros Hm w Hw. unfold scope_llm_optimization_recorder, guarded.
  assert (keeps w (set_current_recorder (Some r) w)) as Hk1 by apply calm_keeps, calm_llm.
  pose proof (Hm _ (kp_healthy _ _ Hk1 Hw)) as Hk. destruct (m _) as [x w']. cbn in *.
  etrans; [exact Hk1|]. etrans; [exact Hk|apply calm_keeps, calm_llm].
Qed.

Lemma session_ids_keeping request : keeping (inject_dynamo_session_ids request).
Proof.
  apply keeping_bind; [|intros [[]|]; auto with relay].
  unfold resolve_agent_session_ids, current_scope_stack. auto 6 with relay.
Qed.

Lemma intercepts_keeping n request codec recorder :
  (∀ cb n r a w, keeps w (run_intercept cb n r a w).2) →
  keeping (run_request_intercepts_with_codec_inner n request codec recorder).
Proof.
  intros Hrun. unfold run_request_intercepts_with_codec_inner.
  apply keeping_bind; [apply keeping_match; auto with relay|intros annotated].
  apply keeping_bind; [unfold current_scope_stack; auto with relay|intros h].
  apply keeping_bind; [auto with relay|intros s]. apply keeping_bind; [auto with relay|intros g].
  apply keeping_bind; [unfold request_intercept_entries; auto with relay|intros entries].
  apply keeping_bind.
  { apply keeping_always. intros w. apply (llm_request_loop_preserves keeps); [done|].
    intros record l w0. destruct recorder as [r|]; [|done]. intros [= <-].
    destruct (record_all_calm r l w0) as (w' & -> & Hc). by apply calm_keeps. }
  intros out. apply keeping_bind; [apply session_ids_keeping|intros request'].
  destruct codec as [codec|], (o_annotated out); auto with relay.
Qed.

End Requests.

(** ** The headers of the outgoing request *)

Lemma obj_get_filter (p : string → bool) k m :
  obj_get k (filter (λ kv, p kv.1 = false) m) = if p k then None else obj_get k m.
Proof.
  induction m as [|[k' v] m IH]; [by destruct (p k)|]. rewrite filter_cons. cbn [obj_get fst].
  destruct (decide (p k' = false)) as [Hp|Hp]; cbn [obj_get]; rewrite IH;
    destruct (decide (k = k')) as [->|]; try done.
  - by rewrite Hp.
  - by destruct (p k').
Qed.

(** The headers of an outgoing managed request. Whatever the caller and
    the intercepts set, the provider sees exactly the trace context of the
    span (no other spelling of the two trace headers is left) and the session
    of the innermost agent, with the session of its parent agent or none; every
    other header, and the content, is the intercepted one. The two injections
    are composed as the pipeline composes them; a request codec, when there is
    one, encodes the request in between. *)
Theorem outgoing_headers_exact current parent traceparent tracestate request k :
  let injected := set_headers (add_session_headers current parent (headers request)) request in
  let outgoing := inject_trace_context_value traceparent tracestate injected in
  content outgoing = content request
  ∧ obj_get k (headers outgoing)
    = if decide (k = TRACEPARENT_HEADER_KEY) then Some (Str traceparent)
      else if decide (k = TRACESTATE_HEADER_KEY) then Str <$> tracestate
      else if is_trace_header k then None
      else if decide (k = DYNAMO_SESSION_ID_HEADER_KEY) then Some (Str current)
      else if decide (k = DYNAMO_PARENT_SESSION_ID_HEADER_KEY) then Str <$> parent
      else obj_get k (headers request).
Proof.
  intros injected outgoing. split; [done|].
  unfold outgoing, inject_trace_context_value. cbn [headers set_headers].
  assert (∀ m, obj_get k (match tracestate with
      | Some ts => obj_insert TRACESTATE_HEADER_KEY (Str ts) m | None => m end)
    = match tracestate with
      | Some ts => if decide (k = TRACESTATE_HEADER_KEY) then Some (Str ts) else obj_get k m
      | None => obj_get k m end) as -> by (intros m; destruct tracestate; [apply obj_get_insert|done]).
  rewrite obj_get_insert, (obj_get_filter is_trace_header). unfold injected, add_session_headers.
  cbn [headers set_headers].
  assert (∀ m, obj_get k (match parent with
      | Some p => obj_insert DYNAMO_PARENT_SESSION_ID_HEADER_KEY (Str p) m
      | None => obj_remove DYNAMO_PARENT_SESSION_ID_HEADER_KEY m end)
    = if decide (k = DYNAMO_PARENT_SESSION_ID_HEADER_KEY) then Str <$> parent else obj_get k m)
    as -> by (intros m; destruct parent; [apply obj_get_insert|apply obj_get_remove]).
  rewrite obj_get_insert.
  destruct (decide (k = TRACEPARENT_HEADER_KEY)) as [->|]; [by destruct tracestate|].
  destruct (decide (k = TRACESTATE_HEADER_KEY)) as [->|]; [by destruct tracestate|].
  destruct (decide (k = DYNAMO_SESSION_ID_HEADER_KEY)) as [->|]; by destruct tracestate.
Qed.
