(* ===== verification/Continuation.v ===== *)
(** * Middleware continuations
    ([crates/runtime/src/api/runtime/continuation_context.rs];
    [crates/types/src/api/runtime/llm_execution_context.rs])

    What an execution intercept is given besides its request: the continuation
    that runs the rest of the chain in an isolated copy of the caller's
    context, and codec handles, both usable only while the intercept runs.

    - The publication context and buffer of a captured context belong to the
      flush protocol ([Flush]) and are left out here.
    - The watch channel of a lease and the gate of the codec handles are flags:
      [revoked] and [active] are what they say at the moment of the call.
    - [in_task] is whether the caller runs inside a tokio task. *)

From stdpp Require Import base gmap strings list.
From S2P Require Import Prelude Text Errors Json LlmTypes Codec Optimization Registry Trace Events.
From S2P Require Import Registries ScopeStack ContextState Chains Execution World WorldFacts Context.
From S2P Require Import LlmTransforms ScopeApi Guardrails LlmRequests.

(** ** Codec handles *)

Definition inactive_execution_codec_error : FlowError :=
  InvalidArgument "LLM execution codec capability is no longer active".

Record LlmExecutionContext : Type := {
  xc_request_codec : LlmSanitizeRequestContext;
  xc_response_codec : option LlmSanitizeResponseContext;
}.

Definition for_non_streaming (request_codec : option LlmCodec)
    (response_codec : option LlmResponseCodec) : LlmExecutionContext := {|
  xc_request_codec := for_request_codec request_codec;
  xc_response_codec := Some (for_response_codec response_codec);
|}.

Definition for_streaming (request_codec : option LlmCodec) : LlmExecutionContext := {|
  xc_request_codec := for_request_codec request_codec; xc_response_codec := None;
|}.

(** [upgrade_active_codec] before an operation. *)
Definition upgrade_active_codec {X} (active : bool) (r : outcome FlowError X) :
    outcome FlowError X :=
  if active then r else Err inactive_execution_codec_error.

(** [RevocableRequestCodec] implements the required methods only. *)
Definition revocable_request_codec (active : bool) (identity : LlmCodecIdentity) (c : LlmCodec) :
    LlmCodec :=
  let facade :=
    custom_codec (λ request, upgrade_active_codec active (codec_decode c request))
      (λ annotated original, upgrade_active_codec active (codec_encode c annotated original)) in
  {| codec_identity := identity; codec_decode := codec_decode facade;
     codec_encode := codec_encode facade; encode_with_baseline := encode_with_baseline facade;
     encode_owned_with_baseline := encode_owned_with_baseline facade |}.

Definition revocable_response_codec (active : bool) (identity : LlmCodecIdentity)
    (c : LlmResponseCodec) : LlmResponseCodec := {|
  response_codec_identity := identity;
  allows_estimated_cost response := active && allows_estimated_cost c response;
  decode_response response := upgrade_active_codec active (decode_response c response);
|}.

(** The context an intercept is given by [lease], as it works while the gate is
    [active] and once the guard is dropped. *)
Definition lease (active : bool) (c : LlmExecutionContext) : LlmExecutionContext := {|
  xc_request_codec :=
    let request := xc_request_codec c in
    match rc_codec request with
    | Some codec =>
        for_request_codec (Some (revocable_request_codec active (rc_identity request) codec))
    | None => {| rc_identity := rc_identity request; rc_codec := None |}
    end;
  xc_response_codec :=
    (λ response,
      match sc_codec response with
      | Some codec =>
          for_response_codec (Some (revocable_response_codec active (sc_identity response) codec))
      | None => {| sc_identity := sc_identity response; sc_codec := None |}
      end) <$> xc_response_codec c;
|}.

(** ** Captured contexts *)

Record MiddlewareContinuationContext : Type := {
  mc_scope_stack : N;
  mc_active_event : option AnchoredActiveEvent;
  mc_active_event_trace_context : option W3cTraceContext;
  mc_optimization_recorder : option N;
}.

Definition capture : M MiddlewareContinuationContext :=
  let! scope_stack := current_scope_stack in
  let! active_event := capture_anchored_active_event in
  let! trace := active_event_trace_context in
  let! recorder := current_llm_optimization_recorder in
  ret {| mc_scope_stack := scope_stack; mc_active_event := active_event;
         mc_active_event_trace_context := trace; mc_optimization_recorder := recorder |}.

Definition isolated_with_scope_stack (scope_stack : N) (c : MiddlewareContinuationContext) :
    M MiddlewareContinuationContext :=
  let! scope_stack := snapshot_scope_stack scope_stack in
  let! active_event := rebind_opt (mc_active_event c) scope_stack in
  ret {| mc_scope_stack := scope_stack; mc_active_event := active_event;
         mc_active_event_trace_context := mc_active_event_trace_context c;
         mc_optimization_recorder := mc_optimization_recorder c |}.

Definition isolated (c : MiddlewareContinuationContext) : M MiddlewareContinuationContext :=
  isolated_with_scope_stack (mc_scope_stack c) c.

(** The stack a continuation call sees. *)
Definition visible_scope_stack (in_task : bool) (c : MiddlewareContinuationContext) : M N :=
  let! visible := current_context_scope_stack in
  match visible with
  | Some h => ret h
  | None =>
      let! active := scope_stack_active in
      if negb in_task && active then current_scope_stack else ret (mc_scope_stack c)
  end.

Definition isolated_for_current_invocation (in_task : bool) (c : MiddlewareContinuationContext) :
    M MiddlewareContinuationContext :=
  let! h := visible_scope_stack in_task c in isolated_with_scope_stack h c.

Definition run {X} (c : MiddlewareContinuationContext) (future : M X) : M X :=
  let scoped := with_task_scope_stack (mc_scope_stack c) future in
  let active :=
    match mc_active_event c with
    | Some e => with_anchored_active_event e (mc_active_event_trace_context c) scoped
    | None => scoped
    end in
  match mc_optimization_recorder c with
  | Some recorder => scope_llm_optimization_recorder recorder active
  | None => active
  end.

Definition run_sync {X} (c : MiddlewareContinuationContext) (callback : M X) : M X :=
  let! previous := install_thread_continuation_context (mc_scope_stack c) (mc_active_event c)
    (mc_active_event_trace_context c) in
  guarded (restore_thread previous) (with_scope_stack (mc_scope_stack c) callback).

(** ** Leases *)

Definition inactive_continuation_error : FlowError :=
  InvalidArgument "execution continuation is no longer active".

(** [MiddlewareContinuationLease::begin]. *)
Definition begin_invocation (revoked in_task : bool) (c : MiddlewareContinuationContext) :
    M MiddlewareContinuationContext :=
  if revoked then fail inactive_continuation_error
  else isolated_for_current_invocation in_task c.

(** [MiddlewareContinuationInvocation::invoke]; [settled] is whether the owning
    intercept settles before the downstream work does, which is then dropped. *)
Definition invoke {X} (revoked settled : bool) (c : MiddlewareContinuationContext)
    (callback : M X) : M X :=
  if revoked then fail inactive_continuation_error
  else λ w,
    let '(r, w) := run c callback w in
    (if settled then Err inactive_continuation_error else r, w).

(** [next] of an execution intercept. *)
Definition continue {X} (revoked settled in_task : bool) (c : MiddlewareContinuationContext)
    (callback : M X) : M X :=
  let! invocation := begin_invocation revoked in_task c in
  invoke false settled invocation callback.

(** ** Isolation *)

(** A computation that changes no stack but the current one, as the scope,
    tool and LLM calls do ([api_frame]). *)
Definition stays_in_stack {X} (m : M X) : Prop :=
  ∀ w h s, h ≠ current w → w_heap w !! h = Some s → w_heap (m w).2 !! h = Some s.

Lemma rebind_opt_ok e h s w :
  w_heap w !! h = Some s → Stack.wf s → ∃ e', rebind_opt e h w = (Ok e', w).
Proof.
  intros Hh (top & Ht)%top_total. destruct e as [e|]; [|by exists None].
  unfold rebind_opt, rebind_active_event_to_stack, bind, deref. rewrite Hh. cbn. rewrite Ht.
  by eexists.
Qed.

Lemma isolated_ok c h s w :
  heap_fresh w → w_heap w !! h = Some s → Stack.wf s →
  ∃ inv w1, isolated_with_scope_stack h c w = (Ok inv, w1) ∧ frame w w1
    ∧ w_binding w1 = w_binding w ∧ w_heap w !! mc_scope_stack inv = None
    ∧ mc_scope_stack inv ∉ w_poisoned w
    ∧ w_heap w1 !! mc_scope_stack inv = Some (Stack.snapshot s)
    ∧ mc_active_event_trace_context inv = mc_active_event_trace_context c
    ∧ mc_optimization_recorder inv = mc_optimization_recorder c.
Proof.
  intros Hf Hh Hwf. unfold isolated_with_scope_stack, snapshot_scope_stack.
  destruct (alloc_stack_spec (Stack.snapshot s) w Hf) as (h' & w1 & Hal & Hfr & _ & Hh' & Hnew & Hlock).
  assert (w_binding w1 = w_binding w) as Hb.
  { unfold alloc_stack in Hal. injection Hal as <- <-. by destruct w. }
  assert (Stack.wf (Stack.snapshot s)) as Hwf' by (by destruct s, Hwf).
  destruct (rebind_opt_ok (mc_active_event c) h' _ w1 Hh' Hwf') as [e He].
  unfold bind at 1, bind at 1, deref. rewrite Hh, Hal. mstep He.
  eexists _, w1. by split_and!.
Qed.

(** The stack that work under a context sees: an override takes precedence
    over the task's. *)
Definition run_stack (c : MiddlewareContinuationContext) (w : World) : N :=
  default (mc_scope_stack c) (scope_stack_override (w_binding w)).

(** Running under a context puts its stack in place and takes it away again. *)
Lemma run_spec {X} c (m : M X) w :
  ∃ w0, current w0 = run_stack c w ∧ w_heap w0 = w_heap w
    ∧ (run c m w).1 = (m w0).1 ∧ w_heap (run c m w).2 = w_heap (m w0).2
    ∧ task_scope_stack (w_binding (run c m w).2) = task_scope_stack (w_binding w).
Proof.
  unfold run.
  assert (∀ w,
    ∃ w0, current w0 = run_stack c w ∧ w_heap w0 = w_heap w
      ∧ (with_task_scope_stack (mc_scope_stack c) m w).1 = (m w0).1
      ∧ w_heap (with_task_scope_stack (mc_scope_stack c) m w).2 = w_heap (m w0).2
      ∧ task_scope_stack (w_binding (with_task_scope_stack (mc_scope_stack c) m w).2)
        = task_scope_stack (w_binding w)) as Htask.
  { clear w. intros w. unfold with_task_scope_stack, guarded.
    exists (set_task (Some (mc_scope_stack c)) (active_event (w_binding w))
      (active_event_trace (w_binding w)) w). split_and!.
    - unfold run_stack, current, current_scope_stack_of. destruct w as [? ? ? ? ? ? [[]]]; by cbn.
    - by destruct w.
    - by destruct (m _).
    - destruct (m _) as [r w']. by destruct w'.
    - destruct (m _) as [r w']. by destruct w'. }
  set (active := match mc_active_event c with Some e => _ | None => _ end).
  assert (∀ w,
    ∃ w0, current w0 = run_stack c w ∧ w_heap w0 = w_heap w
      ∧ (active w).1 = (m w0).1 ∧ w_heap (active w).2 = w_heap (m w0).2
      ∧ task_scope_stack (w_binding (active w).2) = task_scope_stack (w_binding w)) as Hact.
  { clear w. intros w. unfold active. destruct (mc_active_event c) as [e|]; [|by apply Htask].
    unfold with_anchored_active_event, guarded. set (w1 := set_task _ _ _ w).
    destruct (Htask w1) as (w0 & Hc & Hh & Hr & Hh' & Ht). exists w0.
    destruct (with_task_scope_stack _ m w1) as [r w']. cbn in *. split_and!; [|  |done|..].
    - rewrite Hc. by destruct w as [? ? ? ? ? ? []].
    - rewrite Hh. by destruct w.
    - rewrite <-Hh'. by destruct w'.
    - destruct w', w; cbn in *. done. }
  destruct (mc_optimization_recorder c) as [r|]; [|by apply Hact].
  unfold scope_llm_optimization_recorder, guarded. set (w1 := set_current_recorder _ w).
  destruct (Hact w1) as (w0 & Hc & Hh & Hr & Hh' & Ht). exists w0.
  destruct (active w1) as [x w'].
  cbn in *. split_and!; [| |done|..].
  - rewrite Hc. by destruct w as [? ? ? ? ? ? []].
  - rewrite Hh. by destruct w.
  - rewrite <-Hh'. by destruct w'.
  - destruct w', w; cbn in *. done.
Qed.

(** What taking the copy adds to the heap. *)
Lemma isolated_heap c h s w inv w1 :
  w_heap w !! h = Some s → Stack.wf s → isolated_with_scope_stack h c w = (Ok inv, w1) →
  w_heap w1 = <[mc_scope_stack inv := Stack.snapshot s]> (w_heap w).
Proof.
  intros Hh Hwf Hiso.
  unfold isolated_with_scope_stack, bind at 1, snapshot_scope_stack, bind at 1, deref in Hiso.
  rewrite Hh in Hiso. unfold alloc_stack in Hiso.
  destruct (rebind_opt_ok (mc_active_event c) (w_next_stack w) (Stack.snapshot s)
    (set_next_stack (w_next_stack w + 1)%N
       (set_heap (<[w_next_stack w := Stack.snapshot s]> (w_heap w)) w))) as [e He];
    [destruct w; apply lookup_insert_eq|by destruct s, Hwf|].
  unfold bind in Hiso. rewrite He in Hiso. injection Hiso as <- <-. by destruct w.
Qed.

(** C13: a continuation runs isolated, and only while its intercept does. On a
    live lease and with no scope-stack override installed, [next] gives the
    rest of the chain a fresh copy of the stack that is visible at the call;
    whatever scopes the downstream work opens, closes or registers on, no
    stack of the caller changes. Under an override the downstream work runs
    on the overriding stack itself, and changes no other. In both cases the
    caller's task stack is back in place afterwards, however the work ends.
    Once the intercept has settled, [next] is refused without effect, and
    downstream work that is still running is cut off with the same error. *)
Theorem continuation_isolated {X} in_task c w h s (m : M X) :
  visible_scope_stack in_task c w = (Ok h, w) → w_heap w !! h = Some s → Stack.wf s →
  heap_fresh w → stays_in_stack m →
  (∃ w0 w', continue false false in_task c m w = ((m w0).1, w')
     ∧ w_heap w' = w_heap (m w0).2
     ∧ task_scope_stack (w_binding w') = task_scope_stack (w_binding w)
     ∧ match scope_stack_override (w_binding w) with
       | None =>
           current w0 ∉ dom (w_heap w)
           ∧ w_heap w0 = <[current w0 := Stack.snapshot s]> (w_heap w)
           ∧ (∀ h0 s0, w_heap w !! h0 = Some s0 → w_heap w' !! h0 = Some s0)
       | Some o =>
           current w0 = o
           ∧ (∀ h0 s0, h0 ≠ o → w_heap w !! h0 = Some s0 → w_heap w' !! h0 = Some s0)
       end)
  ∧ (∀ settled, continue true settled in_task c m w = (Err inactive_continuation_error, w))
  ∧ (continue false true in_task c m w).1 = Err inactive_continuation_error.
Proof.
  intros Hvis Hh Hwf Hf Hm.
  destruct (isolated_ok c h s w Hf Hh Hwf) as (inv & w1 & Hiso & Hfr & Hb & Hnew & Hlock & Hsnap & _).
  pose proof (isolated_heap _ _ _ _ _ _ Hh Hwf Hiso) as Hheap.
  assert (begin_invocation false in_task c w = (Ok inv, w1)) as Hbegin.
  { unfold begin_invocation, isolated_for_current_invocation. by mstep Hvis. }
  split_and!.
  - unfold continue. destruct (run_spec inv m w1) as (w0 & Hc & Hh0 & Hr & Hh' & Ht).
    mstep Hbegin. unfold invoke. destruct (run inv m w1) as [r w'] eqn:Hrun. cbn in Hr, Hh', Ht.
    exists w0, w'. split; [by rewrite Hr|]. split; [done|]. split; [by rewrite Ht, Hb|].
    assert (∀ h0 s0, h0 ≠ current w0 → w_heap w !! h0 = Some s0 → w_heap w' !! h0 = Some s0) as Hold.
    { intros h0 s0 Hne Hs0. rewrite Hh'. apply Hm; [done|]. rewrite Hh0. by apply (fr_heap _ _ Hfr). }
    unfold run_stack in Hc. rewrite Hb in Hc.
    destruct (scope_stack_override (w_binding w)) as [o|]; cbn in Hc; rewrite Hc in *.
    + split; [done|exact Hold].
    + split_and!; [by apply not_elem_of_dom|by rewrite Hh0|]. intros h0 s0 Hs0. apply Hold; congruence.
  - done.
  - unfold continue. mstep Hbegin. unfold invoke. by destruct (run inv m w1).
Qed.

(** ** The leases of the execution chains *)

(** [in_task] is whether the caller runs in a Tokio task. *)
Definition world_leases (in_task : bool) : Leases World := {|
  Captured := MiddlewareContinuationContext;
  capture_lease := capture;
  begin_lease := begin_invocation false in_task;
  invoke_lease X := invoke false false;
|}.

Lemma thread_event_keeping : keeping thread_active_event.
Proof.
  intros w (_ & _ & s & Hs). destruct (thread_active_event_reanchored w s Hs) as (e & w' & -> & Hr & _).
  destruct (reanchored_frame _ _ Hr) as (Hf & Hq & _). by apply calm_keeps, calm_frame.
Qed.

Lemma capture_keeping : keeping capture.
Proof.
  unfold capture, current_scope_stack, capture_anchored_active_event, active_event_trace_context.
  apply keeping_bind; [auto with relay|intros h].
  apply keeping_bind; [apply keeping_bind; [auto with relay|intros b; apply keeping_match]|intros e];
    [auto with relay|apply thread_event_keeping|].
  apply keeping_bind; [apply keeping_bind; [auto with relay|intros b; apply keeping_match]|intros c];
    [auto with relay| |].
  { apply keeping_bind; [apply thread_event_keeping|intros []; auto with relay]. }
  unfold current_llm_optimization_recorder. apply keeping_bind; auto with relay.
Qed.

Lemma capture_stack w c w' : capture w = (Ok c, w') → mc_scope_stack c = current w.
Proof.
  unfold capture, current_scope_stack. rewrite bind_gets. unfold bind.
  destruct (capture_anchored_active_event w) as [[]?]; [|done..].
  destruct (active_event_trace_context _) as [[]?]; [|done..]. cbn. by intros [= <- <-].
Qed.

(** A computation under another task stack. *)
Lemma with_task_stack_keeps {X} h (m : M X) w :
  healthy w → usable_stack w h → keeping m → keeps w (with_task_scope_stack h m w).2.
Proof.
  intros Hw Hh Hm. unfold with_task_scope_stack, guarded. set (w1 := set_task _ _ _ w).
  assert (healthy w1) as Hw1.
  { destruct Hw as (Ho & Hg & s & Hs). split_and!; [by destruct w..|].
    unfold w1, set_task. destruct w as [? ? ? ? ? ? []], scope_stack_override as [h0|].
    - exists s. by destruct Hs.
    - destruct Hh as [Hl (s0 & Hs0 & Hwf)]. exists s0. destruct Hs. by split. }
  pose proof (Hm w1 Hw1) as Hk. destruct (m w1) as [r w2]. cbn in Hk |- *.
  pose proof (kp_places _ _ Hk) as Hp.
  assert (∀ h, usable_stack w h → usable_stack w2 h) as Hus.
  { intros h0 Hh0. apply (kp_usable _ _ Hk Hw1). by destruct w. }
  assert (places (set_task (task_scope_stack (w_binding w)) (active_event (w_binding w2))
    (active_event_trace (w_binding w2)) w2) = places w) as Hpl.
  { unfold places, places_of in Hp |- *.
    destruct w as [? ? ? ? ? ? []], w2 as [? ? ? ? ? ? []]; cbn in *. by injection Hp as -> _ ->. }
  split; [done| |].
  - intros (_ & _ & s & Hs). pose proof (kp_healthy _ _ Hk Hw1) as (Ho2 & Hg2 & s2 & Hs2).
    split_and!; [by destruct w2..|]. apply ready_usable, Hus in Hs as [Hl (s' & Hs' & Hwf)].
    exists s'. pose proof (rd_fresh _ _ Hs2) as Hf. apply places_current in Hpl.
    split; [by destruct w2| |done|]; rewrite Hpl; by destruct w2.
  - intros _ h0 Hh0%Hus. by destruct w2.
Qed.

(** [current] and the captured stack are all a continuation can see. *)
Lemma visible_stack_usable in_task c w :
  healthy w → usable_stack w (mc_scope_stack c) →
  ∃ h, visible_scope_stack in_task c w = (Ok h, w) ∧ usable_stack w h.
Proof.
  intros (_ & _ & s & Hs) Hc. apply ready_usable in Hs as Hcur.
  unfold visible_scope_stack, current_context_scope_stack, scope_stack_active, current_scope_stack.
  rewrite bind_gets. revert Hcur. unfold current, current_scope_stack_of.
  destruct (scope_stack_override (w_binding w)) as [h|] eqn:Ho; [by exists h|].
  destruct (task_scope_stack (w_binding w)) as [h|] eqn:Ht; [by exists h|].
  rewrite bind_gets. intros Hcur. destruct (_ && _); [|by exists (mc_scope_stack c)].
  eexists. split; [done|]. unfold current_scope_stack_of. by rewrite Ho, Ht.
Qed.

Lemma run_keeps {X} c (m : M X) w :
  healthy w → usable_stack w (mc_scope_stack c) → keeping m → keeps w (run c m w).2.
Proof.
  intros Hw Hc Hm. unfold run.
  set (active := match mc_active_event c with Some e => _ | None => _ end).
  assert (∀ w, healthy w → usable_stack w (mc_scope_stack c) → keeps w (active w).2) as Hact.
  { clear w Hw Hc. intros w Hw Hc. unfold active.
    destruct (mc_active_event c) as [e|]; [|by apply with_task_stack_keeps].
    unfold with_anchored_active_event, guarded. set (w1 := set_task _ _ _ w).
    assert (keeps w w1) as Hk1 by apply set_task_keeps.
    pose proof (with_task_stack_keeps _ m w1 (kp_healthy _ _ Hk1 Hw) (kp_usable _ _ Hk1 Hw _ Hc) Hm)
      as Hk. destruct (with_task_scope_stack _ m w1) as [r w2]. cbn in Hk |- *.
    etrans; [exact Hk1|]. etrans; [exact Hk|]. apply set_task_keeps. }
  destruct (mc_optimization_recorder c) as [r|]; [|by apply Hact].
  unfold scope_llm_optimization_recorder, guarded.
  assert (keeps w (set_current_recorder (Some r) w)) as Hk1 by apply calm_keeps, calm_llm.
  pose proof (Hact _ (kp_healthy _ _ Hk1 Hw) (kp_usable _ _ Hk1 Hw _ Hc)) as Hk.
  destruct (active _) as [x w']. cbn in *.
  etrans; [exact Hk1|]. etrans; [exact Hk|apply calm_keeps, calm_llm].
Qed.

Lemma continue_keeps {X} in_task c (m : M X) w :
  healthy w → usable_stack w (mc_scope_stack c) → keeping m →
  keeps w (continue false false in_task c m w).2.
Proof.
  intros Hw Hc Hm. destruct (visible_stack_usable in_task c w Hw Hc) as (h & Hv & _ & s & Hh & Hwf).
  pose proof Hw as (_ & _ & s0 & Hs0).
  destruct (isolated_ok c h s w (rd_fresh _ _ Hs0) Hh Hwf)
    as (inv & w1 & Hiso & Hfr & Hb & Hnew & Hlock & Hsnap & _).
  unfold continue, begin_invocation, isolated_for_current_invocation.
  rewrite (bind_ok _ _ w inv w1) by (by mstep Hv). unfold invoke.
  assert (keeps w w1) as Hk1.
  { apply api_keeps; [by apply frame_api|]. intros s' Hs'. exists s'. by eapply ready_frame. }
  assert (usable_stack w1 (mc_scope_stack inv)) as Hus.
  { split.
    - by rewrite (fr_poisoned _ _ Hfr).
    - exists (Stack.snapshot s). split; [done|]. by destruct s, Hwf. }
  pose proof (run_keeps inv m w1 (kp_healthy _ _ Hk1 Hw) Hus Hm) as Hk.
  destruct (run inv m w1) as [r w']. cbn in *. by etrans.
Qed.

#[export] Instance world_lease_laws in_task :
  LeaseLaws (Leases0 := world_leases in_task) keeps healthy.
Proof.
  refine (Build_LeaseLaws World keeps healthy (world_leases in_task)
    (λ (c : MiddlewareContinuationContext) w, usable_stack w (mc_scope_stack c)) _ _ _ _).
  - intros w w' Hk. apply Hk.
  - intros c w w' Hk Hw. by apply Hk.
  - intros w Hw. pose proof (capture_keeping w Hw) as Hk. split; [exact Hk|].
    intros c Hc. cbn [capture_lease world_leases] in Hc |- *.
    destruct (capture w) as [x w'] eqn:Hcap. cbn [fst snd] in Hc, Hk |- *. rewrite Hc in Hcap.
    rewrite (capture_stack _ _ _ Hcap). apply Hk; [done|]. destruct Hw as (_ & _ & s & Hs).
    by eapply ready_usable.
  - intros X c m w Hw Hc Hm. by apply (continue_keeps in_task).
Defined.

Lemma task_scope_push_stays handle : stays_in_stack (task_scope_push handle).
Proof.
  intros w h s Hne Hh. unfold task_scope_push, current_scope_stack. rewrite bind_gets.
  unfold read_stack_expect, deref, bind, gets. fold (current w).
  destruct (bool_decide _); [done|]. destruct (w_heap w !! current w); [|done].
  cbn. destruct w; cbn in *. by rewrite lookup_insert_ne.
Qed.

Definition demo_scope : ScopeHandle := demo_child 7 1 Function.

(** An intercept that calls [next] around a scope push. *)
Definition demo_continuation : MiddlewareContinuationContext := {|
  mc_scope_stack := current demo_world; mc_active_event := None;
  mc_active_event_trace_context := None; mc_optimization_recorder := None;
|}.

Lemma continuation_isolated_witness :
  ∃ w', continue false false false demo_continuation (task_scope_push demo_scope) demo_world
      = (Ok (), w')
    ∧ w_heap w' !! current demo_world = Some demo_stack.
Proof.
  destruct (continuation_isolated false demo_continuation demo_world (current demo_world)
    demo_stack (task_scope_push demo_scope)) as ((w0 & w' & Heq & _ & _ & _ & _ & Hold) & _ & _).
  - vm_compute. reflexivity.
  - apply demo_ready.
  - apply demo_ready.
  - apply demo_ready.
  - apply task_scope_push_stays.
  - exists w'. split; [|by apply Hold, demo_ready].
    assert ((continue false false false demo_continuation (task_scope_push demo_scope)
      demo_world).1 = Ok ()) as Hok by (vm_compute; reflexivity).
    rewrite Heq in Hok |- *. by apply (f_equal (λ r, (r, w'))) in Hok.
Defined.

(** Under an override the same push lands on the caller's stack. *)
Lemma override_not_isolated :
  let w := set_override (Some (current demo_world)) demo_world in
  w_heap (continue false false false demo_continuation (task_scope_push demo_scope) w).2 !! current w
  ≠ Some demo_stack.
Proof. vm_compute. discriminate. Qed.
