(* ===== verification/ToolApi.v ===== *)
(** * The tool API ([crates/runtime/src/api/tool.rs]; the conditional chain of
    [crates/runtime/src/api/runtime/state.rs])

    Manual tool spans ([tool_call], [tool_call_end]) and the managed pipeline
    [tool_call_execute]: conditional guardrails, request intercepts, the start
    event, execution intercepts around the tool, the end event.

    - What callbacks do is a parameter of the section; [Guardrails] says how
      unwinds, dropped futures and drop guards are represented.
    - [register_pending_publication] only makes flushes wait ([Flush]). *)

From stdpp Require Import base gmap strings list.
From S2P Require Import Prelude Text Errors Json SkillLoad Registry Trace Events Registries.
From S2P Require Import ScopeStack ContextState Chains Execution World WorldFacts Context.
From S2P Require Import Delivery ScopeApi Guardrails LlmRequests Continuation.

(** ** Parameters *)

Record ToolCallParams : Type := {
  tc_name : string;
  tc_args : Json;
  tc_parent : option ScopeHandle;
  tc_attributes : Z;
  tc_data : option Json;
  tc_metadata : option Json;
  tc_tool_call_id : option string;
  tc_timestamp : option timestamp;
}.

Record ToolCallExecuteParams : Type := {
  tx_name : string;
  tx_args : Json;
  tx_func : Json → World → result ToolExecutionResult * World;
  tx_parent : option ScopeHandle;
  tx_attributes : Z;
  tx_data : option Json;
  tx_metadata : option Json;
  tx_tool_call_id : option string;
}.

Record ToolCallEndParams : Type := {
  te_handle : ToolHandle;
  te_execution_result : ToolExecutionResult;
  te_data : option Json;
  te_metadata : option Json;
  te_timestamp : option timestamp;
}.

(** ** Tool results ([crates/types/src/codec/tool.rs]) *)

Definition TOOL_RESULT_SCHEMA : string := "nemo.relay.tool_result@1".

Definition projected_tool_result (value : Json) : option (Json * bool) :=
  schema ← get value "schema";
  schema ← as_str schema;
  if negb (bool_decide (schema = TOOL_RESULT_SCHEMA)) then None
  else
    content ← get value "content";
    if match content with Null | Str _ | Array _ => false | _ => true end then None
    else
      is_error ← get value "is_error";
      is_error ← as_bool is_error;
      result ← get value "result";
      Some (content, is_error).

Definition tool_result_metadata (metadata : option Json) (result : Json) : option Json :=
  if match projected_tool_result result with Some (_, is_error) => is_error | None => false end
  then metadata_with_otel_status metadata "ERROR" None
  else metadata.

Section ToolApi.
Context `{!Otel}.
Context (now_v7 : nat → uuid) (utc_now : nat → timestamp).
Context (gate_run :
  Callback → list RuntimeRegistrationKind → string → outcome Empty_set (option string)).
Context (shell_split : string → option (list string)).
Context (run_conditional : Callback → string → Json → World →
  option (outcome FlowError (option string)) * World).
Context (run_request : Callback → string → Json → World → outcome FlowError Json * World).
Context (run_execution : Callback → ToolExecutionContext →
  Prog World Json ToolExecutionResult ToolExecutionInterceptOutcome).
Context (in_task : bool).

#[local] Notation queue_sanitized_event_with_scope_stack :=
  (queue_sanitized_event_with_scope_stack gate_run).
#[local] Notation queue_marks := (queue_marks gate_run).
#[local] Notation guardrail_entries := (guardrail_entries gate_run).
#[local] Notation emitted := (emitted gate_run).
#[local] Notation emitted_all := (emitted_all gate_run).

(** ** Conditional guardrails *)

Definition conditional_input (n : string) : Json :=
  json_obj [("kind", Str "tool_conditional_execution"); ("target_name", Str n)].

Definition tool_conditional_execution_snapshot_chain (n : string) (args : Json)
    (entries : list (Guardrail Callback)) (subscribers : list Callback)
    (parent_uuid : option uuid) (metadata : option Json) : M (option string) :=
  conditional_chain now_v7 utc_now gate_run "tool" (conditional_input n)
    (λ cb, run_conditional cb n args) entries subscribers parent_uuid metadata.

(** ** Opening a tool span *)

(** One ["skill.load"] mark per load, with a fresh uuid each. *)
Fixpoint skill_marks (handle : ToolHandle) (loads : list SkillLoad) : M (list Event) :=
  match loads with
  | [] => ret []
  | load :: loads =>
      let! u := fresh_uuid now_v7 in
      let mark := Mark {|
        me_base := base_event (Some (th_uuid handle)) u (th_started_at handle) "skill.load"
          (Some (json_obj [("skill_name", Str (skill_name load))])) None
          (Some (json_obj [("skill_load_source", Str (source_as_str (skill_source load)));
                           ("tool_name", Str (th_name handle))]));
        me_category := None; me_profile := None |} in
      let! marks := skill_marks handle loads in
      ret (mark :: marks)
  end.

(** [tool_call] and [tool_call_with_subscriber_snapshot] from the resolution of
    skill loads on; [parent] computes the parent where the function does. *)
Definition open_tool_span (params : ToolCallParams) (parent : M (option uuid))
    (entries : list (Guardrail Callback)) (subscribers : list Callback) (scope_stack : N) :
    M ToolHandle :=
  let skill_loads :=
    resolve_skill_loads shell_split (tc_name params) (tc_args params) (tc_metadata params) in
  let raw_args := tc_args params in
  let! _ := read_global in
  let! parent_uuid := parent in
  let! u := fresh_uuid now_v7 in
  let! started_at := timestamp_or_now utc_now (tc_timestamp params) in
  let handle := State.create_tool_handle u started_at (tc_name params) parent_uuid
    (tc_attributes params) (tc_data params) (tc_metadata params) (tc_tool_call_id params)
    (tc_timestamp params) in
  let event := State.build_tool_start_event handle None in
  let! marks := skill_marks handle skill_loads in
  let! event_sanitizers := snapshot_event_sanitizers gate_run event scope_stack in
  dispatch_transformed_event gate_run event
    (ToolRequestTransform (th_name handle) raw_args entries) event_sanitizers subscribers
    scope_stack ;!
  queue_marks marks subscribers scope_stack ;!
  ret handle.

Definition tool_call (params : ToolCallParams) : M ToolHandle :=
  ensure_runtime_owner ;!
  let! scope_stack := current_scope_stack in
  let! scope_guard := read_stack scope_stack in
  let scope_subscribers := Stack.collect_scope_local_subscribers scope_guard in
  let! subscribers := snapshot_event_subscribers gate_run scope_subscribers in
  let! g := read_global in
  let! entries := guardrail_entries F_tool_sanitize_request_guardrails
    ToolSanitizeRequestGuardrail scope_guard g in
  open_tool_span params (resolve_parent_uuid (tc_parent params)) entries subscribers scope_stack.

Definition tool_call_with_subscriber_snapshot (params : ToolCallParams) :
    M (ToolHandle * list Callback) :=
  ensure_runtime_owner ;!
  let! parent_uuid := resolve_parent_uuid (tc_parent params) in
  let! scope_stack := current_scope_stack in
  let! scope_guard := read_stack_expect scope_stack in
  let scope_subscribers := Stack.collect_scope_local_subscribers scope_guard in
  let! subscribers := snapshot_event_subscribers gate_run scope_subscribers in
  let! g := read_global in
  let! entries := guardrail_entries F_tool_sanitize_request_guardrails
    ToolSanitizeRequestGuardrail scope_guard g in
  let! handle := open_tool_span params (ret parent_uuid) entries subscribers scope_stack in
  ret (handle, subscribers).

(** ** Closing a tool span *)

(** The end event both closing functions build; the result itself arrives with
    the transform. *)
Definition tool_end_event (params : ToolCallEndParams) : M Event :=
  let metadata :=
    tool_result_metadata (te_metadata params) (r_result (te_execution_result params)) in
  let! _ := read_global in
  let! n := timestamp_or_now utc_now (te_timestamp params) in
  ret (State.build_tool_end_event n (te_handle params) (Some Null) metadata
         (te_timestamp params)).

Definition tool_end_transform (params : ToolCallEndParams)
    (entries : list (Guardrail Callback)) : Transform :=
  ToolResponseTransform (th_name (te_handle params)) (r_result (te_execution_result params))
    entries (te_data params) (r_annotation (te_execution_result params)).

Definition tool_call_end (params : ToolCallEndParams) : M unit :=
  ensure_runtime_owner ;!
  let! scope_stack := current_scope_stack in
  let! scope_guard := read_stack scope_stack in
  let scope_subscribers := Stack.collect_scope_local_subscribers scope_guard in
  let! subscribers := snapshot_event_subscribers gate_run scope_subscribers in
  let! g := read_global in
  let! entries := guardrail_entries F_tool_sanitize_response_guardrails
    ToolSanitizeResponseGuardrail scope_guard g in
  let! event := tool_end_event params in
  let! event_sanitizers := snapshot_event_sanitizers gate_run event scope_stack in
  dispatch_transformed_event gate_run event (tool_end_transform params entries)
    event_sanitizers subscribers scope_stack ;!
  ret ().

(** The loop over [pending_marks.into_iter().enumerate()]: marks with invalid
    severity metadata are dropped and keep their place in time. *)
Fixpoint pending_mark_events (parent : uuid) (end_timestamp : timestamp) (index : nat)
    (pending : list PendingMarkSpec) : M (list Event) :=
  match pending with
  | [] => ret []
  | mark :: pending =>
      let ts := (end_timestamp + (Z.of_nat index + 1) * microsecond)%Z in
      match metadata_with_log_severity (pm_metadata mark) (pm_severity mark) with
      | Ok metadata =>
          let! u := fresh_uuid now_v7 in
          let event := Mark {|
            me_base := base_event (Some parent) u ts (pm_name mark) (pm_data mark)
              (pm_data_schema mark) metadata;
            me_category := pm_category mark; me_profile := pm_profile mark |} in
          let! events := pending_mark_events parent end_timestamp (S index) pending in
          ret (event :: events)
      | Err _ | Panic => pending_mark_events parent end_timestamp (S index) pending
      end
  end.

Definition tool_call_end_with_pending_marks (params : ToolCallEndParams)
    (pending : list PendingMarkSpec) (lifecycle_subscribers : option (list Callback)) : M unit :=
  ensure_runtime_owner ;!
  let! scope_stack := current_scope_stack in
  let! scope_guard := read_stack_expect scope_stack in
  let scope_subscribers := Stack.collect_scope_local_subscribers scope_guard in
  let! subscribers :=
    match lifecycle_subscribers with
    | Some _ => ret []
    | None => snapshot_event_subscribers gate_run scope_subscribers
    end in
  let! g := read_global in
  let! entries := guardrail_entries F_tool_sanitize_response_guardrails
    ToolSanitizeResponseGuardrail scope_guard g in
  let subscribers := default subscribers lifecycle_subscribers in
  let! event := tool_end_event params in
  let! marks := pending_mark_events (th_uuid (te_handle params)) (ev_timestamp (base event)) 0
    pending in
  let! event_sanitizers := snapshot_event_sanitizers gate_run event scope_stack in
  dispatch_transformed_event gate_run event (tool_end_transform params entries)
    event_sanitizers subscribers scope_stack ;!
  queue_marks marks subscribers scope_stack.

Definition emit_tool_end_without_output (handle : ToolHandle) (metadata : option Json)
    (lifecycle_subscribers : list Callback) (scope_stack : N) : M unit :=
  ensure_runtime_owner ;!
  let! _ := read_global in
  let! t := now utc_now in
  let event := State.build_tool_end_event t handle (th_data handle) metadata None in
  queue_sanitized_event_with_scope_stack event lifecycle_subscribers scope_stack ;!
  ret ().

(** [ManagedToolCompletion::drop] while it is armed. *)
Definition managed_tool_completion (handle : ToolHandle) (metadata : option Json)
    (subscribers : list Callback) (scope_stack : N) : M unit :=
  ignore_err (emit_tool_end_without_output handle
    (metadata_with_otel_status metadata "ERROR" (Some "tool execution cancelled"))
    subscribers scope_stack).

(** ** The managed pipeline *)

(** The guardrails of a managed call, and the mark of a rejection. *)
Definition check_tool_call (params : ToolCallExecuteParams) : M unit :=
  check_call now_v7 utc_now gate_run F_tool_conditional_execution_guardrails
    ToolConditionalExecutionGuardrail "tool" (conditional_input (tx_name params))
    (λ cb, run_conditional cb (tx_name params) (tx_args params)) (tx_name params)
    (tx_parent params) (tx_metadata params).

(** The request intercepts in force, run on the arguments. *)
Definition intercept_tool_request (n : string) (args : Json) : M Json :=
  let! scope_stack := current_scope_stack in
  let! scope_guard := read_stack_expect scope_stack in
  let scope_locals :=
    Stack.snapshot_scope_local_registries tool_request_intercepts scope_guard in
  let! g := read_global in
  let state := State.registry_snapshot [ToolRequestIntercept] g in
  let! entries := gets (λ w, merge_intercept_entries (enabled gate_run w)
    (tool_request_intercepts (regs state)) scope_locals ToolRequestIntercept) in
  tool_request_intercepts_snapshot_chain run_request n args entries.

(** The future under [with_active_event_trace_context]. *)
Definition execute_tool (n : string) (call_id : option string)
    (func : Json → World → result ToolExecutionResult * World) (args : Json) :
    M ToolExecutionInterceptOutcome :=
  let! scope_stack := current_scope_stack in
  let! scope_guard := read_stack_expect scope_stack in
  let scope_locals :=
    Stack.snapshot_scope_local_registries tool_execution_intercepts scope_guard in
  let! g := read_global in
  let state := State.registry_snapshot [ToolExecutionIntercept] g in
  let execution_context := {| c_tool_name := n; c_args := Null; c_tool_call_id := call_id |} in
  let! matching := gets (λ w, merge_execution_intercept_callables (enabled gate_run w)
    (tool_execution_intercepts (regs state)) scope_locals ToolExecutionIntercept) in
  tool_build_execution_chain (Leases0 := world_leases in_task) run_execution matching
    execution_context func args.

(** From [match execution] on; [completion] is the armed guard. *)
Definition finish_tool_call (params : ToolCallExecuteParams) (handle : ToolHandle)
    (lifecycle_subscribers : list Callback) (lifecycle_scope_stack : N) (completion : M unit)
    (execution : outcome FlowError ToolExecutionInterceptOutcome) : M ToolExecutionResult :=
  match execution with
  | Ok outcome =>
      let execution_result := into_execution_result outcome in
      unless_disarmed completion
        (tool_call_end_with_pending_marks {|
           te_handle := handle; te_execution_result := execution_result;
           te_data := tx_data params;
           te_metadata := metadata_with_otel_status (tx_metadata params) "OK" None;
           te_timestamp := None |} (pending_marks outcome) (Some lifecycle_subscribers)) ;!
      ret execution_result
  | Err error =>
      unless_disarmed completion
        (ignore_err (emit_tool_end_without_output handle
           (metadata_with_otel_error (tx_metadata params) error) lifecycle_subscribers
           lifecycle_scope_stack)) ;!
      fail error
  | Panic => completion ;! panic
  end.

(** From the start event on: the span is open and a guard closes it. *)
Definition run_tool_call (params : ToolCallExecuteParams) (intercepted_args : Json) :
    M ToolExecutionResult :=
  let! (handle, lifecycle_subscribers) := tool_call_with_subscriber_snapshot {|
    tc_name := tx_name params; tc_args := intercepted_args; tc_parent := tx_parent params;
    tc_attributes := tx_attributes params; tc_data := tx_data params;
    tc_metadata := tx_metadata params; tc_tool_call_id := tx_tool_call_id params;
    tc_timestamp := None |} in
  let! lifecycle_scope_stack := current_scope_stack in
  let completion := managed_tool_completion handle (tx_metadata params) lifecycle_subscribers
    lifecycle_scope_stack in
  λ w,
    let '(context, w) :=
      trace_context_for_managed_span (th_uuid handle) (th_parent_uuid handle) w in
    let '(execution, w) :=
      match context with
      | Ok context =>
          with_active_event_trace_context (th_uuid handle) (Some context)
            (execute_tool (tx_name params) (th_tool_call_id handle) (tx_func params)
               intercepted_args) w
      | Err error => (Err error, w)
      | Panic => (Panic, w)
      end in
    finish_tool_call params handle lifecycle_subscribers lifecycle_scope_stack completion
      execution w.

Definition tool_call_execute (params : ToolCallExecuteParams) : M ToolExecutionResult :=
  ensure_runtime_owner ;!
  check_tool_call params ;!
  let! intercepted_args := intercept_tool_request (tx_name params) (tx_args params) in
  run_tool_call params intercepted_args.

(** ** The partial pipelines *)

Definition tool_request_intercepts (n : string) (args : Json) : M Json :=
  ensure_runtime_owner ;!
  intercept_tool_request n args.

Definition tool_conditional_execution_with_event_context (n : string) (args : Json)
    (parent_uuid : option uuid) (metadata : option Json) : M unit :=
  ensure_runtime_owner ;!
  let! (entries, subscribers) := conditional_snapshot gate_run
    F_tool_conditional_execution_guardrails ToolConditionalExecutionGuardrail in
  let! resolved_parent_uuid :=
    match parent_uuid with
    | Some u => ret (Some u)
    | None => resolve_parent_uuid None
    end in
  let! rejection := tool_conditional_execution_snapshot_chain n args entries subscribers
    resolved_parent_uuid metadata in
  match rejection with
  | Some error => fail (GuardrailRejected error)
  | None => ret ()
  end.

Definition tool_conditional_execution (n : string) (args : Json) : M unit :=
  tool_conditional_execution_with_event_context n args None None.

(** ** Opening and closing the span *)

Lemma skill_marks_calm handle loads w :
  ∃ marks w', skill_marks handle loads w = (Ok marks, w') ∧ calm w w'
    ∧ Forall (λ e, parent_uuid (base e) = Some (th_uuid handle)) marks.
Proof.
  revert w. induction loads as [|load loads IH]; intros w; [by exists [], w|].
  cbn [skill_marks]. unfold bind at 1, fresh_uuid. set (w1 := set_uuids _ w).
  destruct (IH w1) as (marks & w' & Heq & Hcalm & Hp).
  eexists _, w'. split; [by mstep Heq|]. split; [|by constructor].
  etrans; [apply calm_uuids|exact Hcalm].
Qed.

Lemma pending_marks_calm parent ts index pending w :
  ∃ marks w', pending_mark_events parent ts index pending w = (Ok marks, w') ∧ calm w w'
    ∧ Forall (λ e, parent_uuid (base e) = Some parent ∧ (ts < ev_timestamp (base e))%Z) marks.
Proof.
  revert index w. induction pending as [|mark pending IH]; intros index w; [by exists [], w|].
  cbn [pending_mark_events].
  destruct (metadata_with_log_severity _ _) as [metadata|e|]; [|apply IH..].
  unfold bind at 1, fresh_uuid. set (w1 := set_uuids _ w).
  destruct (IH (S index) w1) as (marks & w' & Heq & Hcalm & Hp).
  eexists _, w'. split; [by mstep Heq|]. split; [etrans; [apply calm_uuids|exact Hcalm]|].
  constructor; [|done]. cbn. unfold microsecond. split; [done|lia].
Qed.

(** From [w] to [w'] the span of [handle] was opened under the parent that [w]
    gives: its start event, governed by the request sanitizers on the raw
    arguments, then its skill marks. *)
Definition opened (params : ToolCallParams) (w : World) (handle : ToolHandle)
    (subscribers : list Callback) (w' : World) : Prop :=
  th_name handle = tc_name params ∧ th_data handle = tc_data params
  ∧ th_metadata handle = tc_metadata params ∧ th_tool_call_id handle = tc_tool_call_id params
  ∧ (∃ s, ready w s ∧ th_parent_uuid handle = causal_parent w s (tc_parent params))
  ∧ ∃ entries marks w1,
      emitted w (State.build_tool_start_event handle None)
        (Some (ToolRequestTransform (tc_name params) (tc_args params) entries)) subscribers w1
      ∧ Forall (λ e, parent_uuid (base e) = Some (th_uuid handle)) marks
      ∧ emitted_all w1 marks subscribers w'.

Lemma open_tool_span_ok params parent entries subscribers w w0 s p :
  healthy w → ready w s → calm w w0 → p = causal_parent w s (tc_parent params) →
  (∃ w1, parent w0 = (Ok p, w1) ∧ calm w0 w1) →
  ∃ handle w', open_tool_span params parent entries subscribers (current w0) w0 = (Ok handle, w')
    ∧ opened params w handle subscribers w' ∧ healthy w' ∧ current w' = current w.
Proof.
  intros Hw Hs Hc0 Hpar (w1 & Hp & Hc1). unfold open_tool_span.
  pose proof (calm_healthy _ _ Hc0 Hw) as Hw0.
  mstep (read_global_ok w0 (proj1 (proj2 Hw0))). mstep Hp.
  unfold bind at 1, fresh_uuid. set (w2 := set_uuids _ w1).
  destruct (timestamp_calm utc_now (tc_timestamp params) w2) as (t & w3 & Ht & Hc3). mstep Ht.
  set (handle := State.create_tool_handle _ _ _ _ _ _ _ _ _).
  destruct (skill_marks_calm handle (resolve_skill_loads shell_split (tc_name params)
    (tc_args params) (tc_metadata params)) w3) as (marks & w4 & Hm & Hc4 & Hpm). mstep Hm.
  assert (calm w0 w4) as Hcalm0.
  { etrans; [exact Hc1|]. etrans; [apply calm_uuids|]. by etrans. }
  assert (calm w w4) as Hcalm by (by etrans).
  destruct (calm_healthy _ _ Hcalm Hw) as (Ho4 & Hg4 & _).
  pose proof (proj1 (proj2 Hcalm) s Hs) as Hs4.
  assert (current w4 = current w0) as <- by by apply calm_current.
  set (start := State.build_tool_start_event handle None).
  mstep (snapshot_event_sanitizers_ok gate_run w4 s start Hs4 Hg4).
  destruct (dispatch_transformed_emitted gate_run start (ToolRequestTransform (th_name handle)
    (tc_args params) entries) subscribers w4 s) as (b & w5 & Hd & Hem); [by split_and!; eauto|done|].
  mstep Hd. destruct (emitted_healthy gate_run _ _ _ _ _ Hem) as [Hw5 Hc5]; [by split_and!; eauto|].
  rewrite <-Hc5. destruct (queue_marks_emitted gate_run marks subscribers w5 Hw5)
    as (w' & Hq & Hall & Hw' & Hc'). mstep Hq.
  exists handle, w'. split_and!; [done| |done|].
  - split_and!; [done..|by exists s|]. eexists entries, marks, w5. split_and!; [|done..].
    by apply (calm_emitted gate_run w w4 _ _ _ _ s).
  - rewrite Hc', Hc5. by apply calm_current.
Qed.

Lemma tool_start_ok params w :
  healthy w →
  ∃ handle subscribers w',
    tool_call_with_subscriber_snapshot params w = (Ok (handle, subscribers), w')
    ∧ opened params w handle subscribers w' ∧ healthy w' ∧ current w' = current w.
Proof.
  intros Hw. unfold tool_call_with_subscriber_snapshot.
  assert (ensure_runtime_owner w = (Ok (), w)) as Ho
    by (unfold ensure_runtime_owner; by rewrite (proj1 Hw)).
  pose proof Hw as (_ & _ & s & Hs).
  mstep Ho. destruct (resolve_parent_calm (tc_parent params) w s Hs) as (w1 & Hp & Hc).
  mstep Hp. destruct (calm_healthy _ _ Hc Hw) as (_ & Hg1 & _).
  pose proof (proj1 (proj2 Hc) s Hs) as Hs1.
  unfold current_scope_stack. rewrite bind_gets. fold (current w1).
  mstep (proj1 (proj2 (read_stack_ready w1 s Hs1))).
  mstep (snapshot_event_subscribers_ok gate_run w1 s Hg1). mstep (read_global_ok w1 Hg1).
  unfold guardrail_entries. rewrite bind_gets.
  set (entries := merge_guardrail_entries _ _ _ _). set (subs := subscribers_in_force _ _ _).
  set (p := causal_parent w s (tc_parent params)).
  destruct (open_tool_span_ok params (ret p) entries subs w w1 s p Hw Hs Hc eq_refl)
    as (handle & w' & Heq & Hop & Hw' & Hc'); [by exists w1|].
  exists handle, subs, w'. split; [by mstep Heq|done].
Qed.

Lemma end_without_output_ok handle metadata subscribers w :
  healthy w →
  ∃ t w', emit_tool_end_without_output handle metadata subscribers (current w) w = (Ok (), w')
    ∧ emitted w (State.build_tool_end_event t handle (th_data handle) metadata None) None
        subscribers w'.
Proof.
  intros Hw. unfold emit_tool_end_without_output. mstep (owner_ok w Hw).
  mstep (read_global_ok w (proj1 (proj2 Hw))). unfold bind at 1, now.
  set (w1 := set_clock _ w). set (t := utc_now _). set (stop := State.build_tool_end_event _ _ _ _ _).
  assert (calm w w1) as Hcalm by apply calm_clock.
  pose proof (calm_healthy _ _ Hcalm Hw) as Hw1.
  assert (current w1 = current w) as <- by by apply calm_current.
  destruct (queue_sanitized_emitted gate_run stop subscribers w1 Hw1) as (w' & Heq & Hem & _).
  exists t, w'. split; [by mstep Heq|].
  destruct Hw as (_ & _ & s & Hs). by apply (calm_emitted gate_run w w1 _ _ _ _ s).
Qed.

(** The marks an execution left behind: children of the tool, after its end. *)
Definition pending_marks_of (handle : ToolHandle) (stop : Event) (marks : list Event) : Prop :=
  Forall (λ e, parent_uuid (base e) = Some (th_uuid handle)
    ∧ (ev_timestamp (base stop) < ev_timestamp (base e))%Z) marks.

Lemma end_with_marks_ok params pending subscribers w :
  healthy w → te_timestamp params = None →
  let metadata :=
    tool_result_metadata (te_metadata params) (r_result (te_execution_result params)) in
  ∃ t entries marks w1 w',
    let stop := State.build_tool_end_event t (te_handle params) (Some Null) metadata None in
    tool_call_end_with_pending_marks params pending (Some subscribers) w = (Ok (), w')
    ∧ emitted w stop (Some (tool_end_transform params entries)) subscribers w1
    ∧ pending_marks_of (te_handle params) stop marks
    ∧ emitted_all w1 marks subscribers w'.
Proof.
  intros Hw Hts metadata. unfold tool_call_end_with_pending_marks. mstep (owner_ok w Hw).
  pose proof Hw as (_ & Hg & s & Hs).
  unfold current_scope_stack. rewrite bind_gets. fold (current w).
  mstep (proj1 (proj2 (read_stack_ready w s Hs))). rewrite bind_ret.
  mstep (read_global_ok w Hg). unfold guardrail_entries. rewrite bind_gets.
  set (entries := merge_guardrail_entries _ _ _ _). cbn [default].
  destruct (timestamp_calm utc_now None w) as (t & w1 & Ht & Hc1).
  set (stop := State.build_tool_end_event t (te_handle params) (Some Null) metadata None).
  assert (tool_end_event params w = (Ok stop, w1)) as Hstop.
  { unfold tool_end_event. mstep (read_global_ok w Hg). rewrite Hts. by mstep Ht. }
  mstep Hstop.
  destruct (pending_marks_calm (th_uuid (te_handle params)) (ev_timestamp (base stop)) 0 pending w1)
    as (marks & w2 & Hm & Hc2 & Hmarks). mstep Hm.
  assert (calm w w2) as Hcalm by (by etrans).
  destruct (calm_healthy _ _ Hcalm Hw) as (Ho2 & Hg2 & _).
  pose proof (proj1 (proj2 Hcalm) s Hs) as Hs2.
  assert (current w2 = current w) as <- by by apply calm_current.
  mstep (snapshot_event_sanitizers_ok gate_run w2 s stop Hs2 Hg2).
  destruct (dispatch_transformed_emitted gate_run stop (tool_end_transform params entries) subscribers w2 s)
    as (b & w3 & Hd & Hem); [by split_and!; eauto|done|].
  mstep Hd. destruct (emitted_healthy gate_run _ _ _ _ _ Hem) as [Hw3 Hc3]; [by split_and!; eauto|].
  rewrite <-Hc3. destruct (queue_marks_emitted gate_run marks subscribers w3 Hw3) as (w' & Hq & Hall & _ & _).
  exists t, entries, marks, w3, w'. split_and!; [done| |done|done].
  by apply (calm_emitted gate_run w w2 _ _ _ _ s).
Qed.

(** From [w] to [w'] the span was closed, once, after an execution that ended
    with [execution]; [r] is the answer of the call. *)
Definition closed (params : ToolCallExecuteParams) (handle : ToolHandle)
    (subscribers : list Callback) (w : World)
    (execution : outcome FlowError ToolExecutionInterceptOutcome)
    (r : outcome FlowError ToolExecutionResult) (w' : World) : Prop :=
  ∃ t,
    let stop d m := State.build_tool_end_event t handle d m None in
    match execution with
    | Ok o =>
        let out := into_execution_result o in
        let stop := stop (Some Null) (tool_result_metadata
          (metadata_with_otel_status (tx_metadata params) "OK" None) (r_result out)) in
        r = Ok out
        ∧ ∃ entries marks w1,
            emitted w stop (Some (ToolResponseTransform (th_name handle) (r_result out) entries
              (tx_data params) (r_annotation out))) subscribers w1
            ∧ pending_marks_of handle stop marks ∧ emitted_all w1 marks subscribers w'
    | Err error =>
        r = Err error
        ∧ emitted w (stop (th_data handle) (metadata_with_otel_error (tx_metadata params) error))
            None subscribers w'
    | Panic =>
        r = Panic
        ∧ emitted w (stop (th_data handle) (metadata_with_otel_status (tx_metadata params)
            "ERROR" (Some "tool execution cancelled"))) None subscribers w'
    end.

Lemma finish_tool_call_ok params handle subscribers w execution :
  healthy w →
  let completion :=
    managed_tool_completion handle (tx_metadata params) subscribers (current w) in
  let '(r, w') :=
    finish_tool_call params handle subscribers (current w) completion execution w in
  closed params handle subscribers w execution r w'.
Proof.
  intros Hw completion. unfold finish_tool_call, closed. destruct execution as [o|error|].
  - set (p := {| te_handle := handle |}).
    destruct (end_with_marks_ok p (pending_marks o) subscribers w Hw eq_refl)
      as (t & entries & marks & w1 & w' & Heq & Hem & Hmarks & Hall).
    unfold unless_disarmed, bind. rewrite Heq. cbn. exists t. split; [done|].
    by exists entries, marks, w1.
  - destruct (end_without_output_ok handle (metadata_with_otel_error (tx_metadata params) error)
      subscribers w Hw) as (t & w' & Heq & Hem).
    unfold unless_disarmed, ignore_err, bind. rewrite Heq. by exists t.
  - destruct (end_without_output_ok handle (metadata_with_otel_status (tx_metadata params)
      "ERROR" (Some "tool execution cancelled")) subscribers w Hw) as (t & w' & Heq & Hem).
    unfold completion, managed_tool_completion, ignore_err, bind. rewrite Heq. by exists t.
Qed.

(** ** Running the tool *)

(** What the tool and the intercepts around it keep. *)
Definition execution_keeps (params : ToolCallExecuteParams) : Prop :=
  (∀ cb c, prog_preserves keeps (run_execution cb c))
  ∧ (∀ a w, keeps w (tx_func params a w).2).

Lemma execute_tool_keeping params n call_id args :
  execution_keeps params → keeping (execute_tool n call_id (tx_func params) args).
Proof.
  intros [Hrun Hfn]. unfold execute_tool, current_scope_stack.
  repeat (apply keeping_bind; [auto with relay|intros ?]).
  intros w Hw. by apply (tool_chain_preserves keeps healthy).
Qed.

(** One execution from [w] to [w']: the chain around the tool runs with the
    tool as the active event, unless its trace context cannot be made. *)
Definition executed (params : ToolCallExecuteParams) (handle : ToolHandle) (args : Json)
    (w : World) (execution : outcome FlowError ToolExecutionInterceptOutcome) (w' : World) :
    Prop :=
  ∃ context w1,
    trace_context_for_managed_span (th_uuid handle) (th_parent_uuid handle) w = (context, w1)
    ∧ calm w w1
    ∧ match context with
      | Ok context =>
          with_active_event_trace_context (th_uuid handle) (Some context)
            (execute_tool (tx_name params) (th_tool_call_id handle) (tx_func params) args) w1
          = (execution, w')
      | Err error => execution = Err error ∧ w' = w1
      | Panic => False
      end.

Definition start_params (params : ToolCallExecuteParams) (args : Json) : ToolCallParams := {|
  tc_name := tx_name params; tc_args := args; tc_parent := tx_parent params;
  tc_attributes := tx_attributes params; tc_data := tx_data params;
  tc_metadata := tx_metadata params; tc_tool_call_id := tx_tool_call_id params;
  tc_timestamp := None |}.

(** The span of a managed call: opened once, one execution, closed once. *)
Definition managed_span (params : ToolCallExecuteParams) (args : Json) (w : World)
    (r : outcome FlowError ToolExecutionResult) (w' : World) : Prop :=
  ∃ handle subscribers w1 execution w2,
    opened (start_params params args) w handle subscribers w1
    ∧ executed params handle args w1 execution w2
    ∧ closed params handle subscribers w2 execution r w'.

Lemma run_tool_call_managed params args w :
  execution_keeps params → healthy w →
  let '(r, w') := run_tool_call params args w in managed_span params args w r w'.
Proof.
  intros Hex Hw. unfold run_tool_call. fold (start_params params args).
  destruct (tool_start_ok (start_params params args) w Hw)
    as (handle & subs & w1 & Hst & Hop & Hw1 & _).
  unfold bind at 1. rewrite Hst. unfold current_scope_stack. rewrite bind_gets.
  fold (current w1). pose proof Hw1 as (_ & _ & s & Hs).
  destruct (managed_span_context_total w1 s (th_uuid handle) (th_parent_uuid handle) Hs)
    as (context & w2 & Hctx & Hnp & Hre).
  destruct (reanchored_frame _ _ Hre) as (Hf & Hq & _).
  assert (calm w1 w2) as Hcalm by (by apply calm_frame).
  pose proof (calm_healthy _ _ Hcalm Hw1) as Hw2. rewrite Hctx.
  assert (∃ execution w3, match context with
      | Ok context =>
          with_active_event_trace_context (th_uuid handle) (Some context)
            (execute_tool (tx_name params) (th_tool_call_id handle) (tx_func params) args) w2
      | Err error => (Err error, w2)
      | Panic => (Panic, w2)
      end = (execution, w3) ∧ executed params handle args w1 execution w3 ∧ keeps w2 w3)
    as (execution & w3 & Hrun & Hexe & Hk).
  { destruct context as [c|e|]; [|by eexists _, _; split_and!; [|exists (Err e), w2|]|done].
    pose proof (with_active_event_keeps (th_uuid handle) (Some c)
      (execute_tool (tx_name params) (th_tool_call_id handle) (tx_func params) args) w2 Hw2) as Hk.
    destruct (with_active_event_trace_context _ _ _ w2) as [x w3] eqn:Hx.
    eexists _, _. split_and!; [done|by exists (Ok c), w2|].
    by apply Hk, execute_tool_keeping. }
  rewrite Hrun.
  assert (current w3 = current w1) as <-.
  { rewrite (kp_current _ _ Hk). by apply calm_current. }
  pose proof (finish_tool_call_ok params handle subs w3 execution (kp_healthy _ _ Hk Hw2)) as Hcl.
  cbv zeta in Hcl. destruct (finish_tool_call _ _ _ _ _ _ w3) as [r w'].
  by exists handle, subs, w1, execution, w3.
Qed.

(** ** The steps before the span *)

Lemma intercept_request_keeps n args w :
  (∀ cb n v w, keeps w (run_request cb n v w).2) →
  keeps w (intercept_tool_request n args w).2.
Proof.
  intros Hrun. unfold intercept_tool_request, current_scope_stack. rewrite bind_gets.
  unfold read_stack_expect, deref, bind, gets.
  case_bool_decide; [done|]. destruct (w_heap w !! _); [|done]. cbn.
  unfold read_global. destruct (w_global_poisoned w); [done|]. cbn.
  by apply tool_request_chain_preserves; [apply _|].
Qed.

(** ** The manual API *)

Lemma tool_call_ok params w :
  healthy w →
  ∃ handle subscribers w', tool_call params w = (Ok handle, w')
    ∧ opened params w handle subscribers w' ∧ healthy w'.
Proof.
  intros Hw. unfold tool_call. mstep (owner_ok w Hw). pose proof Hw as (_ & Hg & s & Hs).
  unfold current_scope_stack. rewrite bind_gets. fold (current w).
  mstep (proj1 (read_stack_ready w s Hs)).
  mstep (snapshot_event_subscribers_ok gate_run w s Hg). mstep (read_global_ok w Hg).
  unfold guardrail_entries. rewrite bind_gets.
  set (entries := merge_guardrail_entries _ _ _ _). set (subs := subscribers_in_force _ _ _).
  destruct (open_tool_span_ok params (resolve_parent_uuid (tc_parent params)) entries subs w w s
    _ Hw Hs ltac:(done) eq_refl) as (handle & w' & Heq & Hop & Hw' & _);
    [by apply resolve_parent_calm|].
  by exists handle, subs, w'.
Qed.

Lemma tool_call_end_ok params w :
  healthy w →
  ∃ t entries subscribers w', tool_call_end params w = (Ok (), w')
    ∧ emitted w (State.build_tool_end_event t (te_handle params) (Some Null)
        (tool_result_metadata (te_metadata params) (r_result (te_execution_result params)))
        (te_timestamp params)) (Some (tool_end_transform params entries)) subscribers w'.
Proof.
  intros Hw. unfold tool_call_end. mstep (owner_ok w Hw). pose proof Hw as (_ & Hg & s & Hs).
  unfold current_scope_stack. rewrite bind_gets. fold (current w).
  mstep (proj1 (read_stack_ready w s Hs)).
  mstep (snapshot_event_subscribers_ok gate_run w s Hg). mstep (read_global_ok w Hg).
  unfold guardrail_entries. rewrite bind_gets.
  set (entries := merge_guardrail_entries _ _ _ _). set (subs := subscribers_in_force _ _ _).
  destruct (timestamp_calm utc_now (te_timestamp params) w) as (t & w1 & Ht & Hcalm).
  set (stop := State.build_tool_end_event t (te_handle params) (Some Null)
    (tool_result_metadata (te_metadata params) (r_result (te_execution_result params)))
    (te_timestamp params)).
  assert (tool_end_event params w = (Ok stop, w1)) as Hstop.
  { unfold tool_end_event. mstep (read_global_ok w Hg). by mstep Ht. }
  mstep Hstop. pose proof (calm_healthy _ _ Hcalm Hw) as Hw1.
  pose proof (proj1 (proj2 Hcalm) s Hs) as Hs1.
  assert (current w1 = current w) as <- by by apply calm_current.
  mstep (snapshot_event_sanitizers_ok gate_run w1 s stop Hs1 (proj1 (proj2 Hw1))).
  destruct (dispatch_transformed_emitted gate_run stop (tool_end_transform params entries) subs w1 s)
    as (b & w2 & Hd & Hem); [done..|].
  exists t, entries, subs, w2. split; [by mstep Hd|]. by apply (calm_emitted gate_run w w1 _ _ _ _ s).
Qed.

(** C15: the conditional chain decides in order and is observable. In a
    healthy world, with callbacks that keep it so, the guardrails are asked one
    by one, each inside a guardrail scope of its own whose start and end events
    are published (also when it panics or is cancelled, with the verdict as
    output); the first one that rejects, fails or is cancelled ends the chain
    with its verdict and no later one is asked; the call is allowed iff all
    allow it. *)
Theorem conditional_chain_decides n args entries subscribers parent metadata w :
  (∀ cb n v w, keeps w (run_conditional cb n v w).2) → healthy w →
  let '(r, w') := tool_conditional_execution_snapshot_chain n args entries subscribers parent
    metadata w in
  conditional_trace gate_run "tool" (conditional_input n) (λ cb, run_conditional cb n args)
    subscribers parent metadata entries w r w'.
Proof.
  intros Hrun Hw. unfold tool_conditional_execution_snapshot_chain.
  pose proof (conditional_chain_traced now_v7 utc_now gate_run "tool" (conditional_input n)
    (λ cb, run_conditional cb n args) subscribers parent metadata entries w
    (λ cb, Hrun cb n args) Hw) as Htr.
  destruct (conditional_chain _ _ _ _ _ _ _ _ _ _ w) as [r w']. apply Htr.
Qed.

(** C8: a managed tool call that starts ends exactly once. In a healthy world,
    with callbacks that keep it so, [tool_call_execute] either stops before the
    span (a guardrail rejected or failed, or a request intercept failed: the
    answer is that failure and nothing more is done), or it publishes one start
    event, runs the chain around the tool once on the intercepted
    arguments, and publishes one end event of the same span: with status OK,
    the result and the pending marks when the execution succeeded, with the
    error when it failed, and as cancelled when it unwound or was dropped. The
    answer is the one of the execution. *)
Theorem managed_tool_ends_once params w :
  (∀ cb n v w, keeps w (run_conditional cb n v w).2) →
  (∀ cb n v w, keeps w (run_request cb n v w).2) →
  execution_keeps params → healthy w →
  let '(r, w') := tool_call_execute params w in
  match (check_tool_call params ;!
         intercept_tool_request (tx_name params) (tx_args params)) w with
  | (Ok args, w0) => managed_span params args w0 r w'
  | (Err e, w0) => r = Err e ∧ w' = w0
  | (Panic, w0) => r = Panic ∧ w' = w0
  end.
Proof.
  intros Hcond Hreq Hex Hw. unfold tool_call_execute.
  rewrite (bind_ok _ _ _ _ _ (owner_ok w Hw)). unfold bind.
  destruct (check_tool_call params w) as [[[]|e|] w1] eqn:Hcheck; [|done|done].
  pose proof (check_call_keeps now_v7 utc_now gate_run _ _ _ _ _ _ _ _ w w1
    (λ cb, Hcond cb _ _) Hw Hcheck) as Hw1.
  pose proof (intercept_request_keeps (tx_name params) (tx_args params) w1 Hreq) as [_ Hk].
  destruct (intercept_tool_request _ _ w1) as [[args|e|] w2]; [|done|done].
  apply run_tool_call_managed; [done|]. by apply Hk.
Qed.

(** A manual tool span. In a healthy world [tool_call] succeeds and opens
    a span whose start event carries the arguments only through the request
    sanitizers; [tool_call_end] of its handle succeeds and publishes the end
    event of the same span, strictly later unless the caller chose the time,
    which carries the result only through the response sanitizers. *)
Theorem manual_tool_span params out w :
  healthy w →
  ∃ handle subscribers w1 w2,
    tool_call params w = (Ok handle, w1)
    ∧ opened params w handle subscribers w1
    ∧ let stop_params := {| te_handle := handle; te_execution_result := out; te_data := None;
                            te_metadata := None; te_timestamp := None |} in
      tool_call_end stop_params w1 = (Ok (), w2)
    ∧ ∃ stop entries subscribers',
        emitted w1 stop (Some (ToolResponseTransform (tc_name params) (r_result out) entries None
          (r_annotation out))) subscribers' w2
        ∧ let start := State.build_tool_start_event handle None in
          State.span_pair start stop
          ∧ (ev_timestamp (base start) < ev_timestamp (base stop))%Z.
Proof.
  intros Hw. destruct (tool_call_ok params w Hw) as (handle & subs & w1 & Heq & Hop & Hw1).
  set (p := {| te_handle := handle; te_execution_result := out; te_data := None;
               te_metadata := None; te_timestamp := None |}).
  destruct (tool_call_end_ok p w1 Hw1) as (t & entries & subs' & w2 & Hend & Hem).
  exists handle, subs, w1, w2. cbv zeta. split_and!; [done..|]. eexists _, entries, subs'. split_and!.
  - destruct Hop as (<- & _). exact Hem.
  - done.
  - cbn. unfold State.end_timestamp_after, microsecond. lia.
Qed.

End ToolApi.

(** ** Concrete calls *)

(** Callback 2 rejects, the others allow. *)
Definition demo_conditional (cb : Callback) (n : string) (args : Json) (w : World) :
    option (outcome FlowError (option string)) * World :=
  (Some (Ok (if (cb =? 2)%N then Some "denied" else None)), w).

Definition demo_entry (cb : Callback) : Guardrail Callback :=
  Build_RegistryRecord "guard" 0 cb.

Lemma conditional_chain_decides_witness :
  ∃ w', conditional_trace demo_gate_run "tool" (conditional_input "search")
    (λ cb, demo_conditional cb "search" Null) [9%N] None None [demo_entry 1; demo_entry 2; demo_entry 3] demo_world (Ok (Some "denied")) w'.
Proof.
  pose proof (conditional_chain_decides (H := plain_otel) demo_now_v7 demo_utc_now demo_gate_run
    demo_conditional "search" Null [demo_entry 1; demo_entry 2; demo_entry 3] [9%N] None None
    demo_world) as Htr.
  assert ((tool_conditional_execution_snapshot_chain (H := plain_otel) demo_now_v7 demo_utc_now
    demo_gate_run demo_conditional "search" Null [demo_entry 1; demo_entry 2; demo_entry 3] [9%N]
    None None demo_world).1 = Ok (Some "denied")) as Hr by (vm_compute; reflexivity).
  destruct (tool_conditional_execution_snapshot_chain _ _ _ _ _ _ _ _ _ _ demo_world)
    as [r w']. cbn in Hr. subst r. exists w'. apply Htr; [done|apply demo_healthy].
Defined.

Definition demo_execute : ToolCallExecuteParams := {|
  tx_name := "search"; tx_args := Str "query";
  tx_func := λ args w, (Ok {| r_result := args; r_annotation := None |}, w);
  tx_parent := None; tx_attributes := 0; tx_data := None; tx_metadata := None;
  tx_tool_call_id := Some "call-1";
|}.

Lemma managed_tool_ends_once_witness :
  ∃ w0 w', managed_span (H := plain_otel) demo_gate_run (λ _ _, Return Panic) true demo_execute
    (Str "query") w0 (Ok {| r_result := Str "query"; r_annotation := None |}) w'.
Proof.
  pose proof (managed_tool_ends_once (H := plain_otel) demo_now_v7 demo_utc_now demo_gate_run
    (λ _, None) demo_conditional (λ _ _ v w, (Ok v, w)) (λ _ _, Return Panic) true demo_execute
    demo_world) as Hm.
  assert ((tool_call_execute (H := plain_otel) demo_now_v7 demo_utc_now demo_gate_run
    (λ _, None) demo_conditional (λ _ _ v w, (Ok v, w)) (λ _ _, Return Panic) true demo_execute
    demo_world).1 = Ok {| r_result := Str "query"; r_annotation := None |}) as Hr
    by (vm_compute; reflexivity).
  assert (((check_tool_call (H := plain_otel) demo_now_v7 demo_utc_now demo_gate_run
      demo_conditional demo_execute ;!
    intercept_tool_request demo_gate_run (λ _ _ v w, (Ok v, w)) (tx_name demo_execute)
      (tx_args demo_execute)) demo_world).1 = Ok (Str "query")) as Hc
    by (vm_compute; reflexivity).
  destruct (tool_call_execute _ _ _ _ _ _ _ _ _ demo_world) as [r w']. cbn in Hr. subst r.
  destruct (bind _ _ demo_world) as [args w0]. cbn in Hc. subst args.
  exists w0, w'. apply Hm; [done|done| |apply demo_healthy]. by split.
Defined.

Lemma manual_tool_span_witness :
  ∃ handle w1, tool_call (H := plain_otel) demo_now_v7 demo_utc_now demo_gate_run (λ _, None)
    (start_params demo_execute (Str "query")) demo_world = (Ok handle, w1).
Proof.
  destruct (manual_tool_span (H := plain_otel) demo_now_v7 demo_utc_now demo_gate_run (λ _, None)
    (start_params demo_execute (Str "query")) {| r_result := Null; r_annotation := None |}
    demo_world demo_healthy) as (handle & subs & w1 & w2 & Heq & _).
  by exists handle, w1.
Defined.
