(* ===== verification/LlmApi.v ===== *)
(** * The LLM API ([crates/runtime/src/api/llm.rs])

    Manual LLM spans ([llm_call], [llm_call_end]) and the managed pipeline
    [llm_call_execute]: conditional guardrails, request intercepts around a
    codec, the start event, execution intercepts around the provider, the end
    event, and the optimization marks of the call's recorder.

    - What callbacks do is a parameter of the section; [Guardrails] says how
      unwinds, dropped futures and drop guards are represented.
    - [contribution_json] is [serde_json::to_value] on a contribution.
    - Publication functions of the synchronous and the asynchronous paths
      differ in how they wait only; [register_pending_publication] makes
      flushes wait ([Flush]). *)

From stdpp Require Import base gmap strings list.
From S2P Require Import Prelude Text Errors Json Float64 LlmTypes Pricing Optimization Codec.
From S2P Require Import Registry Trace Events Registries ScopeStack ContextState Chains Execution.
From S2P Require Import World LlmTransforms WorldFacts Context ScopeApi Guardrails LlmRequests Continuation.

(** ** Parameters *)

Record LlmCallParams : Type := {
  lc_name : string;
  lc_request : LlmRequest;
  lc_parent : option ScopeHandle;
  lc_attributes : Z;
  lc_data : option Json;
  lc_metadata : option Json;
  lc_model_name : option string;
  lc_annotated_request : option AnnotatedLlmRequest;
  lc_codec : option LlmCodec;
  lc_timestamp : option timestamp;
}.

Record LlmCallExecuteParams : Type := {
  lx_name : string;
  lx_request : LlmRequest;
  lx_func : LlmRequest → World → result Json * World;
  lx_parent : option ScopeHandle;
  lx_attributes : Z;
  lx_data : option Json;
  lx_metadata : option Json;
  lx_model_name : option string;
  lx_codec : option LlmCodec;
  lx_response_codec : option LlmResponseCodec;
}.

Record LlmCallEndParams : Type := {
  le_handle : LlmHandle;
  le_response : Json;
  le_data : option Json;
  le_metadata : option Json;
  le_annotated_response : option AnnotatedLlmResponse;
  le_response_codec : option LlmResponseCodec;
  le_timestamp : option timestamp;
}.

(** What the managed pipelines, streaming or not, read of their parameters
    before the execution. *)
Record LlmCallParts : Type := {
  pt_name : string;
  pt_request : LlmRequest;
  pt_parent : option ScopeHandle;
  pt_attributes : Z;
  pt_data : option Json;
  pt_metadata : option Json;
  pt_model_name : option string;
  pt_codec : option LlmCodec;
}.

Definition execute_parts (params : LlmCallExecuteParams) : LlmCallParts := {|
  pt_name := lx_name params; pt_request := lx_request params; pt_parent := lx_parent params;
  pt_attributes := lx_attributes params; pt_data := lx_data params;
  pt_metadata := lx_metadata params; pt_model_name := lx_model_name params;
  pt_codec := lx_codec params;
|}.

(** [TimeDelta::microseconds] of an offset that saturates at [i64::MAX]. *)
Definition request_ordered_timestamp (handle : LlmHandle)
    (c : LlmOptimizationContribution) : timestamp :=
  let offset := saturating_add (default 0%Z (oc_sequence c)) 2 in
  (lh_started_at handle + Z.min offset (2 ^ 63 - 1) * microsecond)%Z.

Definition OPTIMIZATION_MARK : string := "nemo_relay.llm.optimization".

Section LlmApi.
Context `{!Otel}.
Context (now_v7 : nat → uuid) (utc_now : nat → timestamp).
Context (gate_run :
  Callback → list RuntimeRegistrationKind → string → outcome Empty_set (option string)).
Context (serialize : LlmOptimizationContribution → list N * bool).
Context (contribution_json : LlmOptimizationContribution → option Json).
Context (run_conditional : Callback → LlmRequest → World →
  option (outcome FlowError (option string)) * World).
Context (run_intercept : Callback → string → LlmRequest → option AnnotatedLlmRequest → World →
  outcome FlowError
    (LlmRequestInterceptOutcome AnnotatedLlmRequest LlmOptimizationContribution) * World).
Context (run_execution : Callback → string → LlmRequest → LlmExecutionContext →
  Prog World LlmRequest Json Json).
Context (in_task : bool).

#[local] Notation queue_sanitized_event_with_scope_stack :=
  (queue_sanitized_event_with_scope_stack gate_run).
#[local] Notation guardrail_entries := (guardrail_entries gate_run).

(** ** Handles *)

(** [NemoRelayContextState::create_llm_handle] on the current state: the
    handle gets a recorder of its own and captures the current stack. *)
Definition create_llm_handle (n : string) (u : option uuid) (parent_uuid : option uuid)
    (attributes : Z) (data metadata : option Json) (model : option string)
    (ts : option timestamp) : M LlmHandle :=
  ensure_runtime_owner ;!
  let! _ := read_global in
  let! id := match u with Some u => ret u | None => fresh_uuid now_v7 end in
  let! started_at := timestamp_or_now utc_now ts in
  let! recorder := new_recorder in
  let! scope_stack := current_scope_stack in
  ret (State.create_llm_handle id started_at n u parent_uuid attributes data metadata model ts
         recorder scope_stack).

Definition with_recorder (r : N) (h : LlmHandle) : LlmHandle := {|
  lh_uuid := lh_uuid h; lh_started_at := lh_started_at h; lh_name := lh_name h;
  lh_data := lh_data h; lh_metadata := lh_metadata h; lh_attributes := lh_attributes h;
  lh_parent_uuid := lh_parent_uuid h; lh_model_name := lh_model_name h;
  lh_recorder := r; lh_scope_stack := lh_scope_stack h;
|}.

(** ** Marks *)

Definition request_mark (u : uuid) (handle : LlmHandle) (mark : PendingMarkSpec)
    (metadata : option Json) : Event :=
  Mark {|
    me_base := base_event (Some (lh_uuid handle)) u (lh_started_at handle + microsecond)%Z
      (pm_name mark) (pm_data mark) (pm_data_schema mark) metadata;
    me_category := pm_category mark; me_profile := pm_profile mark |}.

Fixpoint emit_pending_loop (handle : LlmHandle) (marks : list PendingMarkSpec)
    (subscribers : list Callback) : M unit :=
  match marks with
  | [] => ret ()
  | mark :: marks =>
      match metadata_with_log_severity (pm_metadata mark) (pm_severity mark) with
      | Ok metadata =>
          let! u := fresh_uuid now_v7 in
          queue_sanitized_event_with_scope_stack (request_mark u handle mark metadata) subscribers
            (lh_scope_stack handle) ;!
          emit_pending_loop handle marks subscribers
      | Err _ | Panic => emit_pending_loop handle marks subscribers
      end
  end.

Definition emit_pending_request_marks (handle : LlmHandle) (marks : list PendingMarkSpec)
    (subscribers : list Callback) : M unit :=
  match marks with
  | [] => ret ()
  | _ => ensure_runtime_owner ;! emit_pending_loop handle marks subscribers
  end.

Definition optimization_mark_event (u : uuid) (handle : LlmHandle)
    (c : LlmOptimizationContribution) (recorded_at : timestamp) : Event :=
  Mark {|
    me_base := base_event (Some (lh_uuid handle)) u
      (Z.max recorded_at (request_ordered_timestamp handle c)) OPTIMIZATION_MARK
      (Some (default Null (contribution_json c)))
      (Some {| ds_name := "nemo.relay.llm_optimization_contribution"; ds_version := "1" |}) None;
    me_category := Some "custom";
    me_profile := Some {|
      model_name := None; tool_call_id := None; subtype := Some OPTIMIZATION_MARK;
      tool_result_annotation := None; extra := []; annotated_request := None;
      annotated_response := None; time_to_first_chunk := None |} |}.

(** The loop stops at the first mark the dispatcher refuses; the rest stays
    for a later boundary. *)
Fixpoint optimization_marks_loop (handle : LlmHandle)
    (contributions : list (LlmOptimizationContribution * Z)) (subscribers : list Callback) :
    M unit :=
  match contributions with
  | [] => ret ()
  | (c, recorded_at) :: contributions =>
      let! u := fresh_uuid now_v7 in
      let! queued := queue_sanitized_event_with_scope_stack
        (optimization_mark_event u handle c recorded_at) subscribers (lh_scope_stack handle) in
      if queued : bool then
        update_recorder (lh_recorder handle) (mark_emitted 1) ;!
        optimization_marks_loop handle contributions subscribers
      else ret ()
  end.

(** [emit_optimization_marks] and [enqueue_optimization_marks]. *)
Definition emit_optimization_marks (handle : LlmHandle) (subscribers : list Callback) : M unit :=
  let! contributions :=
    on_recorder (lh_recorder handle) (λ s, (unemitted_with_timestamps s, s)) in
  match contributions with
  | [] => ret ()
  | _ => λ w,
      match w_owner w with
      | Ok _ => optimization_marks_loop handle contributions subscribers w
      | Err _ => (Ok (), w)
      | Panic => (Panic, w)
      end
  end.

Definition close_recorder (handle : LlmHandle) (limitation : option string) : M bool :=
  on_recorder (lh_recorder handle) (close_for_finalization limitation).

(** ** Opening a span *)

(** [scope_guard.take_agent_freshness] under the write lock. *)
Definition take_freshness (scope_stack : N) (parent_uuid : option uuid) : M bool :=
  let! s := read_stack_expect scope_stack in
  let! (fresh, s) := of_option (Stack.take_agent_freshness parent_uuid s) in
  write_stack scope_stack s ;! ret fresh.

Definition queue_llm_start_with_subscribers (handle : LlmHandle) (request : LlmRequest)
    (annotated_request : option AnnotatedLlmRequest) (codec : option LlmCodec)
    (subscribers : list Callback) : M unit :=
  ensure_runtime_owner ;!
  let scope_stack := lh_scope_stack handle in
  let! scope_guard := read_stack_expect scope_stack in
  let! g := read_global in
  let! entries := guardrail_entries F_llm_sanitize_request_guardrails
    LlmSanitizeRequestGuardrail scope_guard g in
  let full_payloads_enabled := observability_full_payloads_enabled g in
  let! agent_is_fresh := take_freshness scope_stack (lh_parent_uuid handle) in
  let observable_request := remove_observability_credential_headers request in
  let! _ := read_global in
  let event := State.build_llm_start_event handle None None in
  let! event_sanitizers := snapshot_event_sanitizers gate_run event scope_stack in
  dispatch_transformed_event gate_run event
    (LlmStartTransform handle observable_request annotated_request codec entries
       full_payloads_enabled agent_is_fresh false) event_sanitizers subscribers scope_stack ;!
  ret ().

(** [scope_stack.write().map_err(..)?]: read the stack under the lock. *)
Definition llm_call (params : LlmCallParams) : M LlmHandle :=
  let! parent_uuid := resolve_parent_uuid (lc_parent params) in
  let! handle := create_llm_handle (lc_name params) None parent_uuid (lc_attributes params)
    (lc_data params) (lc_metadata params) (lc_model_name params) (lc_timestamp params) in
  let scope_stack := lh_scope_stack handle in
  let! scope_guard := read_stack scope_stack in
  let scope_subscribers := Stack.collect_scope_local_subscribers scope_guard in
  let! agent_is_fresh := take_freshness scope_stack (lh_parent_uuid handle) in
  let! g := read_global in
  let! subscribers := gets (λ w, State.collect_event_subscribers (enabled gate_run w)
    scope_subscribers (State.registry_snapshot [LlmSanitizeRequestGuardrail; Subscriber] g)) in
  let! entries := guardrail_entries F_llm_sanitize_request_guardrails
    LlmSanitizeRequestGuardrail scope_guard g in
  let full_payloads_enabled := observability_full_payloads_enabled g in
  let request := remove_observability_credential_headers (lc_request params) in
  let! _ := read_global in
  let event := State.build_llm_start_event handle None None in
  let! event_sanitizers := snapshot_event_sanitizers gate_run event scope_stack in
  dispatch_transformed_event gate_run event
    (LlmStartTransform handle request (lc_annotated_request params) (lc_codec params) entries
       full_payloads_enabled agent_is_fresh true) event_sanitizers subscribers scope_stack ;!
  ret handle.

(** ** Closing a span *)

Definition llm_call_end (params : LlmCallEndParams) : M unit :=
  ensure_runtime_owner ;!
  let handle := le_handle params in
  let scope_stack := lh_scope_stack handle in
  let! scope_guard := read_stack scope_stack in
  let scope_subscribers := Stack.collect_scope_local_subscribers scope_guard in
  let! g := read_global in
  let! subscribers := gets (λ w, State.collect_event_subscribers (enabled gate_run w)
    scope_subscribers (State.registry_snapshot [LlmSanitizeResponseGuardrail; Subscriber] g)) in
  let! entries := guardrail_entries F_llm_sanitize_response_guardrails
    LlmSanitizeResponseGuardrail scope_guard g in
  let! _ := close_recorder handle None in
  emit_optimization_marks handle subscribers ;!
  let! _ := read_global in
  let! t := timestamp_or_now utc_now (le_timestamp params) in
  let event := State.build_llm_end_event t handle (Some Null) (le_metadata params)
    (le_annotated_response params) None (le_timestamp params) in
  let! event_sanitizers := snapshot_event_sanitizers gate_run event scope_stack in
  dispatch_transformed_event gate_run event
    (LlmEndTransform handle (le_response params) (le_data params) (le_annotated_response params)
       (le_response_codec params) entries (le_metadata params) (le_timestamp params) true)
    event_sanitizers subscribers scope_stack ;!
  ret ().

(** The sanitizers and subscribers of a managed end event, and what both
    closing functions do before they build it. *)
Definition prepare_llm_end (handle : LlmHandle) (lifecycle_subscribers : option (list Callback)) :
    M (list (Guardrail Callback) * list Callback) :=
  let! scope_guard := read_stack_expect (lh_scope_stack handle) in
  let! subscribers :=
    match lifecycle_subscribers with
    | Some subscribers => ret subscribers
    | None => snapshot_event_subscribers gate_run
                (Stack.collect_scope_local_subscribers scope_guard)
    end in
  let! g := read_global in
  let! entries := guardrail_entries F_llm_sanitize_response_guardrails
    LlmSanitizeResponseGuardrail scope_guard g in
  let! _ := close_recorder handle None in
  emit_optimization_marks handle subscribers ;!
  let! _ := read_global in
  ret (entries, subscribers).

Definition queue_llm_end_event (event : Event) (transform : Transform)
    (subscribers : list Callback) (scope_stack : N) : M unit :=
  let! event_sanitizers := snapshot_event_sanitizers gate_run event scope_stack in
  dispatch_transformed_event gate_run event transform event_sanitizers subscribers scope_stack ;!
  ret ().

Definition llm_call_end_with_behavior (params : LlmCallEndParams)
    (lifecycle_subscribers : option (list Callback)) : M unit :=
  let handle := le_handle params in
  let! t := timestamp_or_now utc_now (le_timestamp params) in
  ensure_runtime_owner ;!
  let! (entries, subscribers) := prepare_llm_end handle lifecycle_subscribers in
  let event := State.build_llm_end_event t handle (Some Null)
    (metadata_with_otel_status (le_metadata params) "OK" None) None None (Some t) in
  queue_llm_end_event event
    (LlmEndTransform handle (le_response params) (le_data params) (le_annotated_response params)
       (le_response_codec params) entries (le_metadata params) (Some t) false)
    subscribers (lh_scope_stack handle).

Definition emit_llm_end_without_output (handle : LlmHandle) (metadata : option Json)
    (codec : option LlmResponseCodec) (lifecycle_subscribers : option (list Callback)) : M unit :=
  ensure_runtime_owner ;!
  let! t := now utc_now in
  let! (entries, subscribers) := prepare_llm_end handle lifecycle_subscribers in
  let event :=
    State.build_llm_end_event t handle (Some Null) metadata None None (Some t) in
  queue_llm_end_event event (LlmFailedEndTransform handle metadata codec entries t) subscribers
    (lh_scope_stack handle).

(** The response sanitizers, unless a lock is poisoned. *)
Definition try_response_entries (scope_stack : N) : M (option (list (Guardrail Callback))) :=
  let! scope_guard := gets (λ w,
    if bool_decide (scope_stack ∈ w_poisoned w) then None else w_heap w !! scope_stack) in
  let! poisoned := gets w_global_poisoned in
  match scope_guard with
  | Some scope_guard =>
      if poisoned : bool then ret None
      else
        let! g := gets w_global in
        let! entries := guardrail_entries F_llm_sanitize_response_guardrails
          LlmSanitizeResponseGuardrail scope_guard g in
        ret (Some entries)
  | None => ret None
  end.

(** [ManagedLlmCompletion::drop] while it is armed. *)
Definition managed_llm_completion (handle : LlmHandle) (metadata : option Json)
    (codec : option LlmResponseCodec) (subscribers : list Callback) : M unit :=
  let metadata :=
    metadata_with_otel_status metadata "ERROR" (Some "LLM execution cancelled") in
  let scope_stack := lh_scope_stack handle in
  let! entries := try_response_entries scope_stack in
  let! _ := close_recorder handle (Some "execution_cancelled") in
  emit_optimization_marks handle subscribers ;!
  let! global_poisoned := gets w_global_poisoned in
  if global_poisoned : bool then ret ()
  else
    let! t := now utc_now in
    let event := State.build_llm_end_event t handle None metadata None None None in
    queue_llm_end_event event (LlmCancelledEndTransform handle metadata codec entries)
      subscribers scope_stack.

(** ** The managed pipeline *)

Definition llm_conditional_input : Json := json_obj [("kind", Str "llm_conditional_execution")].

Definition llm_conditional_execution_snapshot_chain (request : LlmRequest)
    (entries : list (Guardrail Callback)) (subscribers : list Callback)
    (parent_uuid : option uuid) (metadata : option Json) : M (option string) :=
  conditional_chain now_v7 utc_now gate_run "LLM" llm_conditional_input
    (λ cb, run_conditional cb request) entries subscribers parent_uuid metadata.

(** The guardrails of a managed call, and the mark of a rejection. *)
Definition check_llm_call (parts : LlmCallParts) : M unit :=
  check_call now_v7 utc_now gate_run F_llm_conditional_execution_guardrails
    LlmConditionalExecutionGuardrail "LLM" llm_conditional_input
    (λ cb, run_conditional cb (pt_request parts)) (pt_name parts) (pt_parent parts)
    (pt_metadata parts).

(** The request intercepts of a managed call, with its new recorder. *)
Definition intercept_llm_request (parts : LlmCallParts) :
    M (uuid * N * InterceptedLlmRequest) :=
  let! llm_uuid := fresh_uuid now_v7 in
  let! recorder := new_recorder in
  let! intercepted := scope_llm_optimization_recorder recorder
    (run_request_intercepts_with_codec_and_recorder now_v7 utc_now gate_run serialize
       run_intercept (pt_name parts) (pt_request parts) (pt_codec parts) recorder) in
  ret (llm_uuid, recorder, intercepted).

(** From the handle to the marks of the request; the active trace context goes
    on to the execution. *)
Definition open_llm_span (parts : LlmCallParts) (llm_uuid : uuid) (recorder : N)
    (intercepted : InterceptedLlmRequest) :
    M (LlmHandle * list Callback * LlmRequest * W3cTraceContext) :=
  let! parent_uuid := resolve_parent_uuid (pt_parent parts) in
  let! handle := create_llm_handle (pt_name parts) (Some llm_uuid) parent_uuid
    (pt_attributes parts) (pt_data parts) (pt_metadata parts) (pt_model_name parts) None in
  let handle := with_recorder recorder handle in
  let! scope_guard := read_stack_expect (lh_scope_stack handle) in
  let! lifecycle_subscribers := snapshot_event_subscribers gate_run
    (Stack.collect_scope_local_subscribers scope_guard) in
  let observability_request := ir_request intercepted in
  let! (request, trace) :=
    inject_traceparent (ir_request intercepted) (lh_uuid handle) (lh_parent_uuid handle) in
  queue_llm_start_with_subscribers handle observability_request (ir_annotated intercepted)
    (pt_codec parts) lifecycle_subscribers ;!
  emit_pending_request_marks handle (ir_pending_marks intercepted) lifecycle_subscribers ;!
  record_all_on now_v7 utc_now serialize (lh_recorder handle) (ir_contributions intercepted) ;!
  emit_optimization_marks handle lifecycle_subscribers ;!
  ret (handle, lifecycle_subscribers, request, trace).

(** The future under [with_active_event_trace_context]. *)
Definition execute_llm (n : string) (context : LlmExecutionContext)
    (func : LlmRequest → World → result Json * World) (request : LlmRequest) : M Json :=
  let! scope_stack := current_scope_stack in
  let! scope_guard := read_stack_expect scope_stack in
  let scope_locals :=
    Stack.snapshot_scope_local_registries llm_execution_intercepts scope_guard in
  let! g := read_global in
  let state := State.registry_snapshot [LlmExecutionIntercept] g in
  let! matching := gets (λ w, merge_execution_intercept_callables (enabled gate_run w)
    (llm_execution_intercepts (regs state)) scope_locals LlmExecutionIntercept) in
  llm_build_execution_chain (Leases0 := world_leases in_task)
    (λ cb n request, run_execution cb n request (lease true context)) matching n func request.

(** From [match execution] on; [completion] is the armed guard. *)
Definition finish_llm_call (params : LlmCallExecuteParams) (handle : LlmHandle)
    (lifecycle_subscribers : list Callback) (completion : M unit)
    (execution : outcome FlowError Json) : M Json :=
  match execution with
  | Ok response =>
      unless_disarmed completion
        (llm_call_end_with_behavior {|
           le_handle := handle; le_response := response; le_data := lx_data params;
           le_metadata := lx_metadata params; le_annotated_response := None;
           le_response_codec := lx_response_codec params; le_timestamp := None |}
           (Some lifecycle_subscribers)) ;!
      ret response
  | Err error =>
      unless_disarmed completion
        (ignore_err (emit_llm_end_without_output handle
           (metadata_with_otel_error (lx_metadata params) error) (lx_response_codec params)
           (Some lifecycle_subscribers))) ;!
      fail error
  | Panic => completion ;! panic
  end.

Definition run_llm_call (params : LlmCallExecuteParams) (llm_uuid : uuid) (recorder : N)
    (intercepted : InterceptedLlmRequest) : M Json :=
  let! (handle, lifecycle_subscribers, request, trace) :=
    open_llm_span (execute_parts params) llm_uuid recorder intercepted in
  let completion := managed_llm_completion handle (lx_metadata params)
    (lx_response_codec params) lifecycle_subscribers in
  let context := for_non_streaming (lx_codec params) (lx_response_codec params) in
  λ w,
    let '(execution, w) :=
      with_active_event_trace_context (lh_uuid handle) (Some trace)
        (scope_llm_optimization_recorder (lh_recorder handle)
           (execute_llm (lx_name params) context (lx_func params) request)) w in
    finish_llm_call params handle lifecycle_subscribers completion execution w.

Definition llm_call_execute (params : LlmCallExecuteParams) : M Json :=
  ensure_runtime_owner ;!
  check_llm_call (execute_parts params) ;!
  let! (llm_uuid, recorder, intercepted) := intercept_llm_request (execute_parts params) in
  run_llm_call params llm_uuid recorder intercepted.

(** ** The partial pipeline *)

Definition llm_conditional_execution (request : LlmRequest) : M unit :=
  ensure_runtime_owner ;!
  let! (entries, subscribers) := conditional_snapshot gate_run
    F_llm_conditional_execution_guardrails LlmConditionalExecutionGuardrail in
  let! parent_uuid := resolve_parent_uuid None in
  let! rejection := llm_conditional_execution_snapshot_chain request entries subscribers
    parent_uuid None in
  match rejection with
  | Some error => fail (GuardrailRejected error)
  | None => ret ()
  end.

(** ** Opening the span *)

(** The guardrails of a kind in force. *)
Definition guardrails_in_force (f : Field Callback) (kind : RuntimeRegistrationKind) (w : World)
    (s : ScopeStack) : list (Guardrail Callback) :=
  merge_guardrail_entries (enabled gate_run w)
    (field_get f (regs (State.registry_snapshot [kind] (w_global w))))
    (Stack.snapshot_scope_local_registries (field_get f) s) kind.

(** The freshness of the owning agent is used up: [fresh] is what it was. *)
Definition staled (w : World) (parent : option uuid) (fresh : bool) (w' : World) : Prop :=
  ∃ s s', ready w s ∧ Stack.take_agent_freshness parent s = Some (fresh, s') ∧ ready w' s'
    ∧ api_frame w w' ∧ w_queue w' = w_queue w.

Lemma staled_keeps w parent fresh w' : staled w parent fresh w' → keeps w w'.
Proof.
  intros (s & s' & _ & _ & Hs' & Hf & _). apply api_keeps; [done|by eauto].
Qed.

Lemma take_freshness_ok parent w s :
  ready w s →
  ∃ fresh w', take_freshness (current w) parent w = (Ok fresh, w') ∧ staled w parent fresh w'.
Proof.
  intros Hs. unfold take_freshness. mstep (proj1 (proj2 (read_stack_ready w s Hs))).
  destruct (Stack.owning_agent_total parent s (rd_wf _ _ Hs)) as [u Hu].
  assert (∃ fresh s', Stack.take_agent_freshness parent s = Some (fresh, s')) as (fresh & s' & Ht).
  { unfold Stack.take_agent_freshness. rewrite Hu. by do 2 eexists. }
  rewrite Ht. unfold bind, write_stack, modify. cbn. eexists fresh, _. split; [done|].
  exists s, s'. split_and!; [done|done| |apply set_stack_api|by destruct w].
  apply (ready_set_stack s' w s Hs), (Stack.step_wf s); [|apply Hs].
  by apply (Stack.step_take parent s fresh).
Qed.

Lemma create_handle_ok n u parent attributes data metadata model ts w :
  healthy w →
  ∃ id t r w', create_llm_handle n u parent attributes data metadata model ts w
      = (Ok (State.create_llm_handle id t n u parent attributes data metadata model ts r
               (current w)), w')
    ∧ calm w w'.
Proof.
  intros Hw. unfold create_llm_handle. mstep (owner_ok w Hw).
  mstep (read_global_ok w (proj1 (proj2 Hw))).
  assert (∃ id w1, match u with Some u => ret u | None => fresh_uuid now_v7 end w = (Ok id, w1)
    ∧ calm w w1) as (id & w1 & Hid & Hc1).
  { destruct u; [by eexists _, w|]. eexists _, _. split; [done|apply calm_uuids]. }
  mstep Hid. destruct (timestamp_calm utc_now ts w1) as (t & w2 & Ht & Hc2). mstep Ht.
  unfold bind at 1, new_recorder. set (w3 := set_llm _ w2).
  unfold current_scope_stack. rewrite bind_gets. fold (current w3).
  assert (calm w w3) as Hc by (etrans; [exact Hc1|]; etrans; [exact Hc2|apply calm_llm]).
  assert (current w3 = current w) as -> by by apply calm_current.
  by eexists id, t, _, w3.
Qed.

(** The event a start transform is queued with. *)
Definition started (handle : LlmHandle) (request : LlmRequest)
    (annotated : option AnnotatedLlmRequest) (codec : option LlmCodec)
    (subscribers : list Callback) (w : World) (w' : World) : Prop :=
  ∃ s fresh w1, ready w s ∧ staled w (lh_parent_uuid handle) fresh w1
    ∧ emitted gate_run w1 (State.build_llm_start_event handle None None)
        (Some (LlmStartTransform handle (remove_observability_credential_headers request)
           annotated codec
           (guardrails_in_force F_llm_sanitize_request_guardrails LlmSanitizeRequestGuardrail w s)
           (observability_full_payloads_enabled (w_global w)) fresh false))
        subscribers w'.

Lemma queue_llm_start_ok handle request annotated codec subscribers w :
  healthy w → lh_scope_stack handle = current w →
  ∃ w', queue_llm_start_with_subscribers handle request annotated codec subscribers w
      = (Ok (), w')
    ∧ started handle request annotated codec subscribers w w'.
Proof.
  intros Hw Hh. unfold queue_llm_start_with_subscribers. rewrite Hh. mstep (owner_ok w Hw).
  pose proof Hw as (_ & Hg & s & Hs). mstep (proj1 (proj2 (read_stack_ready w s Hs))).
  mstep (read_global_ok w Hg). unfold Guardrails.guardrail_entries. rewrite bind_gets.
  destruct (take_freshness_ok (lh_parent_uuid handle) w s Hs) as (fresh & w1 & Ht & Hst). mstep Ht.
  pose proof (staled_keeps _ _ _ _ Hst) as Hk. pose proof (kp_current _ _ Hk) as Hcur.
  destruct (kp_healthy _ _ Hk Hw) as (Ho1 & Hg1 & s1 & Hs1). mstep (read_global_ok w1 Hg1). rewrite <-Hcur.
  set (start := State.build_llm_start_event handle None None).
  mstep (snapshot_event_sanitizers_ok gate_run w1 s1 start Hs1 Hg1).
  match goal with |- context [dispatch_transformed_event _ _ ?t] =>
    destruct (dispatch_transformed_emitted gate_run start t subscribers w1 s1)
      as (b & w' & Hd & Hem); [by split_and!; eauto|done|] end.
  exists w'. split; [by mstep Hd|]. by exists s, fresh, w1.
Qed.

(** ** Marks *)

Lemma fresh_uuid_calm w : ∃ w', fresh_uuid now_v7 w = (Ok (now_v7 (w_uuids w)), w')
  ∧ calm w w' ∧ w_llm w' = w_llm w.
Proof. eexists. split; [done|]. split; [apply calm_uuids|by destruct w]. Qed.

(** One mark of a span, with a fresh identifier. *)
Lemma queue_mark_ok (mark : uuid → Event) subscribers w :
  healthy w →
  ∃ u w0 w', fresh_uuid now_v7 w = (Ok u, w0)
    ∧ queue_sanitized_event_with_scope_stack (mark u) subscribers (current w) w0
      = (Ok (accepts w subscribers), w')
    ∧ emitted gate_run w (mark u) None subscribers w' ∧ w_llm w' = w_llm w.
Proof.
  intros Hw. destruct (fresh_uuid_calm w) as (w0 & Hu & Hc & Hl).
  pose proof (calm_healthy _ _ Hc Hw) as Hw0.
  destruct (queue_sanitized_emitted gate_run (mark (now_v7 (w_uuids w))) subscribers w0 Hw0)
    as (w' & Hq & Hem & Hl').
  exists (now_v7 (w_uuids w)), w0, w'. split; [done|]. split_and!.
  - assert (current w0 = current w) as <- by by apply calm_current. rewrite Hq. unfold accepts.
    by rewrite (af_dispatcher _ _ (proj1 Hc)).
  - destruct Hw as (_ & _ & s & Hs). by apply (calm_emitted gate_run w w0 _ _ _ _ s).
  - congruence.
Qed.

Definition valid_severity (mark : PendingMarkSpec) : bool :=
  match metadata_with_log_severity (pm_metadata mark) (pm_severity mark) with
  | Ok _ => true
  | Err _ | Panic => false
  end.

Definition request_mark_of (handle : LlmHandle) (mark : PendingMarkSpec) (e : Event) : Prop :=
  ∃ u metadata, metadata_with_log_severity (pm_metadata mark) (pm_severity mark) = Ok metadata
    ∧ e = request_mark u handle mark metadata.

Lemma emit_pending_ok handle marks subscribers w :
  healthy w → lh_scope_stack handle = current w →
  ∃ es w', emit_pending_request_marks handle marks subscribers w = (Ok (), w')
    ∧ marked gate_run w es subscribers w'
    ∧ Forall2 (request_mark_of handle) (filter (λ m, valid_severity m = true) marks) es.
Proof.
  intros Hw Hh.
  assert (∃ es w', emit_pending_loop handle marks subscribers w = (Ok (), w')
    ∧ marked gate_run w es subscribers w'
    ∧ Forall2 (request_mark_of handle) (filter (λ m, valid_severity m = true) marks) es)
    as (es & w' & Heq & Hloop).
  { revert w Hw Hh. induction marks as [|mark marks IH]; intros w Hw Hh; cbn [emit_pending_loop].
    { exists [], w. split; [done|]. split; [by apply marked_nil|constructor]. }
    rewrite filter_cons.
    destruct (metadata_with_log_severity _ _) as [metadata|e|] eqn:Hm.
    - destruct (queue_mark_ok (λ u, request_mark u handle mark metadata) subscribers w Hw)
        as (u & w0 & w1 & Hu & Hq & Hem & _).
      destruct (emitted_healthy gate_run _ _ _ _ _ Hem Hw) as [Hw1 Hc1].
      mstep Hu. rewrite Hh. mstep Hq. destruct (IH w1 Hw1) as (es & w' & Heq & Hmk & Hall);
        [congruence|].
      eexists (_ :: es), w'. split; [done|]. split; [by eapply marked_cons|].
      rewrite decide_True by (unfold valid_severity; by rewrite Hm).
      constructor; [by exists u, metadata|done].
    - rewrite decide_False by (unfold valid_severity; by rewrite Hm). by apply IH.
    - rewrite decide_False by (unfold valid_severity; by rewrite Hm). by apply IH. }
  exists es, w'. split; [|done]. unfold emit_pending_request_marks.
  destruct marks; [done|]. by mstep (owner_ok w Hw).
Qed.

Definition optimization_mark_of (handle : LlmHandle) (c : LlmOptimizationContribution * Z)
    (e : Event) : Prop :=
  ∃ u, e = optimization_mark_event u handle c.1 c.2.

(** From [w] to [w'] the marks [es] were published, one for each unemitted
    contribution of the handle's recorder, in order; all of them, and none is
    left over, when publications are accepted. *)
Definition optimization_marked (handle : LlmHandle) (subscribers : list Callback) (w : World)
    (es : list Event) (w' : World) : Prop :=
  let unemitted w := unemitted_with_timestamps (recorder_state (lh_recorder handle) w) in
  marked gate_run w es subscribers w'
  ∧ Forall2 (optimization_mark_of handle) (take (length es) (unemitted w)) es
  ∧ (accepts w subscribers = true → length es = length (unemitted w) ∧ unemitted w' = []).

Lemma optimization_loop_ok handle cs subscribers w :
  healthy w → lh_scope_stack handle = current w →
  unemitted_with_timestamps (recorder_state (lh_recorder handle) w) = cs →
  ∃ es w', optimization_marks_loop handle cs subscribers w = (Ok (), w')
    ∧ optimization_marked handle subscribers w es w'.
Proof.
  unfold optimization_marked. revert w. induction cs as [|[c at_] cs IH]; intros w Hw Hh Hcs.
  { exists [], w. cbn. rewrite Hcs. split; [done|]. split; [by apply marked_nil|].
    split; [constructor|done]. }
  cbn [optimization_marks_loop].
  destruct (queue_mark_ok (λ u, optimization_mark_event u handle c at_) subscribers w Hw)
    as (u & w0 & w1 & Hu & Hq & Hem & Hl1).
  destruct (emitted_healthy gate_run _ _ _ _ _ Hem Hw) as [Hw1 Hc1].
  mstep Hu. rewrite Hh. mstep Hq.
  destruct (accepts w subscribers) eqn:Hacc.
  - destruct (update_recorder_calm (lh_recorder handle) (mark_emitted 1) w1)
      as (w2 & Hup & Hc2 & Hs2). mstep Hup.
    assert (recorder_state (lh_recorder handle) w1 = recorder_state (lh_recorder handle) w) as Hs1
      by (unfold recorder_state; by rewrite Hl1).
    destruct (IH w2) as (es & w' & Heq & Hmk & Hall & Hfull).
    + by apply (calm_healthy _ _ Hc2).
    + assert (current w2 = current w1) as -> by by apply calm_current. congruence.
    + by rewrite Hs2, Hs1, unemitted_mark, Hcs.
    + exists (optimization_mark_event u handle c at_ :: es), w'. split; [done|]. split; [|split].
      * eapply marked_cons; [exact Hem|]. by apply (calm_marked gate_run w1 w2).
      * rewrite Hcs. cbn. constructor; [by exists u|].
        by rewrite Hs2, Hs1, unemitted_mark, Hcs in Hall.
      * intros _. assert (accepts w2 subscribers = true) as Hacc2.
        { rewrite <-Hacc. unfold accepts. destruct Hem as (_ & _ & _ & _ & Hf & _).
          by rewrite (af_dispatcher _ _ (proj1 Hc2)), (af_dispatcher _ _ Hf). }
        destruct (Hfull Hacc2) as [Hlen Hnil]. split; [|done].
        rewrite Hs2, Hs1, unemitted_mark, Hcs in Hlen. rewrite Hcs. cbn in *. congruence.
  - exists [optimization_mark_event u handle c at_], w1. split; [done|]. split; [|split; [|done]].
    + eapply marked_cons; [exact Hem|by apply marked_nil].
    + rewrite Hcs. cbn. constructor; [by exists u|constructor].
Qed.

Lemma optimization_marks_ok handle subscribers w :
  healthy w → lh_scope_stack handle = current w →
  ∃ es w', emit_optimization_marks handle subscribers w = (Ok (), w')
    ∧ optimization_marked handle subscribers w es w'.
Proof.
  intros Hw Hh. unfold emit_optimization_marks.
  unfold bind at 1, on_recorder. set (r := lh_recorder handle).
  set (w1 := set_recorder r (recorder_state r w) w).
  assert (calm w w1) as Hc by apply calm_llm.
  assert (recorder_state r w1 = recorder_state r w) as Hs by apply recorder_state_set.
  destruct (optimization_loop_ok handle _ subscribers w1 (calm_healthy _ _ Hc Hw)
    ltac:(rewrite Hh; symmetry; by apply calm_current) eq_refl) as (es & w' & Heq & Hmk & Hall & Hfull).
  fold r in Heq, Hall, Hfull. rewrite Hs in Heq, Hall, Hfull.
  exists es, w'. split.
  - destruct (unemitted_with_timestamps (recorder_state r w)); [exact Heq|].
    assert (w_owner w1 = Ok ()) as -> by (rewrite (af_owner _ _ (proj1 Hc)); apply Hw). exact Heq.
  - split; [by apply (calm_marked gate_run w w1)|]. split; [done|].
    intros Hacc. apply Hfull. rewrite <-Hacc. unfold accepts.
    by rewrite (af_dispatcher _ _ (proj1 Hc)).
Qed.

(** ** The span of a managed call *)

(** The span [handle] was opened once from [w] to [w'], with the observable
    copy of the intercepted request, the marks of the intercepts and the marks
    of what they contributed. *)
Definition llm_opened (parts : LlmCallParts) (llm_uuid : uuid) (recorder : N)
    (intercepted : InterceptedLlmRequest) (w : World) (handle : LlmHandle)
    (subscribers : list Callback) (trace : W3cTraceContext) (w' : World) : Prop :=
  lh_uuid handle = llm_uuid ∧ lh_recorder handle = recorder ∧ lh_scope_stack handle = current w
  ∧ lh_name handle = pt_name parts ∧ lh_data handle = pt_data parts
  ∧ lh_metadata handle = pt_metadata parts ∧ lh_model_name handle = pt_model_name parts
  ∧ (∃ s, ready w s ∧ lh_parent_uuid handle = causal_parent w s (pt_parent parts)
       ∧ subscribers = subscribers_in_force gate_run w s)
  ∧ ∃ w0' w0 w1 marks w2 w3 optimizations,
      calm w w0' ∧ calm w0' w0
      ∧ trace_context_for_managed_span llm_uuid (lh_parent_uuid handle) w0' = (Ok trace, w0)
      ∧ started handle (ir_request intercepted) (ir_annotated intercepted) (pt_codec parts)
          subscribers w0 w1
      ∧ marked gate_run w1 marks subscribers w2
      ∧ Forall2 (request_mark_of handle)
          (filter (λ m, valid_severity m = true) (ir_pending_marks intercepted)) marks
      ∧ record_all_on now_v7 utc_now serialize recorder (ir_contributions intercepted) w2
        = (Ok (), w3)
      ∧ optimization_marked handle subscribers w3 optimizations w'.

(** The trace context of the span cannot be made: [w'] is where its error [e]
    is found, and nothing was published. *)
Definition llm_untraced (parts : LlmCallParts) (llm_uuid : uuid) (w : World) (e : FlowError)
    (w' : World) : Prop :=
  ∃ s w0, ready w s ∧ calm w w0
    ∧ trace_context_for_managed_span llm_uuid (causal_parent w s (pt_parent parts)) w0 = (Err e, w')
    ∧ calm w w'.

Lemma open_llm_span_ok parts llm_uuid recorder intercepted w :
  healthy w →
  let '(r, w') := open_llm_span parts llm_uuid recorder intercepted w in
  match r with
  | Ok (handle, subscribers, request, trace) =>
      llm_opened parts llm_uuid recorder intercepted w handle subscribers trace w'
      ∧ request = inject_trace_context_value (w3c_traceparent trace) (w3c_tracestate trace)
          (ir_request intercepted)
      ∧ healthy w' ∧ current w' = current w
  | Err e => llm_untraced parts llm_uuid w e w'
  | Panic => False
  end.
Proof.
  intros Hw. pose proof Hw as (_ & _ & s & Hs). unfold open_llm_span.
  destruct (resolve_parent_calm (pt_parent parts) w s Hs) as (w1 & Hp & Hc1). mstep Hp.
  destruct (create_handle_ok (pt_name parts) (Some llm_uuid) (causal_parent w s (pt_parent parts))
    (pt_attributes parts) (pt_data parts) (pt_metadata parts) (pt_model_name parts) None w1
    (calm_healthy _ _ Hc1 Hw)) as (id & t & r & w2 & Hh & Hc2). mstep Hh.
  set (handle := with_recorder recorder _).
  assert (calm w w2) as Hc by (by etrans). pose proof (calm_healthy _ _ Hc Hw) as Hw2.
  pose proof (proj1 (proj2 Hc) s Hs) as Hs2. pose proof Hw2 as (_ & Hg2 & _).
  assert (lh_scope_stack handle = current w2) as Hst.
  { change (current w1 = current w2). symmetry. by apply calm_current. }
  rewrite Hst. mstep (proj1 (proj2 (read_stack_ready w2 s Hs2))).
  mstep (snapshot_event_subscribers_ok gate_run w2 s Hg2).
  set (subs := subscribers_in_force gate_run w2 s). unfold inject_traceparent.
  destruct (managed_span_context_total w2 s (lh_uuid handle) (lh_parent_uuid handle) Hs2)
    as (context & w3 & Hctx & Hnp & Hre).
  destruct (reanchored_frame _ _ Hre) as (Hf & Hq & _).
  assert (calm w2 w3) as Hc23 by (by apply calm_frame).
  assert (calm w w3) as Hc3 by (by etrans).
  unfold bind at 1, bind at 1. rewrite Hctx.
  destruct context as [trace|e|]; [|by exists s, w2|done].
  cbn -[queue_llm_start_with_subscribers emit_pending_request_marks record_all_on
        emit_optimization_marks bind].
  assert (lh_scope_stack handle = current w3) as Hst3.
  { rewrite Hst. transitivity (current w); [by apply calm_current|symmetry; by apply calm_current]. }
  destruct (queue_llm_start_ok handle (ir_request intercepted) (ir_annotated intercepted)
    (pt_codec parts) subs w3 (calm_healthy _ _ Hc3 Hw) Hst3) as (w4 & Hq4 & Hstart). mstep Hq4.
  assert (keeps w3 w4) as Hk4.
  { destruct Hstart as (? & ? & ? & _ & Hst'%staled_keeps & Hem%emitted_keeps). by etrans. }
  assert (healthy w4) as Hw4 by (apply Hk4, (calm_healthy _ _ Hc3 Hw)).
  destruct (emit_pending_ok handle (ir_pending_marks intercepted) subs w4 Hw4)
    as (marks & w5 & Hq5 & Hmk & Hmarks); [rewrite Hst3; symmetry; by apply kp_current|]. mstep Hq5.
  pose proof (marked_keeps gate_run _ _ _ _ Hmk) as Hk5.
  destruct (record_all_calm now_v7 utc_now serialize recorder (ir_contributions intercepted) w5)
    as (w6 & Hq6 & Hc6). unfold handle at 1. cbn [lh_recorder with_recorder]. mstep Hq6.
  pose proof (calm_keeps _ _ Hc6) as Hk6.
  assert (keeps w3 w6) as Hk by (etrans; [exact Hk4|]; by etrans).
  assert (healthy w6) as Hw6 by (apply Hk, (calm_healthy _ _ Hc3 Hw)).
  destruct (optimization_marks_ok handle subs w6 Hw6) as (opts & w7 & Hq7 & Hopt);
    [rewrite Hst3; symmetry; by apply kp_current|]. mstep Hq7.
  pose proof (marked_keeps gate_run _ _ _ _ (proj1 Hopt)) as Hk7.
  split; [|split; [done|]].
  - split_and!; try done.
    { rewrite Hst. by apply calm_current. }
    { exists s. split; [done|]. split; [done|]. unfold subs.
      by rewrite (proj2 (in_force_api gate_run _ _ (proj1 Hc))). }
    exists w2, w3, w4, marks, w5, w6, opts. by split_and!.
  - assert (keeps w w7) as Hk07; [|split; [by apply Hk07|by apply kp_current]].
    etrans; [by apply calm_keeps|]. etrans; [exact Hk|done].
Qed.

(** ** Closing the span *)

#[local] Notation response_guardrails :=
  (guardrails_in_force F_llm_sanitize_response_guardrails LlmSanitizeResponseGuardrail).

Lemma queue_llm_end_ok e transform subscribers w :
  healthy w →
  ∃ w', queue_llm_end_event e transform subscribers (current w) w = (Ok (), w')
    ∧ emitted gate_run w e (Some transform) subscribers w'.
Proof.
  intros Hw. pose proof Hw as (_ & Hg & s & Hs). unfold queue_llm_end_event.
  mstep (snapshot_event_sanitizers_ok gate_run w s e Hs Hg).
  destruct (dispatch_transformed_emitted gate_run e transform subscribers w s Hw Hs)
    as (b & w' & Hd & Hem).
  exists w'. split; [by mstep Hd|done].
Qed.

(** The recorder is closed and what it still holds is marked: the last step
    before the end event, from [w] to [w']. *)
Definition settled (handle : LlmHandle) (limitation : option string)
    (subscribers : list Callback) (w w' : World) : Prop :=
  ∃ w0 marks, close_recorder handle limitation w
      = (Ok (close_for_finalization limitation (recorder_state (lh_recorder handle) w)).1, w0)
    ∧ calm w w0 ∧ optimization_marked handle subscribers w0 marks w'.

Lemma settled_keeps handle limitation subscribers w w' :
  settled handle limitation subscribers w w' → keeps w w'.
Proof.
  intros (w0 & marks & _ & Hc & Hmk & _). etrans; [by apply calm_keeps|].
  by apply (marked_keeps gate_run _ marks subscribers).
Qed.

Lemma settle_ok handle limitation subscribers w :
  healthy w → lh_scope_stack handle = current w →
  ∃ b w0 w', close_recorder handle limitation w = (Ok b, w0)
    ∧ emit_optimization_marks handle subscribers w0 = (Ok (), w')
    ∧ settled handle limitation subscribers w w'.
Proof.
  intros Hw Hh.
  destruct (on_recorder_calm (lh_recorder handle) (close_for_finalization limitation) w)
    as (w0 & Hcl & Hc & _).
  destruct (optimization_marks_ok handle subscribers w0 (calm_healthy _ _ Hc Hw))
    as (marks & w' & Hm & Hmk); [rewrite Hh; symmetry; by apply calm_current|].
  eexists _, w0, w'. split; [exact Hcl|]. split; [done|]. exists w0, marks. by split_and!.
Qed.

Lemma prepare_llm_end_ok handle subscribers w s :
  healthy w → ready w s → lh_scope_stack handle = current w →
  ∃ w', prepare_llm_end handle (Some subscribers) w
      = (Ok (response_guardrails w s, subscribers), w')
    ∧ settled handle None subscribers w w'.
Proof.
  intros Hw Hs Hh. pose proof Hw as (_ & Hg & _). unfold prepare_llm_end. rewrite Hh.
  mstep (proj1 (proj2 (read_stack_ready w s Hs))). rewrite bind_ret. mstep (read_global_ok w Hg).
  unfold Guardrails.guardrail_entries. rewrite bind_gets.
  destruct (settle_ok handle None subscribers w Hw Hh) as (b & w0 & w' & Hcl & Hm & Hset).
  mstep Hcl. mstep Hm. exists w'. split; [|done].
  destruct (kp_healthy _ _ (settled_keeps _ _ _ _ _ Hset) Hw) as (_ & Hg' & _).
  by mstep (read_global_ok w' Hg').
Qed.

(** From [w] to [w'] the recorder was settled and one event published. *)
Definition llm_ended (handle : LlmHandle) (limitation : option string)
    (subscribers : list Callback) (w : World) (stop : Event) (transform : Transform)
    (w' : World) : Prop :=
  ∃ w1, settled handle limitation subscribers w w1
    ∧ emitted gate_run w1 stop (Some transform) subscribers w'.

Lemma prepared_end_ok handle subscribers w w0 s (event : timestamp → Event) transform t :
  healthy w → ready w s → calm w w0 → lh_scope_stack handle = current w →
  ∃ w', (let! (entries, subscribers) := prepare_llm_end handle (Some subscribers) in
         queue_llm_end_event (event t) (transform entries t) subscribers (lh_scope_stack handle)) w0
      = (Ok (), w')
    ∧ ∃ w1, calm w w1 ∧ llm_ended handle None subscribers w1 (event t)
        (transform (response_guardrails w s) t) w'.
Proof.
  intros Hw Hs Hc Hh. pose proof (calm_healthy _ _ Hc Hw) as Hw0.
  pose proof (proj1 (proj2 Hc) s Hs) as Hs0.
  assert (lh_scope_stack handle = current w0) as Hh0 by (rewrite Hh; symmetry; by apply calm_current).
  destruct (prepare_llm_end_ok handle subscribers w0 s Hw0 Hs0 Hh0) as (w2 & Hp & Hset). mstep Hp.
  pose proof (settled_keeps _ _ _ _ _ Hset) as Hk. pose proof (kp_current _ _ Hk) as Hcur.
  assert (response_guardrails w0 s = response_guardrails w s) as ->.
  { unfold guardrails_in_force, enabled. destruct Hc as [Hf _].
    by rewrite (af_global _ _ Hf), (af_gates _ _ Hf). }
  rewrite Hh0, <-Hcur.
  destruct (queue_llm_end_ok (event t) (transform (response_guardrails w s) t) subscribers w2
    (kp_healthy _ _ Hk Hw0)) as (w' & Hq & Hem).
  exists w'. split; [done|]. exists w0. split; [done|]. by exists w2.
Qed.

Lemma try_response_entries_ok w s :
  healthy w → ready w s →
  try_response_entries (current w) w = (Ok (Some (response_guardrails w s)), w).
Proof.
  intros (_ & Hg & _) [_ Hs _ Hl]. unfold try_response_entries. rewrite !bind_gets.
  by rewrite bool_decide_eq_false_2, Hs, Hg by done.
Qed.

Definition cancelled_metadata (metadata : option Json) : option Json :=
  metadata_with_otel_status metadata "ERROR" (Some "LLM execution cancelled").

Lemma completion_ok handle metadata codec subscribers w s :
  healthy w → ready w s → lh_scope_stack handle = current w →
  ∃ t w', managed_llm_completion handle metadata codec subscribers w = (Ok (), w')
    ∧ llm_ended handle (Some "execution_cancelled") subscribers w
        (State.build_llm_end_event t handle None (cancelled_metadata metadata) None None None)
        (LlmCancelledEndTransform handle (cancelled_metadata metadata) codec
           (Some (response_guardrails w s))) w'.
Proof.
  intros Hw Hs Hh. unfold managed_llm_completion. rewrite Hh.
  mstep (try_response_entries_ok w s Hw Hs).
  destruct (settle_ok handle (Some "execution_cancelled") subscribers w Hw Hh)
    as (b & w0 & w1 & Hcl & Hm & Hset).
  mstep Hcl. mstep Hm. rewrite bind_gets.
  pose proof (settled_keeps _ _ _ _ _ Hset) as Hk. pose proof (kp_current _ _ Hk) as Hcur.
  pose proof (kp_healthy _ _ Hk Hw) as Hw1.
  pose proof Hw1 as (_ & Hg1 & s1 & Hs1). rewrite Hg1. unfold bind at 1, now.
  set (w2 := set_clock _ w1). assert (calm w1 w2) as Hc by apply calm_clock.
  assert (current w2 = current w) as <- by (transitivity (current w1); [by apply calm_current|done]).
  match goal with |- context [queue_llm_end_event ?e ?t] =>
    destruct (queue_llm_end_ok e t subscribers w2 (calm_healthy _ _ Hc Hw1)) as (w' & Hq & Hem)
  end.
  eexists _, w'. split; [exact Hq|]. exists w1. split; [done|].
  by apply (calm_emitted gate_run w1 w2 _ _ _ _ s1).
Qed.

(** The end event of a call whose execution failed. *)
Lemma failed_end_ok handle metadata codec subscribers w s :
  healthy w → ready w s → lh_scope_stack handle = current w →
  ∃ t w1 w', emit_llm_end_without_output handle metadata codec (Some subscribers) w = (Ok (), w')
    ∧ calm w w1
    ∧ llm_ended handle None subscribers w1
        (State.build_llm_end_event t handle (Some Null) metadata None None (Some t))
        (LlmFailedEndTransform handle metadata codec (response_guardrails w s) t) w'.
Proof.
  intros Hw Hs Hh. unfold emit_llm_end_without_output.
  mstep (owner_ok w Hw). unfold bind at 1, now. set (w0 := set_clock _ w). set (t := utc_now _).
  assert (calm w w0) as Hc by apply calm_clock.
  destruct (prepared_end_ok handle subscribers w w0 s (λ t, State.build_llm_end_event t handle
    (Some Null) metadata None None (Some t))
    (λ entries t, LlmFailedEndTransform handle metadata codec entries t) t
    Hw Hs Hc Hh) as (w' & Heq & w1 & Hc1 & Hend).
  by exists t, w1, w'.
Qed.

(** From [w] to [w'] the span was closed, once, after an execution that ended
    with [execution]; [r] is the answer of the call. *)
Definition llm_closed (params : LlmCallExecuteParams) (handle : LlmHandle)
    (subscribers : list Callback) (w : World) (execution : outcome FlowError Json)
    (r : outcome FlowError Json) (w' : World) : Prop :=
  ∃ t s w1, ready w s ∧ calm w w1 ∧
    let stop d m := State.build_llm_end_event t handle d m None None in
    let metadata := lx_metadata params in
    let codec := lx_response_codec params in
    let entries := response_guardrails w s in
    match execution with
    | Ok response =>
        r = Ok response
        ∧ llm_ended handle None subscribers w1
            (stop (Some Null) (metadata_with_otel_status metadata "OK" None) (Some t))
            (LlmEndTransform handle response (lx_data params) None codec entries metadata (Some t)
               false) w'
    | Err error =>
        let metadata := metadata_with_otel_error metadata error in
        r = Err error
        ∧ llm_ended handle None subscribers w1 (stop (Some Null) metadata (Some t))
            (LlmFailedEndTransform handle metadata codec entries t) w'
    | Panic =>
        r = Panic
        ∧ llm_ended handle (Some "execution_cancelled") subscribers w1
            (stop None (cancelled_metadata metadata) None)
            (LlmCancelledEndTransform handle (cancelled_metadata metadata) codec (Some entries)) w'
    end.

Lemma finish_llm_call_ok params handle subscribers w execution :
  healthy w → lh_scope_stack handle = current w →
  let completion :=
    managed_llm_completion handle (lx_metadata params) (lx_response_codec params) subscribers in
  let '(r, w') := finish_llm_call params handle subscribers completion execution w in
  llm_closed params handle subscribers w execution r w'.
Proof.
  intros Hw Hh completion. pose proof Hw as (_ & _ & s & Hs). unfold finish_llm_call, llm_closed.
  destruct execution as [response|error|].
  - unfold llm_call_end_with_behavior. cbn [le_handle le_timestamp le_metadata].
    unfold timestamp_or_now, now. unfold unless_disarmed, bind at 1, bind at 1.
    set (w0 := set_clock _ w). set (t := utc_now _).
    assert (calm w w0) as Hc by apply calm_clock.
    mstep (owner_ok w0 (calm_healthy _ _ Hc Hw)).
    destruct (prepared_end_ok handle subscribers w w0 s (λ t, State.build_llm_end_event t handle
      (Some Null) (metadata_with_otel_status (lx_metadata params) "OK" None) None None (Some t))
      (λ entries t, LlmEndTransform handle response (lx_data params) None
        (lx_response_codec params) entries (lx_metadata params) (Some t) false) t Hw Hs Hc Hh)
      as (w' & Heq & w1 & Hc1 & Hend).
    cbn. cbn in Heq. rewrite Heq. cbn. by exists t, s, w1.
  - destruct (failed_end_ok handle (metadata_with_otel_error (lx_metadata params) error)
      (lx_response_codec params) subscribers w s Hw Hs Hh) as (t & w1 & w' & Heq & Hc1 & Hend).
    unfold unless_disarmed, ignore_err, bind. rewrite Heq. by exists t, s, w1.
  - destruct (completion_ok handle (lx_metadata params) (lx_response_codec params) subscribers w s
      Hw Hs Hh) as (t & w' & Heq & Hend).
    unfold completion, bind. rewrite Heq. by exists t, s, w.
Qed.

(** ** Running the provider *)

(** What the provider and the intercepts around it keep. *)
Definition llm_execution_keeps (params : LlmCallExecuteParams) : Prop :=
  (∀ cb n r c, prog_preserves keeps (run_execution cb n r c))
  ∧ (∀ r w, keeps w (lx_func params r w).2).

Definition execution_context (params : LlmCallExecuteParams) : LlmExecutionContext :=
  for_non_streaming (lx_codec params) (lx_response_codec params).

Lemma execute_llm_keeping params n context request :
  llm_execution_keeps params → keeping (execute_llm n context (lx_func params) request).
Proof.
  intros [Hrun Hfn]. unfold execute_llm, current_scope_stack.
  repeat (apply keeping_bind; [auto with relay|intros ?]).
  intros w Hw. by apply (llm_chain_preserves keeps healthy).
Qed.

(** The span of a managed call: opened once, one execution under the span, on
    the intercepted request with its trace headers, closed once; or the trace
    context cannot be made, and its error is the answer. *)
Definition managed_llm_span (params : LlmCallExecuteParams) (llm_uuid : uuid) (recorder : N)
    (intercepted : InterceptedLlmRequest) (w : World) (r : outcome FlowError Json)
    (w' : World) : Prop :=
  (∃ e, r = Err e ∧ llm_untraced (execute_parts params) llm_uuid w e w')
  ∨ ∃ handle subscribers trace w1 execution w2,
      llm_opened (execute_parts params) llm_uuid recorder intercepted w handle subscribers trace w1
      ∧ with_active_event_trace_context llm_uuid (Some trace)
          (scope_llm_optimization_recorder recorder
             (execute_llm (lx_name params) (execution_context params) (lx_func params)
                (inject_trace_context_value (w3c_traceparent trace) (w3c_tracestate trace)
                   (ir_request intercepted)))) w1
        = (execution, w2)
      ∧ llm_closed params handle subscribers w2 execution r w'.

Lemma run_llm_call_managed params llm_uuid recorder intercepted w :
  llm_execution_keeps params → healthy w →
  let '(r, w') := run_llm_call params llm_uuid recorder intercepted w in
  managed_llm_span params llm_uuid recorder intercepted w r w'.
Proof.
  intros Hex Hw. unfold run_llm_call, bind.
  pose proof (open_llm_span_ok (execute_parts params) llm_uuid recorder intercepted w Hw) as Hop.
  destruct (open_llm_span _ _ _ _ w) as [[[[[handle subs] request] trace]|e|] w1];
    [|by left; exists e|done].
  destruct Hop as (Hop & -> & Hw1 & Hcur). cbv beta iota.
  pose proof Hop as (Hu & Hr & Hst & _). rewrite Hu, Hr.
  set (m := scope_llm_optimization_recorder recorder _).
  assert (keeps w1 (with_active_event_trace_context llm_uuid (Some trace) m w1).2) as Hk.
  { apply with_active_event_keeps; [done|]. by apply scope_recorder_keeping, execute_llm_keeping. }
  destruct (with_active_event_trace_context _ _ _ w1) as [execution w2] eqn:Hrun. cbn in Hk.
  assert (lh_scope_stack handle = current w2) as Hst2 by (rewrite Hst, (kp_current _ _ Hk); done).
  pose proof (finish_llm_call_ok params handle subs w2 execution (kp_healthy _ _ Hk Hw1) Hst2) as Hcl.
  cbv zeta in Hcl. destruct (finish_llm_call _ _ _ _ _ w2) as [r w'].
  right. by exists handle, subs, trace, w1, execution, w2.
Qed.

Lemma intercept_llm_keeping parts :
  (∀ cb n r a w, keeps w (run_intercept cb n r a w).2) → keeping (intercept_llm_request parts).
Proof.
  intros Hrun. unfold intercept_llm_request.
  apply keeping_bind; [intros w _; apply calm_keeps, calm_uuids|intros u].
  apply keeping_bind; [intros w _; apply calm_keeps, calm_llm|intros r].
  apply keeping_bind; [|auto with relay]. by apply scope_recorder_keeping, intercepts_keeping.
Qed.

(** C9: a managed LLM call that starts ends exactly once. In a healthy world,
    with callbacks that keep it so, [llm_call_execute] either stops before the
    span (a guardrail rejected or failed, or a codec or a request intercept
    failed, or the W3C trace context of the span could not be made: the answer
    is that failure and nothing more is done), or it publishes one start event
    whose payload is built from the credential-free copy of the intercepted
    request by the request sanitizers in force, then the marks of the request
    intercepts and of their contributions, runs the chain around the provider
    once on the intercepted request, and publishes one end event of the same
    span after the marks of every contribution made meanwhile: with status OK
    and the response, with the error, or as cancelled when the execution
    unwound or was dropped. The answer is the one of the execution. *)
Theorem managed_llm_ends_once params w :
  (∀ cb r w, keeps w (run_conditional cb r w).2) →
  (∀ cb n r a w, keeps w (run_intercept cb n r a w).2) →
  llm_execution_keeps params → healthy w →
  let '(r, w') := llm_call_execute params w in
  match (check_llm_call (execute_parts params) ;!
         intercept_llm_request (execute_parts params)) w with
  | (Ok (llm_uuid, recorder, intercepted), w0) =>
      managed_llm_span params llm_uuid recorder intercepted w0 r w'
  | (Err e, w0) => r = Err e ∧ w' = w0
  | (Panic, w0) => r = Panic ∧ w' = w0
  end.
Proof.
  intros Hcond Hint Hex Hw. unfold llm_call_execute.
  rewrite (bind_ok _ _ _ _ _ (owner_ok w Hw)). unfold bind.
  destruct (check_llm_call _ w) as [[[]|e|] w1] eqn:Hcheck; [|done|done].
  pose proof (check_call_keeps now_v7 utc_now gate_run _ _ _ _ _ _ _ _ w w1
    (λ cb, Hcond cb _) Hw Hcheck) as Hw1.
  pose proof (kp_healthy _ _ (intercept_llm_keeping (execute_parts params) Hint w1 Hw1)) as Hk.
  destruct (intercept_llm_request _ w1) as [[[[u r] i]|e|] w2]; [|done|done].
  apply run_llm_call_managed; [done|]. by apply Hk.
Qed.

End LlmApi.

(** ** A concrete call: a provider that answers, no middleware *)

Definition demo_llm_request : LlmRequest :=
  {| headers := [("Authorization", Str "secret")]; content := Str "hello" |}.

Definition demo_llm_call : LlmCallExecuteParams := {|
  lx_name := "openai"; lx_request := demo_llm_request;
  lx_func := λ r w, (Ok (content r), w);
  lx_parent := None; lx_attributes := 0; lx_data := None; lx_metadata := None;
  lx_model_name := Some "m"; lx_codec := None; lx_response_codec := None;
|}.

Lemma managed_llm_ends_once_witness :
  ∃ u n i w0 w', managed_llm_span (H := plain_otel) demo_now_v7 demo_utc_now demo_gate_run
    demo_serialize (λ _, None) (λ _ _ _ _, Return Panic) true demo_llm_call u n i w0
    (Ok (Str "hello")) w'.
Proof.
  set (conditional := λ (_ : Callback) (_ : LlmRequest) (w : World),
    (Some (Ok (E := FlowError) (A := option string) None), w)).
  set (intercept := λ (_ : Callback) (_ : string) (r : LlmRequest)
    (a : option AnnotatedLlmRequest) (w : World),
    (Ok (E := FlowError) (Build_LlmRequestInterceptOutcome r a [] ([] : list
       LlmOptimizationContribution)), w)).
  pose proof (managed_llm_ends_once (H := plain_otel) demo_now_v7 demo_utc_now demo_gate_run
    demo_serialize (λ _, None) conditional intercept (λ _ _ _ _, Return Panic) true demo_llm_call
    demo_world) as Hm.
  assert ((llm_call_execute (H := plain_otel) demo_now_v7 demo_utc_now demo_gate_run
    demo_serialize (λ _, None) conditional intercept (λ _ _ _ _, Return Panic) true demo_llm_call
    demo_world).1 = Ok (Str "hello")) as Hr by (vm_compute; reflexivity).
  assert (∃ x, ((check_llm_call (H := plain_otel) demo_now_v7 demo_utc_now demo_gate_run
      conditional (execute_parts demo_llm_call) ;!
    intercept_llm_request demo_now_v7 demo_utc_now demo_gate_run demo_serialize intercept
      (execute_parts demo_llm_call)) demo_world).1 = Ok x) as [[[u n] i] Hc]
    by (eexists; vm_compute; reflexivity).
  destruct (llm_call_execute _ _ _ _ _ _ _ _ _ _ demo_world) as [r w']. cbn in Hr. subst r.
  destruct (bind _ _ demo_world) as [x w0]. cbn in Hc. subst x.
  exists u, n, i, w0, w'. apply Hm; [done|done|by split|apply demo_healthy].
Defined.
