(* ===== verification/Chunks.v ===== *)
(** * Chunk marks of LLM streams ([crates/runtime/src/stream.rs], from
    [llm_chunk_mark_data] on)

    A stream publishes one mark per provider chunk.  The mark says where the
    chunk belongs and what it ends, never what it says. *)

From stdpp Require Import base strings list.
From S2P Require Import Prelude Text Errors Json LlmTypes.

(** [Json::as_u64] and [Json::from(u64)]. *)
Definition as_u64 (v : Json) : option Z :=
  match v with Num (PosInt n) => Some n | _ => None end.

Definition of_u64 (n : Z) : Json := Num (PosInt n).

Definition Map : Type := list (string * Json).

Definition insert_u64_field (output : Map) (input : Json) (input_field output_field : string) :
    Map :=
  match get input input_field ≫= as_u64 with
  | Some value => obj_insert output_field (of_u64 value) output
  | None => output
  end.

Definition non_empty_object (object : Map) : option Json :=
  match object with [] => None | _ => Some (Object object) end.

Definition insert_opt (k : string) (v : option Json) (data : Map) : Map :=
  match v with Some v => obj_insert k v data | None => data end.

Definition normalize_openai_chat_usage (usage : Json) : option Json :=
  let normalized := insert_u64_field [] usage "prompt_tokens" "prompt_tokens" in
  let normalized :=
    insert_u64_field normalized usage "completion_tokens" "completion_tokens" in
  let normalized := insert_u64_field normalized usage "total_tokens" "total_tokens" in
  let cached :=
    details ← get usage "prompt_tokens_details"; v ← get details "cached_tokens"; as_u64 v in
  non_empty_object (insert_opt "cache_read_tokens" (of_u64 <$> cached) normalized).

Definition normalize_openai_responses_usage (usage : Json) : option Json :=
  let normalized := insert_u64_field [] usage "input_tokens" "prompt_tokens" in
  let normalized := insert_u64_field normalized usage "output_tokens" "completion_tokens" in
  let normalized := insert_u64_field normalized usage "total_tokens" "total_tokens" in
  let cached :=
    details ← get usage "input_tokens_details"; v ← get details "cached_tokens"; as_u64 v in
  non_empty_object (insert_opt "cache_read_tokens" (of_u64 <$> cached) normalized).

Definition normalize_anthropic_usage (usage : Json) : option Json :=
  let prompt_tokens := get usage "input_tokens" ≫= as_u64 in
  let completion_tokens := get usage "output_tokens" ≫= as_u64 in
  let normalized := insert_opt "prompt_tokens" (of_u64 <$> prompt_tokens) [] in
  let normalized := insert_opt "completion_tokens" (of_u64 <$> completion_tokens) normalized in
  let total := prompt ← prompt_tokens; completion ← completion_tokens;
    checked_add prompt completion in
  let normalized := insert_opt "total_tokens" (of_u64 <$> total) normalized in
  let normalized :=
    insert_u64_field normalized usage "cache_read_input_tokens" "cache_read_tokens" in
  let normalized :=
    insert_u64_field normalized usage "cache_creation_input_tokens" "cache_write_tokens" in
  non_empty_object normalized.

Definition insert_index_fields (data : Map) (raw_chunk : Json) (field_names : list string) : Map :=
  let indices :=
    foldl (λ indices n, insert_u64_field indices raw_chunk n n) [] field_names in
  insert_opt "indices" (non_empty_object indices) data.

Definition base_chunk_mark_data (chunk_index : Z) (provider : string) : Map :=
  obj_insert "provider" (Str provider) (obj_insert "chunk_index" (of_u64 chunk_index) []).

(** [if !items.is_empty()]. *)
Definition non_empty_array (items : list Json) : option Json :=
  match items with [] => None | _ => Some (Array items) end.

Definition choice_finish_reason (choice : Json) : option Json :=
  reason ← get choice "finish_reason" ≫= as_str;
  let item := insert_u64_field [] choice "index" "choice_index" in
  Some (Object (obj_insert "finish_reason" (Str reason) item)).

Definition summarize_openai_chat_chunk (chunk_index : Z) (raw_chunk : Json) : option Json :=
  let object := get raw_chunk "object" ≫= as_str in
  if negb (bool_decide (object = Some "chat.completion.chunk")) then None
  else
    let data := base_chunk_mark_data chunk_index "openai_chat_completions" in
    let data := insert_opt "event_type" (Str <$> object) data in
    let data :=
      match get raw_chunk "choices" ≫= as_array with
      | Some choices =>
          let choice_indices := omap (λ choice, of_u64 <$> (get choice "index" ≫= as_u64)) choices in
          let data := insert_opt "choice_indices" (non_empty_array choice_indices) data in
          insert_opt "finish_reasons" (non_empty_array (omap choice_finish_reason choices)) data
      | None => data
      end in
    Some (Object (insert_opt "usage" (get raw_chunk "usage" ≫= normalize_openai_chat_usage) data)).

Definition first_of {X} (a b : option X) : option X :=
  match a with Some _ => a | None => b end.

Definition summarize_openai_responses_chunk (chunk_index : Z) (raw_chunk : Json) : option Json :=
  event_type ← get raw_chunk "type" ≫= as_str;
  if negb (starts_with "response." event_type) then None
  else
    let data := base_chunk_mark_data chunk_index "openai_responses" in
    let data := obj_insert "event_type" (Str event_type) data in
    let data := insert_index_fields data raw_chunk ["output_index"; "content_index"] in
    let response := get raw_chunk "response" in
    let status :=
      first_of (response ≫= λ r, get r "status") (get raw_chunk "status") ≫= as_str in
    let data := insert_opt "status" (Str <$> status) data in
    let reason :=
      r ← response; details ← get r "incomplete_details"; v ← get details "reason"; as_str v in
    let data := insert_opt "finish_reason" (Str <$> reason) data in
    let usage :=
      first_of (get raw_chunk "usage") (response ≫= λ r, get r "usage")
        ≫= normalize_openai_responses_usage in
    Some (Object (insert_opt "usage" usage data)).

Definition ANTHROPIC_EVENTS : list string :=
  ["message_start"; "content_block_start"; "content_block_delta"; "content_block_stop";
   "message_delta"; "message_stop"; "ping"].

Definition summarize_anthropic_messages_chunk (chunk_index : Z) (raw_chunk : Json) : option Json :=
  event_type ← get raw_chunk "type" ≫= as_str;
  if negb (bool_decide (event_type ∈ ANTHROPIC_EVENTS)) then None
  else
    let data := base_chunk_mark_data chunk_index "anthropic_messages" in
    let data := obj_insert "event_type" (Str event_type) data in
    let data := insert_index_fields data raw_chunk ["index"] in
    let stop_reason :=
      first_of (get raw_chunk "delta" ≫= λ delta, get delta "stop_reason")
               (get raw_chunk "message" ≫= λ message, get message "stop_reason") ≫= as_str in
    let data := insert_opt "stop_reason" (Str <$> stop_reason) data in
    let usage :=
      first_of (get raw_chunk "usage") (get raw_chunk "message" ≫= λ message, get message "usage")
        ≫= normalize_anthropic_usage in
    Some (Object (insert_opt "usage" usage data)).

Definition llm_chunk_mark_data (chunk_index : Z) (raw_chunk : Json) : Json :=
  match summarize_openai_chat_chunk chunk_index raw_chunk with
  | Some data => data
  | None =>
      match summarize_openai_responses_chunk chunk_index raw_chunk with
      | Some data => data
      | None =>
          match summarize_anthropic_messages_chunk chunk_index raw_chunk with
          | Some data => data
          | None => Object (base_chunk_mark_data chunk_index "unknown")
          end
      end
  end.

(** ** What a chunk mark may contain *)

(** [v] is the value of a field [k] somewhere in a JSON value. *)
Inductive field_in (k : string) (v : Json) : Json → Prop :=
| field_here m : obj_get k m = Some v → field_in k v (Object m)
| field_member k' x m : obj_get k' m = Some x → field_in k v x → field_in k v (Object m)
| field_item x l : x ∈ l → field_in k v x → field_in k v (Array l).

(** A scalar somewhere in a JSON value. *)
Inductive leaf (v : Json) : Json → Prop :=
| leaf_here : as_array v = None → as_object v = None → leaf v v
| leaf_member kv m : kv ∈ m → leaf v kv.2 → leaf v (Object m)
| leaf_item x l : x ∈ l → leaf v x → leaf v (Array l).

(** The fields of provider chunks that say what a chunk is, not what it says. *)
Definition DESCRIPTORS : list string :=
  ["object"; "type"; "status"; "reason"; "finish_reason"; "stop_reason"].

Definition PROVIDERS : list string :=
  ["openai_chat_completions"; "openai_responses"; "anthropic_messages"; "unknown"].

Section Content.
Context (chunk : Json).

Definition descriptive (v : Json) : Prop :=
  (∃ n, v = of_u64 n) ∨ (∃ p, p ∈ PROVIDERS ∧ v = Str p)
  ∨ ∃ k s, k ∈ DESCRIPTORS ∧ v = Str s ∧ field_in k v chunk.

Definition compact (v : Json) : Prop := ∀ l, leaf l v → descriptive l.
Definition compact_map (m : Map) : Prop := ∀ kv, kv ∈ m → compact kv.2.

Lemma compact_u64 n : compact (of_u64 n).
Proof. intros l Hl. inversion Hl; subst. left. by exists n. Qed.

Lemma compact_str k s : k ∈ DESCRIPTORS → field_in k (Str s) chunk → compact (Str s).
Proof. intros Hk Hf l Hl. inversion Hl; subst. right; right. by exists k, s. Qed.

Lemma compact_object m : compact_map m → compact (Object m).
Proof. intros Hm l Hl. inversion Hl; subst; [done|]. by eapply Hm. Qed.

Lemma compact_array l : (∀ x, x ∈ l → compact x) → compact (Array l).
Proof. intros Hl v Hv. inversion Hv; subst; [done|]. by eapply Hl. Qed.

Lemma compact_nil : compact_map [].
Proof. intros kv Hkv. by apply not_elem_of_nil in Hkv. Qed.

Lemma compact_insert k v m : compact v → compact_map m → compact_map (obj_insert k v m).
Proof. intros Hv Hm kv [->|Hkv]%obj_insert_keys; [done|by apply Hm]. Qed.

Lemma compact_opt k o m :
  (∀ v, o = Some v → compact v) → compact_map m → compact_map (insert_opt k o m).
Proof. destruct o; [|done]. intros Hv Hm. apply compact_insert; auto. Qed.

Lemma compact_u64_field m v k k' : compact_map m → compact_map (insert_u64_field m v k k').
Proof.
  unfold insert_u64_field. destruct (_ ≫= _); [|done]. apply compact_insert, compact_u64.
Qed.

Lemma compact_non_empty m v : compact_map m → non_empty_object m = Some v → compact v.
Proof. destruct m; [done|]. intros Hm [= <-]. by apply compact_object. Qed.

Lemma compact_non_empty_array l v :
  (∀ x, x ∈ l → compact x) → non_empty_array l = Some v → compact v.
Proof. destruct l; [done|]. intros Hl [= <-]. by apply compact_array. Qed.

Lemma compact_u64_opt (o : option Z) v : of_u64 <$> o = Some v → compact v.
Proof. destruct o; [|done]. intros [= <-]. apply compact_u64. Qed.

Lemma compact_base i p : p ∈ PROVIDERS → compact_map (base_chunk_mark_data i p).
Proof.
  intros Hp. apply compact_insert; [|apply compact_insert; [apply compact_u64|apply compact_nil]].
  intros l Hl. inversion Hl; subst. right; left. by exists p.
Qed.

Hint Resolve compact_u64 compact_nil compact_insert compact_opt compact_u64_field
  compact_non_empty compact_u64_opt compact_base : compact.

Lemma compact_chat_usage u v : normalize_openai_chat_usage u = Some v → compact v.
Proof. apply compact_non_empty. eauto 10 with compact. Qed.

Lemma compact_responses_usage u v : normalize_openai_responses_usage u = Some v → compact v.
Proof. apply compact_non_empty. eauto 10 with compact. Qed.

Lemma compact_anthropic_usage u v : normalize_anthropic_usage u = Some v → compact v.
Proof. apply compact_non_empty. eauto 10 with compact. Qed.

Lemma compact_index_fields m v l : compact_map m → compact_map (insert_index_fields m v l).
Proof.
  intros Hm. apply compact_opt; [|done]. intros x. apply compact_non_empty.
  assert (∀ acc, compact_map acc → compact_map (foldl (λ i n, insert_u64_field i v n n) acc l))
    as Hf; [|auto with compact].
  induction l as [|n l IH]; intros acc Hacc; cbn; auto with compact.
Qed.

(** A descriptor field read with [get] and [as_str]. *)
Lemma as_str_inv (v : Json) s : as_str v = Some s → v = Str s.
Proof. by destruct v; intros [= ->]. Qed.

Lemma get_inv v k x : get v k = Some x → ∃ m, v = Object m ∧ obj_get k m = Some x.
Proof. destruct v; try done. by exists m. Qed.

Lemma field_get k v x : get v k = Some x → field_in k x v.
Proof. intros (m & -> & Hm)%get_inv. by constructor. Qed.

Lemma field_under k k' v x y : get v k' = Some y → field_in k x y → field_in k x v.
Proof. intros (m & -> & Hm)%get_inv Hf. by eapply field_member. Qed.

Lemma compact_str_opt k (o : option Json) v :
  k ∈ DESCRIPTORS → (∀ x, o = Some x → field_in k x chunk) →
  Str <$> (o ≫= as_str) = Some v → compact v.
Proof.
  intros Hk Hf. destruct o as [x|]; [|done]. cbn.
  destruct (as_str x) as [s|] eqn:Hx; [|done]. apply as_str_inv in Hx as ->.
  intros [= <-]. apply (compact_str k); auto.
Qed.

(** Membership in [DESCRIPTORS] and [PROVIDERS] is decided. *)
Ltac named := refine (bool_decide_unpack _ _); vm_compute; exact I.

Lemma compact_chat i v : summarize_openai_chat_chunk i chunk = Some v → compact v.
Proof.
  unfold summarize_openai_chat_chunk. destruct (negb _); [done|]. intros <-%(inj Some).
  apply compact_object, compact_opt.
  { intros x. destruct (get chunk "usage"); [|done]. apply compact_chat_usage. }
  assert (compact_map (insert_opt "event_type" (Str <$> (get chunk "object" ≫= as_str))
    (base_chunk_mark_data i "openai_chat_completions"))) as Hbase.
  { apply compact_opt; [|apply compact_base; named].
    intros x. apply (compact_str_opt "object"); [named|apply field_get]. }
  destruct (get chunk "choices") as [[]|] eqn:Hc; try exact Hbase. cbn [mbind option_bind as_array].
  apply compact_opt; [|apply compact_opt; [|exact Hbase]].
  - intros x. apply compact_non_empty_array. intros y (c & Hin & Hy)%list_elem_of_omap.
    unfold choice_finish_reason in Hy.
    destruct (get c "finish_reason") as [r|] eqn:Hr; [|done]. cbn in Hy.
    destruct (as_str r) as [s|] eqn:Hs; [|done]. apply as_str_inv in Hs as ->.
    injection Hy as <-. apply compact_object, compact_insert; [|auto with compact].
    apply (compact_str "finish_reason"); [named|]. eapply field_under; [exact Hc|].
    eapply field_item; [exact Hin|]. by apply field_get.
  - intros x. apply compact_non_empty_array. intros y (c & Hin & Hy)%list_elem_of_omap.
    by eapply compact_u64_opt.
Qed.

Lemma compact_event_type t m :
  get chunk "type" = Some (Str t) → compact_map m →
  compact_map (obj_insert "event_type" (Str t) m).
Proof.
  intros Ht Hm. apply compact_insert; [|done].
  apply (compact_str "type"); [named|by apply field_get].
Qed.

Lemma compact_responses i v : summarize_openai_responses_chunk i chunk = Some v → compact v.
Proof.
  unfold summarize_openai_responses_chunk.
  destruct (get chunk "type" ≫= as_str) as [t|] eqn:Ht; [|done]. cbn [mbind option_bind].
  destruct (negb _); [done|]. intros <-%(inj Some).
  destruct (get chunk "type") as [x|] eqn:Hx; [|done]. cbn in Ht. apply as_str_inv in Ht as ->.
  apply compact_object, compact_opt.
  { intros y. destruct (first_of _ _); [|done]. apply compact_responses_usage. }
  apply compact_opt.
  { intros y Hy. apply (compact_str_opt "reason"
      (r ← get chunk "response"; d ← get r "incomplete_details"; get d "reason")); [named|..].
    - intros z. destruct (get chunk "response") as [r|] eqn:Hr; [|done]. cbn.
      destruct (get r "incomplete_details") as [d|] eqn:Hd; [|done]. cbn. intros Hz.
      eapply field_under; [exact Hr|]. eapply field_under; [exact Hd|]. by apply field_get.
    - rewrite <-Hy. f_equal. destruct (get chunk "response") as [r|]; [|done]. cbn.
      by destruct (get r "incomplete_details"). }
  apply compact_opt.
  { intros y. apply (compact_str_opt "status"); [named|]. intros z.
    destruct (get chunk "response") as [r|] eqn:Hr; cbn; [|apply field_get].
    destruct (get r "status") as [z'|] eqn:Hz; cbn; [|apply field_get]. intros [= <-].
    eapply field_under; [exact Hr|]. by apply field_get. }
  apply compact_index_fields, compact_event_type; [done|]. apply compact_base. named.
Qed.

Lemma compact_anthropic i v : summarize_anthropic_messages_chunk i chunk = Some v → compact v.
Proof.
  unfold summarize_anthropic_messages_chunk.
  destruct (get chunk "type" ≫= as_str) as [t|] eqn:Ht; [|done]. cbn [mbind option_bind].
  destruct (negb _); [done|]. intros <-%(inj Some).
  destruct (get chunk "type") as [x|] eqn:Hx; [|done]. cbn in Ht. apply as_str_inv in Ht as ->.
  apply compact_object, compact_opt.
  { intros y. destruct (first_of _ _); [|done]. apply compact_anthropic_usage. }
  apply compact_opt.
  { intros y. apply (compact_str_opt "stop_reason"); [named|]. intros z.
    assert (∀ r k, get chunk k = Some r → get r "stop_reason" = Some z →
      field_in "stop_reason" z chunk) as Hunder.
    { intros r k Hr Hz. eapply field_under; [exact Hr|]. by apply field_get. }
    destruct (get chunk "delta") as [r|] eqn:Hr; cbn.
    - destruct (get r "stop_reason") as [z'|] eqn:Hz; cbn; [intros [= <-]; by apply (Hunder r "delta")|].
      destruct (get chunk "message") as [r'|] eqn:Hr'; cbn; [|done]. by apply (Hunder r' "message").
    - destruct (get chunk "message") as [r'|] eqn:Hr'; cbn; [|done]. by apply (Hunder r' "message"). }
  apply compact_index_fields, compact_event_type; [done|]. apply compact_base. named.
Qed.

(** A chunk mark never carries content. Whatever the provider chunk, every
    scalar in its mark is a number (an index or a token count), the name of a
    recognised provider, or the value of one of the chunk's descriptor fields
    (object, type, status and the three kinds of finish reason). *)
Theorem chunk_mark_content_free chunk_index v :
  leaf v (llm_chunk_mark_data chunk_index chunk) → descriptive v.
Proof.
  assert (compact (llm_chunk_mark_data chunk_index chunk)) as Hc; [|by apply Hc].
  unfold llm_chunk_mark_data.
  destruct (summarize_openai_chat_chunk _ _) eqn:H1; [by eapply compact_chat|].
  destruct (summarize_openai_responses_chunk _ _) eqn:H2; [by eapply compact_responses|].
  destruct (summarize_anthropic_messages_chunk _ _) eqn:H3; [by eapply compact_anthropic|].
  apply compact_object, compact_base. named.
Qed.

End Content.

(** A delta with text and a finish reason. *)
Definition demo_chunk : Json :=
  json_obj [("object", Str "chat.completion.chunk");
    ("choices", Array [json_obj [("index", of_u64 0); ("finish_reason", Str "stop");
       ("delta", json_obj [("content", Str "the secret")])]])].

Lemma chunk_mark_content_free_witness :
  leaf (Str "stop") (llm_chunk_mark_data 3 demo_chunk) ∧ descriptive demo_chunk (Str "stop").
Proof.
  assert (leaf (Str "stop") (llm_chunk_mark_data 3 demo_chunk)) as Hl.
  { vm_compute. eapply (leaf_member _ ("finish_reasons", _)); [do 3 right; left|]. cbn.
    eapply leaf_item; [left|]. eapply (leaf_member _ ("finish_reason", _)); [right; left|].
    by constructor. }
  split; [exact Hl|]. exact (chunk_mark_content_free demo_chunk 3 (Str "stop") Hl).
Defined.
