(* ===== verification/Stream.v ===== *)
(** * Streaming LLM calls ([crates/runtime/src/stream.rs]; the stream types of
    [crates/types/src/api/runtime/callbacks.rs] and
    [crates/runtime/src/api/runtime/state.rs]; [llm_stream_call_execute] of
    [crates/runtime/src/api/llm.rs])

    [LlmStreamWrapper] sits between the provider's stream and the consumer: it
    marks every chunk, feeds it to a collector, and hands one END publication to
    the background executor when the stream ends, fails, is closed or dropped.

    - [terminalize] of an inner stream returns: the implementations in the
      repository close or drop what they own, and one that unwinds there is outside the
      model.
    - A poll answers [Pending] or [Ready]; an unwind in a poll is the answer
      [Ready (Some Panic)].
    - An [await] of [close] either resolves or the future of [close] is dropped
      there ([Panic], see [Guardrails]).
    - [finalized] is whether the background task of the END publication has
      passed its asynchronous finalizer, or is gone.
    - Tasks handed to the background executor are listed in [sw_spawned];
      [run_end_task] is what one of them does.
    - The scope stack and the sanitizer context of a wrapper are those of its
      handle and its response codec. *)

From stdpp Require Import base gmap strings list.
From S2P Require Import Prelude Text Errors Json Float64 LlmTypes Pricing Optimization Codec.
From S2P Require Import Registry Trace Events Registries ScopeStack ContextState Chains Execution.
From S2P Require Import World LlmTransforms WorldFacts Context ScopeApi Guardrails LlmRequests.
From S2P Require Import LlmPayloads Continuation LlmApi Chunks.

(** ** Streams *)

Inductive Poll (X : Type) : Type :=
| Ready (x : X)
| Pending.
#[global] Arguments Ready {_} _.
#[global] Arguments Pending {_}.

Definition Item : Type := option (outcome FlowError Json).

(** [futures::Stream<Item = Result<Json>>]. *)
Class RustStream (S : Type) : Type := {
  poll_stream : S → World → Poll Item * S * World;
}.

(** The trait [LlmStreamInner] behind an [LlmJsonStream]. *)
Class LlmStreamInner (S : Type) : Type := {
  poll_next : S → World → Poll Item * S * World;
  terminalize : S → World → S * World;
  close : S → World → outcome FlowError unit * S * World;
}.

(** [DefaultLlmStream]: a stream without teardown. *)
Record DefaultLlmStream (S : Type) : Type := { ds_stream : option S }.
#[global] Arguments Build_DefaultLlmStream {_} _.
#[global] Arguments ds_stream {_} _.

#[global] Instance default_llm_stream {S} `{!RustStream S} : LlmStreamInner (DefaultLlmStream S) := {|
  poll_next this w :=
    match ds_stream this with
    | Some stream =>
        let '(r, stream, w) := poll_stream stream w in
        (r, Build_DefaultLlmStream (Some stream), w)
    | None => (Ready None, this, w)
    end;
  terminalize this w := (this, w);
  close this w := (Ok (), Build_DefaultLlmStream None, w);
|}.

(** Run a step of a stream under a captured context; the stream's next state
    travels with the answer. *)
Definition run_under {X S} (c : MiddlewareContinuationContext) (step : World → X * S * World)
    (s : S) (w : World) : option X * S * World :=
  match run c (λ w, let '(x, s, w) := step w in (Ok (x, s), w)) w with
  | (Ok (x, s), w) => (Some x, s, w)
  | (_, w) => (None, s, w)
  end.

(** [LlmJsonStream]: a producer behind any number of adapters.
    [ContextualizedLlmStream] runs it in a captured context;
    [ExecutionGuardedLlmStream] holds the lease guards of the intercept that
    returned it until it ends. *)
Inductive LlmJsonStream (S : Type) : Type :=
| Producer (stream : S)
| Contextualized (inner : LlmJsonStream S) (context : MiddlewareContinuationContext)
| Guarded (inner : LlmJsonStream S) (continuation_guard codec_guard : bool).
#[global] Arguments Producer {_} _.
#[global] Arguments Contextualized {_} _ _.
#[global] Arguments Guarded {_} _ _ _.

Section JsonStream.
Context {S : Type} `{!LlmStreamInner S}.

Fixpoint json_poll_next (this : LlmJsonStream S) (w : World) :
    Poll Item * LlmJsonStream S * World :=
  match this with
  | Producer stream => let '(r, stream, w) := poll_next stream w in (r, Producer stream, w)
  | Contextualized inner context =>
      let '(r, inner, w) := run_under context (json_poll_next inner) inner w in
      (default (Ready (Some Panic)) r, Contextualized inner context, w)
  | Guarded inner continuation_guard codec_guard =>
      let '(r, inner, w) := json_poll_next inner w in
      let held := match r with Ready None => false | _ => true end in
      (r, Guarded inner (continuation_guard && held) (codec_guard && held), w)
  end.

Fixpoint json_terminalize (this : LlmJsonStream S) (w : World) : LlmJsonStream S * World :=
  match this with
  | Producer stream => let '(stream, w) := terminalize stream w in (Producer stream, w)
  | Contextualized inner context =>
      let '(inner, w) := json_terminalize inner w in (Contextualized inner context, w)
  | Guarded inner _ _ =>
      let '(inner, w) := json_terminalize inner w in (Guarded inner false false, w)
  end.

(** A guarded stream keeps its codec guard when its [close] is dropped. *)
Fixpoint json_close (this : LlmJsonStream S) (w : World) :
    outcome FlowError unit * LlmJsonStream S * World :=
  match this with
  | Producer stream => let '(r, stream, w) := close stream w in (r, Producer stream, w)
  | Contextualized inner context =>
      let '(r, inner, w) := run_under context (json_close inner) inner w in
      (default Panic r, Contextualized inner context, w)
  | Guarded inner _ codec_guard =>
      let '(r, inner, w) := json_close inner w in
      (r, Guarded inner false (codec_guard && match r with Panic => true | _ => false end), w)
  end.

#[global] Instance llm_json_stream : LlmStreamInner (LlmJsonStream S) := {|
  poll_next := json_poll_next; terminalize := json_terminalize; close := json_close;
|}.

End JsonStream.

(** ** The wrapper *)

Inductive StreamTermination : Type := TComplete | TFailed | TDropped.

Definition is_interrupted (t : StreamTermination) : bool :=
  match t with TComplete => false | TFailed | TDropped => true end.

Definition has_authoritative_final_usage (response : option AnnotatedLlmResponse) : bool :=
  match response with
  | Some response =>
      bool_decide (is_Some (rs_finish_reason response))
      && match rs_usage response with
         | Some usage =>
             bool_decide (is_Some (total_tokens usage))
             || (bool_decide (is_Some (prompt_tokens usage))
                 && bool_decide (is_Some (completion_tokens usage)))
         | None => false
         end
  | None => false
  end.

Definition has_authoritative_terminal_outcome (response : option AnnotatedLlmResponse) : bool :=
  has_authoritative_final_usage response
  && match response ≫= rs_finish_reason with
     | Some (FUnknown _) | None => false
     | Some _ => true
     end.

Section Stream.
Context `{!Otel}.
Context (now_v7 : nat → uuid) (utc_now : nat → timestamp) (elapsed : nat → Z).
Context (gate_run :
  Callback → list RuntimeRegistrationKind → string → outcome Empty_set (option string)).
Context (contribution_json : LlmOptimizationContribution → option Json).
Context (run_llm_response : Callback → Json → LlmSanitizeResponseContext → World →
  outcome FlowError (option Json) * World).
(** A provider stream, and the futures of asynchronous collectors and
    finalizers. *)
Context {Inner Collecting Finalizing : Type} `{!LlmStreamInner Inner}.
Context (poll_collecting : Collecting → World → Poll (outcome FlowError unit) * Collecting * World).
Context (await_collecting : Collecting → World → outcome FlowError unit * World).
Context (await_finalizer : Finalizing → World → outcome FlowError Json * World).

Inductive LlmChunkCollector : Type :=
| BorrowedCollector (f : Json → World → outcome FlowError unit * World)
| SyncCollector (f : Json → World → outcome FlowError unit * World)
| AsyncCollector (f : Json → World → option Collecting * World).

Inductive LlmFinalizer : Type :=
| SyncFinalizer (f : World → outcome Empty_set Json * World)
| FallibleFinalizer (f : World → outcome FlowError Json * World)
| AsyncFinalizer (f : World → option Finalizing * World).

(** The finalizer's result, or the future that will produce it. *)
Inductive EndPublication : Type :=
| Reserved (aggregate : outcome FlowError Json)
| Awaiting (finalizer : Finalizing).

(** What the background task of an END publication captured. *)
Record EndTask : Type := {
  et_publication : EndPublication;
  et_handle : LlmHandle;
  et_metadata : option Json;
  et_termination : StreamTermination;
  et_timestamp : timestamp;
  et_entries : list (Guardrail Callback);
  et_snapshot_failed : bool;
  et_subscribers : list Callback;
  et_response_codec : option LlmResponseCodec;
  et_time_to_first_chunk : option Z;
  et_response_completion : option (Json → World → outcome FlowError unit * World);
}.

Record LlmStreamWrapper : Type := {
  sw_inner : Inner;
  sw_handle : LlmHandle;
  sw_collector : LlmChunkCollector;
  sw_finalizer : option LlmFinalizer;
  sw_response_completion : option (Json → World → outcome FlowError unit * World);
  sw_pending_collector : option (Json * Collecting);
  sw_pending_end : bool;
  sw_response_codec : option LlmResponseCodec;
  sw_metadata : option Json;
  sw_subscribers : list Callback;
  sw_first_chunk_elapsed : option Z;
  sw_chunk_index : Z;
  sw_ended : bool;
  sw_close_result : option (outcome FlowError unit);
  sw_undelivered_error : option FlowError;
  sw_spawned : list EndTask;
}.

Definition new_managed (inner : Inner) (handle : LlmHandle) (collector : LlmChunkCollector)
    (finalizer : LlmFinalizer) (metadata : option Json)
    (response_codec : option LlmResponseCodec) (subscribers : list Callback)
    (response_completion : option (Json → World → outcome FlowError unit * World)) :
    LlmStreamWrapper := {|
  sw_inner := inner; sw_handle := handle; sw_collector := collector;
  sw_finalizer := Some finalizer; sw_response_completion := response_completion;
  sw_pending_collector := None; sw_pending_end := false; sw_response_codec := response_codec;
  sw_metadata := metadata; sw_subscribers := subscribers; sw_first_chunk_elapsed := None;
  sw_chunk_index := 0; sw_ended := false; sw_close_result := None; sw_undelivered_error := None;
  sw_spawned := [];
|}.

(** [LlmStreamWrapper::new]: the subscribers are those in force now; none when
    the state's lock is poisoned. *)
Definition wrapper_new (inner : Inner) (handle : LlmHandle) (collector : LlmChunkCollector)
    (finalizer : LlmFinalizer) (metadata : option Json)
    (response_codec : option LlmResponseCodec) : M LlmStreamWrapper :=
  let! scope_stack := current_scope_stack in
  let! scope_guard := read_stack_expect scope_stack in
  let scope_subscribers := Stack.collect_scope_local_subscribers scope_guard in
  let! subscribers := gets (λ w,
    if w_global_poisoned w then []
    else State.collect_event_subscribers (enabled gate_run w) scope_subscribers
           (State.registry_snapshot [Subscriber] (w_global w))) in
  ret (new_managed inner handle collector finalizer metadata response_codec subscribers None).

Definition set_inner (i : Inner) (s : LlmStreamWrapper) : LlmStreamWrapper :=
  let '(Build_LlmStreamWrapper _ h c f rc pc pe cd md sb fc ci en cr ue sp) := s in
  Build_LlmStreamWrapper i h c f rc pc pe cd md sb fc ci en cr ue sp.
Definition set_pending_collector (p : option (Json * Collecting)) (s : LlmStreamWrapper) :
    LlmStreamWrapper :=
  let '(Build_LlmStreamWrapper i h c f rc _ pe cd md sb fc ci en cr ue sp) := s in
  Build_LlmStreamWrapper i h c f rc p pe cd md sb fc ci en cr ue sp.
Definition set_pending_end (b : bool) (s : LlmStreamWrapper) : LlmStreamWrapper :=
  let '(Build_LlmStreamWrapper i h c f rc pc _ cd md sb fc ci en cr ue sp) := s in
  Build_LlmStreamWrapper i h c f rc pc b cd md sb fc ci en cr ue sp.
Definition take_finalizer (s : LlmStreamWrapper) : LlmStreamWrapper :=
  let '(Build_LlmStreamWrapper i h c _ rc pc pe cd md sb fc ci en cr ue sp) := s in
  Build_LlmStreamWrapper i h c None rc pc pe cd md sb fc ci en cr ue sp.
Definition take_completion (s : LlmStreamWrapper) : LlmStreamWrapper :=
  let '(Build_LlmStreamWrapper i h c f _ pc pe cd md sb fc ci en cr ue sp) := s in
  Build_LlmStreamWrapper i h c f None pc pe cd md sb fc ci en cr ue sp.
Definition set_chunks (fc : option Z) (ci : Z) (s : LlmStreamWrapper) : LlmStreamWrapper :=
  let '(Build_LlmStreamWrapper i h c f rc pc pe cd md sb _ _ en cr ue sp) := s in
  Build_LlmStreamWrapper i h c f rc pc pe cd md sb fc ci en cr ue sp.
Definition set_ended (s : LlmStreamWrapper) : LlmStreamWrapper :=
  let '(Build_LlmStreamWrapper i h c f rc pc pe cd md sb fc ci _ cr ue sp) := s in
  Build_LlmStreamWrapper i h c f rc pc pe cd md sb fc ci true cr ue sp.
Definition set_close_result (r : option (outcome FlowError unit)) (s : LlmStreamWrapper) :
    LlmStreamWrapper :=
  let '(Build_LlmStreamWrapper i h c f rc pc pe cd md sb fc ci en _ ue sp) := s in
  Build_LlmStreamWrapper i h c f rc pc pe cd md sb fc ci en r ue sp.
Definition set_undelivered (e : option FlowError) (s : LlmStreamWrapper) : LlmStreamWrapper :=
  let '(Build_LlmStreamWrapper i h c f rc pc pe cd md sb fc ci en cr _ sp) := s in
  Build_LlmStreamWrapper i h c f rc pc pe cd md sb fc ci en cr e sp.
Definition spawn (t : EndTask) (s : LlmStreamWrapper) : LlmStreamWrapper :=
  let '(Build_LlmStreamWrapper i h c f rc pc pe cd md sb fc ci en cr ue sp) := s in
  Build_LlmStreamWrapper i h c f rc pc pe cd md sb fc ci en cr ue (sp ++ [t]).

(** ** Ending *)

Definition snapshot_stream_end_sanitizers (scope_stack : N) : M (list (Guardrail Callback) * bool) :=
  let! entries := try_response_entries gate_run scope_stack in
  ret match entries with Some entries => (entries, false) | None => ([], true) end.

(** The finalizer's part of [emit_end_event]: whether the consumer waits for
    it; [None] when it unwound. *)
Definition start_finalizer (f : option LlmFinalizer) (w : World) :
    option (EndPublication * bool) * World :=
  match f with
  | Some (AsyncFinalizer f) =>
      let '(fut, w) := f w in ((λ fut, (Awaiting fut, true)) <$> fut, w)
  | Some (SyncFinalizer f) =>
      match f w with
      | (Ok v, w) => (Some (Reserved (Ok v), false), w)
      | (_, w) => (None, w)
      end
  | Some (FallibleFinalizer f) =>
      match f w with
      | (Panic, w) => (None, w)
      | (r, w) => (Some (Reserved r, false), w)
      end
  | None => (Some (Reserved (Ok Null), false), w)
  end.

(** [false] when a callback unwound. *)
Definition emit_end_event (metadata : option Json) (termination : StreamTermination)
    (s : LlmStreamWrapper) (w : World) : bool * LlmStreamWrapper * World :=
  let ts := utc_now (w_clock w) in
  let w := set_clock (S (w_clock w)) w in
  let '(started, w) := start_finalizer (sw_finalizer s) w in
  let s := take_finalizer s in
  match started with
  | None => (false, s, w)
  | Some (publication, waits) =>
      let s := if waits then set_pending_end true s else s in
      match snapshot_stream_end_sanitizers (lh_scope_stack (sw_handle s)) w with
      | (Ok (entries, failed), w) =>
          (true, spawn {|
             et_publication := publication; et_handle := sw_handle s; et_metadata := metadata;
             et_termination := termination; et_timestamp := ts; et_entries := entries;
             et_snapshot_failed := failed; et_subscribers := sw_subscribers s;
             et_response_codec := sw_response_codec s;
             et_time_to_first_chunk := sw_first_chunk_elapsed s;
             et_response_completion := sw_response_completion s |} (take_completion s), w)
      | (_, w) => (false, s, w)
      end
  end.

(** [handle.optimization_recorder.close_for_finalization(None)]. *)
Definition seal_recorder (s : LlmStreamWrapper) (w : World) : World :=
  (close_recorder (sw_handle s) None w).2.

Definition finish (s : LlmStreamWrapper) (w : World) : bool * LlmStreamWrapper * World :=
  if sw_ended s then (true, s, w)
  else
    let s := set_ended s in
    let metadata := metadata_with_otel_status (sw_metadata s) "ERROR"
      (Some "stream dropped before clean completion") in
    emit_end_event metadata TDropped s (seal_recorder s w).

Definition terminalize_inner (s : LlmStreamWrapper) (w : World) : LlmStreamWrapper * World :=
  let '(i, w) := terminalize (sw_inner s) w in (set_inner i s, w).

Definition finish_cleanly (s : LlmStreamWrapper) (w : World) : bool * LlmStreamWrapper * World :=
  if sw_ended s then (true, s, w)
  else
    let '(s, w) := terminalize_inner (set_ended s) w in
    emit_end_event (metadata_with_otel_status (sw_metadata s) "OK" None) TComplete s
      (seal_recorder s w).

Definition finish_with_error (error : FlowError) (s : LlmStreamWrapper) (w : World) :
    bool * LlmStreamWrapper * World :=
  if sw_ended s then (true, s, w)
  else
    let '(s, w) := terminalize_inner (set_ended s) w in
    emit_end_event (metadata_with_otel_error (sw_metadata s) error) TFailed s (seal_recorder s w).

(** ** Polling *)

Definition LLM_CHUNK : string := "llm.chunk".

(** Nothing is published when the state's lock is poisoned. *)
Definition emit_chunk_mark (s : LlmStreamWrapper) (chunk_index : Z) (raw_chunk : Json) : M unit :=
  let! poisoned := gets w_global_poisoned in
  if poisoned : bool then ret ()
  else
    let! u := fresh_uuid now_v7 in
    let! t := now utc_now in
    let event := Mark {|
      me_base := base_event (Some (lh_uuid (sw_handle s))) u t LLM_CHUNK
        (Some (llm_chunk_mark_data chunk_index raw_chunk)) None None;
      me_category := None; me_profile := None |} in
    queue_sanitized_event_with_scope_stack gate_run event (sw_subscribers s)
      (lh_scope_stack (sw_handle s)) ;!
    ret ().

(** [poll_next] of a stream that has ended. *)
Definition poll_ended (finalized : bool) (s : LlmStreamWrapper) (w : World) :
    Poll Item * LlmStreamWrapper * World :=
  if sw_pending_end s && negb finalized then (Pending, s, w)
  else
    let s := set_pending_end false s in
    (Ready (Err <$> sw_undelivered_error s), set_undelivered None s, w).

(** The stream fails with [error]; the recursive call of [poll_next] finds it
    ended. *)
Definition poll_failed (finalized : bool) (error : FlowError) (s : LlmStreamWrapper) (w : World) :
    Poll Item * LlmStreamWrapper * World :=
  match finish_with_error error s w with
  | (true, s, w) => poll_ended finalized (set_undelivered (Some error) s) w
  | (false, s, w) => (Ready (Some Panic), s, w)
  end.

Definition poll_pending_collector (finalized : bool) (chunk : Json) (collecting : Collecting)
    (s : LlmStreamWrapper) (w : World) : Poll Item * LlmStreamWrapper * World :=
  let s := set_pending_collector None s in
  match poll_collecting collecting w with
  | (Pending, collecting, w) =>
      (Pending, set_pending_collector (Some (chunk, collecting)) s, w)
  | (Ready (Ok _), _, w) => (Ready (Some (Ok chunk)), s, w)
  | (Ready (Err e), _, w) => poll_failed finalized e s w
  | (Ready Panic, _, w) => (Ready (Some Panic), s, w)
  end.

(** What the collector makes of a chunk. *)
Definition collect (finalized : bool) (raw_chunk : Json) (s : LlmStreamWrapper) (w : World) :
    Poll Item * LlmStreamWrapper * World :=
  match sw_collector s with
  | BorrowedCollector f | SyncCollector f =>
      match f raw_chunk w with
      | (Ok _, w) => (Ready (Some (Ok raw_chunk)), s, w)
      | (Err e, w) => poll_failed finalized e s w
      | (Panic, w) => (Ready (Some Panic), s, w)
      end
  | AsyncCollector f =>
      match f raw_chunk w with
      | (Some collecting, w) => poll_pending_collector finalized raw_chunk collecting s w
      | (None, w) => (Ready (Some Panic), s, w)
      end
  end.

(** [get_or_insert_with(|| stream_started_at.elapsed())]; a [u64] never counts
    that many chunks. *)
Definition count_chunk (s : LlmStreamWrapper) (w : World) : LlmStreamWrapper * World :=
  match sw_first_chunk_elapsed s with
  | Some _ => (set_chunks (sw_first_chunk_elapsed s) (sw_chunk_index s + 1) s, w)
  | None =>
      (set_chunks (Some (elapsed (w_clock w))) (sw_chunk_index s + 1) s,
       set_clock (S (w_clock w)) w)
  end.

Definition receive_chunk (finalized : bool) (raw_chunk : Json) (s : LlmStreamWrapper) (w : World) :
    Poll Item * LlmStreamWrapper * World :=
  let chunk_index := sw_chunk_index s in
  let '(s, w) := count_chunk s w in
  match emit_chunk_mark s chunk_index raw_chunk w with
  | (Panic, w) => (Ready (Some Panic), s, w)
  | (_, w) => collect finalized raw_chunk s w
  end.

Definition wrapper_poll_next (finalized : bool) (s : LlmStreamWrapper) (w : World) :
    Poll Item * LlmStreamWrapper * World :=
  match sw_pending_collector s with
  | Some (chunk, collecting) => poll_pending_collector finalized chunk collecting s w
  | None =>
      if sw_ended s then poll_ended finalized s w
      else
        let '(r, inner, w) := poll_next (sw_inner s) w in
        let s := set_inner inner s in
        match r with
        | Ready (Some (Ok raw_chunk)) => receive_chunk finalized raw_chunk s w
        | Ready (Some (Err e)) => poll_failed finalized e s w
        | Ready (Some Panic) => (Ready (Some Panic), s, w)
        | Ready None =>
            match finish_cleanly s w with
            | (true, s, w) => poll_ended finalized s w
            | (false, s, w) => (Ready (Some Panic), s, w)
            end
        | Pending => (Pending, s, w)
        end
  end.

(** ** Closing and dropping *)

(** From [this.finish()] on; [cleanup] is what closing the producer gave. *)
Definition close_finished (end_resolves : bool) (cleanup : outcome FlowError unit)
    (s : LlmStreamWrapper) (w : World) : outcome FlowError unit * LlmStreamWrapper * World :=
  match finish s w with
  | (false, s, w) => (Panic, s, w)
  | (true, s, w) =>
      if sw_pending_end s && negb end_resolves then (Panic, set_pending_end false s, w)
      else
        let s := set_pending_end false s in
        let result :=
          match sw_undelivered_error s with Some error => Err error | None => cleanup end in
        (result, set_close_result (Some result) (set_undelivered None s), w)
  end.

Definition wrapper_close (end_resolves : bool) (s : LlmStreamWrapper) (w : World) :
    outcome FlowError unit * LlmStreamWrapper * World :=
  match sw_close_result s with
  | Some result => (result, s, w)
  | None =>
      let '(cleanup, inner, w) := close (sw_inner s) w in
      let s := set_inner inner s in
      match cleanup with
      | Panic => (Panic, s, w)
      | _ =>
          match sw_pending_collector s with
          | None => close_finished end_resolves cleanup s w
          | Some (_, collecting) =>
              let s := set_pending_collector None s in
              match await_collecting collecting w with
              | (Ok _, w) => close_finished end_resolves cleanup s w
              | (Err error, w) =>
                  match finish_with_error error s w with
                  | (true, s, w) =>
                      close_finished end_resolves cleanup (set_undelivered (Some error) s) w
                  | (false, s, w) => (Panic, s, w)
                  end
              | (Panic, w) => (Panic, s, w)
              end
          end
      end
  end.

(** [Drop for LlmStreamWrapper]. *)
Definition wrapper_drop (s : LlmStreamWrapper) (w : World) : bool * LlmStreamWrapper * World :=
  finish s w.

(** ** The END publication *)

(** The completion callback, its failure and its unwind logged. *)
Definition complete_response (t : EndTask) (aggregated : Json) : M unit :=
  match et_response_completion t with
  | Some completion => modify (λ w, (completion aggregated w).2)
  | None => ret ()
  end.

(** A failed finalizer marks a stream that had ended well. *)
Definition end_metadata (t : EndTask) (failure : option FlowError) : option Json :=
  match failure, et_termination t with
  | Some error, TComplete => metadata_with_otel_error (et_metadata t) error
  | Some (CallbackException _ _ as error), TDropped =>
      metadata_with_otel_error (et_metadata t) error
  | _, _ => et_metadata t
  end.

Definition end_response (t : EndTask) (aggregated : Json) (failed : bool) : Json :=
  if is_null aggregated && negb failed then default aggregated (lh_data (et_handle t))
  else aggregated.

(** The sanitized data of the END event. *)
Definition end_data (t : EndTask) (aggregated : Json) (failed : bool) : M (option Json) := λ w,
  let null_without_fallback :=
    is_null aggregated && bool_decide (lh_data (et_handle t) = None) in
  let '(sanitized, w) :=
    if et_snapshot_failed t || failed then (None, w)
    else llm_sanitize_snapshot_chain run_llm_response (end_response t aggregated failed)
           (for_response_codec (et_response_codec t)) (et_entries t) w in
  (Ok match sanitized with
      | Some response =>
          if null_without_fallback && is_null response then None else Some response
      | None => None
      end, w).

Definition end_annotation (t : EndTask) (data : option Json) : M (option AnnotatedLlmResponse) :=
  if is_null_or_none data then ret None
  else
    match data, et_response_codec t with
    | Some response, Some codec =>
        match decode_response codec response with
        | Ok decoded =>
            let! pricing := gets (λ w, l_pricing (w_llm w)) in
            ret (Some (if allows_estimated_cost codec response
                       then attach_estimated_cost_for_provider pricing decoded
                              (Some (lh_name (et_handle t)))
                       else decoded))
        | Err _ => ret None
        | Panic => panic
        end
    | _, _ => ret None
    end.

Definition finalize_summary_m (handle : LlmHandle) (response : option AnnotatedLlmResponse) :
    M (option LlmOptimizationSummary * option AnnotatedLlmResponse) := λ w,
  let '(summary, response, w) := finalize_summary handle response w in (Ok (summary, response), w).

(** From the response annotation to the accounting of the call. *)
Definition settle_stream (t : EndTask) (annotated : option AnnotatedLlmResponse) :
    M (option LlmOptimizationSummary * option AnnotatedLlmResponse) :=
  let interruption :=
    if is_interrupted (et_termination t) && negb (has_authoritative_final_usage annotated)
    then Some "stream_interrupted" else None in
  let! _ := close_recorder (et_handle t) interruption in
  emit_optimization_marks now_v7 gate_run contribution_json (et_handle t) (et_subscribers t) ;!
  finalize_summary_m (et_handle t) annotated.

Definition publish_end (t : EndTask) (aggregated : Json) (failure : option FlowError) : M unit :=
  complete_response t aggregated ;!
  let failed := bool_decide (is_Some failure) in
  let metadata := end_metadata t failure in
  let! data := end_data t aggregated failed in
  let! annotated := end_annotation t data in
  let metadata :=
    match et_termination t with
    | TDropped =>
        if has_authoritative_terminal_outcome annotated
        then metadata_with_otel_status metadata "OK" None else metadata
    | _ => metadata
    end in
  let! (summary, annotated) := settle_stream t annotated in
  let annotated :=
    match annotated, summary with
    | None, Some summary =>
        if is_null_or_none data then None else Some (summary_response summary)
    | _, _ => annotated
    end in
  let! poisoned := gets w_global_poisoned in
  if poisoned : bool then ret ()
  else
    let event := State.build_llm_end_event (et_timestamp t) (et_handle t) data metadata annotated
      (et_time_to_first_chunk t) (Some (et_timestamp t)) in
    queue_sanitized_event_with_scope_stack gate_run event (et_subscribers t)
      (lh_scope_stack (et_handle t)) ;!
    ret ().

(** What the finalizer made of the stream, awaited if need be. *)
Definition end_aggregate (t : EndTask) : M (outcome FlowError Json) := λ w,
  match et_publication t with
  | Reserved aggregate => (Ok aggregate, w)
  | Awaiting finalizer => let '(r, w) := await_finalizer finalizer w in (Ok r, w)
  end.

Definition publish_aggregate (t : EndTask) : M unit :=
  let! aggregate := end_aggregate t in
  match aggregate with
  | Ok aggregated => publish_end t aggregated None
  | Err error => publish_end t Null (Some error)
  | Panic => panic
  end.

(** The background task, on the stack of the call. *)
Definition run_end_task (t : EndTask) : M unit :=
  with_task_scope_stack (lh_scope_stack (et_handle t)) (publish_aggregate t).

(** ** The END event *)

Section Publishes.
Context (t : EndTask).
Hypothesis sanitizers_keep : ∀ cb v c w, keeps w (run_llm_response cb v c w).2.
Hypothesis completion_keeps : ∀ f v w, et_response_completion t = Some f → keeps w (f v w).2.
Hypothesis decode_returns :
  ∀ codec v, et_response_codec t = Some codec → decode_response codec v ≠ Panic.

Lemma complete_response_ok v w :
  ∃ w', complete_response t v w = (Ok (), w') ∧ keeps w w'.
Proof.
  unfold complete_response. destruct (et_response_completion t) as [f|] eqn:Hf; [|by exists w].
  eexists. split; [done|]. by apply completion_keeps.
Qed.

Lemma end_data_ok aggregated failed w :
  ∃ data w', end_data t aggregated failed w = (Ok data, w') ∧ keeps w w'
    ∧ (et_snapshot_failed t || failed = true → data = None).
Proof.
  unfold end_data. destruct (et_snapshot_failed t || failed) eqn:Hf; [by eexists _, w|].
  assert (∀ v, keeps w (llm_sanitize_snapshot_chain run_llm_response v
    (for_response_codec (et_response_codec t)) (et_entries t) w).2) as Hk.
  { intros v. apply (llm_sanitize_loop_preserves keeps). auto. }
  specialize (Hk (end_response t aggregated failed)).
  destruct (llm_sanitize_snapshot_chain _ _ _ _ w) as [sanitized w'].
  eexists _, w'. by split_and!.
Qed.

Lemma end_annotation_ok data w :
  ∃ annotated, end_annotation t data w = (Ok annotated, w)
    ∧ (is_null_or_none data = true → annotated = None).
Proof.
  unfold end_annotation. destruct (is_null_or_none data); [by eexists|].
  destruct data as [v|], (et_response_codec t) as [codec|] eqn:Hc; try by eexists.
  destruct (decode_response codec v) as [decoded|e|] eqn:Hd; [|by eexists|by destruct (decode_returns codec v)].
  rewrite bind_gets. by eexists.
Qed.

(** From [w] to [w'] the call was accounted for and one END event with the
    payload [data] published. *)
Definition stream_end_of (data : option Json) (failed : bool) (w w' : World) : Prop :=
  ∃ limitation metadata annotated w1 w2,
    settled gate_run contribution_json (et_handle t) limitation (et_subscribers t) w w1 ∧ calm w1 w2
    ∧ emitted gate_run w2
        (State.build_llm_end_event (et_timestamp t) (et_handle t) data metadata annotated
           (et_time_to_first_chunk t) (Some (et_timestamp t))) None (et_subscribers t) w'
    ∧ (et_snapshot_failed t || failed = true → data = None)
    ∧ (is_null_or_none data = true → annotated = None)
    ∧ (limitation ≠ None → is_interrupted (et_termination t) = true)
    ∧ (et_termination t ≠ TDropped → failed = false → metadata = et_metadata t).

Lemma settle_stream_ok annotated w :
  healthy w → lh_scope_stack (et_handle t) = current w →
  ∃ limitation summary annotated' w1 w', settle_stream t annotated w = (Ok (summary, annotated'), w')
    ∧ settled gate_run contribution_json (et_handle t) limitation (et_subscribers t) w w1
    ∧ calm w1 w' ∧ (limitation ≠ None → is_interrupted (et_termination t) = true)
    ∧ (annotated = None → annotated' = None).
Proof.
  intros Hw Hh. unfold settle_stream.
  set (limitation := if is_interrupted _ && _ then _ else _).
  destruct (settle_ok now_v7 gate_run contribution_json (et_handle t) limitation (et_subscribers t)
    w Hw Hh) as (b & w0 & w1 & Hcl & Hm & Hset).
  mstep Hcl. mstep Hm. unfold finalize_summary_m.
  pose proof (finalize_response (et_handle t) annotated w1) as Hresp.
  assert (calm w1 (finalize_summary (et_handle t) annotated w1).2) as Hcalm.
  { unfold finalize_summary. destruct (finish_waited _). destruct (Summary.summarize _ _ _).
    apply calm_llm. }
  destruct (finalize_summary _ _ w1) as [[summary annotated'] w'].
  eexists limitation, summary, annotated', w1, w'. split_and!; [done..| |].
  - subst limitation. by destruct (is_interrupted _).
  - intros ->. by destruct annotated'.
Qed.

Lemma publish_end_ok aggregated failure w :
  healthy w → lh_scope_stack (et_handle t) = current w →
  let failed := bool_decide (is_Some failure) in
  ∃ w1 data w2 w', publish_end t aggregated failure w = (Ok (), w')
    ∧ complete_response t aggregated w = (Ok (), w1) ∧ end_data t aggregated failed w1 = (Ok data, w2)
    ∧ keeps w w2 ∧ stream_end_of data failed w2 w'.
Proof.
  intros Hw Hh. unfold publish_end.
  destruct (complete_response_ok aggregated w) as (w1 & Hc & Hk1). mstep Hc.
  destruct (end_data_ok aggregated (bool_decide (is_Some failure)) w1)
    as (data & w2 & Hd & Hk2 & Hnone). mstep Hd.
  destruct (end_annotation_ok data w2) as (annotated & Ha & Hann). mstep Ha.
  assert (keeps w w2) as Hk by (by etrans). assert (healthy w2) as Hw2 by (by apply Hk).
  destruct (settle_stream_ok annotated w2 Hw2) as (limitation & summary & annotated' & w4 & w5 & Hs
    & Hset & Hc5 & Hlim & Hnil); [rewrite Hh; symmetry; by apply kp_current|]. mstep Hs.
  pose proof (settled_keeps gate_run contribution_json _ _ _ _ _ Hset) as Hk4.
  pose proof (calm_healthy _ _ Hc5 (kp_healthy _ _ Hk4 Hw2)) as Hw5. pose proof Hw5 as (_ & Hg5 & _).
  rewrite bind_gets, Hg5.
  match goal with |- context [queue_sanitized_event_with_scope_stack _ ?e _ _] =>
    destruct (queue_sanitized_emitted gate_run e (et_subscribers t) w5 Hw5) as (w' & Hq & Hem & _)
  end.
  assert (lh_scope_stack (et_handle t) = current w5) as ->.
  { rewrite Hh, <-(kp_current _ _ Hk), <-(kp_current _ _ Hk4). symmetry. by apply calm_current. }
  exists w1, data, w2, w'. split; [by mstep Hq|]. split_and!; [done..|].
  eexists limitation, _, _, w4, w5. split_and!; [done|done|exact Hem|done| |done|].
  - intros Hn. specialize (Hnil (Hann Hn)). rewrite Hnil, Hn. by destruct summary.
  - intros Ht Hf. apply bool_decide_eq_false_1, eq_None_not_Some in Hf as ->.
    by destruct (et_termination t).
Qed.

(** C11: the background task of an END publication publishes exactly one END
    event of the call, after its accounting. Whatever the finalizer gave,
    unless it unwound, the completion callback and then the response
    sanitizers run on its value (or null when it failed); nothing else happens
    until the recorder is settled, the marks of the remaining contributions
    are published and then one END event of the stream's handle, with the time
    the stream ended and the payload the sanitizers left. It carries no
    payload when the finalizer or the snapshot of the sanitizers failed, no
    annotation without a payload, and, unless the stream was dropped or the
    finalizer failed, the status the stream ended with. *)
Theorem stream_end_published w w0 aggregate :
  end_aggregate t w = (Ok aggregate, w0) → aggregate ≠ Panic → keeps w w0 → healthy w →
  lh_scope_stack (et_handle t) = current w →
  let value := match aggregate with Ok v => v | _ => Null end in
  let failed := match aggregate with Ok _ => false | _ => true end in
  ∃ w1 data w2 w', publish_aggregate t w = (Ok (), w')
    ∧ complete_response t value w0 = (Ok (), w1) ∧ end_data t value failed w1 = (Ok data, w2)
    ∧ stream_end_of data failed w2 w'.
Proof.
  intros Ha Hnp Hk Hw Hh. unfold publish_aggregate. mstep Ha.
  assert (lh_scope_stack (et_handle t) = current w0) as Hh0 by (rewrite Hh; symmetry; by apply kp_current).
  pose proof (kp_healthy _ _ Hk Hw) as Hw0.
  destruct aggregate as [v|e|]; [| |done]; cbv zeta.
  - destruct (publish_end_ok v None w0 Hw0 Hh0) as (w1 & data & w2 & w' & ? & ? & ? & _ & ?).
    by exists w1, data, w2, w'.
  - destruct (publish_end_ok Null (Some e) w0 Hw0 Hh0) as (w1 & data & w2 & w' & ? & ? & ? & _ & ?).
    by exists w1, data, w2, w'.
Qed.

End Publishes.

(** ** Any use of a stream *)

Inductive Op : Type :=
| OpPoll (finalized : bool)
| OpClose (end_resolves : bool).

(** The answers to the polls, and the wrapper afterwards. *)
Fixpoint run_ops (ops : list Op) (s : LlmStreamWrapper) (w : World) :
    list (Poll Item) * LlmStreamWrapper * World :=
  match ops with
  | [] => ([], s, w)
  | OpPoll finalized :: ops =>
      let '(r, s, w) := wrapper_poll_next finalized s w in
      let '(answers, s, w) := run_ops ops s w in
      (r :: answers, s, w)
  | OpClose end_resolves :: ops =>
      let '(_, s, w) := wrapper_close end_resolves s w in
      run_ops ops s w
  end.

Section Ends.
Context (handle : LlmHandle) (finalizer : LlmFinalizer) (metadata : option Json).
Hypothesis finalizer_returns : ∀ w, is_Some (start_finalizer (Some finalizer) w).1.

(** An END publication of this stream, with the status its end calls for. *)
Definition end_of (t : EndTask) : Prop :=
  et_handle t = handle
  ∧ match et_termination t with
    | TComplete => et_metadata t = metadata_with_otel_status metadata "OK" None
    | TFailed => ∃ e, et_metadata t = metadata_with_otel_error metadata e
    | TDropped => et_metadata t = metadata_with_otel_status metadata "ERROR"
        (Some "stream dropped before clean completion")
    end.

Definition running (s : LlmStreamWrapper) : Prop :=
  sw_ended s = false ∧ sw_spawned s = [] ∧ sw_finalizer s = Some finalizer
  ∧ sw_handle s = handle ∧ sw_metadata s = metadata ∧ sw_pending_end s = false
  ∧ sw_undelivered_error s = None.

Definition failed_with (e : FlowError) (t : EndTask) : Prop :=
  et_termination t = TFailed ∧ et_metadata t = metadata_with_otel_error metadata e.

(** The error a consumer is still owed is the one published. *)
Definition over (s : LlmStreamWrapper) : Prop :=
  sw_ended s = true
  ∧ ∃ t, sw_spawned s = [t] ∧ end_of t ∧ ∀ e, sw_undelivered_error s = Some e → failed_with e t.

(** The state between two uses. *)
Definition usable (s : LlmStreamWrapper) : Prop :=
  running s ∨ (over s ∧ sw_pending_collector s = None).

(** Everything was delivered. *)
Definition drained (s : LlmStreamWrapper) : Prop :=
  (over s ∧ sw_pending_collector s = None)
  ∧ sw_pending_end s = false ∧ sw_undelivered_error s = None.

(** An answer after which a consumer stops. *)
Definition terminal (r : Poll Item) : Prop :=
  match r with Ready None | Ready (Some (Err _)) => True | _ => False end.

Definition ended_by (step : bool * LlmStreamWrapper * World)
    (pending : option (Json * Collecting)) (P : EndTask → Prop) : Prop :=
  ∃ s' w', step = (true, s', w') ∧ over s' ∧ sw_pending_collector s' = pending
    ∧ ∀ t, sw_spawned s' = [t] → P t.

Lemma emit_end_ok md termination s w :
  sw_ended s = true → sw_spawned s = [] → sw_finalizer s = Some finalizer →
  sw_handle s = handle → sw_undelivered_error s = None →
  (∀ t, et_handle t = handle → et_metadata t = md → et_termination t = termination → end_of t) →
  ended_by (emit_end_event md termination s w) (sw_pending_collector s)
    (λ t, et_termination t = termination ∧ et_metadata t = md).
Proof.
  intros He Hsp Hf Hh Hu Hend. unfold ended_by, emit_end_event. rewrite Hf.
  destruct (finalizer_returns (set_clock (Datatypes.S (w_clock w)) w)) as [[p waits] Hs].
  destruct (start_finalizer (Some finalizer) _) as [started w1]. cbn in Hs. subst started.
  set (s0 := if waits then set_pending_end true (take_finalizer s) else take_finalizer s).
  assert (∃ x, snapshot_stream_end_sanitizers (lh_scope_stack (sw_handle s0)) w1 = (Ok x, w1))
    as [[entries failed] Hsnap].
  { unfold snapshot_stream_end_sanitizers, try_response_entries, bind, gets.
    destruct (if bool_decide _ then None else _); [|by eexists].
    destruct (w_global_poisoned w1); by eexists. }
  rewrite Hsnap. eexists _, w1. split; [done|]. unfold over, s0. destruct s; cbn in *. subst.
  destruct waits; cbn; (split; [split; [done|]|split; [done|by intros t [= <-]]]);
    (eexists; split; [done|]; split; [by apply Hend|done]).
Qed.

Lemma ended_by_weaken step pending (P Q : EndTask → Prop) :
  ended_by step pending P → (∀ t, P t → Q t) → ended_by step pending Q.
Proof. intros (s' & w' & ? & ? & ? & ?) HPQ. exists s', w'. eauto 10. Qed.

Lemma finish_running s w :
  running s →
  ended_by (finish s w) (sw_pending_collector s) (λ t, et_termination t = TDropped).
Proof.
  intros (He & Hsp & Hf & Hh & Hm & _ & Hu). unfold finish. rewrite He.
  destruct s; simpl in *; subst. eapply ended_by_weaken;
    [apply (emit_end_ok _ TDropped (Build_LlmStreamWrapper _ _ _ _ _ _ _ _ _ _ _ _ _ _ _ _));
      [done..|]|by intros t [? _]].
  intros t Ht Hmd Htm. split; [done|]. by rewrite Htm.
Qed.

Lemma finish_ok s w :
  running s ∨ over s → ended_by (finish s w) (sw_pending_collector s) (λ _, True).
Proof.
  intros [Hr|Ho]; [by eapply ended_by_weaken; [apply finish_running|]|].
  unfold finish. rewrite (proj1 Ho). by eexists s, w.
Qed.

Lemma finish_cleanly_ok s w : running s → 
  ended_by (finish_cleanly s w) (sw_pending_collector s) (λ _, True).
Proof.
  intros (He & Hsp & Hf & Hh & Hm & _ & Hu). unfold finish_cleanly, terminalize_inner. rewrite He.
  destruct s; simpl in *; subst. destruct (terminalize _ w) as [i w1].
  eapply ended_by_weaken;
    [apply (emit_end_ok _ TComplete (Build_LlmStreamWrapper _ _ _ _ _ _ _ _ _ _ _ _ _ _ _ _));
      [done..|]|done].
  intros t Ht Hmd Htm. split; [done|]. by rewrite Htm.
Qed.

Lemma finish_with_error_ok e s w : running s → 
  ended_by (finish_with_error e s w) (sw_pending_collector s) (failed_with e).
Proof.
  intros (He & Hsp & Hf & Hh & Hm & _ & Hu). unfold finish_with_error, terminalize_inner. rewrite He.
  destruct s; simpl in *; subst. destruct (terminalize _ w) as [i w1].
  apply (emit_end_ok _ TFailed (Build_LlmStreamWrapper _ _ _ _ _ _ _ _ _ _ _ _ _ _ _ _)); [done..|].
  intros t Ht Hmd Htm. split; [done|]. rewrite Htm. by eexists.
Qed.

(** What a use of the stream leaves, given the answer of a poll. *)
Definition answered (step : Poll Item * LlmStreamWrapper * World) : Prop :=
  usable step.1.2 ∧ (terminal step.1.1 → drained step.1.2)
  ∧ ∀ e, step.1.1 = Ready (Some (Err e)) → ∃ t, sw_spawned step.1.2 = [t] ∧ failed_with e t.

Lemma delivered_over s : over s → over (set_undelivered None s).
Proof. intros (? & t & ? & ? & _). destruct s. split; [done|]. by exists t. Qed.

Lemma poll_ended_ok finalized s w :
  over s → sw_pending_collector s = None → answered (poll_ended finalized s w).
Proof.
  intros Ho Hpc. unfold poll_ended, answered, usable, drained.
  destruct (_ && _); cbn; [split; [by right|done]|].
  pose proof (delivered_over s Ho) as Ho'. destruct Ho as (_ & t & ? & _ & Ho).
  destruct s; simpl in *. split; [by right|split; [intros _; by split_and!|]].
  intros e He. exists t. split; [done|]. apply Ho. by destruct sw_undelivered_error0; simplify_eq/=.
Qed.

Lemma undelivered_over e s :
  over s → (∀ t, sw_spawned s = [t] → failed_with e t) → over (set_undelivered (Some e) s).
Proof.
  intros (? & t & ? & ? & _) Hf. destruct s; unfold over; cbn in *.
  split; [done|]. exists t. split_and!; [done..|]. intros ? [= <-]. by apply Hf.
Qed.

Lemma poll_failed_ok finalized e s w :
  running s → sw_pending_collector s = None → answered (poll_failed finalized e s w).
Proof.
  intros Hr Hpc. unfold poll_failed.
  destruct (finish_with_error_ok e s w Hr) as (s1 & w1 & -> & Ho & Hp & Hf).
  rewrite Hpc in Hp. apply poll_ended_ok; [by apply undelivered_over|by destruct s1].
Qed.

Lemma still_running r s w : running s → ¬ terminal r → answered (r, s, w).
Proof. intros Hr Ht. split; [by left|split; [by intros ?%Ht|by cbn; intros e ->; destruct Ht]]. Qed.

Lemma set_pending_running p s : running s → running (set_pending_collector p s).
Proof. by destruct s. Qed.

Lemma set_inner_running i s : running s → running (set_inner i s).
Proof. by destruct s. Qed.

Lemma poll_pending_ok finalized chunk c s w :
  running s → answered (poll_pending_collector finalized chunk c s w).
Proof.
  intros Hr. apply (set_pending_running None) in Hr as Hr'. unfold poll_pending_collector.
  destruct (poll_collecting c w) as [[[[| |]|] c'] w1];
    [by apply still_running; auto| |by apply still_running; auto..|].
  - apply poll_failed_ok; [done|by destruct s].
  - apply still_running; [by apply set_pending_running|auto].
Qed.

Lemma collect_ok finalized chunk s w :
  running s → sw_pending_collector s = None → answered (collect finalized chunk s w).
Proof.
  intros Hr Hpc. unfold collect. destruct (sw_collector s) as [f|f|f]; destruct (f chunk w) as [[]?];
    try (by apply still_running; auto); by (apply poll_failed_ok || apply poll_pending_ok).
Qed.

Lemma receive_chunk_ok finalized chunk s w :
  running s → sw_pending_collector s = None → answered (receive_chunk finalized chunk s w).
Proof.
  intros Hr Hpc. unfold receive_chunk.
  destruct (count_chunk s w) as [s1 w1] eqn:Hc.
  assert (running s1 ∧ sw_pending_collector s1 = None) as [Hr1 Hpc1].
  { unfold count_chunk in Hc. destruct s, (sw_first_chunk_elapsed _); by simplify_eq/=. }
  destruct (emit_chunk_mark _ _ _ _) as [[] w2];
    by (apply collect_ok || (apply still_running; auto)).
Qed.

Lemma poll_ok finalized s w : usable s → answered (wrapper_poll_next finalized s w).
Proof.
  unfold wrapper_poll_next. intros [Hr|[Ho Hpc]].
  - destruct (sw_pending_collector s) as [[chunk c]|] eqn:Hpc; [by apply poll_pending_ok|].
    pose proof (proj1 Hr) as ->. destruct (poll_next (sw_inner s) w) as [[r i] w1].
    apply (set_inner_running i) in Hr.
    assert (sw_pending_collector (set_inner i s) = None) as Hpc' by by destruct s.
    destruct r as [[[]|]|]; try (by apply still_running; auto).
    + by apply receive_chunk_ok.
    + by apply poll_failed_ok.
    + destruct (finish_cleanly_ok _ w1 Hr) as (s1 & w2 & -> & Ho & Hp & _).
      apply poll_ended_ok; [done|congruence].
  - rewrite Hpc, (proj1 Ho). by apply poll_ended_ok.
Qed.

Lemma drained_poll finalized s w :
  drained s → ∃ s', wrapper_poll_next finalized s w = (Ready None, s', w) ∧ drained s'.
Proof.
  intros ([Ho Hpc] & Hpe & Hue). unfold wrapper_poll_next, poll_ended.
  rewrite Hpc, (proj1 Ho), Hpe. cbn. exists s. destruct s; cbn in *. subst. by split.
Qed.

Lemma close_finished_ok resolves cleanup s w :
  usable s → sw_pending_collector s = None →
  let s' := (close_finished resolves cleanup s w).1.2 in
  (over s' ∧ sw_pending_collector s' = None) ∧ (drained s → drained s').
Proof.
  intros Hs Hpc. unfold close_finished.
  destruct (finish_ok s w) as (s1 & w1 & Hf & Ho & Hp & _); [destruct Hs as [|[]]; auto|].
  rewrite Hf. rewrite Hpc in Hp.
  assert (drained s → s1 = s) as Hd.
  { intros (([He _] & _) & _). unfold finish in Hf. rewrite He in Hf. by simplify_eq. }
  pose proof (delivered_over s1 Ho) as Ho'.
  destruct (_ && _); cbn; (split; [destruct s1; by split|]); intros Hs'; specialize (Hd Hs'); subst s1;
    destruct Hs' as ([??] & ? & ?); destruct s; cbn in *; by split_and!.
Qed.

Lemma close_ok resolves s w :
  let s' := (wrapper_close resolves s w).1.2 in
  usable s → usable s' ∧ (drained s → drained s').
Proof.
  cbn. unfold wrapper_close. intros Hs. destruct (sw_close_result s); [by split|].
  destruct (close (sw_inner s) w) as [[cleanup i] w1].
  assert (usable (set_inner i s)) as Hs1 by (destruct s; exact Hs).
  assert (drained s → drained (set_inner i s)) as Hd1 by (destruct s; done).
  assert (∀ cleanup s1 w1, usable s1 → sw_pending_collector s1 = None → (drained s → drained s1) →
    let s' := (close_finished resolves cleanup s1 w1).1.2 in usable s' ∧ (drained s → drained s'))
    as Hclose.
  { intros c s1 w2 Hu Hp Hd. destruct (close_finished_ok resolves c s1 w2 Hu Hp) as [H1 H2].
    split; [by right|auto]. }
  destruct cleanup as [|?|]; [| |by split].
  all: destruct (sw_pending_collector _) as [[? collecting]|] eqn:Hpc;
    [|by apply Hclose].
  all: destruct Hs1 as [Hr|[_ ?]]; [|congruence].
  all: apply (set_pending_running None) in Hr.
  all: assert (drained s → False) as Hnd
    by (intros Hd%Hd1; destruct Hd as [[_ ?] _]; congruence).
  all: assert (sw_pending_collector (set_pending_collector None (set_inner i s)) = None) as Hp
    by by destruct s.
  all: destruct (await_collecting collecting w1) as [[|err|] w2];
    [by apply Hclose; [left| |intros ?%Hnd]| |by split; [left|intros ?%Hnd]].
  all: destruct (finish_with_error_ok err _ w2 Hr) as (s1 & w3 & -> & Ho & Hp1 & Hf).
  all: rewrite Hp in Hp1; apply Hclose;
    [right; split; [by apply undelivered_over|by destruct s1]|by destruct s1|by intros ?%Hnd].
Qed.

Lemma usable_over s : usable s → over s → sw_pending_collector s = None.
Proof. intros [[He _]|[_ ?]] [Ho _]; [congruence|done]. Qed.

Lemma over_again s s' : usable s' → over s → sw_spawned s' = sw_spawned s → over s'.
Proof. intros [(_ & Hr & _)|[? _]] (_ & t & Ho & _) Hk; [congruence|done]. Qed.

Lemma poll_keeps finalized s w :
  usable s → over s → sw_spawned (wrapper_poll_next finalized s w).1.2 = sw_spawned s.
Proof.
  intros Hu Ho. unfold wrapper_poll_next, poll_ended.
  rewrite (usable_over s Hu Ho), (proj1 Ho). destruct (_ && _); by destruct s.
Qed.

Lemma close_keeps resolves s w :
  usable s → over s → sw_spawned (wrapper_close resolves s w).1.2 = sw_spawned s.
Proof.
  intros Hu Ho. pose proof (usable_over s Hu Ho) as Hpc. unfold wrapper_close, close_finished, finish.
  destruct (sw_close_result s); [done|]. destruct (close (sw_inner s) w) as [[cleanup i] w1].
  destruct Ho as [He _]. destruct s; simpl in *. subst.
  destruct cleanup; [| |done]; by destruct (_ && _).
Qed.

Definition used (s : LlmStreamWrapper) (step : list (Poll Item) * LlmStreamWrapper * World) : Prop :=
  usable step.1.2
  ∧ (over s → sw_spawned step.1.2 = sw_spawned s)
  ∧ (drained s → Forall (eq (Ready None)) step.1.1)
  ∧ (∀ i j r r', step.1.1 !! i = Some r → terminal r → i < j → step.1.1 !! j = Some r' →
       r' = Ready None)
  ∧ (∀ i e, step.1.1 !! i = Some (Ready (Some (Err e))) →
       ∃ t, sw_spawned step.1.2 = [t] ∧ failed_with e t).

Lemma run_ops_used ops s w : usable s → used s (run_ops ops s w).
Proof.
  revert s w. induction ops as [|[finalized|resolves] ops IH]; intros s w Hs; cbn [run_ops].
  - by split_and!.
  - pose proof (poll_ok finalized s w Hs) as (Hu & Hterm & Herr).
    pose proof (poll_keeps finalized s w Hs) as Hkeep.
    pose proof (drained_poll finalized s w) as Hdp.
    destruct (wrapper_poll_next finalized s w) as [[r s1] w1]. simpl in Hu, Hterm, Herr, Hkeep.
    destruct (IH s1 w1 Hu) as (Hu2 & Hk2 & Hd2 & Ht2 & He2).
    destruct (run_ops ops s1 w1) as [[answers s2] w2]. simpl in Hu2, Hk2, Hd2, Ht2, He2.
    unfold used; cbn [fst snd]. split_and!; [done| | | |].
    + intros Ho. rewrite <-(Hkeep Ho). apply Hk2. by eapply over_again; auto.
    + intros Hd. destruct (Hdp Hd) as (s' & [= -> -> ->] & Hd'). constructor; auto.
    + intros [|i] [|j] a b Hi Ha Hij Hj; [lia| |lia|]; simpl in Hi, Hj.
      * simplify_eq. pose proof (Hd2 (Hterm Ha)) as Hall.
        by eapply Forall_lookup_1 in Hall as <-.
      * eapply (Ht2 i j); [done..|lia|done].
    + intros [|i] e Hi; simpl in Hi; [|by eapply He2]. simplify_eq.
      destruct (Herr e eq_refl) as (t & Hsp & Hf). exists t. split; [|done].
      rewrite Hk2; [done|]. apply Hterm; done.
  - pose proof (close_ok resolves s w Hs) as (Hu & Hd).
    pose proof (close_keeps resolves s w Hs) as Hkeep.
    destruct (wrapper_close resolves s w) as [[r s1] w1]. simpl in Hu, Hd, Hkeep.
    destruct (IH s1 w1 Hu) as (Hu2 & Hk2 & Hd2 & Ht2 & He2).
    split_and!; [done| |by auto|done..].
    intros Ho. rewrite <-(Hkeep Ho). apply Hk2. by eapply over_again; auto.
Qed.

Lemma drop_ends s w :
  usable s →
  ∃ s' w' t, wrapper_drop s w = (true, s', w') ∧ sw_spawned s' = [t] ∧ end_of t
    ∧ (sw_spawned s = [t] ∨ sw_spawned s = [] ∧ et_termination t = TDropped).
Proof.
  unfold wrapper_drop. intros [Hr|[Ho _]].
  - destruct (finish_running s w Hr) as (s' & w' & -> & (_ & t & Hsp & He & _) & _ & Ht).
    exists s', w', t. split_and!; [done..|]. right. split; [apply Hr|by apply Ht].
  - destruct Ho as (He & t & Hsp & Hend & _). exists s, w, t. unfold finish. rewrite He. eauto.
Qed.

(** C10: A managed stream ends exactly once, whatever is done with it. For any
    sequence of polls and closes: a consumer that was told of the end or of an
    error gets nothing but the end afterwards; at most one END publication was
    handed out, and if an error was delivered it reports a failure with that
    error; and once the stream is dropped there is exactly one, with the OK
    status for a clean end, the error's status for a failure and the drop's
    status otherwise. The finalizer must not unwind. *)
Theorem stream_ends_once inner collector codec subscribers completion ops w :
  let s0 := new_managed inner handle collector finalizer metadata codec subscribers completion in
  let '(answers, s, w1) := run_ops ops s0 w in
  (∀ i j r r', answers !! i = Some r → terminal r → i < j → answers !! j = Some r' →
     r' = Ready None)
  ∧ (∀ i e, answers !! i = Some (Ready (Some (Err e))) →
       ∃ t, sw_spawned s = [t] ∧ failed_with e t)
  ∧ (sw_spawned s = [] ∨ ∃ t, sw_spawned s = [t])
  ∧ ∃ s' w' t, wrapper_drop s w1 = (true, s', w') ∧ sw_spawned s' = [t] ∧ end_of t
      ∧ (sw_spawned s = [t] ∨ sw_spawned s = [] ∧ et_termination t = TDropped).
Proof.
  intros s0. assert (usable s0) as H0 by (left; by repeat split).
  destruct (run_ops_used ops s0 w H0) as (Hu & _ & _ & Ht & He).
  destruct (run_ops ops s0 w) as [[answers s] w1]. simpl in *.
  split_and!; [done|done| |by apply drop_ends].
  destruct Hu as [(_ & ? & _)|[(_ & t & ? & _) _]]; eauto.
Qed.

End Ends.

(** *** A finalizer that unwinds *)

Section Unwinds.
Context (finalizer : LlmFinalizer).
Hypothesis finalizer_unwinds : ∀ w, (start_finalizer (Some finalizer) w).1 = None.

(** No END publication, and the finalizer is still there unless it was run. *)
Definition endless (s : LlmStreamWrapper) : Prop :=
  sw_spawned s = [] ∧ (sw_ended s = false → sw_finalizer s = Some finalizer).

Lemma emit_end_unwinds md termination s w :
  sw_finalizer s = Some finalizer →
  ∃ w', emit_end_event md termination s w = (false, take_finalizer s, w').
Proof.
  intros Hf. unfold emit_end_event. rewrite Hf.
  pose proof (finalizer_unwinds (set_clock (Datatypes.S (w_clock w)) w)) as Hn.
  destruct (start_finalizer _ _) as [started w1]. cbn in Hn. subst started. by eexists.
Qed.

Lemma finish_endless s w : endless s → endless (finish s w).1.2.
Proof.
  intros Hs. pose proof Hs as [Hsp Hf]. unfold finish. destruct (sw_ended s) eqn:He; [done|].
  edestruct emit_end_unwinds as [w' ->]; [|by destruct s]. destruct s; cbn in *. auto.
Qed.

Lemma finish_cleanly_endless s w : endless s → endless (finish_cleanly s w).1.2.
Proof.
  intros Hs. pose proof Hs as [Hsp Hf]. unfold finish_cleanly, terminalize_inner.
  destruct (sw_ended s) eqn:He; [done|].
  destruct (terminalize _ w) as [i w1].
  edestruct emit_end_unwinds as [w' ->]; [|by destruct s]. destruct s; cbn in *. auto.
Qed.

Lemma finish_with_error_endless e s w : endless s → endless (finish_with_error e s w).1.2.
Proof.
  intros Hs. pose proof Hs as [Hsp Hf]. unfold finish_with_error, terminalize_inner.
  destruct (sw_ended s) eqn:He; [done|]. destruct (terminalize _ w) as [i w1].
  edestruct emit_end_unwinds as [w' ->]; [|by destruct s]. destruct s; cbn in *. auto.
Qed.

Lemma poll_ended_endless finalized s w : endless s → endless (poll_ended finalized s w).1.2.
Proof. intros Hs. unfold poll_ended. destruct (_ && _); by destruct s. Qed.

Lemma poll_failed_endless finalized e s w : endless s → endless (poll_failed finalized e s w).1.2.
Proof.
  intros Hs%(finish_with_error_endless e s w). unfold poll_failed.
  destruct (finish_with_error e s w) as [[[] s1] w1]; [|done].
  apply poll_ended_endless. by destruct s1.
Qed.

Lemma poll_pending_endless finalized chunk c s w :
  endless s → endless (poll_pending_collector finalized chunk c s w).1.2.
Proof.
  intros Hs. unfold poll_pending_collector.
  assert (endless (set_pending_collector None s)) as Hs' by by destruct s.
  destruct (poll_collecting c w) as [[[[| |]|] c'] w1]; [done|by apply poll_failed_endless|done|].
  by destruct s.
Qed.

Lemma receive_endless finalized chunk s w :
  endless s → endless (receive_chunk finalized chunk s w).1.2.
Proof.
  intros Hs. unfold receive_chunk. destruct (count_chunk s w) as [s1 w1] eqn:Hc.
  assert (endless s1) as Hs1.
  { unfold count_chunk in Hc. destruct s, (sw_first_chunk_elapsed _); by simplify_eq/=. }
  assert (∀ w, endless (collect finalized chunk s1 w).1.2) as Hcol.
  { intros w0. unfold collect. destruct (sw_collector s1) as [f|f|f]; destruct (f chunk w0) as [[]?];
      try done; by (apply poll_failed_endless || apply poll_pending_endless). }
  destruct (emit_chunk_mark _ _ _ _) as [[] w2]; [apply Hcol..|done].
Qed.

Lemma poll_endless finalized s w : endless s → endless (wrapper_poll_next finalized s w).1.2.
Proof.
  intros Hs. unfold wrapper_poll_next.
  destruct (sw_pending_collector s) as [[chunk c]|]; [by apply poll_pending_endless|].
  destruct (sw_ended s); [by apply poll_ended_endless|].
  destruct (poll_next (sw_inner s) w) as [[r i] w1].
  assert (endless (set_inner i s)) as Hs' by by destruct s.
  destruct r as [[[]|]|]; [by apply receive_endless|by apply poll_failed_endless|done| |done].
  apply (finish_cleanly_endless _ w1) in Hs'.
  destruct (finish_cleanly _ w1) as [[[] s1] w2]; [by apply poll_ended_endless|done].
Qed.

Lemma close_endless resolves s w : endless s → endless (wrapper_close resolves s w).1.2.
Proof.
  intros Hs. unfold wrapper_close. destruct (sw_close_result s); [done|].
  destruct (close (sw_inner s) w) as [[cleanup i] w1].
  assert (∀ cleanup s w, endless s → endless (close_finished resolves cleanup s w).1.2) as Hclose.
  { intros cl s0 w0 Hs0%(finish_endless s0 w0). unfold close_finished.
    destruct (finish s0 w0) as [[[] s1] w2]; [|done]. destruct (_ && _); by destruct s1. }
  assert (endless (set_inner i s)) as Hs1 by by destruct s.
  assert (endless (set_pending_collector None (set_inner i s))) as Hs2 by by destruct s.
  destruct cleanup; [| |done].
  all: destruct (sw_pending_collector _) as [[? c]|]; [|by apply Hclose].
  all: destruct (await_collecting c w1) as [[|err|] w2]; [by apply Hclose| |done].
  all: apply (finish_with_error_endless err _ w2) in Hs2.
  all: destruct (finish_with_error err _ w2) as [[[] s1] w3]; [|done].
  all: apply Hclose; by destruct s1.
Qed.

(** C40: a finalizer that unwinds takes the END event with it. Whatever is done
    with the stream, and even when it is dropped, no END publication is ever
    handed out: the stream counts as ended before its finalizer runs, and an
    unwind is not caught. *)
Theorem unwinding_finalizer_loses_end inner handle collector metadata codec subscribers completion
    ops w :
  let s0 := new_managed inner handle collector finalizer metadata codec subscribers completion in
  let '(_, s, w1) := run_ops ops s0 w in
  sw_spawned s = [] ∧ sw_spawned (wrapper_drop s w1).1.2 = [].
Proof.
  intros s0. assert (endless s0) as H0 by by split.
  assert (endless (run_ops ops s0 w).1.2) as Hs.
  { revert H0. generalize s0. clear s0. revert w.
    induction ops as [|[f|r] ops IH]; intros w s Hs; cbn [run_ops]; [done|..].
    - apply (poll_endless f s w) in Hs. destruct (wrapper_poll_next f s w) as [[a s1] w1].
      specialize (IH w1 s1 Hs). by destruct (run_ops ops s1 w1) as [[? ?] ?].
    - apply (close_endless r s w) in Hs. destruct (wrapper_close r s w) as [[a s1] w1].
      by apply IH. }
  destruct (run_ops ops s0 w) as [[answers s] w1]. split; [apply Hs|]. by apply finish_endless.
Qed.

End Unwinds.

End Stream.

(** ** A stream of two chunks, used too long and then dropped *)

#[local] Instance list_stream : RustStream (list Json) := {|
  poll_stream this w :=
    match this with
    | [] => (Ready None, [], w)
    | chunk :: this => (Ready (Some (Ok chunk)), this, w)
    end;
|}.

Definition demo_stream : LlmJsonStream (DefaultLlmStream (list Json)) :=
  Guarded (Producer (Build_DefaultLlmStream (Some [demo_chunk; Null]))) true true.

Definition demo_llm_handle : LlmHandle := {|
  lh_uuid := 30; lh_started_at := 0; lh_name := "openai"; lh_data := None; lh_metadata := None;
  lh_attributes := 0; lh_parent_uuid := None; lh_model_name := None; lh_recorder := 0;
  lh_scope_stack := 0;
|}.

Definition demo_wrapper (finalizer : LlmFinalizer) :
    LlmStreamWrapper (Collecting := Empty_set) (Finalizing := Empty_set) :=
  new_managed demo_stream demo_llm_handle (SyncCollector (λ _ w, (Ok (), w))) finalizer None None []
    None.

Definition demo_run (finalizer : LlmFinalizer) (ops : list Op) :=
  run_ops (H := plain_otel) demo_now_v7 demo_utc_now (λ _, 5%Z) demo_gate_run
    (λ (c : Empty_set) w, (Pending, c, w)) (λ (c : Empty_set) w, (Panic, w)) ops
    (demo_wrapper finalizer) demo_world.

Definition demo_ops : list Op := [OpPoll true; OpPoll true; OpPoll true; OpPoll true; OpClose true].

Lemma stream_ends_once_witness :
  let '(answers, s, w1) := demo_run (SyncFinalizer (λ w, (Ok (Str "done"), w))) demo_ops in
  answers = [Ready (Some (Ok demo_chunk)); Ready (Some (Ok Null)); Ready None; Ready None]
  ∧ ∃ s' w' t, wrapper_drop demo_utc_now demo_gate_run s w1 = (true, s', w')
      ∧ sw_spawned s' = [t] ∧ end_of demo_llm_handle None t.
Proof.
  set (done := SyncFinalizer (Finalizing := Empty_set) (λ w, (Ok (Str "done"), w))).
  assert (∀ w, is_Some (start_finalizer (Some done) w).1) as Hf by (intros w; by eexists).
  pose proof (stream_ends_once (H := plain_otel) demo_now_v7 demo_utc_now (λ _, 5%Z) demo_gate_run
    (λ (c : Empty_set) w, (Pending, c, w)) (λ (c : Empty_set) w, (Panic, w)) demo_llm_handle done
    None Hf demo_stream (SyncCollector (λ _ w, (Ok (), w))) None [] None demo_ops demo_world) as Hends.
  assert ((demo_run done demo_ops).1.1
    = [Ready (Some (Ok demo_chunk)); Ready (Some (Ok Null)); Ready None; Ready None]) as Ha
    by (vm_compute; reflexivity).
  unfold demo_run, demo_wrapper in *. cbv zeta in Hends.
  destruct (run_ops _ _ _ _ _ _ _ _ _) as [[answers s] w1]. split; [exact Ha|].
  destruct Hends as (_ & _ & _ & s' & w' & t & ? & ? & ? & _). by exists s', w', t.
Defined.

Lemma unwinding_finalizer_loses_end_witness :
  let '(answers, s, w1) := demo_run (SyncFinalizer (λ w, (Panic, w))) demo_ops in
  answers = [Ready (Some (Ok demo_chunk)); Ready (Some (Ok Null)); Ready (Some Panic); Ready None]
  ∧ sw_spawned (wrapper_drop demo_utc_now demo_gate_run s w1).1.2 = [].
Proof.
  set (unwinds := SyncFinalizer (Finalizing := Empty_set) (λ w, (Panic, w))).
  pose proof (unwinding_finalizer_loses_end (H := plain_otel) demo_now_v7 demo_utc_now (λ _, 5%Z)
    demo_gate_run (λ (c : Empty_set) w, (Pending, c, w)) (λ (c : Empty_set) w, (Panic, w)) unwinds
    (λ _, eq_refl) demo_stream demo_llm_handle (SyncCollector (λ _ w, (Ok (), w))) None None [] None
    demo_ops demo_world) as Hl.
  assert ((demo_run unwinds demo_ops).1.1
    = [Ready (Some (Ok demo_chunk)); Ready (Some (Ok Null)); Ready (Some Panic); Ready None]) as Ha
    by (vm_compute; reflexivity).
  unfold demo_run, demo_wrapper in *. cbv zeta in Hl.
  destruct (run_ops _ _ _ _ _ _ _ _ _) as [[answers s] w1]. split; [exact Ha|]. apply Hl.
Defined.

Definition demo_end_task : EndTask (Finalizing := Empty_set) := {|
  et_publication := Reserved (Ok (Str "done")); et_handle := demo_llm_handle; et_metadata := None;
  et_termination := TComplete; et_timestamp := 9; et_entries := []; et_snapshot_failed := false;
  et_subscribers := [1%N]; et_response_codec := None; et_time_to_first_chunk := Some 5%Z;
  et_response_completion := None;
|}.

Lemma stream_end_published_witness :
  ∃ w', publish_aggregate (H := plain_otel) demo_now_v7 demo_gate_run (λ _, None)
      (λ _ v _ w, (Ok (Some v), w)) (λ (c : Empty_set) w, (Panic, w)) demo_end_task demo_world
      = (Ok (), w')
    ∧ stream_end_of demo_gate_run (λ _, None) demo_end_task (Some (Str "done")) false demo_world w'.
Proof.
  destruct (stream_end_published (H := plain_otel) demo_now_v7 demo_gate_run (λ _, None)
    (λ _ v _ w, (Ok (Some v), w)) (λ (c : Empty_set) w, (Panic, w)) demo_end_task
    (λ _ _ _ w, reflexivity w) ltac:(done) ltac:(done) demo_world demo_world (Ok (Str "done")))
    as (w1 & data & w2 & w' & Heq & Hc & Hd & Hend); [done|done|done|apply demo_healthy|done|].
  vm_compute in Hc. injection Hc as <-. vm_compute in Hd. injection Hd as <- <-.
  exists w'. split; [exact Heq|exact Hend].
Defined.
