(* ===== verification/StreamApi.v ===== *)
(** * Managed streaming calls ([llm_stream_call_execute] of
    [crates/runtime/src/api/llm.rs])

    The pipeline of a managed call ([LlmApi]) around an execution that produces
    a stream: the chain of stream intercepts, then [LlmStreamWrapper] ([Stream]),
    which takes over the end of the span.

    - The stream a provider or an intercept returns is any [LlmJsonStream].  An
      intercept calls [next] before it returns; a stream that calls it later,
      while it is polled, is not modelled.
    - [LlmJsonStream::from_closeable(wrapper)] is the wrapper. *)

From stdpp Require Import base gmap strings list.
From S2P Require Import Prelude Text Errors Json Float64 LlmTypes Pricing Optimization Codec.
From S2P Require Import Registry Trace Events Registries ScopeStack ContextState Chains Execution.
From S2P Require Import World LlmTransforms WorldFacts Context ScopeApi Guardrails LlmRequests.
From S2P Require Import LlmPayloads Continuation LlmApi Chunks Stream.

Section StreamApi.
Context `{!Otel}.
Context (now_v7 : nat → uuid) (utc_now : nat → timestamp).
Context (gate_run :
  Callback → list RuntimeRegistrationKind → string → outcome Empty_set (option string)).
Context (serialize : LlmOptimizationContribution → list N * bool).
Context (contribution_json : LlmOptimizationContribution → option Json).
Context (run_conditional : Callback → LlmRequest → World →
  option (outcome FlowError (option string)) * World).
Context (run_intercept : Callback → string → LlmRequest → option AnnotatedLlmRequest → World →
  outcome FlowError
    (LlmRequestInterceptOutcome AnnotatedLlmRequest LlmOptimizationContribution) * World).
Context {Source Collecting Finalizing : Type}.
Context (run_execution : Callback → string → LlmRequest → LlmExecutionContext →
  Prog World LlmRequest (LlmJsonStream Source) (LlmJsonStream Source)).
Context (in_task : bool).

#[local] Abbreviation Collector := (LlmChunkCollector (Collecting := Collecting)).
#[local] Abbreviation Finalizer := (LlmFinalizer (Finalizing := Finalizing)).
#[local] Abbreviation Wrapper :=
  (LlmStreamWrapper (Inner := LlmJsonStream Source) (Collecting := Collecting)
     (Finalizing := Finalizing)).

Record LlmStreamCallExecuteParams : Type := {
  ls_name : string;
  ls_request : LlmRequest;
  ls_func : LlmRequest → World → result (LlmJsonStream Source) * World;
  ls_collector : Collector;
  ls_borrowed_collector : option (Json → World → result unit * World);
  ls_finalizer : Finalizer;
  ls_parent : option ScopeHandle;
  ls_attributes : Z;
  ls_data : option Json;
  ls_metadata : option Json;
  ls_model_name : option string;
  ls_codec : option LlmCodec;
  ls_response_codec : option LlmResponseCodec;
}.

Definition stream_parts (params : LlmStreamCallExecuteParams) : LlmCallParts := {|
  pt_name := ls_name params; pt_request := ls_request params; pt_parent := ls_parent params;
  pt_attributes := ls_attributes params; pt_data := ls_data params;
  pt_metadata := ls_metadata params; pt_model_name := ls_model_name params;
  pt_codec := ls_codec params;
|}.

Definition contextualize_stream (context : MiddlewareContinuationContext)
    (stream : LlmJsonStream Source) : LlmJsonStream Source := Contextualized stream context.

(** The guards of the intercept's continuation and of its codecs. *)
Definition guard_execution_stream (stream : LlmJsonStream Source) : LlmJsonStream Source :=
  Guarded stream true true.

(** The future under [with_active_event_trace_context]. *)
Definition execute_stream (n : string) (context : LlmExecutionContext)
    (func : LlmRequest → World → result (LlmJsonStream Source) * World) (request : LlmRequest) :
    M (LlmJsonStream Source) :=
  let! scope_stack := current_scope_stack in
  let! scope_guard := read_stack_expect scope_stack in
  let scope_locals :=
    Stack.snapshot_scope_local_registries llm_stream_execution_intercepts scope_guard in
  let! g := read_global in
  let state := State.registry_snapshot [LlmStreamExecutionIntercept] g in
  let! matching := gets (λ w, merge_execution_intercept_callables (enabled gate_run w)
    (llm_stream_execution_intercepts (regs state)) scope_locals LlmStreamExecutionIntercept) in
  let execution := llm_stream_build_execution_chain (Leases0 := world_leases in_task)
    (λ cb n request, run_execution cb n request (lease true context))
    contextualize_stream guard_execution_stream matching n func in
  let! continuation_context := capture in
  let! stream := execution request in
  ret (contextualize_stream continuation_context stream).

Definition stream_collector (params : LlmStreamCallExecuteParams) : Collector :=
  match ls_borrowed_collector params with
  | Some collector => BorrowedCollector collector
  | None => ls_collector params
  end.

(** From [match execution] on; [completion] is the armed guard. *)
Definition finish_stream_call (params : LlmStreamCallExecuteParams)
    (response_completion : option (Json → World → result unit * World)) (handle : LlmHandle)
    (lifecycle_subscribers : list Callback) (completion : M unit)
    (execution : outcome FlowError (LlmJsonStream Source)) : M Wrapper :=
  match execution with
  | Ok raw_stream =>
      ret (new_managed raw_stream handle (stream_collector params) (ls_finalizer params)
        (ls_metadata params) (ls_response_codec params) lifecycle_subscribers response_completion)
  | Err error =>
      unless_disarmed completion
        (ignore_err (emit_llm_end_without_output now_v7 utc_now gate_run contribution_json handle
           (metadata_with_otel_error (ls_metadata params) error) (ls_response_codec params)
           (Some lifecycle_subscribers))) ;!
      fail error
  | Panic => completion ;! panic
  end.

Definition run_stream_call (params : LlmStreamCallExecuteParams)
    (response_completion : option (Json → World → result unit * World)) (llm_uuid : uuid)
    (recorder : N) (intercepted : InterceptedLlmRequest) : M Wrapper :=
  let! (handle, lifecycle_subscribers, request, trace) :=
    open_llm_span now_v7 utc_now gate_run serialize contribution_json (stream_parts params)
      llm_uuid recorder intercepted in
  let completion := managed_llm_completion now_v7 utc_now gate_run contribution_json handle
    (ls_metadata params) (ls_response_codec params) lifecycle_subscribers in
  let context := for_streaming (ls_codec params) in
  λ w,
    let '(execution, w) :=
      with_active_event_trace_context (lh_uuid handle) (Some trace)
        (scope_llm_optimization_recorder (lh_recorder handle)
           (execute_stream (ls_name params) context (ls_func params) request)) w in
    finish_stream_call params response_completion handle lifecycle_subscribers completion
      execution w.

Definition llm_stream_call_execute_inner (params : LlmStreamCallExecuteParams)
    (response_completion : option (Json → World → result unit * World)) : M Wrapper :=
  ensure_runtime_owner ;!
  check_llm_call now_v7 utc_now gate_run run_conditional (stream_parts params) ;!
  let! (llm_uuid, recorder, intercepted) :=
    intercept_llm_request now_v7 utc_now gate_run serialize run_intercept (stream_parts params) in
  run_stream_call params response_completion llm_uuid recorder intercepted.

Definition llm_stream_call_execute (params : LlmStreamCallExecuteParams) : M Wrapper :=
  llm_stream_call_execute_inner params None.

(** [gateway::execute]. *)
Definition gateway_execute (params : LlmStreamCallExecuteParams)
    (completion : Json → World → result unit * World) : M Wrapper :=
  llm_stream_call_execute_inner params (Some completion).

(** ** The span of a streaming call *)

(** What the provider and the intercepts around it keep. *)
Definition stream_execution_keeps (params : LlmStreamCallExecuteParams) : Prop :=
  (∀ cb n r c, prog_preserves keeps (run_execution cb n r c))
  ∧ (∀ r w, keeps w (ls_func params r w).2).

Lemma execute_stream_keeping params n context request :
  stream_execution_keeps params → keeping (execute_stream n context (ls_func params) request).
Proof.
  intros [Hrun Hfn]. unfold execute_stream, current_scope_stack.
  repeat (apply keeping_bind; [auto with relay; apply capture_keeping|intros ?]).
  apply keeping_bind; [|auto with relay].
  intros w Hw. by apply (stream_chain_preserves keeps healthy).
Qed.

#[local] Abbreviation llm_ended := (llm_ended gate_run contribution_json).
#[local] Abbreviation response_guardrails := (guardrails_in_force gate_run
  F_llm_sanitize_response_guardrails LlmSanitizeResponseGuardrail).

(** What follows an execution that ended with [execution] in [w]: a stream is
    handed to a fresh wrapper and nothing is published yet; a failure or an
    unwind closes the span. *)
Definition stream_settled (params : LlmStreamCallExecuteParams)
    (response_completion : option (Json → World → result unit * World)) (handle : LlmHandle)
    (subscribers : list Callback) (w : World)
    (execution : outcome FlowError (LlmJsonStream Source)) (r : outcome FlowError Wrapper)
    (w' : World) : Prop :=
  match execution with
  | Ok raw_stream =>
      r = Ok (new_managed raw_stream handle (stream_collector params) (ls_finalizer params)
        (ls_metadata params) (ls_response_codec params) subscribers response_completion)
      ∧ w' = w
  | Err error =>
      let metadata := metadata_with_otel_error (ls_metadata params) error in
      r = Err error
      ∧ ∃ t s w1, ready w s ∧ calm w w1
          ∧ llm_ended handle None subscribers w1
              (State.build_llm_end_event t handle (Some Null) metadata None None (Some t))
              (LlmFailedEndTransform handle metadata (ls_response_codec params)
                 (response_guardrails w s) t) w'
  | Panic =>
      let metadata := cancelled_metadata (ls_metadata params) in
      r = Panic
      ∧ ∃ t s, ready w s
          ∧ llm_ended handle (Some "execution_cancelled") subscribers w
              (State.build_llm_end_event t handle None metadata None None None)
              (LlmCancelledEndTransform handle metadata (ls_response_codec params)
                 (Some (response_guardrails w s))) w'
  end.

Lemma finish_stream_call_ok params response_completion handle subscribers w execution :
  healthy w → lh_scope_stack handle = current w →
  let completion := managed_llm_completion now_v7 utc_now gate_run contribution_json handle
    (ls_metadata params) (ls_response_codec params) subscribers in
  let '(r, w') :=
    finish_stream_call params response_completion handle subscribers completion execution w in
  stream_settled params response_completion handle subscribers w execution r w'.
Proof.
  intros Hw Hh completion. pose proof Hw as (_ & _ & s & Hs).
  unfold finish_stream_call, stream_settled. destruct execution as [raw|error|]; [done|..].
  - destruct (failed_end_ok now_v7 utc_now gate_run contribution_json handle
      (metadata_with_otel_error (ls_metadata params) error) (ls_response_codec params) subscribers
      w s Hw Hs Hh) as (t & w1 & w' & Heq & Hc1 & Hend).
    unfold unless_disarmed, ignore_err, bind. rewrite Heq. split; [done|]. by exists t, s, w1.
  - destruct (completion_ok now_v7 utc_now gate_run contribution_json handle (ls_metadata params)
      (ls_response_codec params) subscribers w s Hw Hs Hh) as (t & w' & Heq & Hend).
    unfold completion, bind. rewrite Heq. split; [done|]. by exists t, s.
Qed.

(** The span of a streaming call: opened once, one execution under the span, on
    the intercepted request with its trace headers; or the trace context cannot
    be made, and its error is the answer. *)
Definition managed_stream_span (params : LlmStreamCallExecuteParams)
    (response_completion : option (Json → World → result unit * World)) (llm_uuid : uuid)
    (recorder : N) (intercepted : InterceptedLlmRequest) (w : World)
    (r : outcome FlowError Wrapper) (w' : World) : Prop :=
  (∃ e, r = Err e ∧ llm_untraced (stream_parts params) llm_uuid w e w')
  ∨ ∃ handle subscribers trace w1 execution w2,
      llm_opened now_v7 utc_now gate_run serialize contribution_json (stream_parts params)
        llm_uuid recorder intercepted w handle subscribers trace w1
      ∧ with_active_event_trace_context llm_uuid (Some trace)
          (scope_llm_optimization_recorder recorder
             (execute_stream (ls_name params) (for_streaming (ls_codec params)) (ls_func params)
                (inject_trace_context_value (w3c_traceparent trace) (w3c_tracestate trace)
                   (ir_request intercepted)))) w1
        = (execution, w2)
      ∧ stream_settled params response_completion handle subscribers w2 execution r w'.

Lemma run_stream_call_managed params response_completion llm_uuid recorder intercepted w :
  stream_execution_keeps params → healthy w →
  let '(r, w') := run_stream_call params response_completion llm_uuid recorder intercepted w in
  managed_stream_span params response_completion llm_uuid recorder intercepted w r w'.
Proof.
  intros Hex Hw. unfold run_stream_call, bind.
  pose proof (open_llm_span_ok now_v7 utc_now gate_run serialize contribution_json
    (stream_parts params) llm_uuid recorder intercepted w Hw) as Hop.
  destruct (open_llm_span _ _ _ _ _ _ _ _ _ w) as [[[[[handle subs] request] trace]|e|] w1];
    [|by left; exists e|done].
  destruct Hop as (Hop & -> & Hw1 & Hcur). cbv beta iota.
  pose proof Hop as (Hu & Hr & Hst & _). rewrite Hu, Hr.
  set (m := scope_llm_optimization_recorder recorder _).
  assert (keeps w1 (with_active_event_trace_context llm_uuid (Some trace) m w1).2) as Hk.
  { apply with_active_event_keeps; [done|]. by apply scope_recorder_keeping, execute_stream_keeping. }
  destruct (with_active_event_trace_context _ _ _ w1) as [execution w2] eqn:Hrun. cbn in Hk.
  assert (lh_scope_stack handle = current w2) as Hst2 by (rewrite Hst, (kp_current _ _ Hk); done).
  pose proof (finish_stream_call_ok params response_completion handle subs w2 execution
    (kp_healthy _ _ Hk Hw1) Hst2) as Hcl.
  cbv zeta in Hcl. destruct (finish_stream_call _ _ _ _ _ _ w2) as [r w'].
  right. by exists handle, subs, trace, w1, execution, w2.
Qed.

(** C12: a managed streaming call that starts hands its span to exactly one
    owner. In a healthy world, with callbacks that keep it so, the call either
    stops before the span (a guardrail, a codec, a request intercept or the W3C
    trace context of the span failed), or
    publishes one start event, the marks of the request intercepts and of their
    contributions, and runs the chain around the provider once under the span.
    A stream it gets is handed, unread, to a fresh wrapper that holds the handle
    and the subscribers and has published nothing, so that the end of the span is
    the wrapper's; without one the call itself publishes the single end event,
    with the error or as cancelled, and no stream is handed out. *)
Theorem managed_stream_handed_over params response_completion w :
  (∀ cb r w, keeps w (run_conditional cb r w).2) →
  (∀ cb n r a w, keeps w (run_intercept cb n r a w).2) →
  stream_execution_keeps params → healthy w →
  let '(r, w') := llm_stream_call_execute_inner params response_completion w in
  match (check_llm_call now_v7 utc_now gate_run run_conditional (stream_parts params) ;!
         intercept_llm_request now_v7 utc_now gate_run serialize run_intercept
           (stream_parts params)) w with
  | (Ok (llm_uuid, recorder, intercepted), w0) =>
      managed_stream_span params response_completion llm_uuid recorder intercepted w0 r w'
  | (Err e, w0) => r = Err e ∧ w' = w0
  | (Panic, w0) => r = Panic ∧ w' = w0
  end.
Proof.
  intros Hcond Hint Hex Hw. unfold llm_stream_call_execute_inner.
  rewrite (bind_ok _ _ _ _ _ (owner_ok w Hw)). unfold bind.
  destruct (check_llm_call _ _ _ _ _ w) as [[[]|e|] w1] eqn:Hcheck; [|done|done].
  pose proof (check_call_keeps now_v7 utc_now gate_run _ _ _ _ _ _ _ _ w w1
    (λ cb, Hcond cb _) Hw Hcheck) as Hw1.
  pose proof (kp_healthy _ _ (intercept_llm_keeping now_v7 utc_now gate_run serialize run_intercept
    (stream_parts params) Hint w1 Hw1)) as Hk.
  destruct (intercept_llm_request _ _ _ _ _ _ w1) as [[[[u r] i]|e|] w2]; [|done|done].
  apply run_stream_call_managed; [done|]. by apply Hk.
Qed.

End StreamApi.

(** ** A provider that streams, no middleware *)

Definition demo_stream_call : LlmStreamCallExecuteParams (Source := DefaultLlmStream (list Json))
    (Collecting := Empty_set) (Finalizing := Empty_set) := {|
  ls_name := "openai"; ls_request := demo_llm_request; ls_func := λ _ w, (Ok demo_stream, w);
  ls_collector := SyncCollector (λ _ w, (Ok (), w)); ls_borrowed_collector := None;
  ls_finalizer := SyncFinalizer (λ w, (Ok (Str "done"), w)); ls_parent := None;
  ls_attributes := 0; ls_data := None; ls_metadata := None; ls_model_name := Some "m";
  ls_codec := None; ls_response_codec := None;
|}.

Lemma managed_stream_handed_over_witness :
  ∃ u n i w0 s w', managed_stream_span (H := plain_otel) demo_now_v7 demo_utc_now demo_gate_run
    demo_serialize (λ _, None) (λ _ _ _ _, Return Panic) true demo_stream_call None u n i w0
    (Ok s) w'.
Proof.
  set (conditional := λ (_ : Callback) (_ : LlmRequest) (w : World),
    (Some (Ok (E := FlowError) (A := option string) None), w)).
  set (intercept := λ (_ : Callback) (_ : string) (r : LlmRequest)
    (a : option AnnotatedLlmRequest) (w : World),
    (Ok (E := FlowError) (Build_LlmRequestInterceptOutcome r a [] ([] : list
       LlmOptimizationContribution)), w)).
  pose proof (managed_stream_handed_over (H := plain_otel) demo_now_v7 demo_utc_now demo_gate_run
    demo_serialize (λ _, None) conditional intercept (λ _ _ _ _, Return Panic) true
    demo_stream_call None demo_world) as Hm.
  assert (∃ s, (llm_stream_call_execute_inner (H := plain_otel) demo_now_v7 demo_utc_now
    demo_gate_run demo_serialize (λ _, None) conditional intercept (λ _ _ _ _, Return Panic) true
    demo_stream_call None demo_world).1 = Ok s) as [s Hr] by (eexists; vm_compute; reflexivity).
  assert (∃ x, ((check_llm_call (H := plain_otel) demo_now_v7 demo_utc_now demo_gate_run
      conditional (stream_parts demo_stream_call) ;!
    intercept_llm_request demo_now_v7 demo_utc_now demo_gate_run demo_serialize intercept
      (stream_parts demo_stream_call)) demo_world).1 = Ok x) as [[[u n] i] Hc]
    by (eexists; vm_compute; reflexivity).
  destruct (llm_stream_call_execute_inner _ _ _ _ _ _ _ _ _ _ _ demo_world) as [r w'].
  cbn in Hr. subst r.
  destruct (bind _ _ demo_world) as [x w0]. cbn in Hc. subst x.
  exists u, n, i, w0, s, w'. apply Hm; [done|done|by split|apply demo_healthy].
Defined.
