(* ===== verification/RegistryApi.v ===== *)
(** * Registering middleware ([crates/runtime/src/api/registry.rs],
    [crates/runtime/src/api/subscriber.rs])

    Gates, global and scope-local registrations, event subscribers, and the
    discovery of what is registered.  The macros of the source that generate
    one pair of functions per registry are the [global_*] and [scope_*]
    definitions, taken at the [Field] of the registry; the generated functions
    are their instances. *)

From stdpp Require Import base gmap strings list sorting.
From S2P Require Import Prelude Text PluginNames Errors Json Registry Trace Events Registries.
From S2P Require Import ScopeStack ContextState Chains World WorldFacts.

(** ** Identities *)

Inductive RuntimeRegistrationOwnerKind : Type := Core | GlobalApi | Plugin.

Record RuntimeRegistrationOwner : Type := {
  owner_kind : RuntimeRegistrationOwnerKind;
  plugin_kind : option string;
  component_ordinal : option N;
}.

Record RuntimeRegistrationIdentity : Type := {
  ri_kind : RuntimeRegistrationKind;
  local_name : string;
  effective_name : string;
  owner : RuntimeRegistrationOwner;
}.

(** [Display for Uuid]: hyphenated lower-case hexadecimal. *)
Definition uuid_display (u : uuid) : string :=
  let group from n := hex_bytes (take n (drop from (as_bytes u))) in
  group 0 4 +:+ "-" +:+ group 4 2 +:+ "-" +:+ group 6 2 +:+ "-" +:+ group 8 2
  +:+ "-" +:+ group 10 6.

Definition scope_not_found (u : uuid) : FlowError :=
  NotFound ("scope " +:+ uuid_display u +:+ " not found").

(** ** Conditional middleware gates *)

(** [conditional_middleware_guardrails().write().map_err(..)?]; the table is
    created empty on first use. *)
Definition write_gates : M (gmap string ConditionalMiddlewareGuardrail) := λ w,
  if gates_poisoned (w_gates w) then (Err poison_error, w) else (Ok (gates (w_gates w)), w).

Definition put_gates (m : gmap string ConditionalMiddlewareGuardrail) : M unit :=
  modify (λ w, set_gates {| gates := m; gates_poisoned := gates_poisoned (w_gates w) |} w).

Definition register_conditional_middleware_guardrail (n : string)
    (ks : list RuntimeRegistrationKind) (reg_name : string) (guardrail : Callback) : M unit :=
  ensure_runtime_owner ;!
  if bool_decide (ks = []) then
    fail (InvalidArgument "conditional middleware guardrail kinds must not be empty")
  else
    let! table := write_gates in
    if bool_decide (is_Some (table !! n)) then
      fail (AlreadyExists (n +:+ " conditional middleware guardrail already exists"))
    else
      put_gates (<[n := {| kinds := ks; registration_name := reg_name;
                           gate_callback := guardrail |}]> table).

Definition deregister_conditional_middleware_guardrail (n : string) : M bool :=
  ensure_runtime_owner ;!
  let! table := write_gates in
  put_gates (delete n table) ;!
  ret (bool_decide (is_Some (table !! n))).

(** ** Discovery *)

Definition registration_identity (kind : RuntimeRegistrationKind) (n : string) :
    RuntimeRegistrationIdentity :=
  match decode_plugin_component_effective_name n with
  | None =>
      {| ri_kind := kind; local_name := n; effective_name := n;
         owner := {| owner_kind := GlobalApi; plugin_kind := None; component_ordinal := None |} |}
  | Some (pk, ordinal, local) =>
      {| ri_kind := kind; local_name := local; effective_name := n;
         owner := {| owner_kind := Plugin; plugin_kind := Some pk;
                     component_ordinal := Some ordinal |} |}
  end.

(** One arm of the [match kind] of [runtime_registration_presence]. *)
Definition kind_present (r : ScopeLocalRegistries) (kind : RuntimeRegistrationKind) : bool :=
  match kind with
  | Subscriber => negb (bool_decide (event_subscribers r = ∅))
  | EventMetadataInjector => negb (Registry.is_empty (event_metadata_injectors r))
  | MarkSanitizeGuardrail => negb (Registry.is_empty (mark_sanitize_guardrails r))
  | ScopeSanitizeStartGuardrail => negb (Registry.is_empty (scope_sanitize_start_guardrails r))
  | ScopeSanitizeEndGuardrail => negb (Registry.is_empty (scope_sanitize_end_guardrails r))
  | ToolSanitizeRequestGuardrail => negb (Registry.is_empty (tool_sanitize_request_guardrails r))
  | ToolSanitizeResponseGuardrail =>
      negb (Registry.is_empty (tool_sanitize_response_guardrails r))
  | ToolConditionalExecutionGuardrail =>
      negb (Registry.is_empty (tool_conditional_execution_guardrails r))
  | ToolRequestIntercept => negb (Registry.is_empty (tool_request_intercepts r))
  | ToolExecutionIntercept => negb (Registry.is_empty (tool_execution_intercepts r))
  | LlmSanitizeRequestGuardrail => negb (Registry.is_empty (llm_sanitize_request_guardrails r))
  | LlmSanitizeResponseGuardrail => negb (Registry.is_empty (llm_sanitize_response_guardrails r))
  | LlmConditionalExecutionGuardrail =>
      negb (Registry.is_empty (llm_conditional_execution_guardrails r))
  | LlmRequestIntercept => negb (Registry.is_empty (llm_request_intercepts r))
  | LlmExecutionIntercept => negb (Registry.is_empty (llm_execution_intercepts r))
  | LlmStreamExecutionIntercept => negb (Registry.is_empty (llm_stream_execution_intercepts r))
  end.

Definition runtime_registration_presence (ks : list RuntimeRegistrationKind) : M (list bool) :=
  ensure_runtime_owner ;!
  let! state := read_global in
  ret (kind_present (regs state) <$> ks).

(** The names one [collect_registry!] lists, in the map's iteration order. *)
Definition registered_names (r : ScopeLocalRegistries) (kind : RuntimeRegistrationKind) :
    list string :=
  let values {P} (reg : SortedRegistry (RegistryRecord P)) := name <$> Registry.values reg in
  match kind with
  | Subscriber => (map_to_list (event_subscribers r)).*1
  | EventMetadataInjector => values (event_metadata_injectors r)
  | MarkSanitizeGuardrail => values (mark_sanitize_guardrails r)
  | ScopeSanitizeStartGuardrail => values (scope_sanitize_start_guardrails r)
  | ScopeSanitizeEndGuardrail => values (scope_sanitize_end_guardrails r)
  | ToolSanitizeRequestGuardrail => values (tool_sanitize_request_guardrails r)
  | ToolSanitizeResponseGuardrail => values (tool_sanitize_response_guardrails r)
  | ToolConditionalExecutionGuardrail => values (tool_conditional_execution_guardrails r)
  | ToolRequestIntercept => values (tool_request_intercepts r)
  | ToolExecutionIntercept => values (tool_execution_intercepts r)
  | LlmSanitizeRequestGuardrail => values (llm_sanitize_request_guardrails r)
  | LlmSanitizeResponseGuardrail => values (llm_sanitize_response_guardrails r)
  | LlmConditionalExecutionGuardrail => values (llm_conditional_execution_guardrails r)
  | LlmRequestIntercept => values (llm_request_intercepts r)
  | LlmExecutionIntercept => values (llm_execution_intercepts r)
  | LlmStreamExecutionIntercept => values (llm_stream_execution_intercepts r)
  end.

Definition all_kinds : list RuntimeRegistrationKind :=
  [Subscriber; EventMetadataInjector; MarkSanitizeGuardrail; ScopeSanitizeStartGuardrail;
   ScopeSanitizeEndGuardrail; ToolSanitizeRequestGuardrail; ToolSanitizeResponseGuardrail;
   ToolConditionalExecutionGuardrail; ToolRequestIntercept; ToolExecutionIntercept;
   LlmSanitizeRequestGuardrail; LlmSanitizeResponseGuardrail; LlmConditionalExecutionGuardrail;
   LlmRequestIntercept; LlmExecutionIntercept; LlmStreamExecutionIntercept].

(** [kinds.is_none_or(|selected| selected.contains(..))]. *)
Definition selected (ks : option (list RuntimeRegistrationKind))
    (kind : RuntimeRegistrationKind) : bool :=
  match ks with
  | None => true
  | Some ks => bool_decide (kind ∈ ks)
  end.

(** The comparison of the final sort. *)
Definition identity_le (i1 i2 : RuntimeRegistrationIdentity) : Prop :=
  kind_index (ri_kind i1) < kind_index (ri_kind i2)
  ∨ kind_index (ri_kind i1) = kind_index (ri_kind i2)
    ∧ String.le (effective_name i1) (effective_name i2).

#[global] Instance identity_le_dec : RelDecision identity_le.
Proof. intros ? ?. unfold identity_le. apply _. Defined.

Definition list_runtime_registrations (ks : option (list RuntimeRegistrationKind)) :
    M (list RuntimeRegistrationIdentity) :=
  ensure_runtime_owner ;!
  let! state := read_global in
  ret (stable_sort identity_le
    (concat ((λ kind, if selected ks kind
                      then registration_identity kind <$> registered_names (regs state) kind
                      else []) <$> all_kinds))).

(** [.map_err(FlowError::AlreadyExists)]. *)
Definition already_exists (res : outcome string unit) : outcome FlowError unit :=
  match res with
  | Ok x => Ok x
  | Err message => Err (AlreadyExists message)
  | Panic => Panic
  end.

(** ** Global and scope-local registrations *)

Section Field.
Context {P : Type} (f : Field P).

(** [state.$field.register(record).map_err(FlowError::AlreadyExists)]. *)
Definition global_register (record : RegistryRecord P) : M unit :=
  ensure_runtime_owner ;!
  let! state := read_global in
  let '(res, reg) := Registry.register record (field_get f (regs state)) in
  modify (set_global (State.set_regs (field_set f reg (regs state)) state)) ;!
  of_result (already_exists res).

Definition global_deregister (n : string) : M bool :=
  ensure_runtime_owner ;!
  let! state := read_global in
  let '(removed, reg) := Registry.deregister n (field_get f (regs state)) in
  modify (set_global (State.set_regs (field_set f reg (regs state)) state)) ;!
  ret removed.

(** The write lock is taken with [expect]. *)
Definition scope_registries_mut {X} (u : uuid)
    (g : ScopeLocalRegistries → X * ScopeLocalRegistries) : M X :=
  let! h := current_scope_stack in
  let! s := read_stack_expect h in
  let '(res, s') := Stack.local_registries_mut u g s in
  write_stack h s' ;!
  match res with
  | Some x => ret x
  | None => fail (scope_not_found u)
  end.

Definition scope_register (u : uuid) (record : RegistryRecord P) : M unit :=
  ensure_runtime_owner ;!
  let! res := scope_registries_mut u (λ r,
    let '(res, reg) := Registry.register record (field_get f r) in (res, field_set f reg r)) in
  of_result (already_exists res).

Definition scope_deregister (u : uuid) (n : string) : M bool :=
  ensure_runtime_owner ;!
  scope_registries_mut u (λ r,
    let '(removed, reg) := Registry.deregister n (field_get f r) in (removed, field_set f reg r)).

End Field.

(** *** What the macros generate *)

Definition global_guardrail_register (f : Field Callback) (n : string) (prio : Z)
    (guardrail : Callback) : M unit :=
  global_register f (Build_RegistryRecord n prio guardrail).

Definition global_execution_register (f : Field Callback) (n : string) (prio : Z)
    (call : Callback) : M unit :=
  global_register f (Build_RegistryRecord n prio call).

Definition global_intercept_register (f : Field (RequestIntercept Callback)) (n : string)
    (prio : Z) (break : bool) (call : Callback) : M unit :=
  global_register f (Build_RegistryRecord n prio (Build_RequestIntercept break call)).

Definition scope_guardrail_register (f : Field Callback) (u : uuid) (n : string) (prio : Z)
    (guardrail : Callback) : M unit :=
  scope_register f u (Build_RegistryRecord n prio guardrail).

Definition scope_execution_register (f : Field Callback) (u : uuid) (n : string) (prio : Z)
    (call : Callback) : M unit :=
  scope_register f u (Build_RegistryRecord n prio call).

Definition scope_intercept_register (f : Field (RequestIntercept Callback)) (u : uuid)
    (n : string) (prio : Z) (break : bool) (call : Callback) : M unit :=
  scope_register f u (Build_RegistryRecord n prio (Build_RequestIntercept break call)).

Definition register_mark_sanitize_guardrail := global_guardrail_register F_mark_sanitize_guardrails.
Definition deregister_mark_sanitize_guardrail := global_deregister F_mark_sanitize_guardrails.
Definition register_event_metadata_injector := global_guardrail_register F_event_metadata_injectors.
Definition deregister_event_metadata_injector := global_deregister F_event_metadata_injectors.
Definition register_scope_sanitize_start_guardrail := global_guardrail_register F_scope_sanitize_start_guardrails.
Definition deregister_scope_sanitize_start_guardrail := global_deregister F_scope_sanitize_start_guardrails.
Definition register_scope_sanitize_end_guardrail := global_guardrail_register F_scope_sanitize_end_guardrails.
Definition deregister_scope_sanitize_end_guardrail := global_deregister F_scope_sanitize_end_guardrails.
Definition register_tool_sanitize_request_guardrail := global_guardrail_register F_tool_sanitize_request_guardrails.
Definition deregister_tool_sanitize_request_guardrail := global_deregister F_tool_sanitize_request_guardrails.
Definition register_tool_sanitize_response_guardrail := global_guardrail_register F_tool_sanitize_response_guardrails.
Definition deregister_tool_sanitize_response_guardrail := global_deregister F_tool_sanitize_response_guardrails.
Definition register_tool_conditional_execution_guardrail := global_guardrail_register F_tool_conditional_execution_guardrails.
Definition deregister_tool_conditional_execution_guardrail := global_deregister F_tool_conditional_execution_guardrails.
Definition register_tool_request_intercept := global_intercept_register F_tool_request_intercepts.
Definition deregister_tool_request_intercept := global_deregister F_tool_request_intercepts.
Definition register_tool_execution_intercept := global_execution_register F_tool_execution_intercepts.
Definition deregister_tool_execution_intercept := global_deregister F_tool_execution_intercepts.
Definition register_llm_sanitize_request_guardrail := global_guardrail_register F_llm_sanitize_request_guardrails.
Definition deregister_llm_sanitize_request_guardrail := global_deregister F_llm_sanitize_request_guardrails.
Definition register_llm_sanitize_response_guardrail := global_guardrail_register F_llm_sanitize_response_guardrails.
Definition deregister_llm_sanitize_response_guardrail := global_deregister F_llm_sanitize_response_guardrails.
Definition register_llm_conditional_execution_guardrail := global_guardrail_register F_llm_conditional_execution_guardrails.
Definition deregister_llm_conditional_execution_guardrail := global_deregister F_llm_conditional_execution_guardrails.
Definition register_llm_request_intercept := global_intercept_register F_llm_request_intercepts.
Definition deregister_llm_request_intercept := global_deregister F_llm_request_intercepts.
Definition register_llm_execution_intercept := global_execution_register F_llm_execution_intercepts.
Definition deregister_llm_execution_intercept := global_deregister F_llm_execution_intercepts.
Definition register_llm_stream_execution_intercept := global_execution_register F_llm_stream_execution_intercepts.
Definition deregister_llm_stream_execution_intercept := global_deregister F_llm_stream_execution_intercepts.

Definition scope_register_mark_sanitize_guardrail := scope_guardrail_register F_mark_sanitize_guardrails.
Definition scope_deregister_mark_sanitize_guardrail := scope_deregister F_mark_sanitize_guardrails.
Definition scope_register_event_metadata_injector := scope_guardrail_register F_event_metadata_injectors.
Definition scope_deregister_event_metadata_injector := scope_deregister F_event_metadata_injectors.
Definition scope_register_scope_sanitize_start_guardrail := scope_guardrail_register F_scope_sanitize_start_guardrails.
Definition scope_deregister_scope_sanitize_start_guardrail := scope_deregister F_scope_sanitize_start_guardrails.
Definition scope_register_scope_sanitize_end_guardrail := scope_guardrail_register F_scope_sanitize_end_guardrails.
Definition scope_deregister_scope_sanitize_end_guardrail := scope_deregister F_scope_sanitize_end_guardrails.
Definition scope_register_tool_sanitize_request_guardrail := scope_guardrail_register F_tool_sanitize_request_guardrails.
Definition scope_deregister_tool_sanitize_request_guardrail := scope_deregister F_tool_sanitize_request_guardrails.
Definition scope_register_tool_sanitize_response_guardrail := scope_guardrail_register F_tool_sanitize_response_guardrails.
Definition scope_deregister_tool_sanitize_response_guardrail := scope_deregister F_tool_sanitize_response_guardrails.
Definition scope_register_tool_conditional_execution_guardrail := scope_guardrail_register F_tool_conditional_execution_guardrails.
Definition scope_deregister_tool_conditional_execution_guardrail := scope_deregister F_tool_conditional_execution_guardrails.
Definition scope_register_tool_request_intercept := scope_intercept_register F_tool_request_intercepts.
Definition scope_deregister_tool_request_intercept := scope_deregister F_tool_request_intercepts.
Definition scope_register_tool_execution_intercept := scope_execution_register F_tool_execution_intercepts.
Definition scope_deregister_tool_execution_intercept := scope_deregister F_tool_execution_intercepts.
Definition scope_register_llm_sanitize_request_guardrail := scope_guardrail_register F_llm_sanitize_request_guardrails.
Definition scope_deregister_llm_sanitize_request_guardrail := scope_deregister F_llm_sanitize_request_guardrails.
Definition scope_register_llm_sanitize_response_guardrail := scope_guardrail_register F_llm_sanitize_response_guardrails.
Definition scope_deregister_llm_sanitize_response_guardrail := scope_deregister F_llm_sanitize_response_guardrails.
Definition scope_register_llm_conditional_execution_guardrail := scope_guardrail_register F_llm_conditional_execution_guardrails.
Definition scope_deregister_llm_conditional_execution_guardrail := scope_deregister F_llm_conditional_execution_guardrails.
Definition scope_register_llm_request_intercept := scope_intercept_register F_llm_request_intercepts.
Definition scope_deregister_llm_request_intercept := scope_deregister F_llm_request_intercepts.
Definition scope_register_llm_execution_intercept := scope_execution_register F_llm_execution_intercepts.
Definition scope_deregister_llm_execution_intercept := scope_deregister F_llm_execution_intercepts.
Definition scope_register_llm_stream_execution_intercept := scope_execution_register F_llm_stream_execution_intercepts.
Definition scope_deregister_llm_stream_execution_intercept := scope_deregister F_llm_stream_execution_intercepts.

(** ** Event subscribers ([subscriber.rs]) *)

Definition subscriber_exists (n : string) : FlowError :=
  AlreadyExists (n +:+ " subscriber already exists").

Definition register_subscriber (n : string) (callback : Callback) : M unit :=
  ensure_runtime_owner ;!
  let! state := read_global in
  if bool_decide (is_Some (event_subscribers (regs state) !! n)) then fail (subscriber_exists n)
  else
    modify (set_global (State.set_regs
      (set_event_subscribers (<[n := callback]> (event_subscribers (regs state)))
         (regs state)) state)).

Definition deregister_subscriber (n : string) : M bool :=
  ensure_runtime_owner ;!
  let! state := read_global in
  modify (set_global (State.set_regs
    (set_event_subscribers (delete n (event_subscribers (regs state))) (regs state)) state)) ;!
  ret (bool_decide (is_Some (event_subscribers (regs state) !! n))).

Definition scope_register_subscriber (u : uuid) (n : string) (callback : Callback) : M unit :=
  ensure_runtime_owner ;!
  let! res := scope_registries_mut u (λ r,
    if bool_decide (is_Some (event_subscribers r !! n)) then (Err (subscriber_exists n), r)
    else (Ok (), set_event_subscribers (<[n := callback]> (event_subscribers r)) r)) in
  of_result res.

Definition scope_deregister_subscriber (u : uuid) (n : string) : M bool :=
  ensure_runtime_owner ;!
  scope_registries_mut u (λ r,
    (bool_decide (is_Some (event_subscribers r !! n)),
     set_event_subscribers (delete n (event_subscribers r)) r)).

(** A part of the registries is well formed. *)
Definition part_wf (p : State.Part) : Prop :=
  match p with
  | State.PGuardrails r => Registry.wf r
  | State.PIntercepts r => Registry.wf r
  | State.PSubscribers _ => True
  end.

(** ** What a registration touches

    [FieldOf f k] is what the registration functions rely on: [f] is the
    registry of kind [k], and writing it leaves the other kinds alone. *)
Class FieldOf {P : Type} (f : Field P) (k : RuntimeRegistrationKind) : Prop := {
  field_get_set : ∀ x r, field_get f (field_set f x r) = x;
  field_set_get : ∀ r, field_set f (field_get f r) r = r;
  field_set_other : ∀ x r k', k' ≠ k → State.part k' (field_set f x r) = State.part k' r;
  field_wf : ∀ r, part_wf (State.part k r) ↔ Registry.wf (field_get f r);
  field_names : ∀ r, registered_names r k = name <$> Registry.values (field_get f r);
}.

Ltac solve_field := split; [by intros ? []|by intros []|by intros ? [] []|done|done].

#[global] Instance field_event_metadata_injectors :
  FieldOf F_event_metadata_injectors EventMetadataInjector.
Proof. solve_field. Qed.
#[global] Instance field_mark_sanitize_guardrails :
  FieldOf F_mark_sanitize_guardrails MarkSanitizeGuardrail.
Proof. solve_field. Qed.
#[global] Instance field_scope_sanitize_start_guardrails :
  FieldOf F_scope_sanitize_start_guardrails ScopeSanitizeStartGuardrail.
Proof. solve_field. Qed.
#[global] Instance field_scope_sanitize_end_guardrails :
  FieldOf F_scope_sanitize_end_guardrails ScopeSanitizeEndGuardrail.
Proof. solve_field. Qed.
#[global] Instance field_tool_sanitize_request_guardrails :
  FieldOf F_tool_sanitize_request_guardrails ToolSanitizeRequestGuardrail.
Proof. solve_field. Qed.
#[global] Instance field_tool_sanitize_response_guardrails :
  FieldOf F_tool_sanitize_response_guardrails ToolSanitizeResponseGuardrail.
Proof. solve_field. Qed.
#[global] Instance field_tool_conditional_execution_guardrails :
  FieldOf F_tool_conditional_execution_guardrails ToolConditionalExecutionGuardrail.
Proof. solve_field. Qed.
#[global] Instance field_tool_request_intercepts :
  FieldOf F_tool_request_intercepts ToolRequestIntercept.
Proof. solve_field. Qed.
#[global] Instance field_tool_execution_intercepts :
  FieldOf F_tool_execution_intercepts ToolExecutionIntercept.
Proof. solve_field. Qed.
#[global] Instance field_llm_sanitize_request_guardrails :
  FieldOf F_llm_sanitize_request_guardrails LlmSanitizeRequestGuardrail.
Proof. solve_field. Qed.
#[global] Instance field_llm_sanitize_response_guardrails :
  FieldOf F_llm_sanitize_response_guardrails LlmSanitizeResponseGuardrail.
Proof. solve_field. Qed.
#[global] Instance field_llm_conditional_execution_guardrails :
  FieldOf F_llm_conditional_execution_guardrails LlmConditionalExecutionGuardrail.
Proof. solve_field. Qed.
#[global] Instance field_llm_request_intercepts :
  FieldOf F_llm_request_intercepts LlmRequestIntercept.
Proof. solve_field. Qed.
#[global] Instance field_llm_execution_intercepts :
  FieldOf F_llm_execution_intercepts LlmExecutionIntercept.
Proof. solve_field. Qed.
#[global] Instance field_llm_stream_execution_intercepts :
  FieldOf F_llm_stream_execution_intercepts LlmStreamExecutionIntercept.
Proof. solve_field. Qed.

Definition registries_wf (r : ScopeLocalRegistries) : Prop := ∀ k, part_wf (State.part k r).

Lemma new_registries_wf : registries_wf new_registries.
Proof. by intros []. Qed.

Lemma registered_names_NoDup r k : registries_wf r → NoDup (registered_names r k).
Proof.
  intros Hwf. specialize (Hwf k).
  destruct k; cbn in *; try (by apply (Registry.values_names_NoDup _ Hwf)).
  apply NoDup_fst_map_to_list.
Qed.

Lemma kind_present_names r k : kind_present r k = true ↔ registered_names r k ≠ [].
Proof.
  assert (∀ P (reg : SortedRegistry (RegistryRecord P)),
    negb (Registry.is_empty reg) = true ↔ (name <$> Registry.values reg) ≠ []) as Hreg.
  { intros P reg. rewrite Registry.is_empty_contents, negb_true_iff, bool_decide_eq_false.
    unfold Registry.values, Registry.contents. destruct (Registry.storage reg) as [st|]; [|done].
    split; intros Hne Heq; apply Hne.
    - apply fmap_nil_inv, fmap_nil_inv, map_to_list_empty_iff in Heq. done.
    - by rewrite Heq, map_to_list_empty. }
  destruct k; try apply Hreg. cbn. rewrite negb_true_iff, bool_decide_eq_false.
  split; intros Hne Heq; apply Hne.
  - by apply fmap_nil_inv, map_to_list_empty_iff in Heq.
  - by rewrite Heq, map_to_list_empty.
Qed.

(** ** Listing *)

#[global] Instance identity_le_total : Total identity_le.
Proof.
  intros i1 i2. unfold identity_le.
  destruct (lt_eq_lt_dec (kind_index (ri_kind i1)) (kind_index (ri_kind i2))) as [[Hlt|Heq]|Hgt];
    [by auto| |by auto].
  destruct (total String.le (effective_name i1) (effective_name i2)); auto.
Qed.

#[global] Instance identity_le_trans : Transitive identity_le.
Proof.
  intros i1 i2 i3 [H12|[H12 N12]] [H23|[H23 N23]]; unfold identity_le; [left; lia..|].
  right. split; [lia|]. by etrans.
Qed.

Lemma identity_fields k n :
  ri_kind (registration_identity k n) = k ∧ effective_name (registration_identity k n) = n.
Proof.
  unfold registration_identity.
  by destruct (decode_plugin_component_effective_name n) as [[[? ?] ?]|].
Qed.

Lemma elem_of_all_kinds k : k ∈ all_kinds.
Proof. apply (bool_decide_unpack _). by destruct k. Qed.

Definition listed (ks : option (list RuntimeRegistrationKind)) (r : ScopeLocalRegistries)
    (k : RuntimeRegistrationKind) : list RuntimeRegistrationIdentity :=
  if selected ks k then registration_identity k <$> registered_names r k else [].

Lemma elem_of_listed ks r k i :
  i ∈ listed ks r k
  ↔ selected ks k = true ∧ ri_kind i = k ∧ effective_name i ∈ registered_names r k
    ∧ i = registration_identity k (effective_name i).
Proof.
  unfold listed. destruct (selected ks k); [|split; [by intros ?%elem_of_nil|by intros []]].
  rewrite list_elem_of_fmap. split.
  - intros (n & -> & Hn). destruct (identity_fields k n) as [-> ->]. done.
  - intros (_ & _ & Hn & Hi). eauto.
Qed.

Definition identity_key (i : RuntimeRegistrationIdentity) : RuntimeRegistrationKind * string :=
  (ri_kind i, effective_name i).

Lemma listed_keys_NoDup ks r kinds :
  registries_wf r → NoDup kinds → NoDup (identity_key <$> concat (listed ks r <$> kinds)).
Proof.
  intros Hwf. induction 1 as [|k kinds Hk Hnd IH]; cbn; [constructor|].
  rewrite fmap_app. apply NoDup_app. split_and!; [| |done].
  - unfold listed. destruct (selected ks k); [|constructor].
    rewrite <-list_fmap_compose.
    rewrite (list_fmap_ext _ (λ n, (k, n))).
    + apply NoDup_fmap_2; [by intros ?? [=]|by apply registered_names_NoDup].
    + intros _ n _. unfold compose, identity_key. by destruct (identity_fields k n) as [-> ->].
  - intros key (i & -> & Hi)%list_elem_of_fmap (i' & Hkey & Hi')%list_elem_of_fmap.
    apply elem_of_listed in Hi as (_ & Hki & _).
    apply list_elem_of_In, in_concat in Hi' as (l & Hl & Hi').
    apply list_elem_of_In, list_elem_of_fmap in Hl as (k' & -> & Hk').
    apply list_elem_of_In, elem_of_listed in Hi' as (_ & Hki' & _).
    apply Hk. injection Hkey as Hkey _. congruence.
Qed.

(** ** Effects *)

Lemma set_global_same w : set_global (w_global w) w = w.
Proof. by destruct w. Qed.

Lemma set_heap_same w h s : w_heap w !! h = Some s → set_heap (<[h := s]> (w_heap w)) w = w.
Proof. intros Hs. rewrite insert_id by done. by destruct w. Qed.

Lemma set_regs_same st : State.set_regs (regs st) st = st.
Proof. by destruct st. Qed.

Section Effects.
Context {P : Type} (f : Field P) (k : RuntimeRegistrationKind) `{!FieldOf f k}.

Lemma register_result (record : RegistryRecord P) reg :
  Registry.register record reg
  = match Registry.contents reg !! name record with
    | Some _ => (Err (name record +:+ " already exists"), reg)
    | None => (Ok (), (Registry.register record reg).2)
    end.
Proof.
  destruct (Registry.contents reg !! name record) as [e|] eqn:He.
  - pose proof (Registry.register_taken record reg e) as Ht. exact (Ht He).
  - pose proof (Registry.register_free record reg) as Hf. destruct (Hf He) as [Hok _].
    destruct (Registry.register record reg) as [res reg']. by cbn in *; subst.
Qed.

Lemma scope_registries_mut_missing {X} u (g : ScopeLocalRegistries → X * _) w s :
  ready w s → u ∉ Stack.uuids s → scope_registries_mut u g w = (Err (scope_not_found u), w).
Proof.
  intros Hr Hu. unfold scope_registries_mut, current_scope_stack. rewrite bind_gets.
  mstep (proj1 (proj2 (read_stack_ready w s Hr))).
  unfold Stack.local_registries_mut.
  destruct (existsb (has_uuid u) (stack s)) eqn:Hex.
  { exfalso. by apply Hu, Stack.existsb_uuid. }
  cbn [negb]. unfold bind, write_stack, modify. fold (current w).
  by rewrite (set_heap_same w _ s (rd_stack _ _ Hr)).
Qed.

Lemma scope_registries_mut_found {X} u (g : ScopeLocalRegistries → X * _) w s :
  ready w s → u ∈ Stack.uuids s →
  let r := default new_registries (scope_registries s !! u) in
  let s' := Stack.set_parts (stack s) (<[u := (g r).2]> (scope_registries s))
    (fresh_agents s) s in
  scope_registries_mut u g w
  = (Ok (g r).1, set_heap (<[current w := s']> (w_heap w)) w) ∧ Stack.wf s'.
Proof.
  intros Hr Hu r s'. unfold scope_registries_mut, current_scope_stack. rewrite bind_gets.
  mstep (proj1 (proj2 (read_stack_ready w s Hr))).
  assert (Stack.local_registries_mut u g s = (Some (g r).1, s')) as Heq.
  { unfold Stack.local_registries_mut.
    rewrite (proj2 (Stack.existsb_uuid u s)) by done. cbn [negb]. fold r.
    subst s'. by destruct (g r). }
  rewrite Heq. split; [by destruct w|].
  pose proof (Stack.local_registries_mut_wf u g s (rd_wf _ _ Hr)) as Hwf.
  by rewrite Heq in Hwf.
Qed.

Definition field_of (w : World) : SortedRegistry (RegistryRecord P) :=
  field_get f (regs (w_global w)).

Definition put_field (reg : SortedRegistry (RegistryRecord P)) (w : World) : World :=
  set_global (State.set_regs (field_set f reg (regs (w_global w))) (w_global w)) w.

Lemma put_field_regs reg w : regs (w_global (put_field reg w)) = field_set f reg (regs (w_global w)).
Proof. by destruct w. Qed.

Lemma put_field_same w : put_field (field_of w) w = w.
Proof.
  unfold put_field, field_of. by rewrite field_set_get, set_regs_same, set_global_same.
Qed.

Lemma global_register_result record w :
  w_owner w = Ok () → w_global_poisoned w = false →
  global_register f record w
  = (already_exists (Registry.register record (field_of w)).1,
     put_field (Registry.register record (field_of w)).2 w).
Proof.
  intros Ho Hg. unfold global_register, ensure_runtime_owner. unfold bind at 1. rewrite Ho.
  mstep (read_global_ok w Hg). fold (field_of w). by destruct (Registry.register record _).
Qed.

Lemma global_deregister_result n w :
  w_owner w = Ok () → w_global_poisoned w = false →
  global_deregister f n w
  = (Ok (Registry.deregister n (field_of w)).1,
     put_field (Registry.deregister n (field_of w)).2 w).
Proof.
  intros Ho Hg. unfold global_deregister, ensure_runtime_owner. unfold bind at 1. rewrite Ho.
  mstep (read_global_ok w Hg). fold (field_of w). by destruct (Registry.deregister n _).
Qed.

Lemma put_field_wf reg w :
  registries_wf (regs (w_global w)) → Registry.wf reg →
  registries_wf (regs (w_global (put_field reg w))).
Proof.
  intros Hwf Hreg k'. rewrite put_field_regs. destruct (decide (k' = k)) as [->|Hne].
  - apply (field_wf (f := f)). by rewrite field_get_set.
  - rewrite (field_set_other (f := f)) by done. apply Hwf.
Qed.

End Effects.

(** Closing a scope forgets whatever was registered on it. *)
Lemma remove_forgets u s h r :
  (Stack.remove u s).1 = Ok h →
  Stack.remove u (Stack.set_parts (stack s) (<[u := r]> (scope_registries s))
    (fresh_agents s) s) = Stack.remove u s.
Proof.
  unfold Stack.remove. cbn. destruct (rev (stack s)) as [|top below]; [done|].
  destruct (has_uuid u top); [|by destruct (existsb _ _)].
  destruct (_ =? _)%nat; [done|]. intros _. cbn. unfold Stack.set_parts. cbn.
  by rewrite delete_insert_eq.
Qed.

(** ** Properties *)

(** C31: a scope-local registration lives and dies with its scope.  On an
    unknown scope the call is [NotFound] with no effect; otherwise a taken
    name is [AlreadyExists] and a free one is added to that registry of that
    scope only: the scopes themselves, every other scope's registries, every
    other kind, the global state and the queue stay as they are, and closing
    the scope gives the stack it would have given without the call. *)
Theorem scope_registration_lifetime {P : Type} (f : Field P) k `{!FieldOf f k} u
    (record : RegistryRecord P) w s :
  ready w s → w_owner w = Ok () →
  if bool_decide (u ∈ Stack.uuids s) then
    ∃ w' s', ready w' s' ∧ api_frame w w' ∧ w_queue w' = w_queue w
      ∧ stack s' = stack s
      ∧ (∀ v, v ≠ u → scope_registries s' !! v = scope_registries s !! v)
      ∧ (∀ h, (Stack.remove u s).1 = Ok h → Stack.remove u s' = Stack.remove u s)
      ∧ let r := default new_registries (scope_registries s !! u) in
        let r' := default new_registries (scope_registries s' !! u) in
        (∀ k', k' ≠ k → State.part k' r' = State.part k' r)
        ∧ match Registry.contents (field_get f r) !! name record with
          | Some _ =>
              scope_register f u record w
              = (Err (AlreadyExists (name record +:+ " already exists")), w') ∧ r' = r
          | None =>
              scope_register f u record w = (Ok (), w')
              ∧ Registry.contents (field_get f r')
                = <[name record := record]> (Registry.contents (field_get f r))
          end
  else scope_register f u record w = (Err (scope_not_found u), w).
Proof.
  intros Hr Ho. case_bool_decide as Hu.
  - set (g := λ r, let '(res, reg) := Registry.register record (field_get f r) in
      (res, field_set f reg r)).
    destruct (scope_registries_mut_found u g w s Hr Hu) as [Hm Hwf].
    set (r := default new_registries (scope_registries s !! u)) in *.
    set (s' := Stack.set_parts _ _ _ _) in *.
    exists (set_heap (<[current w := s']> (w_heap w)) w), s'.
    split; [by apply (ready_set_stack _ _ s)|]. split; [apply set_stack_api|].
    split; [by destruct w|]. split; [done|]. split.
    { intros v Hv. cbn. by rewrite lookup_insert_ne. }
    split. { intros h Hh. by apply (remove_forgets u s h). }
    assert (scope_register f u record w
      = (already_exists (g r).1, set_heap (<[current w := s']> (w_heap w)) w)) as ->.
    { unfold scope_register, ensure_runtime_owner. unfold bind at 1. rewrite Ho.
      fold g. by mstep Hm. }
    pose proof (Registry.register_free record (field_get f r)) as Hfree.
    change (entry_name record) with (name record) in Hfree.
    cbn. rewrite lookup_insert_eq. cbn. unfold g.
    rewrite (register_result record (field_get f r)).
    destruct (Registry.contents (field_get f r) !! name record) eqn:Hc; cbn.
    + by rewrite field_set_get.
    + split; [intros k' Hk'; by apply field_set_other|]. split; [done|].
      rewrite field_get_set. by apply Hfree.
  - unfold scope_register, ensure_runtime_owner. unfold bind at 1. rewrite Ho.
    by apply bind_err, (scope_registries_mut_missing _ _ _ s).
Qed.

(** Discovery lists exactly what is registered: one identity per
    registered name of a selected kind, decoded from its name, without
    duplicates, sorted by kind and then by name, so independent of the hash
    maps' iteration order; a kind is reported present iff the listing of it
    is not empty, and neither call changes anything. *)
Theorem listing_exact ks w :
  w_owner w = Ok () → w_global_poisoned w = false → registries_wf (regs (w_global w)) →
  ∃ l, list_runtime_registrations ks w = (Ok l, w)
    ∧ StronglySorted identity_le l ∧ NoDup (identity_key <$> l)
    ∧ (∀ i, i ∈ l ↔ selected ks (ri_kind i) = true
         ∧ effective_name i ∈ registered_names (regs (w_global w)) (ri_kind i)
         ∧ i = registration_identity (ri_kind i) (effective_name i))
    ∧ ∀ k, runtime_registration_presence [k] w
        = (Ok [negb (bool_decide (registered_names (regs (w_global w)) k = []))], w).
Proof.
  intros Ho Hg Hwf. eexists. split.
  { unfold list_runtime_registrations, ensure_runtime_owner. unfold bind at 1. rewrite Ho.
    by mstep (read_global_ok w Hg). }
  fold (listed ks (regs (w_global w))). split_and!.
  - apply stable_sort_StronglySorted; apply _.
  - rewrite stable_sort_Permutation. apply listed_keys_NoDup; [done|].
    apply (bool_decide_unpack _). vm_compute. exact I.
  - intros i. rewrite elem_of_stable_sort, list_elem_of_In, in_concat. split.
    + intros (l & Hl & Hi). apply list_elem_of_In, list_elem_of_fmap in Hl as (k & -> & _).
      apply list_elem_of_In, elem_of_listed in Hi as (Hs & <- & Hn & Hi). done.
    + intros (Hs & Hn & Hi). exists (listed ks (regs (w_global w)) (ri_kind i)).
      rewrite <-!list_elem_of_In, list_elem_of_fmap, elem_of_listed. split; [|done].
      exists (ri_kind i). split; [done|apply elem_of_all_kinds].
  - intros k. unfold runtime_registration_presence, ensure_runtime_owner.
    unfold bind at 1. rewrite Ho. mstep (read_global_ok w Hg). unfold ret. cbn.
    do 3 f_equal. apply eq_true_iff_eq.
    by rewrite kind_present_names, negb_true_iff, bool_decide_eq_false.
Qed.

(** A global registration is exact and reversible: a taken name is
    [AlreadyExists] with no effect at all; a free one is added to that
    registry only, every registry stays well formed, no other kind changes,
    and deregistering it answers [true] and restores the dispatch order. *)
Theorem global_registration_exact {P : Type} (f : Field P) k `{!FieldOf f k}
    (record : RegistryRecord P) w :
  w_owner w = Ok () → w_global_poisoned w = false → registries_wf (regs (w_global w)) →
  let field := field_of f in
  match Registry.contents (field w) !! name record with
  | Some _ =>
      global_register f record w
      = (Err (AlreadyExists (name record +:+ " already exists")), w)
  | None =>
      ∃ w', global_register f record w = (Ok (), w')
        ∧ registries_wf (regs (w_global w'))
        ∧ Registry.contents (field w') = <[name record := record]> (Registry.contents (field w))
        ∧ (∀ k', k' ≠ k →
             State.part k' (regs (w_global w')) = State.part k' (regs (w_global w)))
        ∧ ∃ w'', global_deregister f (name record) w' = (Ok true, w'')
            ∧ Registry.sorted_values (field w'') = Registry.sorted_values (field w)
  end.
Proof.
  intros Ho Hg Hwf field. rewrite (global_register_result f record w Ho Hg).
  rewrite (register_result record (field_of f w)).
  pose proof (Registry.register_free record (field_of f w)) as Hfree.
  change (entry_name record) with (name record) in Hfree. unfold field.
  destruct (Registry.contents (field_of f w) !! name record) eqn:Hc; cbn [fst snd already_exists].
  { by rewrite (put_field_same f k). }
  destruct (Hfree eq_refl) as [_ Hcont]. set (reg := (Registry.register record _).2) in *.
  assert (Registry.wf (field_of f w)) as Hwf0 by (apply (field_wf (f := f)), Hwf).
  assert (Registry.wf reg) as Hwf1 by (by apply Registry.register_wf).
  assert (∀ reg w, field_of f (put_field f reg w) = reg) as Hput.
  { intros reg' w'. unfold field_of. by rewrite put_field_regs, field_get_set. }
  exists (put_field f reg w). split; [done|]. split_and!.
  - by apply (put_field_wf f k).
  - by rewrite Hput.
  - intros k' Hne. rewrite put_field_regs. by apply field_set_other.
  - eexists. rewrite (global_deregister_result f) by (by destruct w). rewrite Hput.
    destruct (Registry.deregister_spec (name record) reg) as [Hd Hdc].
    split; [by rewrite Hd, Hcont, lookup_insert_eq, bool_decide_eq_true_2|].
    rewrite Hput. apply Registry.sorted_values_contents; [by apply Registry.deregister_wf|done|].
    rewrite Hdc, Hcont. by apply delete_insert_id.
Qed.

(** A gate acts on its target while it is registered and only then: with
    a new name and at least one kind, the registration succeeds, disables
    exactly what was disabled before plus its target when its callback gives
    a reason, and deregistering it answers [true] and restores the world. *)
Theorem gate_lifecycle gate_run n ks target callback w :
  w_owner w = Ok () → gates_poisoned (w_gates w) = false →
  ks ≠ [] → gates (w_gates w) !! n = None →
  ∃ w', register_conditional_middleware_guardrail n ks target callback w = (Ok (), w')
    ∧ (∀ kind m, enabled gate_run w' kind m = false
         ↔ enabled gate_run w kind m = false
           ∨ kind ∈ ks ∧ m = target ∧ ∃ reason, gate_run callback ks m = Ok (Some reason))
    ∧ deregister_conditional_middleware_guardrail n w' = (Ok true, w)
    ∧ register_conditional_middleware_guardrail n ks target callback w'
      = (Err (AlreadyExists (n +:+ " conditional middleware guardrail already exists")), w').
Proof.
  intros Ho Hp Hks Hn. destruct w as [g gp [gt gpo] hp ps nx b o u c d q a]; cbn in *. subst.
  eexists. split.
  { unfold register_conditional_middleware_guardrail, bind, write_gates. cbn.
    rewrite bool_decide_eq_false_2 by done. cbn. rewrite Hn. done. }
  split_and!.
  - intros kind m. unfold enabled. rewrite !registration_disabled_iff. cbn. split.
    + intros (_ & gn & g' & reason & Hg' & Hk & Hm & Hr).
      apply lookup_insert_Some in Hg' as [[<- <-]|[Hne Hg']]; cbn in *; [right|left]; eauto 10.
    + intros [(_ & gn & g' & reason & Hg' & Hk & Hm & Hr)|(Hk & -> & reason & Hr)];
        (split; [done|]).
      * exists gn, g', reason. rewrite lookup_insert_ne by (by intros ->; congruence). done.
      * eexists n, _, reason. rewrite lookup_insert_eq. done.
  - unfold deregister_conditional_middleware_guardrail, bind, write_gates. cbn.
    rewrite delete_insert_id by done. by rewrite lookup_insert_eq, bool_decide_eq_true_2.
  - unfold register_conditional_middleware_guardrail, bind, write_gates. cbn.
    rewrite bool_decide_eq_false_2 by done. cbn. rewrite lookup_insert_eq.
    by rewrite ?bool_decide_eq_true_2.
Qed.

(** *** Witnesses *)

Definition demo_guardrail : RegistryRecord Callback := Build_RegistryRecord "mask" 5 11%N.

Lemma scope_registration_lifetime_witness :
  ∃ w' s', scope_register F_mark_sanitize_guardrails 3 demo_guardrail demo_world = (Ok (), w')
    ∧ ready w' s' ∧ Stack.remove 3 s' = Stack.remove 3 demo_stack.
Proof.
  destruct (scope_registration_lifetime F_mark_sanitize_guardrails MarkSanitizeGuardrail 3
    demo_guardrail demo_world demo_stack demo_ready eq_refl)
    as (w' & s' & Hr & _ & _ & _ & _ & Hrem & _ & Hreg & _).
  exists w', s'. split_and!; [exact Hreg|exact Hr|].
  apply (Hrem (demo_child 3 2 Agent)). reflexivity.
Defined.

Lemma demo_registries_wf : registries_wf (regs (w_global demo_world)).
Proof. by intros []. Qed.

Lemma listing_exact_witness :
  ∃ l, list_runtime_registrations None demo_world = (Ok l, demo_world)
    ∧ ∀ i, i ∈ l ↔ selected None (ri_kind i) = true
         ∧ effective_name i ∈ registered_names (regs (w_global demo_world)) (ri_kind i)
         ∧ i = registration_identity (ri_kind i) (effective_name i).
Proof.
  destruct (listing_exact None demo_world eq_refl eq_refl demo_registries_wf)
    as (l & Hl & _ & _ & Hin & _).
  exists l. split; [exact Hl|exact Hin].
Defined.

Lemma global_registration_exact_witness :
  ∃ w', global_register F_mark_sanitize_guardrails demo_guardrail demo_world = (Ok (), w')
    ∧ registries_wf (regs (w_global w')).
Proof.
  destruct (global_registration_exact F_mark_sanitize_guardrails MarkSanitizeGuardrail
    demo_guardrail demo_world eq_refl eq_refl demo_registries_wf) as (w' & Hr & Hwf & _).
  exists w'. split; [exact Hr|exact Hwf].
Defined.

(** A gate that always objects. *)
Definition objecting_gate (cb : Callback) (ks : list RuntimeRegistrationKind) (n : string) :
    outcome Empty_set (option string) := Ok (Some "maintenance").

Lemma gate_lifecycle_witness :
  ∃ w', register_conditional_middleware_guardrail "g" [Subscriber] "sink" 4%N demo_world
      = (Ok (), w')
    ∧ enabled objecting_gate w' Subscriber "sink" = false
    ∧ deregister_conditional_middleware_guardrail "g" w' = (Ok true, demo_world).
Proof.
  destruct (gate_lifecycle objecting_gate "g" [Subscriber] "sink" 4%N demo_world eq_refl eq_refl)
    as (w' & Hreg & Hen & Hde & _).
  - discriminate.
  - reflexivity.
  - exists w'. split_and!; [exact Hreg| |exact Hde].
    apply Hen. right. split_and!; [by left|reflexivity|by exists "maintenance"].
Defined.
