(* ===== verification/Flush.v ===== *)
(** * The dispatcher loop and its flush protocol
    ([crates/runtime/src/api/runtime/subscriber_dispatcher.rs], module
    [native])

    The dispatcher thread, its channel and the threads that publish, as a step
    relation.  A lineage counts the publications that descend from one
    publication: a permit is taken when a message is enqueued and dropped when
    it was delivered.  A flush waits for the lineages that were active when it
    was handled.  The steps of other threads interleave with those of the
    dispatcher at the granularity of the atomic operations of the source; what
    a callback publishes is arbitrary.

    - A lineage is its identity; a [Weak] that cannot be upgraded has no permit
      left, so it reads like a count of zero.
    - [Sent], [Dropped] and [Open] are the states of the oneshot channel of an
      asynchronous publication; a dispatcher that waits on an open one has no
      step.
    - Asynchronous buffers hold deliveries; a barrier registered inside one
      is not modelled.
    - A thread takes the permit of a message and then sends it or pushes it
      into a buffer, in two steps: in between the message is in [f_flight].
    - A [PublicationBuffer] that a callback captured keeps the lineage it was
      made in, and publishes on it also when the delivery is long over:
      [f_captured] has the lineages of the captured buffers that are alive.
    - [f_asked], [f_delivered] and [f_receipts] record history and are not
      read by the code. *)

From stdpp Require Import base gmap list sorting.
From S2P Require Import Prelude.

(** ** Messages *)

(** A delivery is known by a number; [completion] tells whether it has a
    receipt. *)
Inductive Message : Type :=
| Deliver (d : N) (lineage : option N) (completion : bool)
| Flush (done : N) (include_pending : bool)
| RegisterPending (lineage : N)
| CompletePending (permit : N)
| Barrier (publications : N) (lineage : option N).

(** ** The state of the loop *)

Record PendingFlush : Type := {
  pf_done : N;
  pf_lineages : list N;
}.

Record DispatcherLoopState : Type := {
  active_lineages : list N;
  pending_flushes : list PendingFlush;
}.

Definition count (o : gmap N nat) (l : N) : nat := default 0 (o !! l).

(** [PublicationPermit::new] and its [Drop]. *)
Definition permit_new (l : N) (o : gmap N nat) : gmap N nat := <[l := S (count o l)]> o.
Definition permit_drop (l : N) (o : gmap N nat) : gmap N nat := <[l := pred (count o l)]> o.

Definition attach_publication_lineage (current : N) (m : Message) (o : gmap N nat) :
    N * Message * gmap N nat :=
  match m with
  | Deliver _ (Some l) _ | Barrier _ (Some l) => (l, m, o)
  | Deliver d None c => (current, Deliver d (Some current) c, permit_new current o)
  | Barrier b None => (current, Barrier b (Some current), permit_new current o)
  | Flush _ _ | RegisterPending _ | CompletePending _ => (current, m, o)
  end.

Definition register (l : N) (st : DispatcherLoopState) : DispatcherLoopState := {|
  active_lineages :=
    if bool_decide (l ∈ active_lineages st) then active_lineages st
    else active_lineages st ++ [l];
  pending_flushes := pending_flushes st;
|}.

(** The answer is whether the flush is acknowledged at once. *)
Definition defer_or_complete_flush (o : gmap N nat) (terminal : gset N) (done : N)
    (include_pending : bool) (st : DispatcherLoopState) : bool * DispatcherLoopState :=
  let lineages :=
    filter (λ l, (include_pending = true ∨ l ∉ terminal) ∧ 0 < count o l)
      (active_lineages st) in
  match lineages with
  | [] => (true, st)
  | _ => (false, {| active_lineages := active_lineages st;
                    pending_flushes := pending_flushes st
                      ++ [{| pf_done := done; pf_lineages := lineages |}] |})
  end.

Definition flush_ready (o : gmap N nat) (f : PendingFlush) : bool :=
  forallb (λ l, count o l =? 0) (pf_lineages f).

(** [take_while(..).count()] and [drain(..ready)]. *)
Fixpoint drain_ready (o : gmap N nat) (fs : list PendingFlush) : list N * list PendingFlush :=
  match fs with
  | f :: fs' =>
      if flush_ready o f then
        let '(acks, rest) := drain_ready o fs' in (pf_done f :: acks, rest)
      else ([], fs)
  | [] => ([], [])
  end.

(** The acknowledged flushes and the new state. *)
Definition complete_ready_flushes (o : gmap N nat) (st : DispatcherLoopState) :
    list N * DispatcherLoopState :=
  let '(acks, rest) := drain_ready o (pending_flushes st) in
  (acks, {| active_lineages := filter (λ l, 0 < count o l) (active_lineages st);
            pending_flushes := rest |}).

(** ** The system *)

(** What the dispatcher thread has left to do, innermost first. *)
Inductive Item : Type :=
| Handle (m : Message) (inherited : option N)
| Delivering (d l : N) (completion : bool) (nested : list Message)
| DropPermit (l : N)
| Complete (d : N)
| Ready.

Inductive Buffer : Type :=
| Open (ms : list Message)
| Sent (ms : list Message)
| Dropped.

Record Sys : Type := mk_sys {
  f_outstanding : gmap N nat;
  f_terminal : gset N;
  f_next : N;
  f_loop : DispatcherLoopState;
  f_channel : list Message;
  f_work : list Item;
  (** Messages that hold their permit and are not sent yet. *)
  f_flight : list Message;
  f_buffers : gmap N Buffer;
  (** Lineages of the pending publications whose handle is alive. *)
  f_handles : gset N;
  (** Lineages of the captured publication buffers that are alive. *)
  f_captured : gset N;
  f_acks : list N;
  f_delivered : list N;
  f_receipts : list N;
  f_asked : gset N;
}.

Definition initial : Sys :=
  mk_sys ∅ ∅ 0 {| active_lineages := []; pending_flushes := [] |} [] [] [] ∅ ∅ ∅ [] [] [] ∅.

(** The lineage a message belongs to. *)
Definition lineage_of (m : Message) : option N :=
  match m with
  | Deliver _ l _ | Barrier _ l => l
  | RegisterPending l | CompletePending l => Some l
  | Flush _ _ => None
  end.

Definition item_lineages (i : Item) : list N :=
  match i with
  | Handle m _ => option_list (lineage_of m)
  | Delivering _ l _ ns => l :: omap lineage_of ns
  | DropPermit l => [l]
  | Complete _ | Ready => []
  end.

(** [current_publication_lineage] in a callback, a task or a foreign thread:
    the lineage of a live pending publication, of the event being delivered,
    or of a captured buffer, whether the buffer is active or not. *)
Definition context (s : Sys) (l : N) : Prop :=
  l ∈ f_handles s
  ∨ (∃ d c ns rest, f_work s = Delivering d l c ns :: rest)
  ∨ l ∈ f_captured s.

(** The lineage of a new publication: the current one or a new one. *)
Definition source (s : Sys) (l : N) : Prop := context s l ∨ l = f_next s.

Definition with_permit (l : N) (s : Sys) : Sys :=
  let '(mk_sys o t n lp ch w fl b h cp a d r q) := s in
  mk_sys (permit_new l o) t (N.max n (l + 1)) lp ch w fl b h cp a d r q.

Definition send (m : Message) (s : Sys) : Sys :=
  let '(mk_sys o t n lp ch w fl b h cp a d r q) := s in
  mk_sys o t n lp (ch ++ [m]) w fl b h cp a d r q.

Definition put_buffer (k : N) (buf : Buffer) (s : Sys) : Sys :=
  let '(mk_sys o t n lp ch w fl b h cp a d r q) := s in
  mk_sys o t n lp ch w fl (<[k := buf]> b) h cp a d r q.

Definition take_buffer (k : N) (s : Sys) : Sys :=
  let '(mk_sys o t n lp ch w fl b h cp a d r q) := s in
  mk_sys o t n lp ch w fl (delete k b) h cp a d r q.

Definition set_outstanding (o : gmap N nat) (s : Sys) : Sys :=
  let '(mk_sys _ t n lp ch w fl b h cp a d r q) := s in
  mk_sys o t n lp ch w fl b h cp a d r q.

Definition set_work (w : list Item) (s : Sys) : Sys :=
  let '(mk_sys o t n lp ch _ fl b h cp a d r q) := s in
  mk_sys o t n lp ch w fl b h cp a d r q.

Definition set_channel (ch : list Message) (s : Sys) : Sys :=
  let '(mk_sys o t n lp _ w fl b h cp a d r q) := s in
  mk_sys o t n lp ch w fl b h cp a d r q.

Definition set_flight (fl : list Message) (s : Sys) : Sys :=
  let '(mk_sys o t n lp ch w _ b h cp a d r q) := s in
  mk_sys o t n lp ch w fl b h cp a d r q.

Definition set_handles (h : gset N) (s : Sys) : Sys :=
  let '(mk_sys o t n lp ch w fl b _ cp a d r q) := s in
  mk_sys o t n lp ch w fl b h cp a d r q.

Definition set_captured (cp : gset N) (s : Sys) : Sys :=
  let '(mk_sys o t n lp ch w fl b h _ a d r q) := s in
  mk_sys o t n lp ch w fl b h cp a d r q.

Definition set_loop (lp : DispatcherLoopState) (s : Sys) : Sys :=
  let '(mk_sys o t n _ ch w fl b h cp a d r q) := s in
  mk_sys o t n lp ch w fl b h cp a d r q.

Definition add_acks (acks : list N) (s : Sys) : Sys :=
  let '(mk_sys o t n lp ch w fl b h cp a d r q) := s in
  mk_sys o t n lp ch w fl b h cp (a ++ acks) d r q.

Definition add_delivered (x : N) (s : Sys) : Sys :=
  let '(mk_sys o t n lp ch w fl b h cp a d r q) := s in
  mk_sys o t n lp ch w fl b h cp a (d ++ [x]) r q.

Definition add_receipt (x : N) (s : Sys) : Sys :=
  let '(mk_sys o t n lp ch w fl b h cp a d r q) := s in
  mk_sys o t n lp ch w fl b h cp a d (r ++ [x]) q.

Definition see (l : N) (s : Sys) : Sys :=
  let '(mk_sys o t n lp ch w fl b h cp a d r q) := s in
  mk_sys o t (N.max n (l + 1)) (register l lp) ch w fl b h cp a d r q.

Definition new_terminal (s : Sys) : Sys :=
  let '(mk_sys o t n lp ch w fl b h cp a d r q) := s in
  mk_sys o ({[n]} ∪ t) n lp ch w fl b ({[n]} ∪ h) cp a d r q.

Definition asked (done : N) (s : Sys) : Sys :=
  let '(mk_sys o t n lp ch w fl b h cp a d r q) := s in
  mk_sys o t n lp ch w fl b h cp a d r ({[done]} ∪ q).

(** The asynchronous operation of a barrier starts when the barrier is queued. *)
Definition opens (m : Message) (s : Sys) : Sys :=
  match m with
  | Barrier b _ => put_buffer b (Open []) s
  | _ => s
  end.

Definition can_open (m : Message) (s : Sys) : Prop :=
  match m with
  | Barrier b _ => f_buffers s !! b = None
  | _ => True
  end.

(** [flush_subscribers_inner] sends its request. *)
Definition ask (done : N) (include_pending : bool) (s : Sys) : Sys :=
  asked done (send (Flush done include_pending) s).

(** Dropping a list of undelivered messages drops their permits. *)
Fixpoint drop_messages (ms : list Message) (o : gmap N nat) : gmap N nat :=
  match ms with
  | [] => o
  | m :: ms =>
      match m with
      | Deliver _ (Some l) _ | Barrier _ (Some l) | CompletePending l =>
          permit_drop l (drop_messages ms o)
      | _ => drop_messages ms o
      end
  end.

Inductive step : Sys → Sys → Prop :=
(** [attach_publication_lineage] of a delivery and of the barrier of
    [register_async_publication] in a publishing context. *)
| step_attach s l d c :
    source s l →
    step s (set_flight (f_flight s ++ [(attach_publication_lineage l (Deliver d None c) ∅).1.2])
      (with_permit l s))
| step_attach_async s l b :
    source s l →
    step s (set_flight (f_flight s ++ [(attach_publication_lineage l (Barrier b None) ∅).1.2])
      (with_permit l s))
(** [enqueue_dispatch_message], the end: no buffer is active and the message
    is sent; the task has one ([with_async_publication_context]); or the
    message is pushed into the buffer of the event being delivered. *)
| step_send s pre m post :
    f_flight s = pre ++ m :: post → can_open m s →
    step s (opens m (send m (set_flight (pre ++ post) s)))
| step_push s pre d l c post b ms :
    f_flight s = pre ++ Deliver d l c :: post → f_buffers s !! b = Some (Open ms) →
    step s (put_buffer b (Open (ms ++ [Deliver d l c])) (set_flight (pre ++ post) s))
| step_push_nested s pre m post d l c ns rest :
    f_flight s = pre ++ m :: post → can_open m s → f_work s = Delivering d l c ns :: rest →
    step s (opens m (set_work (Delivering d l c (ns ++ [m]) :: rest) (set_flight (pre ++ post) s)))
(** [capture_nested_publication_buffer], and the drop of the last clone. *)
| step_capture s l :
    context s l → step s (set_captured ({[l]} ∪ f_captured s) s)
| step_release s l :
    step s (set_captured (f_captured s ∖ {[l]}) s)
(** [publication.sender.send(buffer.take())], or the future is dropped. *)
| step_async_send s b ms :
    f_buffers s !! b = Some (Open ms) → step s (put_buffer b (Sent ms) s)
| step_async_drop s b ms :
    f_buffers s !! b = Some (Open ms) →
    step s (put_buffer b Dropped (set_outstanding (drop_messages ms (f_outstanding s)) s))
(** [register_pending_publication] and the drop of its handle. *)
| step_pending s :
    step s (send (RegisterPending (f_next s)) (with_permit (f_next s) (new_terminal s)))
| step_pending_done s l :
    l ∈ f_handles s → step s (send (CompletePending l) (set_handles (f_handles s ∖ {[l]}) s))
(** [flush_subscribers_inner]. *)
| step_flush s done include_pending :
    done ∉ f_asked s → step s (ask done include_pending s)
(** [run_dispatcher]. *)
| step_recv s m rest :
    f_work s = [] → f_channel s = m :: rest →
    step s (set_work [Handle m None; Ready] (set_channel rest s))
(** [handle_message]. *)
| step_handle_flush s done include_pending inh rest now lp :
    f_work s = Handle (Flush done include_pending) inh :: rest →
    defer_or_complete_flush (f_outstanding s) (f_terminal s) done include_pending (f_loop s)
    = (now, lp) →
    step s (add_acks (if now : bool then [done] else []) (set_loop lp (set_work rest s)))
| step_handle_register s l inh rest :
    f_work s = Handle (RegisterPending l) inh :: rest →
    step s (see l (set_work rest s))
| step_handle_complete s l inh rest :
    f_work s = Handle (CompletePending l) inh :: rest →
    step s (see l (set_outstanding (permit_drop l (f_outstanding s)) (set_work rest s)))
| step_handle_deliver s d o c inh rest l m out :
    f_work s = Handle (Deliver d o c) inh :: rest →
    attach_publication_lineage (default (f_next s) inh) (Deliver d o c) (f_outstanding s)
    = (l, m, out) →
    step s (see l (set_outstanding out (set_work (Delivering d l c [] :: rest) s)))
| step_delivered s d l c ns rest :
    f_work s = Delivering d l c ns :: rest →
    step s (add_delivered d (set_work
      (DropPermit l :: ((λ m, Handle m (Some l)) <$> ns)
         ++ (if c : bool then [Complete d] else []) ++ Ready :: rest) s))
| step_handle_barrier s b o inh rest l m out :
    f_work s = Handle (Barrier b o) inh :: rest →
    (∀ ms, f_buffers s !! b ≠ Some (Open ms)) →
    attach_publication_lineage (default (f_next s) inh) (Barrier b o) (f_outstanding s)
    = (l, m, out) →
    step s (see l (set_outstanding out (take_buffer b (set_work
      (((λ m, Handle m (Some l)) <$> match f_buffers s !! b with Some (Sent ms) => ms | _ => [] end)
         ++ DropPermit l :: Ready :: rest) s))))
| step_drop_permit s l rest :
    f_work s = DropPermit l :: rest →
    step s (set_outstanding (permit_drop l (f_outstanding s)) (set_work rest s))
| step_complete s d rest :
    f_work s = Complete d :: rest → step s (add_receipt d (set_work rest s))
| step_ready s rest acks lp :
    f_work s = Ready :: rest →
    complete_ready_flushes (f_outstanding s) (f_loop s) = (acks, lp) →
    step s (add_acks acks (set_loop lp (set_work rest s))).

Definition reachable (s : Sys) : Prop := rtc step initial s.

(** ** Permits *)

(** How often [l] occurs. *)
Fixpoint occ (l : N) (xs : list N) : nat :=
  match xs with
  | [] => 0
  | x :: xs => (if decide (x = l) then 1 else 0) + occ l xs
  end.

Definition permit_of (m : Message) : option N :=
  match m with
  | Deliver _ l _ | Barrier _ l => l
  | CompletePending l => Some l
  | RegisterPending _ | Flush _ _ => None
  end.

Definition item_permits (i : Item) : list N :=
  match i with
  | Handle m _ => option_list (permit_of m)
  | Delivering _ l _ ns => l :: omap permit_of ns
  | DropPermit l => [l]
  | Complete _ | Ready => []
  end.

Definition buffer_messages (b : Buffer) : list Message :=
  match b with
  | Open ms | Sent ms => ms
  | Dropped => []
  end.

Definition buffered (b : gmap N Buffer) : list N :=
  map_to_list b ≫= λ kv, omap permit_of (buffer_messages kv.2).

(** Every permit that is alive. *)
Definition permits (s : Sys) (l : N) : nat :=
  occ l (omap permit_of (f_channel s)) + occ l (f_work s ≫= item_permits)
  + occ l (omap permit_of (f_flight s)) + occ l (buffered (f_buffers s)) + (if decide (l ∈ f_handles s) then 1 else 0).

(** A delivery or a barrier with its permit. *)
Definition attached (m : Message) : Prop :=
  match m with
  | Deliver _ o _ | Barrier _ o => is_Some o
  | _ => False
  end.

Lemma occ_app l xs ys : occ l (xs ++ ys) = occ l xs + occ l ys.
Proof. induction xs as [|x xs IH]; cbn; [done|]. rewrite IH. lia. Qed.

#[global] Instance occ_proper l : Proper ((≡ₚ) ==> eq) (occ l).
Proof. induction 1; cbn; lia. Qed.

Lemma occ_pos l xs : 0 < occ l xs ↔ l ∈ xs.
Proof.
  induction xs as [|x xs IH]; cbn.
  { split; [lia|by intros ?%elem_of_nil]. }
  rewrite elem_of_cons. destruct (decide (x = l)) as [->|Hne].
  - split; [by left|lia].
  - rewrite <-IH. split; [by right|]. intros [->|]; [done|lia].
Qed.

Lemma buffered_new b k buf :
  b !! k = None →
  buffered (<[k := buf]> b) ≡ₚ omap permit_of (buffer_messages buf) ++ buffered b.
Proof. intros Hk. unfold buffered. by rewrite map_to_list_insert. Qed.

Lemma buffered_delete b k buf :
  b !! k = Some buf →
  buffered b ≡ₚ omap permit_of (buffer_messages buf) ++ buffered (delete k b).
Proof. intros Hk. unfold buffered. by rewrite <-(map_to_list_delete b k buf Hk). Qed.

Lemma buffered_update b k buf buf' :
  b !! k = Some buf →
  omap permit_of (buffer_messages buf) ++ buffered (<[k := buf']> b)
  ≡ₚ omap permit_of (buffer_messages buf') ++ buffered b.
Proof.
  intros Hk. rewrite (buffered_delete b k buf Hk), <-insert_delete_eq.
  rewrite (buffered_new (delete k b)) by apply lookup_delete_eq.
  by rewrite !(assoc_L (++)), (comm (++) (omap _ _) (omap _ _)).
Qed.

Lemma handles_permits (ns : list Message) inh :
  ((λ m, Handle m inh) <$> ns) ≫= item_permits = omap permit_of ns.
Proof.
  induction ns as [|m ns IH]; [done|]. cbn. rewrite IH. by destruct (permit_of m).
Qed.

Lemma count_new l l' o :
  count (permit_new l o) l' = (if decide (l = l') then 1 else 0) + count o l'.
Proof.
  unfold count, permit_new. destruct (decide (l = l')) as [->|Hne].
  - by rewrite lookup_insert_eq.
  - by rewrite lookup_insert_ne.
Qed.

Lemma count_drop l l' o :
  count (permit_drop l o) l' = count o l' - (if decide (l = l') then 1 else 0).
Proof.
  unfold count, permit_drop. destruct (decide (l = l')) as [->|Hne].
  - rewrite lookup_insert_eq. cbn. unfold count. lia.
  - rewrite lookup_insert_ne by done. lia.
Qed.

Lemma count_drop_messages l ms o :
  occ l (omap permit_of ms) ≤ count o l →
  count (drop_messages ms o) l = count o l - occ l (omap permit_of ms).
Proof.
  induction ms as [|m ms IH]; cbn; [lia|].
  destruct m as [d [l'|] c| | |l'|b [l'|]]; cbn; intros Hle; try (by apply IH);
    rewrite count_drop, IH by lia; destruct (decide (l' = l)); lia.
Qed.

(** A message on the channel: a control message, or one with its permit. *)
Definition queued (m : Message) : Prop :=
  match m with
  | Deliver _ o _ | Barrier _ o => is_Some o
  | _ => True
  end.

Lemma attached_queued m : attached m → queued m.
Proof. by destruct m. Qed.

(** ** Invariants *)

Definition item_ok (i : Item) : Prop :=
  match i with
  | Handle m _ => queued m
  | Delivering _ _ _ ns => Forall attached ns
  | DropPermit _ | Complete _ | Ready => True
  end.

(** Every queued message holds its permit, only deliveries and barriers are
    under way, nested or buffered, and the work ends with [complete_ready_flushes]. *)
Record shape (s : Sys) : Prop := {
  sh_channel : Forall queued (f_channel s);
  sh_handle : Forall item_ok (f_work s);
  sh_flight : Forall attached (f_flight s);
  sh_buffers : ∀ k b, f_buffers s !! k = Some b → Forall attached (buffer_messages b);
  sh_last : f_work s ≠ [] → last (f_work s) = Some Ready;
}.

Lemma shape_initial : shape initial.
Proof. split; cbn; try constructor; done. Qed.

Lemma last_cons_ne {A} (x : A) l : l ≠ [] → last (x :: l) = last l.
Proof. by destruct l. Qed.

Lemma last_app_ne {A} (l1 l2 : list A) : l2 ≠ [] → last (l1 ++ l2) = last l2.
Proof.
  intros Hne. induction l1 as [|x l1 IH]; [done|]. cbn.
  destruct (l1 ++ l2) eqn:Heq; [by apply app_nil in Heq as [_ ?]|done].
Qed.

Lemma Forall_handles (ns : list Message) inh :
  Forall attached ns → Forall item_ok ((λ m, Handle m inh) <$> ns).
Proof. intros Hns. apply Forall_fmap. eapply Forall_impl; [exact Hns|]. apply attached_queued. Qed.

(** The head of the work is not the last item, so something is left. *)
Lemma work_rest s i rest :
  shape s → f_work s = i :: rest → i ≠ Ready → rest ≠ [] ∧ last rest = Some Ready.
Proof.
  intros Hsh Hw Hi. pose proof (sh_last s Hsh) as Hl. rewrite Hw in Hl.
  specialize (Hl ltac:(done)). destruct rest as [|j rest]; [|done]. cbn in Hl. congruence.
Qed.

Lemma Forall_snoc_2 {A} (P : A → Prop) l x : Forall P l → P x → Forall P (l ++ [x]).
Proof. intros Hl Hx. apply Forall_app. by repeat constructor. Qed.

Ltac step_cases Hstep :=
  destruct Hstep as [s l d c Hs|s l b Hs|s fpre m fpost Hf Hb|s fpre d l c fpost b ms Hf Hb
    |s fpre m fpost d l c ns rest Hf Hb Hw|s l Hs|s l|s b ms Hb|s b ms Hb|s|s l Hl
    |s done inc Hd|s m rest Hw Hch|s done inc inh rest now lp Hw Hdef|s l inh rest Hw
    |s l inh rest Hw|s d o c inh rest l m out Hw Hat|s d l c ns rest Hw|s b o inh rest l m out Hw Hb Hat
    |s l rest Hw|s d rest Hw|s rest acks lp Hw Hc].

(** What [opens] leaves alone. *)
Lemma opens_channel m s : f_channel (opens m s) = f_channel s.
Proof. by destruct m, s. Qed.
Lemma opens_work m s : f_work (opens m s) = f_work s.
Proof. by destruct m, s. Qed.
Lemma opens_flight m s : f_flight (opens m s) = f_flight s.
Proof. by destruct m, s. Qed.
Lemma opens_outstanding m s : f_outstanding (opens m s) = f_outstanding s.
Proof. by destruct m, s. Qed.
Lemma opens_loop m s : f_loop (opens m s) = f_loop s.
Proof. by destruct m, s. Qed.
Lemma opens_next m s : f_next (opens m s) = f_next s.
Proof. by destruct m, s. Qed.
Lemma opens_terminal m s : f_terminal (opens m s) = f_terminal s.
Proof. by destruct m, s. Qed.
Lemma opens_handles m s : f_handles (opens m s) = f_handles s.
Proof. by destruct m, s. Qed.
Lemma opens_captured m s : f_captured (opens m s) = f_captured s.
Proof. by destruct m, s. Qed.
Lemma opens_acks m s : f_acks (opens m s) = f_acks s.
Proof. by destruct m, s. Qed.
Lemma opens_delivered m s : f_delivered (opens m s) = f_delivered s.
Proof. by destruct m, s. Qed.
Lemma opens_asked m s : f_asked (opens m s) = f_asked s.
Proof. by destruct m, s. Qed.

Lemma opens_buffers m s k buf :
  f_buffers (opens m s) !! k = Some buf → buf = Open [] ∨ f_buffers s !! k = Some buf.
Proof.
  destruct m, s; cbn; auto. intros [[_ <-]|[_ ?]]%lookup_insert_Some; auto.
Qed.

#[local] Hint Rewrite opens_channel opens_work opens_flight opens_outstanding opens_loop opens_next
  opens_terminal opens_handles opens_captured opens_acks opens_delivered opens_asked : opens.

Lemma shape_step s s' : step s s' → shape s → shape s'.
Proof.
  intros Hstep Hsh.
  step_cases Hstep;
    try pose proof (work_rest s _ _ Hsh Hw ltac:(done)) as [Hrest Hlast];
    destruct Hsh as [H1 H2 H5 H3 H4]; destruct s; cbn in *; subst;
    try (apply Forall_cons in H2 as [Hhd H2]);
    try (apply Forall_app in H5 as [H5 [Hm H6]%Forall_cons]).
  all: split; autorewrite with opens; cbn; auto.
  all: try (apply Forall_snoc_2; cbn; eauto; done).
  all: try (apply Forall_app; done).
  all: try (intros k b' [->|Hk]%opens_buffers; [by constructor|by apply (H3 k)]).
  all: try (intros k b' Hk; apply lookup_insert_Some in Hk as [[<- <-]|[_ Hk]]; cbn; eauto).
  all: try (intros k b' [_ Hk]%lookup_delete_Some; cbn; eauto).
  all: try (intros _; rewrite ?last_app_ne by done; rewrite !last_cons_ne by done; done).
  - apply Forall_snoc_2; [done|by apply attached_queued].
  - apply Forall_snoc_2; [by apply (H3 _ _ Hb)|done].
  - constructor; [|done]. by apply Forall_snoc_2.
  - by apply (H3 _ _ Hb).
  - by apply Forall_cons in H1 as [_ ?].
  - apply Forall_cons in H1 as [? _]. by repeat constructor.
  - by repeat constructor.
  - constructor; [done|]. apply Forall_app. split; [by apply Forall_handles|].
    apply Forall_app. split; [destruct c; by repeat constructor|]. by constructor.
  - intros _. rewrite last_cons_ne by (by destruct ns, c).
    rewrite last_app_ne, last_app_ne, last_cons_ne by (by destruct c). done.
  - apply Forall_app. split; [|by repeat constructor]. apply Forall_handles.
    destruct (f_buffers0 !! b) as [[| |]|] eqn:Hbuf; try constructor. by apply (H3 _ _ Hbuf).
  - intros Hne. rewrite <-H4 by done. by rewrite last_cons_ne.
Qed.

(** *** The counters count *)

Definition counted (s : Sys) : Prop := ∀ l, count (f_outstanding s) l = permits s l.

Lemma bind_cons_items (i : Item) l : (i :: l) ≫= item_permits = item_permits i ++ (l ≫= item_permits).
Proof. done. Qed.

Lemma bind_app_items (l1 l2 : list Item) :
  (l1 ++ l2) ≫= item_permits = (l1 ≫= item_permits) ++ (l2 ≫= item_permits).
Proof. apply bind_app. Qed.

Lemma occ_nil l : occ l [] = 0.
Proof. done. Qed.

Lemma occ_one l x : occ l [x] = if decide (x = l) then 1 else 0.
Proof. cbn. lia. Qed.

Lemma occ_cons l x xs : occ l (x :: xs) = (if decide (x = l) then 1 else 0) + occ l xs.
Proof. done. Qed.

Lemma omap_snoc ns m : omap permit_of (ns ++ [m]) = omap permit_of ns ++ option_list (permit_of m).
Proof. by rewrite omap_app. Qed.

Lemma omap_cons' m ms : omap permit_of (m :: ms) = option_list (permit_of m) ++ omap permit_of ms.
Proof. cbn. by destruct (permit_of m). Qed.

Lemma occ_some l x : occ l (option_list (Some x)) = if decide (x = l) then 1 else 0.
Proof. cbn. lia. Qed.

Lemma occ_buffered_new l b k buf :
  b !! k = None →
  occ l (buffered (<[k := buf]> b))
  = occ l (omap permit_of (buffer_messages buf)) + occ l (buffered b).
Proof. intros Hk. by rewrite buffered_new, occ_app. Qed.

Lemma occ_buffered_update l b k buf buf' :
  b !! k = Some buf →
  occ l (omap permit_of (buffer_messages buf)) + occ l (buffered (<[k := buf']> b))
  = occ l (omap permit_of (buffer_messages buf')) + occ l (buffered b).
Proof. intros Hk. by rewrite <-!occ_app, buffered_update. Qed.

Lemma occ_buffered_delete l b k buf :
  b !! k = Some buf →
  occ l (buffered b)
  = occ l (omap permit_of (buffer_messages buf)) + occ l (buffered (delete k b)).
Proof. intros Hk. by rewrite <-occ_app, <-buffered_delete. Qed.

#[local] Hint Rewrite occ_some occ_app occ_nil occ_cons bind_app_items bind_cons_items handles_permits
  omap_snoc omap_cons' count_new count_drop : occs.

(** A message that holds its permit is not attached again. *)
Lemma attach_queued current m o l m' o' :
  queued m → attach_publication_lineage current m o = (l, m', o') → is_Some (permit_of m) →
  lineage_of m = Some l ∨ (∃ p, m = CompletePending p).
Proof. destruct m as [d [l0|] c| | |p|b [l0|]]; cbn; intros Hq Ha Hp; naive_solver. Qed.

Lemma attach_deliver current d o c out l m out' :
  is_Some o → attach_publication_lineage current (Deliver d o c) out = (l, m, out') →
  o = Some l ∧ out' = out.
Proof. by intros [l0 ->] [= -> <- ->]. Qed.

Lemma attach_barrier current b o out l m out' :
  is_Some o → attach_publication_lineage current (Barrier b o) out = (l, m, out') →
  o = Some l ∧ out' = out.
Proof. by intros [l0 ->] [= -> <- ->]. Qed.

Lemma opens_permits m s l :
  can_open m s → occ l (buffered (f_buffers (opens m s))) = occ l (buffered (f_buffers s)).
Proof.
  destruct m, s; cbn; intros Hb; try done. by rewrite occ_buffered_new.
Qed.

Lemma counted_step s s' :
  step s s' → shape s → (∀ h, h ∈ f_handles s → (h < f_next s)%N) → counted s → counted s'.
Proof.
  intros Hstep Hsh Hlt Hcount. pose proof (sh_handle s Hsh) as Hok.
  step_cases Hstep; intros l0; specialize (Hcount l0); unfold permits in *;
    autorewrite with opens; rewrite ?opens_permits by (by destruct s, m);
    destruct s as [out0 t n lp0 ch w fl bs h cp a dl r q]; cbn -[occ] in *; subst.
  all: try (apply Forall_cons in Hok as [Hhd _]; cbn in Hhd).
  all: try (apply (attach_deliver _ _ _ _ _ _ _ _ Hhd) in Hat as [-> ->]).
  all: try (apply (attach_barrier _ _ _ _ _ _ _ Hhd) in Hat as [-> ->]).
  all: autorewrite with occs in *; cbn [item_permits permit_of option_list] in *.
  all: autorewrite with occs in *.
  all: try lia.
  - rewrite omap_app, omap_cons', !occ_app in Hcount. rewrite omap_app, occ_app. lia.
  - rewrite omap_app, omap_cons', !occ_app in Hcount. rewrite omap_app, occ_app.
    pose proof (occ_buffered_update l0 bs b _ (Open (ms ++ [Deliver d l c])) Hb) as Hu.
    cbn [buffer_messages] in Hu. autorewrite with occs in Hu. lia.
  - rewrite omap_app, omap_cons', !occ_app in Hcount. rewrite omap_app, occ_app. lia.
  - pose proof (occ_buffered_update l0 bs b _ (Sent ms) Hb) as Hu. cbn in Hu. lia.
  - pose proof (occ_buffered_update l0 bs b _ Dropped Hb) as Hu. cbn in Hu.
    pose proof (occ_buffered_delete l0 bs b _ Hb) as Hd. cbn in Hd.
    rewrite count_drop_messages by lia. lia.
  - fold (permit_new n out0). rewrite count_new.
    destruct (decide (n = l0)) as [<-|Hne].
    + rewrite decide_True by set_solver. rewrite decide_False in Hcount; [lia|].
      intros Hin%Hlt. lia.
    + destruct (decide (l0 ∈ h)); [rewrite decide_True by set_solver|rewrite decide_False by set_solver]; lia.
  - destruct (decide (l = l0)) as [->|Hne].
    + rewrite decide_False by set_solver. rewrite decide_True in Hcount by done. lia.
    + destruct (decide (l0 ∈ h)); [rewrite decide_True by set_solver|rewrite decide_False by set_solver]; lia.
  - destruct c; cbn; lia.
  - destruct (bs !! b) as [[ms|ms|]|] eqn:Hbuf.
    + by destruct (Hb ms).
    + rewrite (occ_buffered_delete l0 bs b _ Hbuf) in Hcount. cbn in Hcount. lia.
    + rewrite (occ_buffered_delete l0 bs b _ Hbuf) in Hcount. cbn in *. lia.
    + rewrite delete_id by done. cbn. lia.
Qed.

(** *** Identities are fresh *)

Definition awaits_pending (s : Sys) (l : N) : Prop :=
  RegisterPending l ∈ f_channel s ∨ ∃ inh, Handle (RegisterPending l) inh ∈ f_work s.

Record below (s : Sys) : Prop := {
  bl_count : ∀ l, (0 < count (f_outstanding s) l) → (l < f_next s)%N;
  bl_active : ∀ l, l ∈ active_lineages (f_loop s) → (l < f_next s)%N;
  bl_pending : ∀ l, awaits_pending s l → (l < f_next s)%N;
  bl_captured : ∀ l, l ∈ f_captured s → (l < f_next s)%N;
}.

Lemma handles_below s h : counted s → below s → h ∈ f_handles s → (h < f_next s)%N.
Proof.
  intros Hc Hb Hh. apply (bl_count s Hb). rewrite Hc. unfold permits.
  rewrite decide_True by done. lia.
Qed.

(** Whoever publishes holds a permit, was captured or starts a lineage. *)
Lemma context_live s l :
  counted s → context s l → l ∈ f_captured s ∨ 0 < count (f_outstanding s) l.
Proof.
  intros Hc [Hh|[(d & c & ns & rest & Hw)|Hcp]]; [right|right|by left]; rewrite Hc; unfold permits.
  - rewrite decide_True by done. lia.
  - rewrite Hw, bind_cons_items. cbn [item_permits app]. rewrite occ_cons, decide_True by done. lia.
Qed.

Lemma message_permit s m l :
  counted s → m ∈ f_channel s → permit_of m = Some l → 0 < count (f_outstanding s) l.
Proof.
  intros Hc Hm Hp. rewrite Hc. unfold permits.
  assert (0 < occ l (omap permit_of (f_channel s))); [|lia].
  apply occ_pos, list_elem_of_omap. eauto.
Qed.

Lemma item_permit s i l :
  counted s → i ∈ f_work s → l ∈ item_permits i → 0 < count (f_outstanding s) l.
Proof.
  intros Hc Hi Hl. rewrite Hc. unfold permits.
  assert (0 < occ l (f_work s ≫= item_permits)); [|lia].
  apply occ_pos, list_elem_of_bind. eauto.
Qed.

Lemma lineage_permit m l : lineage_of m = Some l → permit_of m = Some l ∨ m = RegisterPending l.
Proof. destruct m; cbn; naive_solver. Qed.

Lemma attached_lineage m : attached m → lineage_of m = permit_of m.
Proof. by destruct m. Qed.

(** The lineages that are registered, queued or in the dispatcher's hands. *)
Definition in_work (s : Sys) (l : N) : Prop := l ∈ (f_work s ≫= item_lineages).

Definition known (s : Sys) (l : N) : Prop :=
  l ∈ active_lineages (f_loop s) ∨ in_work s l ∨ l ∈ omap lineage_of (f_channel s).

Lemma known_below s l : shape s → counted s → below s → known s l → (l < f_next s)%N.
Proof.
  intros Hsh Hc Hb. unfold known, in_work.
  intros [Hs|[(i & Hl & Hi)%list_elem_of_bind|(m & Hm & Hl)%list_elem_of_omap]].
  - by apply (bl_active s Hb).
  - destruct i as [m inh|d l' c ns|l'|d|]; cbn in Hl.
    + destruct (lineage_of m) as [l''|] eqn:Hlin; cbn in Hl; [|by apply elem_of_nil in Hl].
      apply list_elem_of_singleton in Hl as ->.
      apply lineage_permit in Hlin as [Hlin| ->].
      * apply (bl_count s Hb), (item_permit s _ l'' Hc Hi). cbn. rewrite Hlin. by left.
      * apply (bl_pending s Hb). right. by eexists.
    + apply (bl_count s Hb), (item_permit s _ l Hc Hi). cbn.
      apply elem_of_cons in Hl as [->|(m & Hm & Hl)%list_elem_of_omap]; [by left|right].
      pose proof (sh_handle s Hsh) as Hok. rewrite Forall_forall in Hok.
      specialize (Hok _ Hi). cbn in Hok. rewrite Forall_forall in Hok.
      apply list_elem_of_omap. exists m. split; [done|].
      by rewrite <-attached_lineage by (by apply Hok).
    + by apply (bl_count s Hb), (item_permit s _ l Hc Hi).
    + by apply elem_of_nil in Hl.
    + by apply elem_of_nil in Hl.
  - apply lineage_permit in Hl as [Hl| ->].
    + by apply (bl_count s Hb), (message_permit s m).
    + apply (bl_pending s Hb). by left.
Qed.

Lemma count_drop_messages_le l ms o : count (drop_messages ms o) l ≤ count o l.
Proof.
  induction ms as [|m ms IH]; cbn; [done|].
  destruct m as [d [l'|] c| | |l'|b [l'|]]; cbn; rewrite ?count_drop; lia.
Qed.

Lemma count_step s s' l0 :
  step s s' → shape s → 0 < count (f_outstanding s') l0 →
  0 < count (f_outstanding s) l0 ∨ source s l0 ∧ (l0 < f_next s')%N.
Proof.
  intros Hstep Hsh. pose proof (sh_handle s Hsh) as Hok.
  step_cases Hstep; autorewrite with opens;
    destruct s as [out0 t n lp0 ch w fl bs h cp a dl r q]; cbn in *; subst.
  all: try (apply Forall_cons in Hok as [Hhd _]; cbn in Hhd).
  all: try (apply (attach_deliver _ _ _ _ _ _ _ _ Hhd) in Hat as [-> ->]).
  all: try (apply (attach_barrier _ _ _ _ _ _ _ Hhd) in Hat as [-> ->]).
  all: rewrite ?count_new, ?count_drop; try (intros; left; lia).
  all: try (pose proof (count_drop_messages_le l0 ms out0); intros; left; lia).
  all: try (fold (permit_new n out0); rewrite count_new).
  all: match goal with |- context [decide (?x = ?y)] => destruct (decide (x = y)) as [->|] end;
    try (intros; left; lia); intros _; right; (split; [|lia]).
  all: try done.
  by right.
Qed.

Lemma next_step s s' : step s s' → (f_next s ≤ f_next s')%N.
Proof. intros Hstep; step_cases Hstep; autorewrite with opens; destruct s; cbn in *; lia. Qed.

Lemma captured_step s s' l0 :
  step s s' → l0 ∈ f_captured s' → l0 ∈ f_captured s ∨ context s l0.
Proof.
  intros Hstep; step_cases Hstep; autorewrite with opens; destruct s; cbn in *; try (by left).
  - rewrite elem_of_union, elem_of_singleton. intros [->|]; auto.
  - set_solver.
Qed.

Lemma terminal_step s s' l0 :
  step s s' → l0 ∈ f_terminal s' → l0 ∈ f_terminal s ∨ l0 = f_next s ∧ (l0 < f_next s')%N.
Proof.
  intros Hstep; step_cases Hstep; autorewrite with opens; destruct s; cbn in *; try (by left).
  rewrite elem_of_union, elem_of_singleton. intros [->|]; [right; split; [done|lia]|by left].
Qed.

Lemma register_active l st l0 : l0 ∈ active_lineages (register l st) ↔ l0 = l ∨ l0 ∈ active_lineages st.
Proof.
  unfold register. cbn. case_bool_decide; [naive_solver|]. rewrite elem_of_app, list_elem_of_singleton.
  tauto.
Qed.

#[local] Arguments register : simpl never.

Lemma active_new s s' l0 :
  step s s' → l0 ∈ active_lineages (f_loop s') → l0 ∈ active_lineages (f_loop s) ∨ (l0 < f_next s')%N.
Proof.
  intros Hstep; step_cases Hstep; autorewrite with opens;
    destruct s as [out0 t n lp0 ch w fl bs h cp a dl r q]; cbn in *; auto.
  all: try (intros [->|?]%register_active; [right; lia|by left]).
  - unfold defer_or_complete_flush in Hdef.
    destruct (filter _ (active_lineages lp0)); injection Hdef as <- <-; cbn; auto.
  - unfold complete_ready_flushes in Hc. destruct (drain_ready out0 (pending_flushes lp0)).
    injection Hc as <- <-. cbn. intros [_ ?]%list_elem_of_filter. by left.
Qed.

Lemma pending_step s s' l0 :
  step s s' → shape s → awaits_pending s' l0 → awaits_pending s l0 ∨ (l0 < f_next s')%N.
Proof.
  unfold awaits_pending. intros Hstep Hsh. pose proof (sh_handle s Hsh) as Hok.
  pose proof (sh_buffers s Hsh) as Hbuf. pose proof (sh_flight s Hsh) as Hfl.
  step_cases Hstep; autorewrite with opens;
    destruct s as [out0 t n lp0 ch w fl bs h cp a dl r q]; cbn in *; subst.
  all: try (by left).
  all: try (apply Forall_cons in Hok as [Hhd _]; cbn in Hhd).
  all: try (apply Forall_app in Hfl as [_ [Hm _]%Forall_cons]).
  all: intros [Hp|[inh0 Hp]].
  all: repeat (rewrite elem_of_app in Hp || rewrite elem_of_cons in Hp
    || rewrite elem_of_nil in Hp).
  all: try (by left; left); try (by left; right; eauto).
  all: try (destruct Hp as [Hp|[Hp|Hp]]; [by left; left|simplify_eq; right; lia|done]).
  all: try (left; right; exists inh0; by destruct Hp as [Hp|Hp]).
  all: try (left; right; exists inh0; rewrite ?elem_of_cons; naive_solver).
  all: try (left; left; rewrite elem_of_cons; naive_solver).
  - destruct Hp as [Hp|[Hp|Hp]]; [by left; left|by subst|done].
  - destruct Hp as [Hp|[Hp|[Hp|Hp]]]; [done| | |].
    + apply list_elem_of_fmap in Hp as (m & [= <- ->] & Hm).
      rewrite Forall_forall in Hhd. by apply Hhd in Hm.
    + destruct c; [|by apply elem_of_nil in Hp].
      by apply list_elem_of_singleton in Hp.
    + destruct Hp as [Hp|Hp]; [done|]. left. right. exists inh0. by right.
  - destruct Hp as [Hp|[Hp|[Hp|Hp]]]; [|done|done|].
    + apply list_elem_of_fmap in Hp as (m' & [= <- ->] & Hm).
      destruct (bs !! b) as [[| |]|] eqn:Hbb; try (by apply elem_of_nil in Hm).
      specialize (Hbuf _ _ Hbb). rewrite Forall_forall in Hbuf. by apply Hbuf in Hm.
    + left. right. exists inh0. by right.
Qed.

Lemma below_step s s' : step s s' → shape s → counted s → below s → below s'.
Proof.
  intros Hstep Hsh Hc Hb. pose proof (next_step s s' Hstep) as Hn. split.
  - intros l [Hl|[_ Hl]]%(count_step s s' l Hstep Hsh); [|done].
    apply (bl_count s Hb) in Hl. lia.
  - intros l [Hl|Hl]%(active_new s s' l Hstep); [|done]. apply (bl_active s Hb) in Hl. lia.
  - intros l [Hl|Hl]%(pending_step s s' l Hstep Hsh); [|done].
    apply (bl_pending s Hb) in Hl. lia.
  - intros l [Hl|Hl]%(captured_step s s' l Hstep).
    + apply (bl_captured s Hb) in Hl. lia.
    + apply (context_live s l Hc) in Hl as [Hl|Hl];
        [apply (bl_captured s Hb) in Hl|apply (bl_count s Hb) in Hl]; lia.
Qed.

(** Nothing of the lineage is left, and no buffer can publish on it. *)
Definition dry (s : Sys) (l : N) : Prop :=
  (l < f_next s)%N ∧ count (f_outstanding s) l = 0 ∧ l ∉ f_captured s.

Lemma dry_step s s' l : step s s' → shape s → counted s → dry s l → dry s' l.
Proof.
  intros Hstep Hsh Hc (Hl & Hz & Hcp). pose proof (next_step s s' Hstep).
  assert (¬ context s l) as Hctx. { intros [?|?]%(context_live s l Hc); [done|lia]. }
  split_and!; [lia| |].
  - destruct (count (f_outstanding s') l) eqn:Hn; [done|].
    destruct (count_step s s' l Hstep Hsh) as [Hp|[[Hs| ->] _]]; lia || done.
  - intros [?|?]%(captured_step s s' l Hstep); done.
Qed.

(** *** The work of the dispatcher *)

(** What is being delivered is registered. *)
Definition started (lp : DispatcherLoopState) (i : Item) : Prop :=
  match i with
  | Delivering _ l _ _ | DropPermit l => l ∈ active_lineages lp
  | Handle _ _ | Complete _ | Ready => True
  end.

Lemma started_handles lp inh ns : Forall (started lp) ((λ m, Handle m inh) <$> ns).
Proof. apply Forall_fmap, Forall_true. done. Qed.

(** A registered lineage stays so while something of it is left. *)
Lemma active_kept s s' l0 :
  step s s' → 0 < count (f_outstanding s') l0 →
  l0 ∈ active_lineages (f_loop s) → l0 ∈ active_lineages (f_loop s').
Proof.
  intros Hstep Hpos Hin.
  step_cases Hstep; autorewrite with opens in *;
    destruct s as [out0 t n lp0 ch w fl bs h cp a dl r q]; cbn in *; auto.
  all: try (apply register_active; by right).
  - unfold defer_or_complete_flush in Hdef.
    destruct (filter _ (active_lineages lp0)); injection Hdef as <- <-; cbn; auto.
  - unfold complete_ready_flushes in Hc. destruct (drain_ready out0 (pending_flushes lp0)).
    injection Hc as <- <-. cbn. apply list_elem_of_filter. auto.
Qed.

Lemma started_kept s s' w :
  step s s' → (∀ i l, i ∈ w → l ∈ item_permits i → 0 < count (f_outstanding s') l) →
  Forall (started (f_loop s)) w → Forall (started (f_loop s')) w.
Proof.
  intros Hstep Hpos Hw. rewrite Forall_forall in *. intros i Hi. specialize (Hw i Hi).
  destruct i; cbn in *; try done; apply (active_kept s); eauto; apply (Hpos _ _ Hi); by left.
Qed.

Lemma started_step s s' :
  step s s' → counted s' → Forall (started (f_loop s)) (f_work s) →
  Forall (started (f_loop s')) (f_work s').
Proof.
  intros Hstep Hc' Hst.
  assert (∀ w, (∀ i, i ∈ w → i ∈ f_work s') → Forall (started (f_loop s)) w →
    Forall (started (f_loop s')) w) as Hkeep.
  { intros w Hw. apply (started_kept s s' w Hstep). intros i l Hi. by apply (item_permit s' i l Hc'), Hw. }
  clear Hc'. revert Hkeep.
  step_cases Hstep; autorewrite with opens;
    destruct s as [out0 t n lp0 ch w fl bs h cp a dl r q]; cbn in *; subst; intros Hkeep; auto.
  all: try (apply Forall_cons in Hst as [Hhd Hst]; cbn in Hhd).
  all: try (by apply Hkeep).
  all: try (by repeat constructor).
  - constructor; [by apply register_active; left|]. apply Hkeep; [|done]. intros i ?. by right.
  - constructor; [exact Hhd|]. apply Forall_app. split; [apply started_handles|].
    apply Forall_app. split; [destruct c; by repeat constructor|by constructor].
  - apply Forall_app. split; [apply started_handles|]. constructor; [by apply register_active; left|].
    constructor; [done|]. apply Hkeep; [|done]. intros i ?. rewrite elem_of_app. right. by do 2 right.
Qed.

Lemma snoc_split {A} (ch pre post : list A) m x :
  ch ++ [m] = pre ++ x :: post →
  (post = [] ∧ m = x ∧ pre = ch) ∨ (∃ post', post = post' ++ [m] ∧ ch = pre ++ x :: post').
Proof.
  intros Heq. destruct (exists_last (l := x :: post)) as (l' & y & Hl); [done|].
  rewrite Hl, app_assoc in Heq. apply app_inj_tail in Heq as [-> ->].
  destruct l' as [|x' l'].
  - left. injection Hl as -> ->. by rewrite app_nil_r.
  - right. injection Hl as -> ->. by exists l'.
Qed.

Lemma lin_cons (i : Item) l : (i :: l) ≫= item_lineages = item_lineages i ++ (l ≫= item_lineages).
Proof. done. Qed.

Lemma lin_handles (ns : list Message) inh :
  ((λ m, Handle m inh) <$> ns) ≫= item_lineages = omap lineage_of ns.
Proof.
  induction ns as [|m ns IH]; [done|]. cbn. rewrite IH. by destruct (lineage_of m).
Qed.

(** What the dispatcher has in hand is registered before it is done. *)
Lemma in_work_step s s' l0 :
  step s s' → shape s → Forall (started (f_loop s)) (f_work s) → 0 < count (f_outstanding s') l0 →
  in_work s l0 → l0 ∈ active_lineages (f_loop s') ∨ in_work s' l0.
Proof.
  intros Hstep Hsh Hst Hpos. pose proof (sh_handle s Hsh) as Hok. clear Hsh. unfold in_work.
  assert (l0 ∈ active_lineages (f_loop s) → l0 ∈ active_lineages (f_loop s')) as Hact
    by (by apply active_kept). clear Hpos. revert Hact.
  step_cases Hstep; autorewrite with opens;
    destruct s as [out0 t n lp0 ch w fl bs h cp a dl r q]; cbn in *; subst; auto.
  all: try (apply Forall_cons in Hok as [Hhd Hok]; cbn in Hhd).
  all: try (apply (attach_deliver _ _ _ _ _ _ _ _ Hhd) in Hat as [-> ->]).
  all: try (apply (attach_barrier _ _ _ _ _ _ _ Hhd) in Hat as [-> ->]).
  all: try (apply Forall_cons in Hst as [Hse Hst]; cbn in Hse).
  all: rewrite ?bind_app, ?lin_cons, ?lin_handles, ?omap_app; cbn [item_lineages lineage_of option_list].
  all: intros Hact; repeat (rewrite elem_of_app || rewrite elem_of_cons || rewrite elem_of_nil
    || rewrite register_active).
  all: try tauto.
  all: try (change (option_list (Some l)) with [l]; rewrite list_elem_of_singleton; tauto).
  intros [[->|[]]|?]; auto.
Qed.

(** *** The requests of flushes *)

Definition flush_of (m : Message) : option N :=
  match m with
  | Flush done _ => Some done
  | _ => None
  end.

Definition item_flushes (i : Item) : list N :=
  match i with
  | Handle m _ => option_list (flush_of m)
  | _ => []
  end.

Definition requests (s : Sys) : list N :=
  omap flush_of (f_channel s) ++ (f_work s ≫= item_flushes)
  ++ (pf_done <$> pending_flushes (f_loop s)) ++ f_acks s.

Lemma fl_cons (i : Item) l : (i :: l) ≫= item_flushes = item_flushes i ++ (l ≫= item_flushes).
Proof. done. Qed.

Lemma attached_flush m : attached m → flush_of m = None.
Proof. by destruct m. Qed.

Lemma attached_flushes (ns : list Message) inh :
  Forall attached ns → ((λ m, Handle m inh) <$> ns) ≫= item_flushes = [].
Proof. induction 1 as [|m ns Hm _ IH]; [done|]. cbn. by rewrite IH, attached_flush. Qed.

Lemma drain_ready_split o fs :
  pf_done <$> fs = (drain_ready o fs).1 ++ (pf_done <$> (drain_ready o fs).2).
Proof.
  induction fs as [|f fs IH]; [done|]. cbn. destruct (flush_ready o f); [|done].
  destruct (drain_ready o fs) as [acks rest]. cbn in *. by rewrite IH.
Qed.

Lemma drain_ready_acks o fs done :
  done ∈ (drain_ready o fs).1 → ∃ f, f ∈ fs ∧ pf_done f = done ∧ flush_ready o f = true.
Proof.
  induction fs as [|f fs IH]; cbn; [by intros ?%elem_of_nil|].
  destruct (flush_ready o f) eqn:Hr; [|by intros ?%elem_of_nil].
  destruct (drain_ready o fs) as [acks rest]. cbn in *.
  intros [->|Hin]%elem_of_cons; [by exists f; split; [left|]|].
  destruct (IH Hin) as (f' & Hf & ? & ?). exists f'. split; [by right|done].
Qed.

Lemma drain_ready_rest o fs f : f ∈ (drain_ready o fs).2 → f ∈ fs.
Proof.
  induction fs as [|f' fs IH]; cbn; [done|]. destruct (flush_ready o f'); [|done].
  destruct (drain_ready o fs) as [acks rest]. cbn in *. intros Hin. right. auto.
Qed.

Lemma drain_ready_blocked o fs f rest :
  (drain_ready o fs).2 = f :: rest → flush_ready o f = false.
Proof.
  induction fs as [|f' fs IH]; cbn; [done|]. destruct (flush_ready o f') eqn:Hr.
  - destruct (drain_ready o fs) as [acks rest']. cbn in *. done.
  - cbn. by intros [= -> ->].
Qed.

Lemma flush_ready_zero o f l : flush_ready o f = true → l ∈ pf_lineages f → count o l = 0.
Proof.
  unfold flush_ready. rewrite forallb_forall. intros Hf Hl%list_elem_of_In.
  apply Hf in Hl. by apply Nat.eqb_eq.
Qed.

Lemma sent_barrier b (bs : gmap N Buffer) :
  (∀ k buf, bs !! k = Some buf → Forall attached (buffer_messages buf)) →
  Forall attached match bs !! b with Some (Sent ms) => ms | _ => [] end.
Proof.
  intros H3. destruct (bs !! b) as [[| |]|] eqn:Hbb; try constructor. by apply (H3 _ _ Hbb).
Qed.

(** Requests move on and are never made up. *)
Lemma requests_step s s' d0 :
  step s s' → shape s → d0 ∈ requests s' →
  d0 ∈ requests s ∨ (d0 ∉ f_asked s ∧ d0 ∈ f_asked s').
Proof.
  intros Hstep Hsh. pose proof (sh_handle s Hsh) as Hok.
  pose proof (sh_buffers s Hsh) as Hbuf. pose proof (sh_flight s Hsh) as Hfl. clear Hsh. unfold requests.
  step_cases Hstep; autorewrite with opens;
    destruct s as [out0 t n lp0 ch w fl bs h cp a dl r q]; cbn in *; subst;
    rewrite ?omap_app, ?bind_app, ?fl_cons; try (by left).
  all: try (apply Forall_app in Hfl as [_ [Hm _]%Forall_cons]).
  all: try (apply Forall_cons in Hok as [Hhd _]; cbn in Hhd).
  all: cbn [omap list_omap flush_of item_flushes option_list app].
  all: try (rewrite attached_flushes by first [done|by apply sent_barrier]).
  all: try (rewrite (attached_flush _ Hm)).
  all: repeat rewrite elem_of_app; rewrite ?elem_of_nil; try tauto.
  - rewrite list_elem_of_singleton. intros [[?| ->]|[?|[?|?]]]; try tauto. right. set_solver.
  - destruct (flush_of m); cbn; rewrite ?elem_of_cons, ?elem_of_nil; tauto.
  - unfold defer_or_complete_flush in Hdef.
    change (option_list (Some done)) with [done]. rewrite list_elem_of_singleton.
    destruct (filter _ (active_lineages lp0)); injection Hdef as <- <-; cbn;
      rewrite ?fmap_app, ?elem_of_app, ?list_elem_of_singleton, ?elem_of_nil; [tauto|].
    cbn. rewrite list_elem_of_singleton. tauto.
  - destruct c; cbn; rewrite ?elem_of_nil; tauto.
  - unfold complete_ready_flushes in Hc. pose proof (drain_ready_split out0 (pending_flushes lp0)) as Hsp.
    destruct (drain_ready out0 (pending_flushes lp0)) as [acks' rest']. injection Hc as <- <-.
    cbn in *. rewrite Hsp, elem_of_app. tauto.
Qed.

Definition requests_asked (s : Sys) : Prop := ∀ d, d ∈ requests s → d ∈ f_asked s.

Lemma asked_mono s s' d0 : step s s' → d0 ∈ f_asked s → d0 ∈ f_asked s'.
Proof. intros Hstep; step_cases Hstep; autorewrite with opens; destruct s; cbn in *; set_solver. Qed.

Lemma requests_asked_step s s' : step s s' → shape s → requests_asked s → requests_asked s'.
Proof.
  intros Hstep Hsh Hra d [Hd|[_ ?]]%(requests_step s s' d Hstep Hsh); [|done].
  by apply (asked_mono s), Hra.
Qed.

(** What becomes of the channel. *)
Lemma channel_cases s s' :
  step s s' → shape s →
  f_channel s' = f_channel s
  ∨ (∃ m, f_channel s' = f_channel s ++ [m] ∧ ∀ d i, m ≠ Flush d i)
  ∨ (∃ d i, f_channel s' = f_channel s ++ [Flush d i] ∧ d ∉ f_asked s)
  ∨ (∃ m, f_channel s = m :: f_channel s' ∧ f_work s = [] ∧ f_work s' = [Handle m None; Ready]).
Proof.
  intros Hstep Hsh. pose proof (sh_flight s Hsh) as Hfl. clear Hsh.
  step_cases Hstep; autorewrite with opens; try (by left; destruct s).
  - rewrite Hf in Hfl. apply Forall_app in Hfl as [_ [Hm _]%Forall_cons].
    right; left. exists m. destruct s. split; [done|]. by intros ? ? ->.
  - right; left. exists (RegisterPending (f_next s)). by destruct s.
  - right; left. exists (CompletePending l). by destruct s.
  - right; right; left. exists done, inc. by destruct s.
  - right; right; right. exists m. by destruct s.
Qed.

Lemma flush_item_cases s s' d0 i0 inh0 :
  step s s' → shape s → Handle (Flush d0 i0) inh0 ∈ f_work s' →
  Handle (Flush d0 i0) inh0 ∈ f_work s
  ∨ f_work s = [] ∧ ∃ rest, f_channel s = Flush d0 i0 :: rest.
Proof.
  intros Hstep Hsh Hin. pose proof (sh_handle s Hsh) as Hok. pose proof (sh_buffers s Hsh) as Hbuf.
  revert Hin. step_cases Hstep; autorewrite with opens;
    destruct s as [out0 t n lp0 ch w fl bs h cp a dl r q]; cbn in *; subst; intros Hin;
    try (by left); try (by left; right).
  - left. right. by apply elem_of_cons in Hin as [|].
  - apply elem_of_cons in Hin as [[= <- ->]|Hin]; [right; eauto|].
    by apply list_elem_of_singleton in Hin.
  - left. right. by apply elem_of_cons in Hin as [|].
  - apply Forall_cons in Hok as [Hns _]. cbn in Hns. rewrite Forall_forall in Hns.
    rewrite elem_of_cons, !elem_of_app, elem_of_cons in Hin.
    destruct Hin as [?|[(m & [= <- ->] & Hm%Hns)%list_elem_of_fmap|[Hin|[?|?]]]]; try done.
    + destruct c; [by apply list_elem_of_singleton in Hin|by apply elem_of_nil in Hin].
    + left. by right.
  - rewrite elem_of_app, !elem_of_cons in Hin.
    destruct Hin as [(m' & [= <- ->] & Hm)%list_elem_of_fmap|[?|[?|?]]]; try done.
    + pose proof (sent_barrier b bs Hbuf) as Hbb. rewrite Forall_forall in Hbb. by apply Hbb in Hm.
    + left. by right.
Qed.

(** A flush in hand awaits [l]. *)
Definition concerns (s : Sys) (inc : bool) (l : N) : Prop :=
  l ∈ active_lineages (f_loop s) ∧ (inc = false → l ∉ f_terminal s) ∧ 0 < count (f_outstanding s) l.

Lemma concerns_filter s inc l :
  concerns s inc l ↔
  l ∈ filter (λ l, (inc = true ∨ l ∉ f_terminal s) ∧ 0 < count (f_outstanding s) l)
        (active_lineages (f_loop s)).
Proof. rewrite list_elem_of_filter. unfold concerns. destruct inc; naive_solver. Qed.

(** What becomes of the flushes. *)
Lemma flushes_cases s s' :
  step s s' →
  (∀ f, f ∈ pending_flushes (f_loop s') → f ∈ pending_flushes (f_loop s)
    ∨ ∃ inc inh, Handle (Flush (pf_done f) inc) inh ∈ f_work s ∧ ∀ l, concerns s inc l → l ∈ pf_lineages f)
  ∧ (∀ done, done ∈ f_acks s' → done ∈ f_acks s
    ∨ (∃ inc inh, Handle (Flush done inc) inh ∈ f_work s ∧ ∀ l, ¬ concerns s inc l)
    ∨ ∃ f, f ∈ pending_flushes (f_loop s) ∧ pf_done f = done ∧ flush_ready (f_outstanding s) f = true).
Proof.
  intros Hstep; step_cases Hstep; autorewrite with opens; try (by destruct s; split; auto).
  - pose proof (concerns_filter s inc) as Hcf. unfold defer_or_complete_flush in Hdef.
    destruct (filter _ (active_lineages (f_loop s))) as [|l0 ls] eqn:Heq; injection Hdef as <- <-;
      destruct s as [out0 t n lp0 ch w fl bs h cp a dl r q]; cbn in *; subst; (split; [intros f|intros d0]).
    + auto.
    + rewrite elem_of_app, list_elem_of_singleton. intros [?| ->]; [by left|]. right; left.
      exists inc, inh. split; [by left|]. intros l Hl%Hcf. by apply elem_of_nil in Hl.
    + rewrite elem_of_app, list_elem_of_singleton. intros [?| ->]; [by left|]. right.
      exists inc, inh. cbn. split; [by left|]. intros l. apply Hcf.
    + rewrite elem_of_app, elem_of_nil. tauto.
  - unfold complete_ready_flushes in Hc.
    pose proof (drain_ready_acks (f_outstanding s) (pending_flushes (f_loop s))) as Hacks.
    pose proof (drain_ready_rest (f_outstanding s) (pending_flushes (f_loop s))) as Hrest.
    destruct (drain_ready _ _) as [acks' rest']. injection Hc as <- <-.
    destruct s as [out0 t n lp0 ch w fl bs h cp a dl r q]; cbn in *. split; [auto|].
    intros d0. rewrite elem_of_app. naive_solver.
Qed.

(** A property of a request, by where it is. *)
Record stage (done : N) (channel : bool → list Message → Prop) (work : bool → Prop)
    (pending : PendingFlush → Prop) (acked : Prop) (s : Sys) : Prop := {
  st_channel : ∀ pre post inc, f_channel s = pre ++ Flush done inc :: post → channel inc pre;
  st_work : ∀ inc inh, Handle (Flush done inc) inh ∈ f_work s → work inc;
  st_pending : ∀ f, f ∈ pending_flushes (f_loop s) → pf_done f = done → pending f;
  st_acked : done ∈ f_acks s → acked;
}.

Lemma stage_step done (ch ch' : bool → list Message → Prop) (w w' : bool → Prop)
    (p p' : PendingFlush → Prop) (a a' : Prop) s s' :
  step s s' → shape s → done ∈ f_asked s → stage done ch w p a s →
  (∀ inc pre, ch inc pre → ch' inc pre) →
  (∀ inc m pre, f_work s' = [Handle m None; Ready] → ch inc (m :: pre) → ch' inc pre) →
  (∀ inc, f_work s = [] → ch inc [] → w' inc) →
  (∀ inc, w inc → w' inc) →
  (∀ inc f, w inc → (∀ l, concerns s inc l → l ∈ pf_lineages f) → p' f) →
  (∀ inc, w inc → (∀ l, ¬ concerns s inc l) → a') →
  (∀ f, p f → p' f) → (∀ f, p f → flush_ready (f_outstanding s) f = true → a') → (a → a') →
  stage done ch' w' p' a' s'.
Proof.
  intros Hstep Hsh Hask [H1 H2 H3 H4] Hch Hrecv Hhand Hw Hdefer Hnow Hp Hready Ha.
  destruct (flushes_cases s s' Hstep) as [Hpend Hack]. split.
  - intros pre post inc Heq.
    destruct (channel_cases s s' Hstep Hsh) as [Hs|[(m & Hs & Hm)|[(d & i & Hs & Hd)|(m & Hs & _ & Hs')]]].
    + rewrite Hs in Heq. eauto.
    + rewrite Hs in Heq. apply snoc_split in Heq as [(_ & -> & _)|(post' & _ & Hc)]; [|eauto].
      by destruct (Hm done inc).
    + rewrite Hs in Heq. apply snoc_split in Heq as [(_ & [= -> ->] & _)|(post' & _ & Hc)]; [done|eauto].
    + apply (Hrecv inc m pre Hs'), (H1 (m :: pre) post). by rewrite Hs, Heq.
  - intros inc inh Hin. destruct (flush_item_cases s s' _ _ _ Hstep Hsh Hin) as [?|(Hw0 & rest & Hs)]; [eauto|].
    apply (Hhand inc Hw0), (H1 [] rest). done.
  - intros f Hf Hd. destruct (Hpend f Hf) as [?|(inc & inh & Hin & Hl)]; [eauto|].
    rewrite Hd in Hin. eauto.
  - intros Hd. destruct (Hack done Hd) as [?|[(inc & inh & Hin & Hl)|(f & Hf & Hfd & Hr)]]; eauto.
Qed.

(** *** Flushes wait for what was going on *)

(** While something of [l] is left, the request for it is still waiting. *)
Definition awaiting (done l : N) (s : Sys) : Prop :=
  stage done
    (λ inc pre, (inc = false → l ∉ f_terminal s)
       ∧ (l ∈ active_lineages (f_loop s) ∨ in_work s l ∨ l ∈ omap lineage_of pre))
    (λ inc, (inc = false → l ∉ f_terminal s) ∧ l ∈ active_lineages (f_loop s))
    (λ f, l ∈ pf_lineages f) False s.

Lemma awaiting_step done l s s' :
  step s s' → shape s → counted s → below s → Forall (started (f_loop s)) (f_work s) → done ∈ f_asked s →
  0 < count (f_outstanding s) l → 0 < count (f_outstanding s') l →
  awaiting done l s → awaiting done l s'.
Proof.
  intros Hstep Hsh Hc Hb Hst Hask Hp Hp' Hs.
  assert (l ∉ f_terminal s → l ∉ f_terminal s') as Hterm.
  { intros Hn [?|[-> _]]%(terminal_step s s' l Hstep); [done|]. apply (bl_count s Hb) in Hp. lia. }
  assert (l ∈ active_lineages (f_loop s) → l ∈ active_lineages (f_loop s')) as Hact by by apply active_kept.
  assert (in_work s l → l ∈ active_lineages (f_loop s') ∨ in_work s' l) as Hwork by by apply in_work_step.
  eapply (stage_step done); [done..|exact Hs| | | | | | | | |]; cbv beta.
  - intros inc pre [? ?]. naive_solver.
  - intros inc m pre Hw [? Hl]. split; [naive_solver|].
    destruct Hl as [?|[?|Hl]]; [naive_solver..|].
    apply list_elem_of_omap in Hl as (m' & [->|Hm]%elem_of_cons & Hl).
    + right; left. unfold in_work. rewrite Hw. cbn. rewrite Hl. by left.
    + right; right. apply list_elem_of_omap. eauto.
  - intros inc Hw [? Hl]. split; [naive_solver|]. destruct Hl as [?|[Hl|Hl]]; [naive_solver| |by apply elem_of_nil in Hl].
    unfold in_work in Hl. rewrite Hw in Hl. by apply elem_of_nil in Hl.
  - naive_solver.
  - intros inc f [? ?] Hf. apply Hf. by split_and!.
  - intros inc [? ?] Hf. by apply (Hf l).
  - done.
  - intros f Hl Hr. pose proof (flush_ready_zero _ _ _ Hr Hl). lia.
  - done.
Qed.

(** *** Flushes come after the deliveries that were queued *)

Definition delivery_of (m : Message) : option N :=
  match m with
  | Deliver d _ _ => Some d
  | _ => None
  end.

Definition item_deliveries (i : Item) : list N :=
  match i with
  | Handle m _ => option_list (delivery_of m)
  | Delivering d _ _ ns => d :: omap delivery_of ns
  | DropPermit _ | Complete _ | Ready => []
  end.

Definition handed (s : Sys) (d : N) : Prop := d ∈ f_delivered s ∨ d ∈ (f_work s ≫= item_deliveries).

Lemma dv_cons (i : Item) l : (i :: l) ≫= item_deliveries = item_deliveries i ++ (l ≫= item_deliveries).
Proof. done. Qed.

Lemma dv_handles (ns : list Message) inh :
  ((λ m, Handle m inh) <$> ns) ≫= item_deliveries = omap delivery_of ns.
Proof. induction ns as [|m ns IH]; [done|]. cbn. rewrite IH. by destruct (delivery_of m). Qed.

Lemma handed_step s s' d0 : step s s' → handed s d0 → handed s' d0.
Proof.
  intros Hstep. unfold handed.
  step_cases Hstep; autorewrite with opens;
    destruct s as [out0 t n lp0 ch w fl bs h cp a dl r q]; cbn in *; subst; auto.
  all: rewrite ?bind_app, ?dv_cons, ?dv_handles, ?omap_app; cbn [item_deliveries delivery_of option_list].
  all: repeat (rewrite elem_of_app || rewrite elem_of_cons || rewrite elem_of_nil).
  all: try tauto.
Qed.

Lemma delivered_mono s s' d0 : step s s' → d0 ∈ f_delivered s → d0 ∈ f_delivered s'.
Proof.
  intros Hstep; step_cases Hstep; autorewrite with opens; destruct s; cbn in *; try done.
  intros ?. apply elem_of_app. by left.
Qed.

Definition overtaken (done d : N) (s : Sys) : Prop :=
  stage done (λ _ pre, handed s d ∨ d ∈ omap delivery_of pre)
    (λ _, d ∈ f_delivered s) (λ _, d ∈ f_delivered s) (d ∈ f_delivered s) s.

Lemma overtaken_step done d s s' :
  step s s' → shape s → done ∈ f_asked s → overtaken done d s → overtaken done d s'.
Proof.
  intros Hstep Hsh Hask Hs. pose proof (handed_step s s' d Hstep). pose proof (delivered_mono s s' d Hstep).
  eapply (stage_step done); [done..|exact Hs| | | | | | | | |]; cbv beta; try naive_solver.
  - intros _ m pre Hw [?|Hl]; [naive_solver|].
    apply list_elem_of_omap in Hl as (m' & [->|Hm]%elem_of_cons & Hl).
    + left; right. rewrite Hw. cbn. rewrite Hl. by left.
    + right. apply list_elem_of_omap. eauto.
  - intros _ Hw [[?|Hl]|Hl]; [auto| |by apply elem_of_nil in Hl].
    rewrite Hw in Hl. by apply elem_of_nil in Hl.
Qed.

Record inv (s : Sys) : Prop := {
  inv_shape : shape s;
  inv_counted : counted s;
  inv_below : below s;
  inv_started : Forall (started (f_loop s)) (f_work s);
  inv_asked : requests_asked s;
}.

Lemma inv_initial : inv initial.
Proof.
  split.
  - apply shape_initial.
  - intros l. cbn. by rewrite decide_False by set_solver.
  - split; cbn.
    + intros l. unfold count. rewrite lookup_empty. cbn. lia.
    + intros l Hl. by apply elem_of_nil in Hl.
    + intros l [Hl|[inh Hl]]; by apply elem_of_nil in Hl.
    + set_solver.
  - constructor.
  - intros d Hd. by apply elem_of_nil in Hd.
Qed.

Lemma inv_step s s' : step s s' → inv s → inv s'.
Proof.
  intros Hstep [Hsh Hc Hb Hst Hra].
  assert (counted s') as Hc'.
  { apply (counted_step s s' Hstep Hsh); [|done]. intros h Hh. by apply handles_below. }
  split; [by apply (shape_step s)|done|by apply (below_step s)|by apply (started_step s)|].
  by apply (requests_asked_step s).
Qed.

Lemma inv_run s s' : rtc step s s' → inv s → inv s'.
Proof. induction 1; eauto using inv_step. Qed.

Lemma reachable_inv s : reachable s → inv s.
Proof. intros Hr. apply (inv_run initial); [done|apply inv_initial]. Qed.

(** *** No flush is forgotten *)

Definition barrier_of (m : Message) : option N :=
  match m with
  | Barrier b _ => Some b
  | _ => None
  end.

Definition item_barriers (i : Item) : list N :=
  match i with
  | Handle m _ => option_list (barrier_of m)
  | Delivering _ _ _ ns => omap barrier_of ns
  | DropPermit _ | Complete _ | Ready => []
  end.

(** A buffer outlives its barrier, and the first pending flush is blocked
    unless the dispatcher is going to look at it again. *)
Record awake (s : Sys) : Prop := {
  aw_buffers : ∀ b, is_Some (f_buffers s !! b) →
    b ∈ omap barrier_of (f_channel s) ∨ b ∈ (f_work s ≫= item_barriers);
  aw_head : f_work s = [] → f_channel s = [] → ∀ f fs,
    pending_flushes (f_loop s) = f :: fs → flush_ready (f_outstanding s) f = false;
}.

Lemma bar_cons (i : Item) l : (i :: l) ≫= item_barriers = item_barriers i ++ (l ≫= item_barriers).
Proof. done. Qed.

Lemma bar_handles (ns : list Message) inh :
  ((λ m, Handle m inh) <$> ns) ≫= item_barriers = omap barrier_of ns.
Proof.
  induction ns as [|m ns IH]; [done|]. cbn. rewrite IH. by destruct (barrier_of m).
Qed.

Lemma opens_bound m s b :
  is_Some (f_buffers (opens m s) !! b) → is_Some (f_buffers s !! b) ∨ barrier_of m = Some b.
Proof.
  destruct m as [| | | |b' l], s; cbn; auto. destruct (decide (b' = b)) as [->|Hne]; [auto|].
  rewrite lookup_insert_ne by done. auto.
Qed.

Lemma barrier_one m b : barrier_of m = Some b → b ∈ option_list (barrier_of m).
Proof. intros ->. by left. Qed.

Lemma buffers_step s s' :
  step s s' → awake s → ∀ b, is_Some (f_buffers s' !! b) →
    b ∈ omap barrier_of (f_channel s') ∨ b ∈ (f_work s' ≫= item_barriers).
Proof.
  intros Hstep [Hb0 _] k.
  step_cases Hstep; autorewrite with opens; try (intros [Hk|Hm]%opens_bound);
    try (apply barrier_one in Hm);
    destruct s as [out0 t n lp0 ch w fl bs h cp a dl r q]; cbn in *; subst;
    rewrite ?omap_app, ?bind_app, ?bar_cons, ?bar_handles in *;
    cbn [item_barriers barrier_of option_list] in *;
    try intros Hk; try (specialize (Hb0 k));
    rewrite ?omap_app, ?elem_of_app, ?elem_of_nil.
  all: try (specialize (Hb0 Hk); cbn in Hb0; rewrite ?elem_of_app in Hb0; tauto).
  all: try (destruct (decide (k = b)) as [->|Hne];
    [|rewrite lookup_insert_ne in Hk by done; specialize (Hb0 Hk); rewrite ?elem_of_app in Hb0; tauto]).
  all: try (apply Hb0; by eexists).
  - left. right. cbn. by destruct (barrier_of m).
  - right. left. right. cbn. by destruct (barrier_of m).
  - destruct Hb0 as [Hin|Hin]; [done| |by apply elem_of_nil in Hin].
    cbn in Hin. destruct (barrier_of m); cbn; [|by left].
    apply elem_of_cons in Hin as [->|Hin]; [right; left; by left|by left].
  - destruct (decide (k = b)) as [->|Hne]; [rewrite lookup_delete_eq in Hk; by destruct Hk|].
    rewrite lookup_delete_ne in Hk by done. specialize (Hb0 Hk). cbn in Hb0.
    rewrite elem_of_cons in Hb0. tauto.
Qed.

Lemma flush_ready_new l o f : flush_ready o f = false → flush_ready (permit_new l o) f = false.
Proof.
  intros Hf. destruct (flush_ready (permit_new l o) f) eqn:Hr; [|done]. rewrite <-Hf. symmetry.
  unfold flush_ready. apply forallb_forall. intros l' Hl%list_elem_of_In. apply Nat.eqb_eq.
  apply (flush_ready_zero _ _ _ Hr) in Hl. rewrite count_new in Hl. lia.
Qed.

Lemma head_step s s' :
  step s s' → shape s → awake s →
  f_work s' = [] → f_channel s' = [] → ∀ f fs,
    pending_flushes (f_loop s') = f :: fs → flush_ready (f_outstanding s') f = false.
Proof.
  intros Hstep Hsh [Hbuf Hhd].
  assert (∀ b buf, f_buffers s !! b = Some buf → f_channel s = [] → f_work s ≠ []) as Hnb.
  { intros b buf Hb Hch Hw. destruct (Hbuf b) as [Hin|Hin]; [by eexists|..].
    - rewrite Hch in Hin. by apply elem_of_nil in Hin.
    - rewrite Hw in Hin. by apply elem_of_nil in Hin. }
  clear Hbuf.
  step_cases Hstep; try pose proof (work_rest s _ _ Hsh Hw ltac:(done)) as [Hrest _];
    autorewrite with opens;
    destruct s as [out0 t n lp0 ch w fl bs h cp a dl r q]; cbn in *; subst; try done.
  all: try (intros -> -> f fs Hp; apply flush_ready_new; by apply (Hhd eq_refl eq_refl f fs)).
  all: try (intros _ Happ; by apply app_nil in Happ as [_ ?]).
  all: try (intros -> ->; exfalso; by eapply Hnb).
  { intros Happ. by apply app_nil in Happ as [_ ?]. }
  intros -> _ f fs. unfold complete_ready_flushes in Hc.
  pose proof (drain_ready_blocked out0 (pending_flushes lp0)) as Hbl.
  destruct (drain_ready out0 (pending_flushes lp0)) as [acks' rest'].
  injection Hc as <- <-. cbn in *. apply Hbl.
Qed.

Lemma reachable_awake s : reachable s → awake s.
Proof.
  unfold reachable. intros Hr.
  assert (inv s ∧ awake s) as [_ ?]; [|done].
  assert (inv initial ∧ awake initial) as H0.
  { split; [apply inv_initial|]. split; cbn; [|done].
    intros b [? Hb]. by rewrite lookup_empty in Hb. }
  revert H0 Hr. generalize initial. intros s0 H0 Hr.
  induction Hr as [|s1 s2 s3 Hstep _ IH]; [done|]. apply IH. destruct H0 as [Hi Ha].
  split; [by apply (inv_step s1)|]. split.
  - by apply (buffers_step s1).
  - by apply (head_step s1), Ha; [|apply Hi].
Qed.

(** ** Properties *)

(** Nothing of the lineage is under way, queued, buffered, in delivery or
    pending. *)
Definition finished (s : Sys) (l : N) : Prop :=
  (∀ m, m ∈ f_flight s ++ f_channel s → permit_of m ≠ Some l)
  ∧ (∀ i, i ∈ f_work s → l ∉ item_permits i)
  ∧ (∀ b buf m, f_buffers s !! b = Some buf → m ∈ buffer_messages buf → permit_of m ≠ Some l)
  ∧ l ∉ f_handles s.

Lemma finished_zero s l : counted s → count (f_outstanding s) l = 0 → finished s l.
Proof.
  intros Hc Hz. assert (permits s l = 0) as Hp by (by rewrite <-Hc). unfold permits in Hp.
  assert (∀ xs, occ l xs = 0 → l ∉ xs) as Hocc.
  { intros xs Hx Hin%occ_pos. lia. }
  assert (∀ ms, occ l (omap permit_of ms) = 0 → ∀ m, m ∈ ms → permit_of m ≠ Some l) as Hms.
  { intros ms Ho m Hm Hl. apply (Hocc _ Ho), list_elem_of_omap. eauto. }
  split_and!.
  - intros m [?|?]%elem_of_app; eapply Hms; [|done| |done]; lia.
  - intros i Hi Hl. eapply (Hocc (f_work s ≫= item_permits)); [lia|].
    apply list_elem_of_bind. eauto.
  - intros b buf m Hb Hm Hl. eapply (Hocc (buffered (f_buffers s))); [lia|].
    unfold buffered. apply list_elem_of_bind. exists (b, buf).
    split; [apply list_elem_of_omap; eauto|by apply elem_of_map_to_list].
  - intros Hh. rewrite decide_True in Hp by done. lia.
Qed.

(** Deliveries that are queued or in the dispatcher's hands. *)
Definition due (s : Sys) (d : N) : Prop :=
  d ∈ omap delivery_of (f_channel s) ∨ d ∈ (f_work s ≫= item_deliveries).

(** What a flush waits for. *)
Definition promised (s : Sys) (include_pending : bool) (l : N) : Prop :=
  known s l ∧ (include_pending = false → l ∉ f_terminal s).

(** At some time of the run nothing of [l] was left. *)
Definition settled (s1 s : Sys) (l : N) : Prop :=
  ∃ sm, rtc step s1 sm ∧ rtc step sm s ∧ finished sm l ∧ (l ∉ f_captured sm → finished s l).

Lemma dry_run s s' l : rtc step s s' → inv s → dry s l → dry s' l.
Proof.
  induction 1 as [|s1 s2 s3 Hstep _ IH]; [done|]. intros Hi Hd. apply IH; [by apply (inv_step s1)|].
  destruct Hi. by apply (dry_step s1).
Qed.

Lemma settled_zero s1 sm s l :
  rtc step s1 sm → rtc step sm s → inv sm → (l < f_next sm)%N → count (f_outstanding sm) l = 0 →
  settled s1 s l.
Proof.
  intros H1 H2 Hi Hl Hz. exists sm. split_and!; [done..|by apply finished_zero, Hz; apply Hi|].
  intros Hcp. pose proof (inv_run sm s H2 Hi) as Hs.
  apply finished_zero; [apply Hs|]. by apply (dry_run sm s l H2 Hi).
Qed.

Lemma awaiting_run done l s1 s :
  rtc step s1 s → inv s1 → done ∈ f_asked s1 → (l < f_next s1)%N → awaiting done l s1 →
  settled s1 s l ∨ awaiting done l s ∧ 0 < count (f_outstanding s) l.
Proof.
  intros Hr Hi Hask Hl Haw.
  destruct (decide (count (f_outstanding s1) l = 0)) as [Hz|Hz].
  { left. by apply (settled_zero s1 s1). }
  revert Haw Hz. induction Hr as [s1|s1 s2 s3 Hstep Hr IH]; intros Haw Hz; [right; split; [done|lia]|].
  pose proof (inv_step s1 s2 Hstep Hi) as Hi2. pose proof (next_step s1 s2 Hstep).
  destruct (decide (count (f_outstanding s2) l = 0)) as [Hz2|Hz2].
  { left. apply (settled_zero s1 s2); [by apply rtc_once|done..|lia|done]. }
  destruct IH as [(sm & ? & ?)|?]; [done|by apply (asked_mono s1)|lia| |done| |by right].
  - destruct Hi. apply (awaiting_step done l s1); [done..|lia|lia|done].
  - left. exists sm. split; [by eapply rtc_l|done].
Qed.

Lemma overtaken_run done d s1 s :
  rtc step s1 s → inv s1 → done ∈ f_asked s1 → overtaken done d s1 → overtaken done d s.
Proof.
  induction 1 as [|s1 s2 s3 Hstep _ IH]; [done|]. intros Hi Hask Ho.
  apply IH; [by apply (inv_step s1)|by apply (asked_mono s1)|]. by apply (overtaken_step done d s1), Ho; [|apply Hi|].
Qed.

(** A request that was just made is behind everything else. *)
Lemma asked_stage done inc s ch w p a :
  requests_asked s → done ∉ f_asked s →
  ch inc (f_channel s) → stage done ch w p a (ask done inc s).
Proof.
  intros Hra Hd Hch. assert (done ∉ requests s) as Hn by (by intros ?%Hra).
  unfold requests in Hn. rewrite !elem_of_app in Hn. destruct s as [out0 t n lp0 c wk fl bs h cp ak dl r q].
  cbn in *. split; cbn.
  - intros pre post inc' Heq. apply snoc_split in Heq as [(_ & [= ->] & ->)|(post' & _ & ->)]; [done|].
    destruct Hn. left. rewrite omap_app. apply elem_of_app. right. by left.
  - intros inc' inh Hin. destruct Hn. right; left. apply list_elem_of_bind.
    exists (Handle (Flush done inc') inh). split; [by left|done].
  - intros f Hf <-. destruct Hn. right; right; left. apply list_elem_of_fmap. eauto.
  - intros ?. destruct Hn. auto.
Qed.

(** C2: a flush is a barrier.  When it is acknowledged, every delivery that was
    queued or in hand when it was asked for has been made, and every lineage
    that was registered or on its way (leaving out pending publications if
    the flush does) has had a time since then at which nothing of it was
    left: no publication of it, direct or emitted by the callbacks of one,
    was under way, queued, buffered, in delivery or to come from a pending
    handle.  If no captured buffer of the lineage was alive at that time, it
    stays so; such a buffer can publish on it again. *)
Theorem flush_is_barrier s0 done include_pending s :
  reachable s0 → done ∉ f_asked s0 →
  rtc step (ask done include_pending s0) s → done ∈ f_acks s →
  (∀ d, due s0 d → d ∈ f_delivered s)
  ∧ ∀ l, promised s0 include_pending l → settled (ask done include_pending s0) s l.
Proof.
  intros Hr Hd Hs Hack. pose proof (reachable_inv s0 Hr) as Hi0.
  pose proof (inv_step _ _ (step_flush s0 done include_pending Hd) Hi0) as Hi.
  assert (done ∈ f_asked (ask done include_pending s0)) as Hask by (destruct s0; cbn; set_solver).
  split.
  - intros d Hdue. assert (overtaken done d s) as Ho; [|by apply (st_acked _ _ _ _ _ _ Ho)].
    apply (overtaken_run done d _ s Hs Hi Hask), asked_stage; [apply Hi0|done|].
    destruct s0, Hdue; [by right|left; by right].
  - intros l [Hk Hp]. destruct (awaiting_run done l _ s Hs Hi Hask) as [?|[Haw _]]; [| |done|].
    + pose proof (known_below s0 l (inv_shape _ Hi0) (inv_counted _ Hi0) (inv_below _ Hi0) Hk).
      by destruct s0.
    + apply asked_stage; [apply Hi0|done|]. split; [by destruct s0|].
      destruct s0, Hk as [?|[?|?]]; [by left|right; by left|by do 2 right].
    + by destruct (st_acked _ _ _ _ _ _ Haw Hack).
Qed.

(** C32: no flush is forgotten: when the channel is empty, the dispatcher idle,
    no thread is about to send a message and every pending handle is
    dropped, no flush is left waiting. *)
Theorem flush_always_acknowledged s :
  reachable s → f_channel s = [] → f_work s = [] → f_flight s = [] → f_handles s = ∅ →
  pending_flushes (f_loop s) = [].
Proof.
  intros Hr Hch Hw Hfl Hh. destruct (reachable_awake s Hr) as [Hbuf Hhead].
  destruct (pending_flushes (f_loop s)) as [|f fs] eqn:Hp; [done|]. exfalso.
  specialize (Hhead Hw Hch f fs eq_refl). unfold flush_ready in Hhead.
  assert (f_buffers s = ∅) as Hb.
  { apply map_empty. intros b. destruct (f_buffers s !! b) eqn:Hb; [|done].
    destruct (Hbuf b) as [Hin|Hin]; [by eexists|rewrite Hch in Hin|rewrite Hw in Hin];
      by apply elem_of_nil in Hin. }
  assert (∀ l, count (f_outstanding s) l = 0) as Hz.
  { intros l. rewrite (inv_counted s (reachable_inv s Hr)). unfold permits.
    rewrite Hch, Hw, Hfl, Hb, Hh, decide_False by set_solver. unfold buffered.
    by rewrite map_to_list_empty. }
  rewrite (proj2 (forallb_forall _ _)) in Hhead; [done|]. intros l _. by rewrite Hz.
Qed.

(** *** Witnesses: a delivery whose callback publishes again, and a flush that
    was asked for in between; the callback's buffer was captured *)

Ltac do_step tac := eapply rtc_l; [tac|]; cbn.

Ltac publish l d :=
  do_step ltac:(apply (step_attach _ l d false); first
    [by right | left; right; left; do 4 eexists; reflexivity | left; right; right; cbn; set_solver]);
  do_step ltac:(eapply (step_send _ []); [reflexivity|exact I]).

Lemma demo_run :
  ∃ s0 s, reachable s0 ∧ 7%N ∉ f_asked s0 ∧ due s0 1 ∧ promised s0 true 0
    ∧ rtc step (ask 7 true s0) s ∧ reachable s
    ∧ 7%N ∈ f_acks s ∧ f_delivered s = [1%N; 2%N]
    ∧ f_channel s = [] ∧ f_work s = [] ∧ f_flight s = [] ∧ f_handles s = ∅
    ∧ 0%N ∈ f_captured s ∧ f_next s = 1%N.
Proof.
  assert (∃ s0 s, reachable s0 ∧ 7%N ∉ f_asked s0 ∧ due s0 1 ∧ promised s0 true 0
    ∧ rtc step (ask 7 true s0) s
    ∧ 7%N ∈ f_acks s ∧ f_delivered s = [1%N; 2%N]
    ∧ f_channel s = [] ∧ f_work s = [] ∧ f_flight s = [] ∧ f_handles s = ∅
    ∧ 0%N ∈ f_captured s ∧ f_next s = 1%N) as (s0 & s & Hr & Ha & Hd & Hp & Hs & Hrest).
  { eexists _, _. split.
    { unfold reachable. publish 0%N 1%N. apply rtc_refl. }
    split; [cbn; set_solver|]. split; [left; by left|].
    split; [split; [do 2 right; by left|done]|]. split.
    { cbn.
      do_step ltac:(eapply step_recv; reflexivity).
      do_step ltac:(eapply step_handle_deliver; reflexivity).
      do_step ltac:(apply (step_capture _ 0); right; left; do 4 eexists; reflexivity).
      publish 0%N 2%N.
      do_step ltac:(eapply step_delivered; reflexivity).
      do_step ltac:(eapply step_drop_permit; reflexivity).
      do_step ltac:(eapply step_ready; reflexivity).
      do_step ltac:(eapply step_ready; reflexivity).
      do_step ltac:(eapply step_recv; reflexivity).
      do_step ltac:(eapply step_handle_flush; reflexivity).
      do_step ltac:(eapply step_ready; reflexivity).
      do_step ltac:(eapply step_recv; reflexivity).
      do_step ltac:(eapply step_handle_deliver; reflexivity).
      do_step ltac:(eapply step_delivered; reflexivity).
      do_step ltac:(eapply step_drop_permit; reflexivity).
      do_step ltac:(eapply step_ready; reflexivity).
      do_step ltac:(eapply step_ready; reflexivity).
      apply rtc_refl. }
    cbn. split_and!; [by left|reflexivity..|set_solver|reflexivity]. }
  exists s0, s. split_and!; try apply Hrest; try done.
  unfold reachable in *. etrans; [exact Hr|]. eapply rtc_l; [by apply step_flush|done].
Qed.

Lemma flush_is_barrier_witness :
  ∃ s0 s, 7%N ∈ f_acks s ∧ 1%N ∈ f_delivered s ∧ settled (ask 7 true s0) s 0.
Proof.
  destruct demo_run as (s0 & s & Hr & Ha & Hd & Hp & Hs & _ & Hack & _).
  destruct (flush_is_barrier s0 7 true s Hr Ha Hs Hack) as [Hdel Hset].
  exists s0, s. split_and!; [exact Hack|exact (Hdel 1%N Hd)|exact (Hset 0%N Hp)].
Defined.

(** A captured buffer publishes on a lineage that an acknowledged flush had
    found settled. *)
Lemma captured_buffer_reopens :
  ∃ s s', reachable s ∧ 7%N ∈ f_acks s ∧ finished s 0 ∧ step s s' ∧ ¬ finished s' 0.
Proof.
  destruct demo_run as (s0 & s & _ & _ & _ & _ & _ & Hr & Hack & _ & Hch & Hw & Hfl & Hh & Hcp & _).
  exists s. eexists. split_and!; [done..| |apply (step_attach s 0 3 false); left; by do 2 right|].
  - destruct (reachable_awake s Hr) as [Hbuf _]. unfold finished. rewrite Hch, Hw, Hfl, Hh.
    split_and!; [intros ? ?%elem_of_nil; done|intros ? ?%elem_of_nil; done| |set_solver].
    intros b buf m Hb. destruct (Hbuf b) as [Hin|Hin]; [by eexists|rewrite Hch in Hin|rewrite Hw in Hin];
      by apply elem_of_nil in Hin.
  - intros (Hm & _). apply (Hm (Deliver 3 (Some 0%N) false)); [|done]. destruct s; cbn.
    apply elem_of_app. left. apply elem_of_app. right. by left.
Qed.

Lemma flush_always_acknowledged_witness :
  ∃ s, 7%N ∈ f_acks s ∧ pending_flushes (f_loop s) = [].
Proof.
  destruct demo_run as (s0 & s & _ & _ & _ & _ & _ & Hr & Hack & _ & Hch & Hw & Hfl & Hh & _).
  exists s. split; [exact Hack|exact (flush_always_acknowledged s Hr Hch Hw Hfl Hh)].
Defined.
