(* ===== verification/DetailPool.v ===== *)
(** * The pool of diagnostic detail text

    [src/crates/diagnostics/src/storage.rs]: a fixed number of fixed-size
    blocks holds the text of the retained events.  A text is cut into pieces
    of whole characters, the pieces fill a chain of blocks, and the chain is
    named by a handle that carries a generation.  Free blocks form a chain of
    their own through the same [next] links.

    Byte positions and block numbers are [nat], the link [usize::MAX]
    ([NO_BLOCK]) is [None], generations are 64-bit values in [N].  An
    operation that can panic returns an [option]: [None] is an index out of
    range or an underflow.  The last part shows that no operation on a pool
    reached from [new] panics, that a live handle reads back its text, and
    that a released handle never resolves again. *)

From Stdlib Require Import Ascii.
From stdpp Require Import base numbers strings list.
From S2P Require Import Prelude Text Utf8.

(** ** Cutting text into pieces *)

(** [while !text.is_char_boundary(end) { end -= 1; }] *)
Fixpoint boundary_below (text : string) (n : nat) : nat :=
  if is_char_boundary text n then n
  else match n with
       | 0 => 0
       | S n' => boundary_below text n'
       end.

Definition chunk_end (text : string) (max_bytes : nat) : nat :=
  boundary_below text (min (String.length text) max_bytes).

Record TextChunks := {
  tc_parts : list string;
  tc_part : nat;
  tc_offset : nat;
  tc_used : nat;
  tc_block_bytes : nat;
}.

Definition TextChunks_new (parts : list string) (block_bytes : nat) : TextChunks :=
  {| tc_parts := parts; tc_part := 0; tc_offset := 0; tc_used := 0; tc_block_bytes := block_bytes |}.

(** [TextChunks::next].  The loop over empty parts runs at most once per
    part, which bounds [fuel]. *)
Fixpoint next_piece (fuel : nat) (t : TextChunks) : option ((string * bool) * TextChunks) :=
  match fuel with
  | 0 => None
  | S fuel =>
      match tc_parts t !! tc_part t with
      | None => None
      | Some text =>
          let remainder := str_drop (tc_offset t) text in
          if str_empty remainder then
            next_piece fuel {| tc_parts := tc_parts t; tc_part := S (tc_part t); tc_offset := 0;
                               tc_used := tc_used t; tc_block_bytes := tc_block_bytes t |}
          else
            let end0 := chunk_end remainder (tc_block_bytes t - tc_used t) in
            let (used, stop) :=
              if end0 =? 0 then (0, chunk_end remainder (tc_block_bytes t)) else (tc_used t, end0) in
            Some ((str_take stop remainder, used =? 0),
                  {| tc_parts := tc_parts t; tc_part := tc_part t; tc_offset := tc_offset t + stop;
                     tc_used := used + stop; tc_block_bytes := tc_block_bytes t |})
      end
  end.

Definition next (t : TextChunks) : option ((string * bool) * TextChunks) :=
  next_piece (S (length (tc_parts t))) t.

(** The items of the iterator.  Every piece holds at least one byte, so the
    length of the text bounds their number. *)
Fixpoint pieces (fuel : nat) (t : TextChunks) : list (string * bool) :=
  match fuel with
  | 0 => []
  | S fuel =>
      match next t with
      | None => []
      | Some (item, t') => item :: pieces fuel t'
      end
  end.

Definition text_of (parts : list string) : string := String.concat "" parts.

Definition text_chunks (parts : list string) (block_bytes : nat) : list (string * bool) :=
  pieces (S (String.length (text_of parts))) (TextChunks_new parts block_bytes).

(** ** The pool *)

Definition usize_max : N := 18446744073709551615.
Definition max_u64 : N := 18446744073709551615.

(** [size_of::<Block>()] of three words. *)
Definition block_size : N := 24.

Record DetailHandle := {
  dh_first : option nat;
  dh_generation : N;
  dh_len : nat;
}.

Record DetailPlan := {
  dp_parts : list string;
  dp_needed : nat;
  dp_block_bytes : nat;
}.

Record Block := {
  bk_next : option nat;
  bk_generation : N;
  bk_len : nat;
}.

Record DetailPool := {
  po_bytes : list ascii;
  po_blocks : list Block;
  po_block_bytes : nat;
  po_free_head : option nat;
  po_free_blocks : nat;
  po_generation : N;
}.

#[global] Instance DetailHandle_eq_dec : EqDecision DetailHandle.
Proof. solve_decision. Defined.

#[global] Instance Block_eq_dec : EqDecision Block.
Proof. solve_decision. Defined.

Definition checked_usize (n : N) : option N := if (n <=? usize_max)%N then Some n else None.

(** [DetailPool::required_bytes]; [None] is the capacity error. *)
Definition pool_required_bytes (capacity_bytes block_bytes : nat) : option N :=
  if block_bytes <? 4 then None
  else
    let count := N.of_nat (capacity_bytes / block_bytes) in
    data ← checked_usize (count * N.of_nat block_bytes);
    metadata ← checked_usize (count * block_size);
    checked_usize (data + metadata).

Definition fresh_block (count index : nat) : Block :=
  {| bk_next := if S index <? count then Some (S index) else None; bk_generation := 0; bk_len := 0 |}.

(** [DetailPool::new].  [reserve] is the allocator's answer to
    [try_reserve_exact]; [None] is the capacity error. *)
Definition pool_new (reserve : N → bool) (capacity_bytes block_bytes : nat) : option DetailPool :=
  if block_bytes <? 4 then None
  else
    let count := capacity_bytes / block_bytes in
    byte_count ← checked_usize (N.of_nat count * N.of_nat block_bytes);
    metadata ← checked_usize (N.of_nat count * block_size);
    _ ← checked_usize (metadata + byte_count);
    if reserve byte_count then
      if reserve (N.of_nat count) then
        Some {| po_bytes := replicate (count * block_bytes) Ascii.zero;
                po_blocks := fresh_block count <$> seq 0 count;
                po_block_bytes := block_bytes;
                po_free_head := if count =? 0 then None else Some 0;
                po_free_blocks := count;
                po_generation := 0 |}
      else None
    else None.

Definition pool_reserved_bytes (p : DetailPool) : N :=
  N.of_nat (length (po_bytes p)) + N.of_nat (length (po_blocks p)) * block_size.

Definition used_bytes (p : DetailPool) : nat :=
  (length (po_blocks p) - po_free_blocks p) * po_block_bytes p.

Definition capacity_bytes (p : DetailPool) : nat := length (po_bytes p).

Definition metadata_bytes (p : DetailPool) : N := N.of_nat (length (po_blocks p)) * block_size.

Definition logical_bytes (p : DetailPool) : nat := sum_list (bk_len <$> po_blocks p).

(** [plan_parts]: the number of blocks the text needs, counted no further
    than one past the size of the pool. *)
Definition plan_parts (p : DetailPool) (parts : list string) : option DetailPlan :=
  let starts := filter (λ item, item.2 = true) (text_chunks parts (po_block_bytes p)) in
  let needed := length (take (S (length (po_blocks p))) starts) in
  if (needed =? 0) || (negb (po_generation p =? max_u64)%N && (needed <=? length (po_blocks p)))
  then Some {| dp_parts := parts; dp_needed := needed; dp_block_bytes := po_block_bytes p |}
  else None.

Definition with_blocks (p : DetailPool) (blocks : list Block) : DetailPool :=
  {| po_bytes := po_bytes p; po_blocks := blocks; po_block_bytes := po_block_bytes p;
     po_free_head := po_free_head p; po_free_blocks := po_free_blocks p;
     po_generation := po_generation p |}.

Definition with_free (p : DetailPool) (head : option nat) (count : nat) : DetailPool :=
  {| po_bytes := po_bytes p; po_blocks := po_blocks p; po_block_bytes := po_block_bytes p;
     po_free_head := head; po_free_blocks := count; po_generation := po_generation p |}.

Definition with_bytes (p : DetailPool) (bytes : list ascii) : DetailPool :=
  {| po_bytes := bytes; po_blocks := po_blocks p; po_block_bytes := po_block_bytes p;
     po_free_head := po_free_head p; po_free_blocks := po_free_blocks p;
     po_generation := po_generation p |}.

Definition with_generation (p : DetailPool) (generation : N) : DetailPool :=
  {| po_bytes := po_bytes p; po_blocks := po_blocks p; po_block_bytes := po_block_bytes p;
     po_free_head := po_free_head p; po_free_blocks := po_free_blocks p;
     po_generation := generation |}.

Definition set_next (b : Block) (n : option nat) : Block :=
  {| bk_next := n; bk_generation := bk_generation b; bk_len := bk_len b |}.

Definition set_len (b : Block) (n : nat) : Block :=
  {| bk_next := bk_next b; bk_generation := bk_generation b; bk_len := n |}.

Definition slice {A : Type} (offset n : nat) (l : list A) : list A := take n (drop offset l).

(** [l[offset..offset + new.len()].copy_from_slice(new)] *)
Definition copy_slice {A : Type} (offset : nat) (new l : list A) : option (list A) :=
  if offset + length new <=? length l
  then Some (take offset l ++ new ++ drop (offset + length new) l)
  else None.

(** The branch [if new_block] of the loop of [allocate_plan]. *)
Definition take_block (generation : N) (current : option nat) (p : DetailPool) :
    option (nat * DetailPool) :=
  index ← po_free_head p;
  b ← po_blocks p !! index;
  match po_free_blocks p with
  | 0 => None
  | S free =>
      let p := with_free p (bk_next b) free in
      let fresh := {| bk_next := None; bk_generation := generation; bk_len := 0 |} in
      let p := with_blocks p (<[index := fresh]> (po_blocks p)) in
      match current with
      | None => Some (index, p)
      | Some c =>
          bc ← po_blocks p !! c;
          Some (index, with_blocks p (<[c := set_next bc (Some index)]> (po_blocks p)))
      end
  end.

Definition write_piece (current : nat) (piece : string) (p : DetailPool) : option DetailPool :=
  b ← po_blocks p !! current;
  let offset := current * po_block_bytes p + bk_len b in
  bytes ← copy_slice offset (String.list_ascii_of_string piece) (po_bytes p);
  Some (with_blocks (with_bytes p bytes)
          (<[current := set_len b (bk_len b + String.length piece)]> (po_blocks p))).

Fixpoint fill_blocks (generation : N) (items : list (string * bool)) (current : option nat)
    (len : nat) (p : DetailPool) : option (nat * DetailPool) :=
  match items with
  | [] => Some (len, p)
  | (piece, new_block) :: items =>
      '(current, p) ←
        (if new_block then '(i, p) ← take_block generation current p; Some (Some i, p)
         else Some (current, p));
      i ← current;
      p ← write_piece i piece p;
      fill_blocks generation items (Some i) (len + String.length piece) p
  end.

Definition empty_handle : DetailHandle := {| dh_first := None; dh_generation := 0; dh_len := 0 |}.

(** [allocate_plan].  The outer [option] is a panic, the inner one the
    [Option] of the source. *)
Definition allocate_plan (p : DetailPool) (plan : DetailPlan) :
    option (option DetailHandle * DetailPool) :=
  if negb (dp_block_bytes plan =? po_block_bytes p) || (po_free_blocks p <? dp_needed plan) then
    Some (None, p)
  else if dp_needed plan =? 0 then Some (Some empty_handle, p)
  else if po_free_blocks p <? dp_needed plan then Some (None, p)
  else if (po_generation p =? max_u64)%N then Some (None, p)
  else
    let generation := N.succ (po_generation p) in
    let first := po_free_head p in
    '(len, p) ←
      fill_blocks generation (text_chunks (dp_parts plan) (po_block_bytes p)) None 0 p;
    Some (Some {| dh_first := first; dh_generation := generation; dh_len := len |},
          with_generation p generation).

(** The loop of [block_count]; [seen] stops it after one visit per block, so
    [fuel] of one more than the number of blocks never runs out. *)
Fixpoint count_blocks (fuel : nat) (p : DetailPool) (h : DetailHandle) (index : option nat)
    (len seen : nat) : option nat :=
  match fuel, index with
  | 0, _ => None
  | S _, None => if len =? dh_len h then Some seen else None
  | S fuel, Some i =>
      b ← po_blocks p !! i;
      if (bk_len b =? 0) || negb (bk_generation b =? dh_generation h)%N then None
      else
        _ ← checked_usize (N.of_nat (len + bk_len b));
        if length (po_blocks p) <? S seen then None
        else count_blocks fuel p h (bk_next b) (len + bk_len b) (S seen)
  end.

Definition block_count (p : DetailPool) (h : DetailHandle) : option nat :=
  match dh_first h with
  | None => if (dh_len h =? 0) && (dh_generation h =? 0)%N then Some 0 else None
  | Some _ => count_blocks (S (S (length (po_blocks p)))) p h (dh_first h) 0 0
  end.

Definition valid (p : DetailPool) (h : DetailHandle) : bool :=
  match block_count p h with Some _ => true | None => false end.

Definition footprint (p : DetailPool) (h : DetailHandle) : option (N * N * nat) :=
  blocks ← block_count p h;
  data ← checked_usize (N.of_nat blocks * N.of_nat (po_block_bytes p));
  metadata ← checked_usize (N.of_nat blocks * block_size);
  Some (data, metadata, dh_len h).

(** [DetailView::copy_into]: the text of a validated handle.  [None] is the
    formatting error of a block that is not UTF-8, an index out of range or
    a chain longer than the pool. *)
Fixpoint copy_blocks (fuel : nat) (p : DetailPool) (index : option nat) : option string :=
  match fuel, index with
  | 0, _ => None
  | S _, None => Some ""%string
  | S fuel, Some i =>
      b ← po_blocks p !! i;
      let offset := i * po_block_bytes p in
      let text := String.string_of_list_ascii (slice offset (bk_len b) (po_bytes p)) in
      if (offset + bk_len b <=? length (po_bytes p)) && utf8_valid text then
        rest ← copy_blocks fuel p (bk_next b);
        Some (text +:+ rest)
      else None
  end.

(** [view(handle)] followed by [copy_into]. *)
Definition view (p : DetailPool) (h : DetailHandle) : option string :=
  if valid p h then copy_blocks (S (length (po_blocks p))) p (dh_first h) else None.

Fixpoint free_chain (fuel : nat) (p : DetailPool) (index : option nat) : option DetailPool :=
  match fuel, index with
  | 0, _ => None
  | S _, None => Some p
  | S fuel, Some i =>
      b ← po_blocks p !! i;
      let freed := set_next (set_len b 0) (po_free_head p) in
      free_chain fuel
        (with_free (with_blocks p (<[i := freed]> (po_blocks p))) (Some i) (S (po_free_blocks p)))
        (bk_next b)
  end.

(** [free]; [None] is a panic. *)
Definition free (p : DetailPool) (h : DetailHandle) : option (bool * DetailPool) :=
  if valid p h then
    p ← free_chain (S (length (po_blocks p))) p (dh_first h);
    Some (true, p)
  else Some (false, p).

(** ** Bounded writers *)

(** [CappedWriter]: a caller's buffer and the length written so far. *)
Record CappedWriter := { cw_buffer : list ascii; cw_len : nat }.

(** [io::Write::write]; [Err] is [ErrorKind::WriteZero]. *)
Definition capped_write (w : CappedWriter) (bytes : list ascii) : outcome unit (nat * CappedWriter) :=
  if length (cw_buffer w) <? cw_len w then Panic
  else if length (cw_buffer w) - cw_len w <? length bytes then Err tt
  else
    match copy_slice (cw_len w) bytes (cw_buffer w) with
    | None => Panic
    | Some buffer =>
        Ok (length bytes, {| cw_buffer := buffer; cw_len := cw_len w + length bytes |})
    end.

(** [fmt::Write::write_str] through [write_all]. *)
Definition capped_write_str (w : CappedWriter) (value : string) : outcome unit CappedWriter :=
  if str_empty value then Ok w
  else outcome_map snd (capped_write w (String.list_ascii_of_string value)).

(** ** Pieces cover the text and fit their blocks *)

Lemma boundary_below_spec text n :
  is_char_boundary text (boundary_below text n) = true ∧ boundary_below text n ≤ n.
Proof.
  induction n as [|n IH]; cbn [boundary_below].
  - by destruct (is_char_boundary text 0).
  - destruct (is_char_boundary text (S n)) eqn:Hb; [done|]. destruct IH. split; [done|lia].
Qed.

Lemma boundary_below_greatest text m n :
  is_char_boundary text m = true → m ≤ n → m ≤ boundary_below text n.
Proof.
  intros Hm. induction n as [|n IH]; intros Hle; cbn [boundary_below].
  - lia.
  - destruct (is_char_boundary text (S n)) eqn:Hb; [done|].
    apply IH. destruct (decide (m = S n)) as [->|]; [congruence|lia].
Qed.

Lemma chunk_end_le text max_bytes :
  chunk_end text max_bytes ≤ String.length text ∧ chunk_end text max_bytes ≤ max_bytes.
Proof. unfold chunk_end. pose proof (boundary_below_spec text (min (String.length text) max_bytes)). lia. Qed.

(** Four bytes hold the first character of any text. *)
Lemma chunk_end_pos text max_bytes :
  utf8_valid text = true → text ≠ EmptyString → 4 ≤ max_bytes → 0 < chunk_end text max_bytes.
Proof.
  intros Hv Hne Hmax. destruct (utf8_step text Hv) as [|(c & s & -> & Hc & Hs)]; [done|].
  pose proof (uc_short _ Hc). unfold chunk_end. rewrite append_length.
  pose proof (boundary_below_greatest (c +:+ s) (String.length c)
    (min (String.length c + String.length s) max_bytes) (char_boundary c s Hc Hs)). lia.
Qed.

Lemma chunk_end_cut text max_bytes :
  utf8_valid text = true →
  utf8_valid (str_take (chunk_end text max_bytes) text) = true
  ∧ utf8_valid (str_drop (chunk_end text max_bytes) text) = true
  ∧ String.length (str_take (chunk_end text max_bytes) text) = chunk_end text max_bytes.
Proof.
  intros Hv. pose proof (chunk_end_le text max_bytes).
  destruct (utf8_cut text (chunk_end text max_bytes) Hv (proj1 (boundary_below_spec _ _))).
  split_and!; [done..|]. apply str_take_length. lia.
Qed.

Lemma text_of_cons s parts : text_of (s :: parts) = s +:+ text_of parts.
Proof.
  unfold text_of. destruct parts as [|s' parts]; cbn; [by rewrite append_nil_r|done].
Qed.

Lemma text_of_utf8 parts :
  Forall (λ s, utf8_valid s = true) parts → utf8_valid (text_of parts) = true.
Proof. induction 1 as [|s parts Hs _ IH]; [done|]. rewrite text_of_cons. by apply utf8_app. Qed.

Lemma str_drop_drop n m s : str_drop n (str_drop m s) = str_drop (m + n) s.
Proof. revert m. induction s as [|c s IH]; intros [|m]; cbn; [by destruct n|by destruct n|done|done]. Qed.

Lemma str_empty_spec s : str_empty s = true ↔ s = EmptyString.
Proof. by destruct s. Qed.

(** The text an iterator has still to yield. *)
Definition pending (t : TextChunks) : string :=
  match tc_parts t !! tc_part t with
  | None => EmptyString
  | Some text => str_drop (tc_offset t) text +:+ text_of (drop (S (tc_part t)) (tc_parts t))
  end.

Record chunks_ok (t : TextChunks) : Prop := {
  ck_parts : Forall (λ s, utf8_valid s = true) (tc_parts t);
  ck_rest : ∀ text, tc_parts t !! tc_part t = Some text → utf8_valid (str_drop (tc_offset t) text) = true;
  ck_block : 4 ≤ tc_block_bytes t;
  ck_used : tc_used t ≤ tc_block_bytes t;
}.

(** A piece starts a block or goes on in one that has room. *)
Definition piece_fits (bb used : nat) (item : string * bool) (used' : nat) : Prop :=
  item.1 ≠ EmptyString ∧ utf8_valid item.1 = true
  ∧ (item.2 = false → 0 < used)
  ∧ used' = (if item.2 then 0 else used) + String.length item.1
  ∧ used' ≤ bb.

Lemma pending_skip t text :
  tc_parts t !! tc_part t = Some text → str_drop (tc_offset t) text = EmptyString →
  pending {| tc_parts := tc_parts t; tc_part := S (tc_part t); tc_offset := 0;
             tc_used := tc_used t; tc_block_bytes := tc_block_bytes t |} = pending t.
Proof.
  intros Ht Hd. unfold pending. rewrite Ht, Hd, append_nil_l. cbn.
  destruct (tc_parts t !! S (tc_part t)) as [text'|] eqn:Ht'.
  - rewrite (drop_S _ _ _ Ht'), text_of_cons. by destruct text'.
  - rewrite drop_ge; [done|]. by apply lookup_ge_None.
Qed.

Lemma next_piece_spec fuel t :
  chunks_ok t → length (tc_parts t) - tc_part t < fuel →
  match next_piece fuel t with
  | None => pending t = EmptyString
  | Some (item, t') =>
      chunks_ok t' ∧ tc_block_bytes t' = tc_block_bytes t
      ∧ pending t = item.1 +:+ pending t'
      ∧ piece_fits (tc_block_bytes t) (tc_used t) item (tc_used t')
  end.
Proof.
  revert t. induction fuel as [|fuel IH]; intros t Hok Hf; [lia|]. cbn [next_piece].
  destruct (tc_parts t !! tc_part t) as [text|] eqn:Ht; [|by unfold pending; rewrite Ht].
  pose proof (lookup_lt_Some _ _ _ Ht) as Hlt. destruct Hok as [Hp Hr Hb Hu].
  destruct (str_empty (str_drop (tc_offset t) text)) eqn:He.
  - apply str_empty_spec in He.
    specialize (IH {| tc_parts := tc_parts t; tc_part := S (tc_part t); tc_offset := 0;
                      tc_used := tc_used t; tc_block_bytes := tc_block_bytes t |}).
    rewrite (pending_skip t text) in IH by done. apply IH; [|cbn; lia].
    split; [done| |done..]. cbn. intros text' Ht'. rewrite Forall_lookup in Hp.
    replace (str_drop 0 text') with text' by (by destruct text'). by eapply Hp.
  - set (r := str_drop (tc_offset t) text) in *. specialize (Hr text Ht). fold r in Hr.
    assert (r ≠ EmptyString) as Hne by (intros H%str_empty_spec; congruence).
    assert (∀ stop used m, stop = chunk_end r m → 0 < stop → used + stop ≤ tc_block_bytes t →
      (used = 0 ∨ used = tc_used t) →
      let t' := {| tc_parts := tc_parts t; tc_part := tc_part t; tc_offset := tc_offset t + stop;
                   tc_used := used + stop; tc_block_bytes := tc_block_bytes t |} in
      chunks_ok t' ∧ tc_block_bytes t' = tc_block_bytes t
      ∧ pending t = str_take stop r +:+ pending t'
      ∧ piece_fits (tc_block_bytes t) (tc_used t) (str_take stop r, used =? 0) (tc_used t'))
      as Hstep; [|clear IH Hf].
    { intros stop used m Hs Hpos Hfit Hused t'.
      destruct (chunk_end_cut r m Hr) as (Hv1 & Hv2 & Hl). rewrite <-Hs in Hv1, Hv2, Hl.
      split_and!; [split; cbn; [done| |done|lia]|done| |].
      - rewrite Ht. intros ? [= <-]. rewrite <-str_drop_drop. exact Hv2.
      - unfold pending, t'. cbn [tc_parts tc_part tc_offset]. rewrite Ht, <-str_drop_drop.
        fold r. by rewrite <-append_assoc, take_drop_str.
      - unfold piece_fits, t'. cbn. rewrite Hl. split_and!; [|done| | |done].
        + intros H0. rewrite H0 in Hl. cbn in Hl. lia.
        + intros Hu0%Nat.eqb_neq. lia.
        + destruct (Nat.eqb_spec used 0); lia. }
    pose proof (chunk_end_le r (tc_block_bytes t - tc_used t)).
    pose proof (chunk_end_le r (tc_block_bytes t)).
    destruct (Nat.eqb_spec (chunk_end r (tc_block_bytes t - tc_used t)) 0) as [Hz|Hz].
    + eapply (Hstep _ 0); [done|by apply chunk_end_pos|lia|by left].
    + eapply (Hstep _ (tc_used t)); [done|lia|lia|by right].
Qed.

Fixpoint fits (bb used : nat) (items : list (string * bool)) : Prop :=
  match items with
  | [] => True
  | item :: items => ∃ used', piece_fits bb used item used' ∧ fits bb used' items
  end.

Lemma pieces_spec fuel t :
  chunks_ok t → String.length (pending t) < fuel →
  text_of (pieces fuel t).*1 = pending t ∧ fits (tc_block_bytes t) (tc_used t) (pieces fuel t).
Proof.
  revert t. induction fuel as [|fuel IH]; intros t Hok Hf; [lia|]. cbn [pieces].
  pose proof (next_piece_spec (S (length (tc_parts t))) t Hok ltac:(lia)) as Hn.
  unfold next. destruct (next_piece _ t) as [[item t']|]; [|by rewrite Hn].
  destruct Hn as (Hok' & Hbb & Hp & Hfit). rewrite Hp, append_length in Hf.
  assert (0 < String.length item.1) as Hpos by (destruct Hfit as (Hne & _); destruct item.1; cbn; [done|lia]).
  destruct (IH t' Hok' ltac:(lia)) as [IH1 IH2]. rewrite fmap_cons, text_of_cons, IH1, Hp.
  split; [done|]. exists (tc_used t'). by rewrite <-Hbb at 2.
Qed.

(** The pieces of a text: together the text, each of whole characters, each
    in a block with room for it. *)
Lemma text_chunks_spec parts bb :
  Forall (λ s, utf8_valid s = true) parts → 4 ≤ bb →
  text_of (text_chunks parts bb).*1 = text_of parts ∧ fits bb 0 (text_chunks parts bb).
Proof.
  intros Hp Hb. set (t := TextChunks_new parts bb).
  assert (pending t = text_of parts) as Ht.
  { unfold pending, t. cbn. destruct parts as [|s parts]; [done|]. cbn [lookup list_lookup drop].
    rewrite text_of_cons. by destruct s. }
  assert (chunks_ok t) as Hok.
  { split; [done| |done|cbn; lia]. intros text. cbn. intros Hl.
    replace (str_drop 0 text) with text by (by destruct text). rewrite Forall_lookup in Hp. by eapply Hp. }
  destruct (pieces_spec (S (String.length (text_of parts))) t Hok) as [H1 H2]; [rewrite Ht; lia|].
  by rewrite Ht in H1.
Qed.
