(* ===== verification/DetailPoolFacts.v ===== *)
(** * Facts about the detail pool

    The representation of a pool as a free list and a list of chains, the
    steps of the operations on it, and the theorem: along any sequence of
    allocations and releases, live handles read back their text and released
    handles never resolve. *)

From Stdlib Require Import Ascii.
From stdpp Require Import base numbers strings list.
From S2P Require Import Prelude Text Utf8 DetailPool.

(** ** Slices of the backing bytes *)

Section Slices.
Context {A : Type}.
Implicit Types l new : list A.

Lemma copy_slice_total offset new l :
  offset + length new ≤ length l → ∃ l', copy_slice offset new l = Some l' ∧ length l' = length l.
Proof.
  intros Hle. unfold copy_slice. rewrite (proj2 (Nat.leb_le _ _) Hle). eexists. split; [done|].
  rewrite !length_app, length_take, length_drop. lia.
Qed.

Lemma copy_slice_lookup offset new l l' i :
  copy_slice offset new l = Some l' →
  l' !! i = if decide (offset ≤ i < offset + length new) then new !! (i - offset) else l !! i.
Proof.
  unfold copy_slice. destruct (Nat.leb_spec (offset + length new) (length l)) as [Hle|]; [|done].
  intros [= <-]. case_decide as Hi.
  - rewrite lookup_app_r; rewrite length_take; [|lia].
    rewrite lookup_app_l by lia. f_equal. lia.
  - destruct (decide (i < offset)) as [Hlt|].
    + rewrite lookup_app_l by (rewrite length_take; lia). by apply lookup_take_lt.
    + rewrite lookup_app_r; rewrite length_take; [|lia].
      rewrite lookup_app_r by lia. rewrite lookup_drop. f_equal. lia.
Qed.

Lemma slice_lookup offset n l i :
  slice offset n l !! i = if decide (i < n) then l !! (offset + i) else None.
Proof.
  unfold slice. case_decide as Hi.
  - by rewrite lookup_take_lt, lookup_drop.
  - apply lookup_take_ge. lia.
Qed.

Lemma slice_copy_other offset new l l' o n :
  copy_slice offset new l = Some l' → o + n ≤ offset ∨ offset + length new ≤ o →
  slice o n l' = slice o n l.
Proof.
  intros Hc Hd. apply list_eq. intros i. rewrite !slice_lookup. case_decide; [|done].
  rewrite (copy_slice_lookup _ _ _ _ _ Hc). case_decide; [lia|done].
Qed.

Lemma slice_copy_extend o n new l l' :
  copy_slice (o + n) new l = Some l' → slice o (n + length new) l' = slice o n l ++ new.
Proof.
  intros Hc. assert (length (slice o n l) = n) as Hn.
  { unfold copy_slice in Hc. destruct (Nat.leb_spec (o + n + length new) (length l)); [|done].
    unfold slice. rewrite length_take, length_drop. lia. }
  apply list_eq. intros i. rewrite slice_lookup. case_decide as Hi.
  - rewrite (copy_slice_lookup _ _ _ _ _ Hc). case_decide.
    + rewrite lookup_app_r by lia. f_equal. lia.
    + rewrite lookup_app_l by lia. rewrite slice_lookup, decide_True by lia. done.
  - symmetry. apply lookup_ge_None. rewrite length_app. lia.
Qed.
End Slices.

Lemma list_ascii_length s : length (String.list_ascii_of_string s) = String.length s.
Proof. induction s as [|c s IH]; cbn; [done|by rewrite IH]. Qed.

Lemma list_ascii_app s1 s2 :
  String.list_ascii_of_string (s1 +:+ s2)
  = String.list_ascii_of_string s1 ++ String.list_ascii_of_string s2.
Proof. induction s1 as [|c s1 IH]; [done|]. rewrite append_cons. cbn. by rewrite IH. Qed.

(** ** Chains of blocks

    [linked p g first segs stop]: the links lead from [first] through the
    blocks of [segs], each of generation [g] and holding its text, to [stop]. *)

Definition cell (p : DetailPool) (g : N) (i : nat) (s : string) (n : option nat) : Prop :=
  po_blocks p !! i = Some {| bk_next := n; bk_generation := g; bk_len := String.length s |}
  ∧ String.length s ≤ po_block_bytes p
  ∧ slice (i * po_block_bytes p) (String.length s) (po_bytes p) = String.list_ascii_of_string s
  ∧ utf8_valid s = true.

Fixpoint linked (p : DetailPool) (g : N) (first : option nat) (segs : list (nat * string))
    (stop : option nat) : Prop :=
  match segs with
  | [] => first = stop
  | (i, s) :: segs => first = Some i ∧ ∃ n, cell p g i s n ∧ linked p g n segs stop
  end.

Fixpoint free_list (p : DetailPool) (first : option nat) (ix : list nat) : Prop :=
  match ix with
  | [] => first = None
  | i :: ix =>
      first = Some i
      ∧ ∃ b, po_blocks p !! i = Some b ∧ bk_len b = 0 ∧ free_list p (bk_next b) ix
  end.

(** A generation and its chain. *)
Definition Entry : Type := N * list (nat * string).

Definition first_of (segs : list (nat * string)) : option nat := fst <$> head segs.
Definition last_of (segs : list (nat * string)) : option nat := fst <$> head (reverse segs).

Definition entry_ok (p : DetailPool) (e : Entry) : Prop := linked p e.1 (first_of e.2) e.2 None.

Definition entry_blocks (es : list Entry) : list nat := es ≫= λ e, e.2.*1.

Record pool_rep (p : DetailPool) (fr : list nat) (es : list Entry) : Prop := {
  rp_free : free_list p (po_free_head p) fr;
  rp_count : po_free_blocks p = length fr;
  rp_entries : Forall (entry_ok p) es;
  rp_perm : fr ++ entry_blocks es ≡ₚ seq 0 (length (po_blocks p));
  rp_bytes : length (po_bytes p) = length (po_blocks p) * po_block_bytes p;
  rp_block : 4 ≤ po_block_bytes p;
  rp_size : (N.of_nat (length (po_blocks p) * po_block_bytes p) ≤ usize_max)%N;
}.

(** A change that leaves block [j] alone. *)
Definition same_cell (p p' : DetailPool) (j : nat) : Prop :=
  po_blocks p' !! j = po_blocks p !! j
  ∧ ∀ n, n ≤ po_block_bytes p →
      slice (j * po_block_bytes p) n (po_bytes p') = slice (j * po_block_bytes p) n (po_bytes p).

Lemma linked_frame p p' g first segs stop :
  po_block_bytes p' = po_block_bytes p → Forall (same_cell p p') segs.*1 →
  linked p g first segs stop → linked p' g first segs stop.
Proof.
  intros Hbb. revert first. induction segs as [|[i s] segs IH]; intros first Hf; [done|]. cbn.
  inversion_clear Hf as [|?? [Hb Hs] Hf']. intros (-> & n & (H1 & H2 & H3 & H4) & Hl).
  split; [done|]. exists n. split; [|by apply IH]. unfold cell. rewrite Hbb, Hb, Hs by done. done.
Qed.

Lemma free_list_frame p p' first ix :
  (∀ j, j ∈ ix → po_blocks p' !! j = po_blocks p !! j) → free_list p first ix → free_list p' first ix.
Proof.
  revert first. induction ix as [|i ix IH]; intros first Hs; [done|]. cbn.
  intros (-> & b & Hb & H0 & Hl). split; [done|]. exists b.
  rewrite Hs by (by left). split_and!; [done..|]. apply IH; [|done]. intros j Hj. apply Hs. by right.
Qed.

Lemma entries_frame p p' es :
  po_block_bytes p' = po_block_bytes p → Forall (same_cell p p') (entry_blocks es) →
  Forall (entry_ok p) es → Forall (entry_ok p') es.
Proof.
  intros Hbb Hs. rewrite !Forall_forall. intros He e Hin.
  eapply linked_frame; [done| |by apply He]. rewrite Forall_forall in Hs |- *. intros j Hj.
  apply Hs. unfold entry_blocks. apply list_elem_of_bind. by exists e.
Qed.

Lemma linked_snoc p g first segs i s stop :
  linked p g first (segs ++ [(i, s)]) stop ↔ linked p g first segs (Some i) ∧ cell p g i s stop.
Proof.
  revert first. induction segs as [|[j t] segs IH]; intros first; cbn.
  - split; [intros (-> & n & Hc & ->); done|intros [-> Hc]; split; [done|by exists stop]].
  - setoid_rewrite IH. naive_solver.
Qed.

Lemma linked_first p g first segs : linked p g first segs None → first = first_of segs.
Proof. destruct segs as [|[i s] segs]; cbn; [done|by intros [-> _]]. Qed.

(** ** The steps of the operations *)

Lemma last_of_snoc segs i s : last_of (segs ++ [(i, s)]) = Some i.
Proof. unfold last_of. by rewrite reverse_snoc. Qed.

Lemma first_of_snoc segs i s j t : first_of (segs ++ [(i, s)] ++ [(j, t)]) = first_of (segs ++ [(i, s)]).
Proof. by destruct segs as [|[k u] segs]. Qed.

Lemma first_of_last segs i s t : first_of (segs ++ [(i, s)]) = first_of (segs ++ [(i, t)]).
Proof. by destruct segs as [|[k u] segs]. Qed.

Lemma entry_blocks_cons g segs es : entry_blocks ((g, segs) :: es) = segs.*1 ++ entry_blocks es.
Proof. done. Qed.

Lemma rep_NoDup p fr es : pool_rep p fr es → NoDup (fr ++ entry_blocks es).
Proof. intros Hr. rewrite (rp_perm _ _ _ Hr). apply NoDup_seq. Qed.

Lemma rep_in_range p fr es i :
  pool_rep p fr es → i ∈ fr ++ entry_blocks es → i < length (po_blocks p).
Proof. intros Hr. rewrite (rp_perm _ _ _ Hr), elem_of_seq. lia. Qed.

Lemma same_cell_blocks p p' j :
  po_bytes p' = po_bytes p → po_blocks p' !! j = po_blocks p !! j → same_cell p p' j.
Proof. intros Hb Hl. split; [done|]. by rewrite Hb. Qed.

(** The three groups of blocks do not meet. *)
Lemma rep_disjoint p fr g segs es :
  pool_rep p fr ((g, segs) :: es) →
  NoDup fr ∧ NoDup segs.*1
  ∧ (∀ j, j ∈ fr → j ∉ segs.*1 ∧ j ∉ entry_blocks es)
  ∧ (∀ j, j ∈ segs.*1 → j ∉ entry_blocks es).
Proof.
  intros Hr%rep_NoDup. rewrite entry_blocks_cons in Hr.
  apply NoDup_app in Hr as (H1 & Hd & Hr). apply NoDup_app in Hr as (H2 & Hd' & _).
  split_and!; [done..| |done]. intros j Hj. apply Hd in Hj. rewrite elem_of_app in Hj. tauto.
Qed.

(** A step that moves blocks between the free list and one chain. *)
Lemma pool_rep_change p p' fr fr' g segs segs' es :
  pool_rep p fr ((g, segs) :: es) →
  fr' ++ segs'.*1 ≡ₚ fr ++ segs.*1 →
  po_block_bytes p' = po_block_bytes p →
  length (po_blocks p') = length (po_blocks p) → length (po_bytes p') = length (po_bytes p) →
  free_list p' (po_free_head p') fr' → po_free_blocks p' = length fr' →
  linked p' g (first_of segs') segs' None →
  Forall (same_cell p p') (entry_blocks es) →
  pool_rep p' fr' ((g, segs') :: es).
Proof.
  intros [_ _ He Hperm Hby Hbb Hsz] Hp Ebb Ebl Eby Hf Hc Hl Hs.
  apply Forall_cons in He as [_ He]. split; rewrite ?Ebb, ?Ebl, ?Eby; try done.
  - apply Forall_cons. split; [done|]. by eapply entries_frame.
  - rewrite <-Hperm, !entry_blocks_cons, !(assoc_L (++)). by rewrite Hp.
Qed.

Lemma linked_new p g i segs :
  i ∉ segs.*1 → NoDup segs.*1 → i < length (po_blocks p) → linked p g (first_of segs) segs None →
  let fresh := <[i := {| bk_next := None; bk_generation := g; bk_len := 0 |}]> (po_blocks p) in
  ∃ blocks,
    match last_of segs with
    | None => Some fresh
    | Some c => bc ← fresh !! c; Some (<[c := set_next bc (Some i)]> fresh)
    end = Some blocks
    ∧ length blocks = length (po_blocks p)
    ∧ (∀ j, j ≠ i → j ∉ segs.*1 → blocks !! j = po_blocks p !! j)
    ∧ linked (with_blocks p blocks) g (first_of (segs ++ [(i, ""%string)]))
        (segs ++ [(i, ""%string)]) None.
Proof.
  intros Hi Hnd Hlt Hl fresh.
  assert (cell (with_blocks p fresh) g i "" None) as Hcell.
  { unfold cell, fresh. cbn. rewrite list_lookup_insert_eq by done. split_and!; [done|lia|done|done]. }
  destruct segs as [|[c t] segs _] using rev_ind.
  - exists fresh. split_and!; [done|apply length_insert| |].
    + intros j Hj _. by apply list_lookup_insert_ne.
    + split; [done|]. by exists None.
  - rewrite last_of_snoc. apply linked_snoc in Hl as [Hl (Hc1 & Hc2 & Hc3 & Hc4)].
    rewrite fmap_app in Hi, Hnd. cbn in Hi, Hnd. rewrite not_elem_of_app, not_elem_of_cons in Hi.
    destruct Hi as (Hi & Hne & _). apply NoDup_app in Hnd as (_ & Hd & _).
    pose proof (lookup_lt_Some _ _ _ Hc1) as Hltc. unfold fresh in *. clear fresh.
    rewrite list_lookup_insert_ne, Hc1 by done. cbn [mbind option_bind]. eexists. split; [done|].
    cbn [set_next bk_next bk_generation bk_len]. split_and!.
    + by rewrite !length_insert.
    + intros j Hj Hj'. rewrite fmap_app in Hj'. cbn in Hj'. rewrite not_elem_of_app, not_elem_of_cons in Hj'.
      rewrite !list_lookup_insert_ne; [done|congruence|naive_solver].
    + rewrite <-app_assoc, first_of_snoc, app_assoc. apply linked_snoc. split.
      * apply linked_snoc. split.
        -- eapply linked_frame; [| |exact Hl]; [done|]. apply Forall_forall. intros j Hj.
           apply same_cell_blocks; [done|]. cbn.
           assert (j ≠ c) by (intros ->; apply (Hd c Hj); by left).
           rewrite !list_lookup_insert_ne; [done|congruence|congruence].
        -- unfold cell. cbn. rewrite list_lookup_insert_eq by (by rewrite length_insert). done.
      * destruct Hcell as (H1 & H2). unfold cell in *. cbn in *. by rewrite list_lookup_insert_ne.
Qed.

Lemma take_block_rep p g i fr segs es :
  pool_rep p (i :: fr) ((g, segs) :: es) →
  ∃ p', take_block g (last_of segs) p = Some (i, p')
    ∧ pool_rep p' fr ((g, segs ++ [(i, ""%string)]) :: es)
    ∧ po_block_bytes p' = po_block_bytes p ∧ po_generation p' = po_generation p
    ∧ length (po_blocks p') = length (po_blocks p).
Proof.
  intros Hr. destruct (rep_disjoint _ _ _ _ _ Hr) as (Hnd1 & Hnd2 & Hd & Hd').
  pose proof (rep_in_range _ _ _ i Hr ltac:(by left)) as Hlt. pose proof Hr as [Hfree Hcount He _ _ _ _].
  cbn [free_list] in Hfree. destruct Hfree as (Hhead & b & Hb & _ & Hfree).
  apply Forall_cons in He as [Hseg _]. destruct (Hd i ltac:(by left)) as [Hi1 Hi2].
  apply NoDup_cons in Hnd1 as [Hi3 _].
  destruct (linked_new p g i segs Hi1 Hnd2 Hlt Hseg) as (blocks & Hbl & Hlen & Hsame & Hl).
  exists (with_blocks (with_free p (bk_next b) (length fr)) blocks).
  unfold take_block. rewrite Hhead. cbn [mbind option_bind]. rewrite Hb. cbn [mbind option_bind].
  rewrite Hcount. cbn [length]. split; [|split; [|done]].
  { destruct (last_of segs) as [c|]; [|by injection Hbl as <-].
    cbn [with_blocks with_free po_blocks]. destruct (_ !! c); [|done]. by injection Hbl as <-. }
  eapply pool_rep_change; [exact Hr|..]; cbn; try done.
  - rewrite fmap_app. cbn. solve_Permutation.
  - eapply free_list_frame; [|exact Hfree]. cbn. intros j Hj. apply Hsame; [by intros ->|].
    apply (Hd j). by right.
  - eapply linked_frame; [| |exact Hl]; [done|]. apply Forall_forall. intros j _.
    by apply same_cell_blocks.
  - apply Forall_forall. intros j Hj. apply same_cell_blocks; [done|]. cbn.
    apply Hsame; [by intros ->|]. intros Hj'. by apply (Hd' j Hj').
Qed.

Lemma write_piece_rep p g i s piece fr segs es :
  pool_rep p fr ((g, segs ++ [(i, s)]) :: es) →
  String.length s + String.length piece ≤ po_block_bytes p → utf8_valid piece = true →
  ∃ p', write_piece i piece p = Some p'
    ∧ pool_rep p' fr ((g, segs ++ [(i, s +:+ piece)]) :: es)
    ∧ po_block_bytes p' = po_block_bytes p ∧ po_generation p' = po_generation p
    ∧ length (po_blocks p') = length (po_blocks p).
Proof.
  intros Hr Hfit Hv. destruct (rep_disjoint _ _ _ _ _ Hr) as (_ & Hnd & Hd & Hd').
  pose proof Hr as [Hfree Hcount He _ Hby _ _]. apply Forall_cons in He as [Hseg _].
  unfold entry_ok in Hseg. cbn [fst snd] in Hseg.
  apply linked_snoc in Hseg as [Hl (Hc1 & Hc2 & Hc3 & Hc4)].
  pose proof (lookup_lt_Some _ _ _ Hc1) as Hlt. rewrite fmap_app in Hnd, Hd, Hd'. cbn in Hnd, Hd, Hd'.
  apply NoDup_app in Hnd as (_ & Hi & _).
  unfold write_piece. rewrite Hc1. cbn [mbind option_bind bk_len].
  destruct (copy_slice_total (i * po_block_bytes p + String.length s)
    (String.list_ascii_of_string piece) (po_bytes p)) as (bytes & Hcopy & Hlen).
  { rewrite list_ascii_length, Hby. nia. }
  rewrite Hcopy. cbn [mbind option_bind]. eexists. split; [reflexivity|].
  assert (∀ j, j ≠ i → ∀ n, n ≤ po_block_bytes p →
    slice (j * po_block_bytes p) n bytes = slice (j * po_block_bytes p) n (po_bytes p)) as Hother.
  { intros j Hj n Hn. eapply slice_copy_other; [done|]. rewrite list_ascii_length.
    destruct (decide (j < i)); [left|right]; nia. }
  assert (∀ j, j ≠ i → same_cell p (with_blocks (with_bytes p bytes)
    (<[i:=set_len {| bk_next := None; bk_generation := g; bk_len := String.length s |}
            (String.length s + String.length piece)]> (po_blocks p))) j) as Hsame.
  { intros j Hj. split; [|by apply Hother]. cbn. rewrite list_lookup_insert_ne; [done|congruence]. }
  split_and!; [|done..|apply length_insert]. eapply pool_rep_change; [exact Hr|..]; cbn; try done.
  - by rewrite !fmap_app.
  - by rewrite length_insert.
  - eapply free_list_frame; [|exact Hfree]. cbn. intros j Hj. apply Hsame. intros ->.
    apply (proj1 (Hd i Hj)). rewrite elem_of_app. right. by left.
  - rewrite (first_of_last _ _ _ s). apply linked_snoc. split.
    + eapply linked_frame; [| |exact Hl]; [done|]. apply Forall_forall. intros j Hj. apply Hsame.
      intros ->. apply (Hi i Hj). by left.
    + unfold cell. cbn. rewrite list_lookup_insert_eq by done. rewrite append_length.
      split_and!; [done|lia| |by apply utf8_app].
      rewrite list_ascii_app, <-Hc3, <-(slice_copy_extend _ _ _ _ _ Hcopy). by rewrite list_ascii_length.
  - apply Forall_forall. intros j Hj. apply Hsame. intros ->. apply (Hd' i); [|done].
    rewrite elem_of_app. right. by left.
Qed.

(** One round of the loop of [free]. *)
Lemma free_block_rep p g i s fr segs es :
  pool_rep p fr ((g, (i, s) :: segs) :: es) →
  ∃ b, po_blocks p !! i = Some b ∧ bk_next b = first_of segs
    ∧ let p' := with_free (with_blocks p (<[i := set_next (set_len b 0) (po_free_head p)]> (po_blocks p)))
                  (Some i) (S (po_free_blocks p)) in
      pool_rep p' (i :: fr) ((g, segs) :: es).
Proof.
  intros Hr. destruct (rep_disjoint _ _ _ _ _ Hr) as (_ & Hnd & Hd & Hd').
  pose proof Hr as [Hfree Hcount He _ _ _ _]. apply Forall_cons in He as [Hseg _].
  destruct Hseg as (_ & n & (Hc1 & _) & Hl). cbn [fst snd] in Hl. cbn in Hnd, Hd, Hd'.
  apply NoDup_cons in Hnd as [Hi _]. pose proof (lookup_lt_Some _ _ _ Hc1) as Hlt.
  eexists. split; [exact Hc1|]. split; [exact (linked_first _ _ _ _ Hl)|]. cbn zeta.
  assert (∀ j, j ≠ i → <[i:=set_next (set_len {| bk_next := n; bk_generation := g;
    bk_len := String.length s |} 0) (po_free_head p)]> (po_blocks p) !! j = po_blocks p !! j) as Hother.
  { intros j Hj. apply list_lookup_insert_ne. congruence. }
  eapply pool_rep_change; [exact Hr|..]; cbn; try done.
  - by rewrite Permutation_middle.
  - by rewrite length_insert.
  - split; [done|]. eexists. split; [by apply list_lookup_insert_eq|]. split; [done|].
    eapply free_list_frame; [|exact Hfree]. cbn. intros j Hj. apply Hother. intros ->.
    apply (proj1 (Hd i Hj)). by left.
  - by rewrite Hcount.
  - rewrite <-(linked_first _ _ _ _ Hl). eapply linked_frame; [| |exact Hl]; [done|].
    apply Forall_forall. intros j Hj. apply same_cell_blocks; [done|]. apply Hother. by intros ->.
  - apply Forall_forall. intros j Hj. apply same_cell_blocks; [done|]. apply Hother. intros ->.
    apply (Hd' i); [by left|done].
Qed.

(** ** Allocation *)

Definition news (items : list (string * bool)) : nat :=
  length (filter (λ item, item.2 = true) items).

Definition last_len (segs : list (nat * string)) : nat :=
  match head (reverse segs) with None => 0 | Some (_, s) => String.length s end.

Definition filled (segs : list (nat * string)) : Prop := Forall (λ s, s ≠ EmptyString) segs.*2.

(** What filling has built: the new chain holds the old text and the pieces. *)
Record filled_from (p p' : DetailPool) (g : N) (fr fr' : list nat) (segs segs' : list (nat * string))
    (es : list Entry) (items : list (string * bool)) : Prop := {
  ff_rep : pool_rep p' fr' ((g, segs') :: es);
  ff_text : text_of segs'.*2 = text_of segs.*2 +:+ text_of items.*1;
  ff_filled : filled segs';
  ff_first : first_of segs' = match segs, items with [], _ :: _ => head fr | _, _ => first_of segs end;
  ff_free : length fr = length fr' + news items;
  ff_bb : po_block_bytes p' = po_block_bytes p;
  ff_gen : po_generation p' = po_generation p;
  ff_len : length (po_blocks p') = length (po_blocks p);
}.

Lemma text_of_app l1 l2 : text_of (l1 ++ l2) = text_of l1 +:+ text_of l2.
Proof.
  induction l1 as [|s l1 IH]; [done|].
  by rewrite <-app_comm_cons, !text_of_cons, IH, append_assoc.
Qed.

Lemma append_ne s t : t ≠ EmptyString → s +:+ t ≠ EmptyString.
Proof. destruct s; [by rewrite append_nil_l|by rewrite append_cons]. Qed.

(** The piece is written to the last block of the chain. *)
Lemma write_last_rep p g fr segs es i s piece :
  pool_rep p fr ((g, segs ++ [(i, s)]) :: es) →
  piece ≠ EmptyString → utf8_valid piece = true →
  String.length s + String.length piece ≤ po_block_bytes p →
  ∃ p' segs', write_piece i piece p = Some p' ∧ pool_rep p' fr ((g, segs') :: es)
    ∧ text_of segs'.*2 = text_of (segs ++ [(i, s)]).*2 +:+ piece
    ∧ (filled segs → filled segs') ∧ first_of segs' = first_of (segs ++ [(i, s)])
    ∧ last_of segs' = Some i ∧ last_len segs' = String.length s + String.length piece ∧ segs' ≠ []
    ∧ po_block_bytes p' = po_block_bytes p ∧ po_generation p' = po_generation p
    ∧ length (po_blocks p') = length (po_blocks p).
Proof.
  intros Hr Hne Hv Hfit. destruct (write_piece_rep _ _ _ _ piece _ _ _ Hr Hfit Hv) as (p' & Hw & Hr' & ? & ? & ?).
  exists p', (segs ++ [(i, s +:+ piece)]). split_and!; try done.
  - rewrite !fmap_app, !text_of_app. cbn. by rewrite !append_assoc.
  - unfold filled. rewrite fmap_app, Forall_app. intros. split; [done|]. repeat constructor.
    by apply append_ne.
  - apply first_of_last.
  - apply last_of_snoc.
  - unfold last_len. rewrite reverse_snoc. cbn. apply append_length.
  - by destruct segs.
Qed.

Lemma fill_blocks_rep items p g fr segs es len :
  pool_rep p fr ((g, segs) :: es) → filled segs →
  fits (po_block_bytes p) (last_len segs) items → news items ≤ length fr →
  ∃ p' fr' segs',
    fill_blocks g items (last_of segs) len p = Some (len + String.length (text_of items.*1), p')
    ∧ filled_from p p' g fr fr' segs segs' es items.
Proof.
  revert p fr segs len. induction items as [|[piece new] items IH]; intros p fr segs len Hr Hfl Hfits Hnews.
  { exists p, fr, segs. cbn [fill_blocks text_of String.concat String.length fmap list_fmap].
    rewrite Nat.add_0_r. split; [done|].
    split; try done; [by rewrite append_nil_r|by destruct segs]. }
  destruct Hfits as (used' & (Hne & Hv & Hold & Hused & Hfit) & Hfits). cbn [fst snd] in *.
  rewrite fmap_cons, text_of_cons, append_length, Nat.add_assoc. cbn [fill_blocks].
  assert (∀ fr1 segs1 i s p1, pool_rep p1 fr1 ((g, segs1 ++ [(i, s)]) :: es) → filled segs1 →
    used' = String.length s + String.length piece → po_block_bytes p1 = po_block_bytes p →
    po_generation p1 = po_generation p → length (po_blocks p1) = length (po_blocks p) →
    news items ≤ length fr1 →
    ∃ p' fr' segs' , (p2 ← write_piece i piece p1;
        fill_blocks g items (Some i) (len + String.length piece) p2)
      = Some (len + String.length piece + String.length (text_of items.*1), p')
      ∧ filled_from p p' g fr1 fr' (segs1 ++ [(i, s)]) segs' es ((piece, false) :: items)) as Hgo.
  { intros fr1 segs1 i s p1 Hr1 Hfl1 Hu Hb1 Hg1 Hl1 Hn1.
    destruct (write_last_rep _ _ _ _ _ _ _ piece Hr1 Hne Hv ltac:(lia))
      as (p2 & segs2 & Hw & Hr2 & Ht2 & Hf2 & Hfst & Hlast & Hll & Hne2 & Hb2 & Hg2 & Hl2).
    rewrite Hw. cbn [mbind option_bind]. rewrite <-Hlast.
    destruct (IH p2 fr1 segs2 (len + String.length piece)) as (p3 & fr3 & segs3 & Hfill & [F1 F2 F3 F4 F5 F6 F7 F8]);
      [done|by apply Hf2|by rewrite Hll, Hb2, Hb1, <-Hu|done|].
    exists p3, fr3, segs3. split; [done|]. split; try done.
    - rewrite F2, Ht2, fmap_cons, text_of_cons. by rewrite append_assoc.
    - rewrite F4. destruct segs2; [done|]. rewrite Hfst. by destruct segs1.
    - congruence.
    - congruence.
    - congruence. }
  destruct new.
  - unfold news in Hnews. rewrite filter_cons_True in Hnews by done. cbn [length] in Hnews.
    destruct fr as [|i fr]; [cbn in Hnews; lia|].
    destruct (take_block_rep _ _ _ _ _ _ Hr) as (p1 & Htake & Hr1 & Hb1 & Hg1 & Hl1).
    rewrite Htake. cbn [mbind option_bind].
    destruct (Hgo fr segs i ""%string p1) as (p' & fr' & segs' & Hrun & [F1 F2 F3 F4 F5 F6 F7 F8]);
      [done|done|cbn; lia|done|done|done|unfold news; cbn in *; lia|].
    exists p', fr', segs'. split; [done|]. split; try done.
    + rewrite F2, fmap_app, text_of_app. cbn. by rewrite append_nil_r.
    + rewrite F4. destruct segs as [|[j u] segs]; done.
    + cbn [length]. rewrite F5. unfold news. rewrite filter_cons_False, filter_cons_True by done.
      cbn [length]. lia.
  - destruct segs as [|[i s] segs _] using rev_ind.
    { unfold last_len in Hold. cbn in Hold. specialize (Hold eq_refl). lia. }
    rewrite last_of_snoc. cbn [mbind option_bind].
    assert (last_len (segs ++ [(i, s)]) = String.length s) as Hll
      by (unfold last_len; by rewrite reverse_snoc).
    apply (Hgo fr segs i s p); [done| |lia|done|done|done|].
    + unfold filled in *. rewrite fmap_app in Hfl. by apply Forall_app in Hfl as [? _].
    + unfold news in *. by rewrite filter_cons_False in Hnews.
Qed.

(** ** Walking a chain *)

Definition entry_text (e : Entry) : string := text_of e.2.*2.

Definition handle_of (e : Entry) : DetailHandle :=
  {| dh_first := first_of e.2; dh_generation := e.1; dh_len := String.length (entry_text e) |}.

Lemma linked_bytes p g first segs stop :
  linked p g first segs stop →
  String.length (text_of segs.*2) ≤ length segs * po_block_bytes p.
Proof.
  revert first. induction segs as [|[i s] segs IH]; intros first; [done|].
  intros (_ & n & (_ & Hs & _) & Hl%IH). rewrite fmap_cons, text_of_cons, append_length. cbn. lia.
Qed.

Lemma count_blocks_linked p h segs fuel first len seen :
  linked p (dh_generation h) first segs None → filled segs → length segs < fuel →
  seen + length segs ≤ length (po_blocks p) →
  (N.of_nat (len + String.length (text_of segs.*2)) ≤ usize_max)%N →
  len + String.length (text_of segs.*2) = dh_len h →
  count_blocks fuel p h first len seen = Some (seen + length segs).
Proof.
  revert fuel first len seen.
  induction segs as [|[i s] segs IH]; intros [|fuel] first len seen; cbn [linked length];
    intros Hl Hfl Hfu Hseen Hu Hlen; try lia.
  - subst first. cbn in Hlen |- *. rewrite (proj2 (Nat.eqb_eq _ _)) by lia. by rewrite Nat.add_0_r.
  - destruct Hl as (-> & n & (Hb & Hs & _) & Hl). apply Forall_cons in Hfl as [Hne Hfl]. cbn [snd] in Hne.
    rewrite fmap_cons, text_of_cons, append_length in Hu, Hlen. cbn [snd] in Hu, Hlen. cbn [count_blocks].
    rewrite Hb. cbn [mbind option_bind bk_len bk_generation bk_next]. rewrite N.eqb_refl.
    replace (String.length s =? 0) with false by (destruct s; done). cbn [orb negb].
    unfold checked_usize. rewrite (proj2 (N.leb_le _ _)) by lia. cbn [mbind option_bind].
    rewrite (proj2 (Nat.ltb_ge _ _)) by lia. rewrite IH; [f_equal; lia|done|done|lia|lia|lia|lia].
Qed.

Lemma string_of_list_ascii_of s : String.string_of_list_ascii (String.list_ascii_of_string s) = s.
Proof. induction s as [|c s IH]; cbn; [done|by rewrite IH]. Qed.

Lemma copy_blocks_linked p g segs fuel first :
  length (po_bytes p) = length (po_blocks p) * po_block_bytes p →
  linked p g first segs None → length segs < fuel →
  copy_blocks fuel p first = Some (text_of segs.*2).
Proof.
  intros Hby. revert fuel first. induction segs as [|[i s] segs IH]; intros [|fuel] first; cbn [linked length];
    intros Hl Hfu; try lia.
  - by subst first.
  - destruct Hl as (-> & n & (Hb & Hs & Hsl & Hv) & Hl). cbn [copy_blocks]. rewrite Hb.
    cbn [mbind option_bind bk_len bk_next]. pose proof (lookup_lt_Some _ _ _ Hb).
    rewrite Hsl, string_of_list_ascii_of, Hv.
    rewrite (proj2 (Nat.leb_le _ _)) by (rewrite Hby; nia). cbn [andb].
    rewrite IH by (done || lia). cbn [mbind option_bind]. by rewrite fmap_cons, text_of_cons.
Qed.

Lemma free_chain_rep segs fuel p g fr es :
  pool_rep p fr ((g, segs) :: es) → length segs < fuel →
  ∃ p', free_chain fuel p (first_of segs) = Some p'
    ∧ pool_rep p' (reverse segs.*1 ++ fr) ((g, []) :: es)
    ∧ po_generation p' = po_generation p ∧ po_block_bytes p' = po_block_bytes p
    ∧ length (po_blocks p') = length (po_blocks p).
Proof.
  revert fuel p fr. induction segs as [|[i s] segs IH]; intros [|fuel] p fr; cbn [length]; intros Hr Hfu; try lia.
  - by exists p.
  - destruct (free_block_rep _ _ _ _ _ _ _ Hr) as (b & Hb & Hn & Hr').
    destruct (IH fuel _ _ Hr') as (p' & Hf & Hr2 & Hg & Hbb & Hl); [lia|].
    exists p'. cbn [first_of head fmap option_fmap option_map fst free_chain]. rewrite Hb.
    cbn [mbind option_bind]. rewrite Hn, Hf. rewrite fmap_cons, reverse_cons, <-app_assoc. split_and!; try done.
    rewrite Hl. cbn. by rewrite length_insert.
Qed.

(** ** The pool and its live texts *)

Record pool_ok (p : DetailPool) (es : list Entry) : Prop := {
  ok_rep : ∃ fr, pool_rep p fr es;
  ok_filled : Forall (λ e, filled e.2 ∧ e.2 ≠ []) es;
  ok_gens : Forall (λ e, (1 ≤ e.1 ≤ po_generation p)%N) es;
  ok_distinct : NoDup es.*1;
  ok_bound : (po_generation p ≤ max_u64)%N;
}.

#[global] Instance pool_ok_Proper p : Proper ((≡ₚ) ==> iff) (pool_ok p).
Proof.
  assert (∀ es es', es ≡ₚ es' → pool_ok p es → pool_ok p es') as H.
  { intros es es' He [[fr [R1 R2 R3 R4 R5 R6 R7]] H2 H3 H4 H5]. split; [|by rewrite <-He..|done].
    exists fr. split; try done; [by rewrite <-He|]. unfold entry_blocks. by rewrite <-He. }
  intros es es' He. split; by apply H.
Qed.

Lemma segs_short p fr es e : pool_rep p fr es → e ∈ es → length e.2 ≤ length (po_blocks p).
Proof.
  intros Hr He. pose proof (Permutation_length (rp_perm _ _ _ Hr)) as Hl. rewrite length_seq, length_app in Hl.
  apply list_elem_of_split in He as (es1 & es2 & ->). unfold entry_blocks in Hl.
  rewrite bind_app, bind_cons, !length_app, length_fmap in Hl. lia.
Qed.

(** A live handle resolves to its text. *)
Lemma live_resolves p es e :
  pool_ok p es → e ∈ es →
  block_count p (handle_of e) = Some (length e.2) ∧ view p (handle_of e) = Some (entry_text e).
Proof.
  intros [[fr Hr] Hfl _ _ _] He. rewrite Forall_forall in Hfl. destruct (Hfl e He) as [Hf Hne].
  pose proof (segs_short _ _ _ _ Hr He) as Hlen. pose proof Hr as [_ _ Hes _ Hby _ Hsz].
  rewrite Forall_forall in Hes. specialize (Hes e He). pose proof (linked_bytes _ _ _ _ _ Hes) as Hb.
  assert (block_count p (handle_of e) = Some (length e.2)) as Hc.
  { unfold block_count. destruct e as [g [|[i s] segs]]; [done|]. cbn [handle_of dh_first first_of head fmap option_fmap option_map fst snd].
    cbn [snd] in Hlen, Hb, Hf. cbn [length] in *. unfold entry_text. cbn [snd].
    apply (count_blocks_linked p _ ((i, s) :: segs)); [exact Hes|done|cbn; lia|cbn; lia| |done].
    nia. }
  split; [done|]. unfold view, valid. rewrite Hc. cbn [handle_of dh_first].
  eapply copy_blocks_linked; [done|exact Hes|lia].
Qed.

(** A handle that resolves belongs to a live chain of its generation. *)
Lemma valid_live p es h :
  pool_ok p es → valid p h = true → dh_first h ≠ None → dh_generation h ∈ es.*1.
Proof.
  intros [[fr Hr] _ _ _ _]. unfold valid, block_count.
  destruct (dh_first h) as [i|]; [|done]. intros Hv _. revert Hv. cbn [count_blocks].
  destruct (po_blocks p !! i) as [b|] eqn:Hb; cbn [mbind option_bind]; [|done].
  destruct (Nat.eqb_spec (bk_len b) 0) as [|Hne]; [done|].
  destruct (N.eqb_spec (bk_generation b) (dh_generation h)) as [<-|]; [|done]. intros _.
  pose proof (lookup_lt_Some _ _ _ Hb) as Hlt.
  assert (i ∈ fr ++ entry_blocks es) as Hi by (rewrite (rp_perm _ _ _ Hr), elem_of_seq; lia).
  apply elem_of_app in Hi as [Hi|Hi].
  - destruct Hne. pose proof (rp_free _ _ _ Hr) as Hf. clear Hr Hlt. revert Hf. generalize (po_free_head p).
    induction fr as [|j fr IH]; [by apply not_elem_of_nil in Hi|]. intros first (_ & b' & Hb' & H0 & Hf).
    apply elem_of_cons in Hi as [->|Hi]; [congruence|by eapply IH].
  - unfold entry_blocks in Hi. apply list_elem_of_bind in Hi as (e & Hi & He).
    pose proof (rp_entries _ _ _ Hr) as Hes. rewrite Forall_forall in Hes. specialize (Hes e He).
    apply list_elem_of_fmap. exists e. split; [|done]. destruct e as [g segs]. unfold entry_ok in Hes. cbn in *.
    revert Hes. generalize (first_of segs). clear He.
    induction segs as [|[j s] segs IH]; [by apply not_elem_of_nil in Hi|]. intros first (_ & n & (Hc & _) & Hl).
    cbn in Hi. apply elem_of_cons in Hi as [->|Hi]; [|by eapply IH].
    rewrite Hb in Hc. by injection Hc as ->.
Qed.

Lemma text_chunks_none parts bb :
  Forall (λ s, utf8_valid s = true) parts → 4 ≤ bb →
  news (text_chunks parts bb) = 0 → text_of parts = EmptyString ∧ text_chunks parts bb = [].
Proof.
  intros Hp Hb Hn. destruct (text_chunks_spec parts bb Hp Hb) as [<- Hf].
  destruct (text_chunks parts bb) as [|[piece new] items]; [done|exfalso].
  destruct Hf as (u & (_ & _ & Hold & _) & _). unfold news in Hn. destruct new.
  - by rewrite filter_cons_True in Hn.
  - specialize (Hold eq_refl). lia.
Qed.

(** A plan made for this geometry. *)
Record plan_of (p : DetailPool) (parts : list string) (plan : DetailPlan) : Prop := {
  pl_parts : dp_parts plan = parts;
  pl_block : dp_block_bytes plan = po_block_bytes p;
  pl_needed : dp_needed plan = news (text_chunks parts (po_block_bytes p));
  pl_text : Forall (λ s, utf8_valid s = true) parts;
}.

Lemma plan_parts_of p parts plan :
  Forall (λ s, utf8_valid s = true) parts → plan_parts p parts = Some plan →
  plan_of p parts plan ∧ (dp_needed plan = 0 ∨ po_generation p ≠ max_u64 ∧ dp_needed plan ≤ length (po_blocks p)).
Proof.
  intros Hp. unfold plan_parts.
  set (starts := filter _ (text_chunks parts (po_block_bytes p))).
  assert (length starts = news (text_chunks parts (po_block_bytes p))) as Hs by done.
  rewrite length_take. destruct (_ || _) eqn:Hb; [|done]. intros [= <-].
  rewrite orb_true_iff, andb_true_iff, Nat.eqb_eq, Nat.leb_le, negb_true_iff, N.eqb_neq in Hb.
  split; [|cbn [dp_needed]; tauto]. split; cbn [dp_needed dp_parts dp_block_bytes]; [done|done| |done].
  change (min (S (length (po_blocks p))) (length starts) = news (text_chunks parts (po_block_bytes p))).
  destruct Hb as [H0|[_ H1]]; lia.
Qed.

(** A successful allocation adds one live chain that holds the text. *)
Record allocated (p : DetailPool) (es : list Entry) (parts : list string) (needed : nat) (e : Entry)
    (p' : DetailPool) : Prop := {
  al_ok : pool_ok p' (e :: es);
  al_text : entry_text e = text_of parts;
  al_fresh : e.1 = N.succ (po_generation p);
  al_gen : po_generation p' = e.1;
  al_bb : po_block_bytes p' = po_block_bytes p;
  al_len : length (po_blocks p') = length (po_blocks p);
  al_free : po_free_blocks p = po_free_blocks p' + needed;
}.

Lemma pool_ok_push p p1 fr1 es segs :
  pool_ok p es → pool_rep p1 fr1 ((N.succ (po_generation p), segs) :: es) →
  filled segs → segs ≠ [] → po_generation p ≠ max_u64 →
  pool_ok (with_generation p1 (N.succ (po_generation p))) ((N.succ (po_generation p), segs) :: es).
Proof.
  intros [_ Hfl Hg Hd Hb] [R1 R2 R3 R4 R5 R6 R7] Hf Hne Hmax. split.
  - exists fr1. split; try done.
    + eapply free_list_frame; [|exact R1]. done.
    + eapply entries_frame; [| |exact R3]; [done|]. apply Forall_forall. intros j _.
      by apply same_cell_blocks.
  - by constructor.
  - constructor; [cbn; lia|]. eapply Forall_impl; [exact Hg|]. cbn. lia.
  - cbn. constructor; [|done]. intros (e & He & Hin)%list_elem_of_fmap. rewrite Forall_forall in Hg.
    specialize (Hg e Hin). lia.
  - cbn. unfold max_u64 in *. lia.
Qed.

Lemma allocate_fill p es parts plan :
  pool_ok p es → plan_of p parts plan →
  0 < dp_needed plan ≤ po_free_blocks p → po_generation p ≠ max_u64 →
  ∃ e p', allocate_plan p plan = Some (Some (handle_of e), p') ∧ allocated p es parts (dp_needed plan) e p'.
Proof.
  intros Hok [Hparts Hbb Hn Htext] Hneed Hmax. destruct (ok_rep _ _ Hok) as [fr Hr].
  pose proof (rp_block _ _ _ Hr) as Hb4. pose proof (rp_count _ _ _ Hr) as Hcount.
  unfold allocate_plan. rewrite Hbb, Nat.eqb_refl. cbn [negb orb].
  rewrite (proj2 (Nat.ltb_ge _ _)) by lia. rewrite (proj2 (Nat.eqb_neq _ _)) by lia.
  rewrite (proj2 (N.eqb_neq _ _)) by done. set (g := N.succ (po_generation p)).
  destruct (text_chunks_spec parts _ Htext Hb4) as [Hcat Hfit].
  assert (pool_rep p fr ((g, []) :: es)) as Hr0.
  { destruct Hr as [R1 R2 R3 R4 R5 R6 R7]. split; try done. by constructor. }
  destruct (fill_blocks_rep (text_chunks parts (po_block_bytes p)) p g fr [] es 0)
    as (p1 & fr1 & segs & Hfill & [F1 F2 F3 F4 F5 F6 F7 F8]); [done|constructor|done|lia|].
  rewrite Hparts. change (last_of []) with (@None nat) in Hfill. rewrite Hfill. cbn [mbind option_bind].
  assert (text_of segs.*2 = text_of parts) as Ht by (rewrite F2, Hcat; apply append_nil_l).
  assert (∃ item items, text_chunks parts (po_block_bytes p) = item :: items) as (item & items & Hitems).
  { destruct (text_chunks parts _); [cbn in Hn; lia|]. by do 2 eexists. }
  rewrite Hitems in F4, Hfit, Hcat. destruct Hfit as (u & (Hpiece & _) & _).
  assert (segs ≠ []) as Hne.
  { intros ->. rewrite fmap_cons, text_of_cons in Hcat. cbn in Ht. rewrite <-Hcat in Ht. by destruct item.1. }
  exists (g, segs), (with_generation p1 g). split.
  - unfold handle_of, entry_text. cbn [fst snd]. rewrite F4, Ht, <-Hcat, Hitems. repeat f_equal.
    pose proof (rp_free _ _ _ Hr) as Hf. destruct fr as [|i fr]; [cbn in Hcount; lia|]. by destruct Hf as [-> _].
  - split; try done; [by apply (pool_ok_push p p1 fr1)|].
    cbn. rewrite Hcount, (rp_count _ _ _ F1), Hn. done.
Qed.

(** [allocate_plan] on a sound pool never panics; it fails only for lack of
    blocks or of generations. *)
Lemma allocate_plan_cases p es parts plan :
  pool_ok p es → plan_of p parts plan →
  (po_free_blocks p < dp_needed plan ∧ allocate_plan p plan = Some (None, p))
  ∨ (dp_needed plan = 0 ∧ text_of parts = EmptyString ∧ allocate_plan p plan = Some (Some empty_handle, p))
  ∨ (0 < dp_needed plan ∧ po_generation p = max_u64 ∧ allocate_plan p plan = Some (None, p))
  ∨ (dp_needed plan ≤ po_free_blocks p ∧ ∃ e p',
       allocate_plan p plan = Some (Some (handle_of e), p') ∧ allocated p es parts (dp_needed plan) e p').
Proof.
  intros Hok Hpl. destruct (decide (po_free_blocks p < dp_needed plan)) as [Hlt|Hge].
  { left. split; [done|]. unfold allocate_plan. rewrite (pl_block _ _ _ Hpl), Nat.eqb_refl. cbn [negb orb].
    by rewrite (proj2 (Nat.ltb_lt _ _)). }
  right. destruct (decide (dp_needed plan = 0)) as [H0|Hpos].
  { left. split_and!; [done| |].
    - destruct (ok_rep _ _ Hok) as [fr Hr]. apply (text_chunks_none parts (po_block_bytes p)).
      + apply Hpl.
      + apply Hr.
      + by rewrite <-(pl_needed _ _ _ Hpl).
    - unfold allocate_plan. by rewrite (pl_block _ _ _ Hpl), Nat.eqb_refl, H0. }
  right. destruct (decide (po_generation p = max_u64)) as [Hmax|Hmax].
  { left. split_and!; [lia|done|]. unfold allocate_plan. rewrite (pl_block _ _ _ Hpl), Nat.eqb_refl.
    cbn [negb orb]. rewrite (proj2 (Nat.ltb_ge _ _)) by lia. rewrite (proj2 (Nat.eqb_neq _ _)) by done.
    by rewrite Hmax, N.eqb_refl. }
  right. split; [lia|]. apply allocate_fill; [done..|lia|done].
Qed.

(** ** Release *)

(** What a release leaves: the other live texts, the same geometry. *)
Record released (p : DetailPool) (es : list Entry) (blocks : nat) (p' : DetailPool) : Prop := {
  rl_ok : pool_ok p' es;
  rl_gen : po_generation p' = po_generation p;
  rl_bb : po_block_bytes p' = po_block_bytes p;
  rl_len : length (po_blocks p') = length (po_blocks p);
  rl_free : po_free_blocks p' = po_free_blocks p + blocks;
}.

Lemma free_live p es e :
  pool_ok p (e :: es) →
  ∃ p', free p (handle_of e) = Some (true, p') ∧ released p es (length e.2) p'.
Proof.
  intros Hok. destruct (live_resolves _ _ e Hok) as [Hc _]; [by left|].
  destruct Hok as [[fr Hr] Hfl Hg Hd Hb]. destruct e as [g segs]. cbn in Hc.
  pose proof (segs_short _ _ _ _ Hr (list_elem_of_here _ _)) as Hlen. cbn in Hlen.
  destruct (free_chain_rep segs (S (length (po_blocks p))) p g fr es Hr) as (p' & Hf & Hr' & Eg & Ebb & El);
    [lia|].
  exists p'. unfold free, valid. rewrite Hc. cbn [handle_of dh_first fst snd]. rewrite Hf. split; [done|].
  apply Forall_cons in Hfl as [_ Hfl], Hg as [_ Hg]. apply NoDup_cons in Hd as [_ Hd].
  split; [split|done..|]; rewrite ?Eg; try done.
  - exists (reverse segs.*1 ++ fr). destruct Hr' as [R1 R2 R3 R4 R5 R6 R7]. split; try done.
    by apply Forall_cons in R3 as [_ R3].
  - rewrite (rp_count _ _ _ Hr'), (rp_count _ _ _ Hr), length_app, length_reverse, length_fmap. cbn. lia.
Qed.

Lemma free_stale p es h :
  pool_ok p es → dh_first h ≠ None → dh_generation h ∉ es.*1 →
  view p h = None ∧ block_count p h = None ∧ free p h = Some (false, p).
Proof.
  intros Hok Hf Hd. assert (valid p h = false) as Hv.
  { apply not_true_is_false. intros Hv. by apply Hd, (valid_live p). }
  unfold view, free. rewrite Hv. unfold valid in Hv. by destruct (block_count p h).
Qed.

Lemma free_empty p : free p empty_handle = Some (true, p) ∧ view p empty_handle = Some ""%string.
Proof. done. Qed.

(** ** A new pool *)

Lemma fresh_free_list p count n i :
  po_blocks p = fresh_block count <$> seq 0 count → i + n = count →
  free_list p (if i <? count then Some i else None) (seq i n).
Proof.
  intros Hb. revert i. induction n as [|n IH]; intros i Hi; cbn [seq free_list].
  - by rewrite (proj2 (Nat.ltb_ge _ _)) by lia.
  - rewrite (proj2 (Nat.ltb_lt _ _)) by lia. split; [done|]. exists (fresh_block count i).
    rewrite Hb, list_lookup_fmap, lookup_seq_lt by lia. split_and!; [done|done|]. apply IH. lia.
Qed.

Lemma pool_new_ok reserve cap bb p :
  pool_new reserve cap bb = Some p →
  pool_ok p [] ∧ po_block_bytes p = bb ∧ length (po_blocks p) = cap / bb ∧ po_free_blocks p = cap / bb.
Proof.
  unfold pool_new, checked_usize. destruct (Nat.ltb_spec bb 4) as [|H4]; [done|].
  destruct (N.leb_spec (N.of_nat (cap / bb) * N.of_nat bb) usize_max) as [Hu|]; cbn [mbind option_bind]; [|done].
  destruct (N.of_nat (cap / bb) * block_size <=? usize_max)%N; cbn [mbind option_bind]; [|done].
  destruct (_ <=? usize_max)%N; cbn [mbind option_bind]; [|done].
  destruct (reserve (N.of_nat (cap / bb) * N.of_nat bb)%N); [|done].
  destruct (reserve (N.of_nat (cap / bb))); [|done]. intros [= <-].
  split_and!; [|done|by cbn; rewrite length_fmap, length_seq|done].
  split; [|constructor..|done]. exists (seq 0 (cap / bb)). split; cbn [po_blocks po_bytes po_block_bytes po_free_head po_free_blocks].
  - replace (if cap / bb =? 0 then None else Some 0) with (if 0 <? cap / bb then Some 0 else @None nat)
      by (by destruct (cap / bb)).
    by eapply fresh_free_list.
  - by rewrite length_seq.
  - constructor.
  - rewrite length_fmap, length_seq. cbn. by rewrite app_nil_r.
  - by rewrite length_replicate, length_fmap, length_seq.
  - done.
  - rewrite length_fmap, length_seq. lia.
Qed.

(** ** Accounting *)

Definition len_at (p : DetailPool) (i : nat) : nat :=
  match po_blocks p !! i with Some b => bk_len b | None => 0 end.

Lemma logical_bytes_at p : logical_bytes p = sum_list (len_at p <$> seq 0 (length (po_blocks p))).
Proof.
  unfold logical_bytes. f_equal. apply list_eq. intros i. rewrite !list_lookup_fmap.
  destruct (po_blocks p !! i) as [b|] eqn:Hb.
  - rewrite lookup_seq_lt by (by eapply lookup_lt_Some). cbn. unfold len_at. by rewrite Hb.
  - rewrite lookup_seq_ge; [done|]. by apply lookup_ge_None.
Qed.

Lemma sum_list_perm l1 l2 : l1 ≡ₚ l2 → sum_list l1 = sum_list l2.
Proof. induction 1; cbn; lia. Qed.

Lemma sum_list_append l1 l2 : sum_list (l1 ++ l2) = sum_list l1 + sum_list l2.
Proof. induction l1 as [|n l1 IH]; cbn; [done|lia]. Qed.

Lemma free_list_bytes p first fr : free_list p first fr → sum_list (len_at p <$> fr) = 0.
Proof.
  revert first. induction fr as [|i fr IH]; intros first; [done|]. intros (_ & b & Hb & H0 & Hf%IH).
  cbn. unfold len_at at 1. rewrite Hb. lia.
Qed.

Lemma linked_sum p g first segs stop :
  linked p g first segs stop → sum_list (len_at p <$> segs.*1) = String.length (text_of segs.*2).
Proof.
  revert first. induction segs as [|[i s] segs IH]; intros first; [done|].
  intros (_ & n & (Hb & _) & Hl%IH). rewrite !fmap_cons, text_of_cons, append_length. cbn [fst snd].
  cbn [sum_list sum_list_with foldr]. change (sum_list_with id) with sum_list in *. unfold len_at at 1.
  rewrite Hb. cbn. lia.
Qed.

(** The pool counts exactly the bytes of the live texts, and they fit the
    blocks in use. *)
Lemma pool_accounting p es :
  pool_ok p es →
  logical_bytes p = sum_list ((λ e, String.length (entry_text e)) <$> es)
  ∧ logical_bytes p ≤ used_bytes p ≤ capacity_bytes p
  ∧ po_free_blocks p + sum_list ((λ e : Entry, length e.2) <$> es) = length (po_blocks p).
Proof.
  intros [[fr Hr] _ _ _ _]. destruct Hr as [Hf Hc He Hp Hby Hbb _].
  rewrite logical_bytes_at, <-(sum_list_perm _ _ (fmap_Permutation (len_at p) _ _ Hp)), fmap_app, sum_list_append.
  rewrite (free_list_bytes _ _ _ Hf). apply Permutation_length in Hp. rewrite length_seq, length_app in Hp.
  assert (sum_list (len_at p <$> entry_blocks es) = sum_list ((λ e, String.length (entry_text e)) <$> es)
    ∧ sum_list ((λ e, String.length (entry_text e)) <$> es) ≤ length (entry_blocks es) * po_block_bytes p
    ∧ length (entry_blocks es) = sum_list ((λ e : Entry, length e.2) <$> es)) as (H1 & H2 & H3).
  { clear Hf Hc Hp. induction He as [|[g segs] es Hs _ IH]; [done|]. unfold entry_ok in Hs. cbn [fst snd] in Hs.
    rewrite entry_blocks_cons, !fmap_app, sum_list_append, length_app, length_fmap, (linked_sum _ _ _ _ _ Hs).
    pose proof (linked_bytes _ _ _ _ _ Hs). cbn. change (sum_list_with id) with sum_list.
    unfold entry_text in *. fold (text_of segs.*2). destruct IH as (-> & IH2 & IH3).
    rewrite <-IH3. split_and!; [done|lia|done]. }
  unfold used_bytes, capacity_bytes. rewrite Hby. split_and!; [done|nia|nia|lia].
Qed.

(** ** Sequences of allocations and releases

    Handles stay inside the crate, so the ones in use are the ones
    [allocate_plan] has returned: the live ones with the text they stand
    for, and the released ones.  A plan may be older than the pool it is
    used on, since it is kept while history is reclaimed. *)
Inductive pool_run (reserve : N → bool) (cap bb : nat) :
    DetailPool → list (DetailHandle * string) → list DetailHandle → Prop :=
| run_new p : pool_new reserve cap bb = Some p → pool_run reserve cap bb p [] []
| run_allocate q lq dq p live dead parts plan h p' :
    pool_run reserve cap bb q lq dq → Forall (λ s, utf8_valid s = true) parts →
    plan_parts q parts = Some plan →
    pool_run reserve cap bb p live dead →
    allocate_plan p plan = Some (Some h, p') → dh_first h ≠ None →
    pool_run reserve cap bb p' ((h, text_of parts) :: live) dead
| run_free p live1 h t live2 dead p' :
    pool_run reserve cap bb p (live1 ++ (h, t) :: live2) dead → free p h = Some (true, p') →
    pool_run reserve cap bb p' (live1 ++ live2) (h :: dead).

Definition entry_pair (e : Entry) : DetailHandle * string := (handle_of e, entry_text e).

Record run_ok (cap bb : nat) (p : DetailPool) (live : list (DetailHandle * string))
    (dead : list DetailHandle) (es : list Entry) : Prop := {
  ro_ok : pool_ok p es;
  ro_live : live = entry_pair <$> es;
  ro_bb : po_block_bytes p = bb;
  ro_len : length (po_blocks p) = cap / bb;
  ro_dead : Forall (λ h, dh_first h ≠ None ∧ (dh_generation h ≤ po_generation p)%N
                         ∧ dh_generation h ∉ es.*1) dead;
}.

Lemma first_of_some (e : Entry) : e.2 ≠ [] → dh_first (handle_of e) ≠ None.
Proof. by destruct e as [g [|[i s] segs]]. Qed.

Lemma pool_run_ok reserve cap bb p live dead :
  pool_run reserve cap bb p live dead → ∃ es, run_ok cap bb p live dead es.
Proof.
  induction 1 as [p Hnew|q lq dq p live dead parts plan h p' _ (eq & Hq) Hp Hplan _ (es & IH) Hal Hne
                 |p live1 h t live2 dead p' _ (es & IH) Hfree].
  - destruct (pool_new_ok _ _ _ _ Hnew) as (Hok & Hbb & Hlen & _). exists []. by split.
  - destruct IH as [Hok Hlive Hbb Hlen Hdead]. destruct (plan_parts_of _ _ _ Hp Hplan) as [[P1 P2 P3 P4] _].
    destruct (allocate_plan_cases p es parts plan) as [[_ Hc]|[(_ & _ & Hc)|[(_ & _ & Hc)|(_ & e & p1 & Hc & Hal')]]];
      [done|by split; rewrite ?Hbb, <-?(ro_bb _ _ _ _ _ _ Hq)| | | |];
      rewrite Hc in Hal; [done| |done|]; injection Hal as <- <-; [done|].
    destruct Hal' as [A1 A2 A3 A4 A5 A6 A7]. exists (e :: es). split; [done| |congruence|congruence|].
    + rewrite Hlive, <-A2. done.
    + eapply Forall_impl; [exact Hdead|]. intros h' (H1 & H2 & H3). rewrite A4, A3. split_and!; [done|lia|].
      cbn. rewrite not_elem_of_cons. split; [lia|done].
  - destruct IH as [Hok Hlive Hbb Hlen Hdead]. symmetry in Hlive.
    apply fmap_app_inv in Hlive as (es1 & es2 & -> & Hl2 & ->). symmetry in Hl2.
    apply fmap_cons_inv in Hl2 as (e & es2' & [= -> ->] & -> & ->).
    rewrite <-Permutation_middle in Hok. destruct (free_live _ _ _ Hok) as (p1 & Hf & [R1 R2 R3 R4 R5]).
    rewrite Hf in Hfree. injection Hfree as <-. exists (es1 ++ es2').
    pose proof (ok_gens _ _ Hok) as Hg. apply Forall_cons in Hg as [Hg _].
    pose proof (ok_filled _ _ Hok) as Hfl. apply Forall_cons in Hfl as [[_ Hfl] _].
    pose proof (ok_distinct _ _ Hok) as Hd. cbn in Hd. apply NoDup_cons in Hd as [Hd _].
    split; [done|by rewrite fmap_app|congruence|congruence|]. rewrite R2. constructor.
    + split_and!; [by apply first_of_some|cbn; lia|exact Hd].
    + eapply Forall_impl; [exact Hdead|]. intros h' (H1 & H2 & H3). split_and!; [done..|].
      rewrite fmap_app, elem_of_app in H3 |- *. cbn in H3. rewrite elem_of_cons in H3. tauto.
Qed.

(** What the pool promises its user. *)
Record pool_promises (cap bb : nat) (p : DetailPool) (live : list (DetailHandle * string))
    (dead : list DetailHandle) : Prop := {
  pp_reads : ∀ h t, (h, t) ∈ live →
    view p h = Some t ∧ dh_len h = String.length t ∧ ∃ p', free p h = Some (true, p');
  pp_stale : ∀ h, h ∈ dead → view p h = None ∧ free p h = Some (false, p);
  pp_distinct : NoDup (dh_generation <$> (live.*1));
  pp_bytes : logical_bytes p = sum_list ((λ ht, String.length ht.2) <$> live)
    ∧ logical_bytes p ≤ used_bytes p ≤ capacity_bytes p;
  pp_allocate : ∀ parts plan, Forall (λ s, utf8_valid s = true) parts → plan_parts p parts = Some plan →
    if dp_needed plan <=? po_free_blocks p
    then ∃ h p', allocate_plan p plan = Some (Some h, p') ∧ view p' h = Some (text_of parts)
    else allocate_plan p plan = Some (None, p);
}.

(** C6: the detail pool implements a store of texts.  After any sequence of
    allocations and releases from a new pool, every live handle reads back
    exactly the text it was allocated for and can be released, every
    released handle is refused from then on, no two live handles share a
    generation, the pool counts the bytes of the live texts exactly, and an
    allocation whose plan was admitted succeeds if and only if enough blocks
    are free; no operation panics. *)
Theorem detail_pool_store reserve cap bb p live dead :
  pool_run reserve cap bb p live dead → pool_promises cap bb p live dead.
Proof.
  intros (es & [Hok -> Hbb Hlen Hdead])%pool_run_ok. split.
  - intros h t (e & [= -> ->] & He)%list_elem_of_fmap.
    destruct (live_resolves p es e Hok He) as [_ Hv]. split_and!; [done..|].
    apply list_elem_of_split in He as (es1 & es2 & ->). rewrite <-Permutation_middle in Hok.
    destruct (free_live _ _ _ Hok) as (p' & Hf & _). by exists p'.
  - intros h Hh. rewrite Forall_forall in Hdead. destruct (Hdead h Hh) as (H1 & _ & H3).
    by destruct (free_stale p es h Hok H1 H3) as (? & _ & ?).
  - rewrite <-!list_fmap_compose. apply (ok_distinct _ _ Hok).
  - rewrite <-list_fmap_compose. destruct (pool_accounting _ _ Hok) as (H1 & H2 & _). done.
  - intros parts plan Hp Hplan. destruct (plan_parts_of _ _ _ Hp Hplan) as [Hpl Hmax].
    destruct (allocate_plan_cases p es parts plan Hok Hpl)
      as [[Hlt Hc]|[(H0 & Ht & Hc)|[(Hpos & Hg & Hc)|(Hle & e & p1 & Hc & Hal)]]].
    + by rewrite (proj2 (Nat.leb_gt _ _)).
    + rewrite (proj2 (Nat.leb_le _ _)) by lia. exists empty_handle, p. by rewrite Ht.
    + destruct Hmax as [|[]]; [lia|done].
    + rewrite (proj2 (Nat.leb_le _ _)) by done. exists (handle_of e), p1. split; [done|].
      rewrite <-(al_text _ _ _ _ _ _ Hal). apply (live_resolves p1 (e :: es)); [apply Hal|by left].
Qed.

Definition demo_pool : DetailPool :=
  default {| po_bytes := []; po_blocks := []; po_block_bytes := 0; po_free_head := None;
             po_free_blocks := 0; po_generation := 0 |} (pool_new (λ _, true) 16 4).

Definition demo_text : list string := ["€abc"; ""; "id"]%string.

(** Two allocations and a release. *)
Lemma detail_pool_store_witness :
  ∃ p h1 h2, pool_promises 16 4 p [(h2, text_of demo_text)] [h1] ∧ view p h2 = Some "€abcid"%string.
Proof.
  assert (pool_run (λ _, true) 16 4 demo_pool [] []) as R0 by (by apply run_new).
  eassert (pool_run (λ _, true) 16 4 _ [(_, text_of ["🙂"%string])] []) as R1.
  { eapply run_allocate; [exact R0| |vm_compute; reflexivity|exact R0|vm_compute; reflexivity|done].
    by repeat constructor. }
  eassert (pool_run (λ _, true) 16 4 _ [(_, text_of demo_text); (_, text_of ["🙂"%string])] []) as R2.
  { eapply run_allocate; [exact R0| |vm_compute; reflexivity|exact R1|vm_compute; reflexivity|done].
    by repeat constructor. }
  eassert (pool_run (λ _, true) 16 4 _ [(_, text_of demo_text)] [_]) as R3.
  { eapply (run_free _ _ _ _ [_]); [exact R2|vm_compute; reflexivity]. }
  eexists _, _, _. split; [exact (detail_pool_store _ _ _ _ _ _ R3)|vm_compute; reflexivity].
Defined.
