(* ===== verification/DiagCatalogue.v ===== *)
(** * The catalogue of diagnostic codes

    [src/crates/types/src/diagnostics/catalogue.rs] with [Classification] of
    [event.rs] and the classifier of plugin errors
    ([src/crates/diagnostics/src/classifiers.rs]): the supported causes, the
    built-in codes with their names, domains and permitted causes, and the
    checked construction of a classification.

    The theorems show that the catalogue is complete and free of duplicates,
    that names and codes correspond one to one, and that every classification
    built through the checked constructors is accepted again from its names. *)

From Stdlib Require Import Ascii.
From stdpp Require Import base numbers strings list.
From S2P Require Import Prelude Text.

(** ** Causes and plugin context *)

Inductive FailureClass : Type :=
| FcInvalidInput
| FcInvalidState
| FcNotFound
| FcConflict
| FcAuthentication
| FcPermissionDenied
| FcUnsupported
| FcIncompatible
| FcTimeout
| FcUnavailable
| FcResourceExhausted
| FcIo
| FcExecutionFailed
| FcPolicyRejected
| FcInternal
| FcUnknown.

#[global] Instance FailureClass_eq_dec : EqDecision FailureClass.
Proof. solve_decision. Defined.

Definition failure_class_as_str (c : FailureClass) : string :=
  match c with
  | FcInvalidInput => "invalid_input"
  | FcInvalidState => "invalid_state"
  | FcNotFound => "not_found"
  | FcConflict => "conflict"
  | FcAuthentication => "authentication"
  | FcPermissionDenied => "permission_denied"
  | FcUnsupported => "unsupported"
  | FcIncompatible => "incompatible"
  | FcTimeout => "timeout"
  | FcUnavailable => "unavailable"
  | FcResourceExhausted => "resource_exhausted"
  | FcIo => "io"
  | FcExecutionFailed => "execution_failed"
  | FcPolicyRejected => "policy_rejected"
  | FcInternal => "internal"
  | FcUnknown => "unknown"
  end.

Definition failure_class_variants : list FailureClass :=
  [FcInvalidInput; FcInvalidState; FcNotFound; FcConflict; FcAuthentication;
   FcPermissionDenied; FcUnsupported; FcIncompatible; FcTimeout; FcUnavailable;
   FcResourceExhausted; FcIo; FcExecutionFailed; FcPolicyRejected; FcInternal;
   FcUnknown].

(** [name.parse().ok()] with the derived snake-case names. *)
Definition failure_class_from_canonical_name (name : string) : option FailureClass :=
  head (filter (λ c, failure_class_as_str c = name) failure_class_variants).

Inductive PluginExecution : Type :=
| ExNativeAbi
| ExWorkerProtocol.

#[global] Instance PluginExecution_eq_dec : EqDecision PluginExecution.
Proof. solve_decision. Defined.

Definition plugin_execution_as_str (c : PluginExecution) : string :=
  match c with
  | ExNativeAbi => "native_abi"
  | ExWorkerProtocol => "worker_protocol"
  end.

Definition plugin_execution_variants : list PluginExecution :=
  [ExNativeAbi; ExWorkerProtocol].

(** [name.parse().ok()] with the derived snake-case names. *)
Definition plugin_execution_from_canonical_name (name : string) : option PluginExecution :=
  head (filter (λ c, plugin_execution_as_str c = name) plugin_execution_variants).

Inductive PluginPhase : Type :=
| PhValidation
| PhActivation
| PhRuntime
| PhPolicy
| PhShutdown.

#[global] Instance PluginPhase_eq_dec : EqDecision PluginPhase.
Proof. solve_decision. Defined.

Definition plugin_phase_as_str (c : PluginPhase) : string :=
  match c with
  | PhValidation => "validation"
  | PhActivation => "activation"
  | PhRuntime => "runtime"
  | PhPolicy => "policy"
  | PhShutdown => "shutdown"
  end.

Definition plugin_phase_variants : list PluginPhase :=
  [PhValidation; PhActivation; PhRuntime; PhPolicy; PhShutdown].

(** [name.parse().ok()] with the derived snake-case names. *)
Definition plugin_phase_from_canonical_name (name : string) : option PluginPhase :=
  head (filter (λ c, plugin_phase_as_str c = name) plugin_phase_variants).

Inductive DiagnosticDomain : Type :=
| DomDaemon
| DomCli
| DomPlugin
| DomLogging.

#[global] Instance DiagnosticDomain_eq_dec : EqDecision DiagnosticDomain.
Proof. solve_decision. Defined.

Inductive PluginDiagnosticFamily : Type :=
| FamCommon
| FamOperations.

#[global] Instance PluginDiagnosticFamily_eq_dec : EqDecision PluginDiagnosticFamily.
Proof. solve_decision. Defined.

(** ** Codes *)

Inductive CommonPluginFailureCode : Type :=
| CpConfigurationInvalid
| CpRegistrationFailed
| CpExporterInitializationFailed
| CpStateConflict
| CpResourceNotFound
| CpSerializationFailed
| CpInternal.

#[global] Instance CommonPluginFailureCode_eq_dec : EqDecision CommonPluginFailureCode.
Proof. solve_decision. Defined.

Definition common_plugin_canonical_name (c : CommonPluginFailureCode) : string :=
  match c with
  | CpConfigurationInvalid => "plugin.configuration_invalid"
  | CpRegistrationFailed => "plugin.registration_failed"
  | CpExporterInitializationFailed => "plugin.exporter_initialization_failed"
  | CpStateConflict => "plugin.state_conflict"
  | CpResourceNotFound => "plugin.resource_not_found"
  | CpSerializationFailed => "plugin.serialization_failed"
  | CpInternal => "plugin.internal"
  end.

Definition common_plugin_allowed_classes (c : CommonPluginFailureCode) : list FailureClass :=
  match c with
  | CpConfigurationInvalid => [FcUnknown; FcInvalidInput]
  | CpExporterInitializationFailed => [FcInvalidInput; FcPolicyRejected; FcIo; FcUnknown]
  | CpRegistrationFailed => [FcUnknown; FcInvalidInput; FcConflict; FcInternal; FcResourceExhausted; FcUnavailable]
  | CpStateConflict => [FcConflict]
  | CpResourceNotFound => [FcNotFound]
  | CpSerializationFailed => [FcUnknown; FcInvalidInput; FcInternal]
  | CpInternal => [FcInternal]
  end.

Inductive PluginOperationFailureCode : Type :=
| OpArtifactVerification
| OpPolicy
| OpSchemaValidation
| OpNativeLoad
| OpNativeValidation
| OpNativeRegistration
| OpNativeCallback
| OpWorkerLaunch
| OpWorkerHandshake
| OpWorkerValidation
| OpWorkerRegistration
| OpWorkerTransport
| OpWorkerCallback
| OpWorkerCancellation
| OpWorkerShutdown
| OpWorkerExit.

#[global] Instance PluginOperationFailureCode_eq_dec : EqDecision PluginOperationFailureCode.
Proof. solve_decision. Defined.

Definition plugin_operation_canonical_name (c : PluginOperationFailureCode) : string :=
  match c with
  | OpArtifactVerification => "plugin.artifact_verification_failed"
  | OpPolicy => "plugin.policy_failed"
  | OpSchemaValidation => "plugin.schema_validation_failed"
  | OpNativeLoad => "plugin.native.load_failed"
  | OpNativeValidation => "plugin.native.validation_failed"
  | OpNativeRegistration => "plugin.native.registration_failed"
  | OpNativeCallback => "plugin.native.callback_failed"
  | OpWorkerLaunch => "plugin.worker.launch_failed"
  | OpWorkerHandshake => "plugin.worker.handshake_failed"
  | OpWorkerValidation => "plugin.worker.validation_failed"
  | OpWorkerRegistration => "plugin.worker.registration_failed"
  | OpWorkerTransport => "plugin.worker.transport_failed"
  | OpWorkerCallback => "plugin.worker.callback_failed"
  | OpWorkerCancellation => "plugin.worker.cancellation_failed"
  | OpWorkerShutdown => "plugin.worker.shutdown_failed"
  | OpWorkerExit => "plugin.worker.exit_failed"
  end.

Definition plugin_operation_allowed_classes (c : PluginOperationFailureCode) : list FailureClass :=
  [FcUnknown; FcInvalidInput; FcInvalidState; FcNotFound;
   FcConflict; FcAuthentication; FcPermissionDenied; FcUnsupported;
   FcIncompatible; FcTimeout; FcUnavailable; FcResourceExhausted;
   FcIo; FcExecutionFailed; FcPolicyRejected; FcInternal].

Inductive LoggingFailureCode : Type :=
| LgInitializeFailed
| LgShutdownFailed
| LgProjectionUnavailable
| LgSinkInitializeFailed
| LgSinkRecordDropped
| LgSinkFlushDropped
| LgSinkFlushFailed
| LgSinkWriteFailed
| LgSinkShutdownFailed.

#[global] Instance LoggingFailureCode_eq_dec : EqDecision LoggingFailureCode.
Proof. solve_decision. Defined.

Definition logging_canonical_name (c : LoggingFailureCode) : string :=
  match c with
  | LgInitializeFailed => "logging.initialize_failed"
  | LgShutdownFailed => "logging.shutdown_failed"
  | LgProjectionUnavailable => "logging.projection_unavailable"
  | LgSinkInitializeFailed => "logging.sink.initialize_failed"
  | LgSinkRecordDropped => "logging.sink.record_dropped"
  | LgSinkFlushDropped => "logging.sink.flush_dropped"
  | LgSinkFlushFailed => "logging.sink.flush_failed"
  | LgSinkWriteFailed => "logging.sink.write_failed"
  | LgSinkShutdownFailed => "logging.sink.shutdown_failed"
  end.

Definition logging_allowed_classes (c : LoggingFailureCode) : list FailureClass :=
  match c with
  | LgInitializeFailed => [FcUnknown; FcIo; FcInvalidInput; FcResourceExhausted]
  | LgShutdownFailed => [FcUnknown; FcIo; FcTimeout]
  | LgProjectionUnavailable => [FcUnknown; FcResourceExhausted]
  | LgSinkInitializeFailed => [FcUnknown; FcIo; FcInvalidInput]
  | LgSinkRecordDropped => [FcResourceExhausted]
  | LgSinkFlushDropped => [FcResourceExhausted]
  | LgSinkFlushFailed => [FcUnknown; FcIo; FcUnavailable; FcTimeout]
  | LgSinkWriteFailed => [FcUnknown; FcIo; FcUnavailable; FcTimeout]
  | LgSinkShutdownFailed => [FcUnknown; FcIo; FcTimeout]
  end.

Inductive CliFailureCode : Type :=
| ClChildCleanup
| ClUpstreamResponse
| ClCommand
| ClConfiguration
| ClGatewayBind
| ClGatewayServe
| ClAcquire
| ClChildSpawn
| ClChildWait
| ClHookForward
| ClUpstreamTransport.

#[global] Instance CliFailureCode_eq_dec : EqDecision CliFailureCode.
Proof. solve_decision. Defined.

Definition cli_canonical_name (c : CliFailureCode) : string :=
  match c with
  | ClChildCleanup => "cli.child.cleanup_failed"
  | ClUpstreamResponse => "cli.upstream.response_failed"
  | ClCommand => "cli.command_failed"
  | ClConfiguration => "cli.configuration_failed"
  | ClGatewayBind => "cli.gateway.bind_failed"
  | ClGatewayServe => "cli.gateway.serve_failed"
  | ClAcquire => "cli.acquire_failed"
  | ClChildSpawn => "cli.child.spawn_failed"
  | ClChildWait => "cli.child.wait_failed"
  | ClHookForward => "cli.hook.forward_failed"
  | ClUpstreamTransport => "cli.upstream.transport_failed"
  end.

Definition cli_allowed_classes (c : CliFailureCode) : list FailureClass :=
  [FcUnknown; FcIo; FcInvalidInput; FcTimeout;
   FcAuthentication; FcPolicyRejected; FcUnavailable; FcPermissionDenied;
   FcNotFound; FcConflict; FcExecutionFailed].

Inductive DaemonFailureCode : Type :=
| DmRegistration
| DmActivationReported
| DmActivationDeadline
| DmReadiness
| DmControlLost
| DmForward
| DmCollection
| DmWorkerInitialize
| DmWorkerListener
| DmWorkerTeardown.

#[global] Instance DaemonFailureCode_eq_dec : EqDecision DaemonFailureCode.
Proof. solve_decision. Defined.

Definition daemon_canonical_name (c : DaemonFailureCode) : string :=
  match c with
  | DmRegistration => "daemon.registration_failed"
  | DmActivationReported => "daemon.activation_reported_failed"
  | DmActivationDeadline => "daemon.activation_deadline_exceeded"
  | DmReadiness => "daemon.readiness_failed"
  | DmControlLost => "daemon.control_lost"
  | DmForward => "daemon.forward_failed"
  | DmCollection => "daemon.collection_failed"
  | DmWorkerInitialize => "daemon.worker.initialize_failed"
  | DmWorkerListener => "daemon.worker.listener_failed"
  | DmWorkerTeardown => "daemon.worker.teardown_failed"
  end.

Definition daemon_allowed_classes (c : DaemonFailureCode) : list FailureClass :=
  [FcUnknown; FcIo; FcTimeout; FcUnavailable;
   FcAuthentication; FcInvalidInput; FcInvalidState; FcResourceExhausted;
   FcUnsupported; FcPermissionDenied; FcExecutionFailed].

Inductive SuccessCode : Type :=
| ScPluginNativeLoaded
| ScPluginNativeValidated
| ScPluginNativeRegistered
| ScPluginWorkerStarted
| ScPluginWorkerHandshakeCompleted
| ScPluginWorkerValidated
| ScPluginWorkerRegistered
| ScPluginWorkerProcessCleaned
| ScCliUpstreamHeadersReceived
| ScCliUpstreamBodyCompleted
| ScCliChildCleaned
| ScCliCommandCompleted
| ScCliGatewayBound
| ScCliGatewayStopped
| ScCliAcquired
| ScCliChildSpawned
| ScCliChildWaited
| ScCliHookForwarded
| ScLoggingInitialized
| ScLoggingShutdownCompleted
| ScSinkInitialized.

#[global] Instance SuccessCode_eq_dec : EqDecision SuccessCode.
Proof. solve_decision. Defined.

Definition success_canonical_name (c : SuccessCode) : string :=
  match c with
  | ScPluginNativeLoaded => "plugin.native.loaded"
  | ScPluginNativeValidated => "plugin.native.validated"
  | ScPluginNativeRegistered => "plugin.native.registered"
  | ScPluginWorkerStarted => "plugin.worker.started"
  | ScPluginWorkerHandshakeCompleted => "plugin.worker.handshake_completed"
  | ScPluginWorkerValidated => "plugin.worker.validated"
  | ScPluginWorkerRegistered => "plugin.worker.registered"
  | ScPluginWorkerProcessCleaned => "plugin.worker.process_cleaned"
  | ScCliUpstreamHeadersReceived => "cli.upstream.headers_received"
  | ScCliUpstreamBodyCompleted => "cli.upstream.body_completed"
  | ScCliChildCleaned => "cli.child.cleaned"
  | ScCliCommandCompleted => "cli.command_completed"
  | ScCliGatewayBound => "cli.gateway.bound"
  | ScCliGatewayStopped => "cli.gateway.stopped"
  | ScCliAcquired => "cli.acquired"
  | ScCliChildSpawned => "cli.child.spawned"
  | ScCliChildWaited => "cli.child.waited"
  | ScCliHookForwarded => "cli.hook.forwarded"
  | ScLoggingInitialized => "logging.initialized"
  | ScLoggingShutdownCompleted => "logging.shutdown_completed"
  | ScSinkInitialized => "logging.sink.initialized"
  end.

Inductive NoticeCode : Type :=
| NtCliNonzeroExit
| NtCliPolicyRejected
| NtCliChildExited
| NtConfigurationInherited.

#[global] Instance NoticeCode_eq_dec : EqDecision NoticeCode.
Proof. solve_decision. Defined.

Definition notice_canonical_name (c : NoticeCode) : string :=
  match c with
  | NtCliNonzeroExit => "cli.nonzero_exit"
  | NtCliPolicyRejected => "cli.policy_rejected"
  | NtCliChildExited => "cli.child.exited"
  | NtConfigurationInherited => "plugin.configuration_inherited"
  end.

Inductive PluginFailureCode : Type :=
| Operation (c : PluginOperationFailureCode)
| Common (c : CommonPluginFailureCode).

Inductive FailureCode : Type :=
| DaemonFailure (c : DaemonFailureCode)
| CliFailure (c : CliFailureCode)
| PluginFailure (c : PluginFailureCode)
| LoggingFailure (c : LoggingFailureCode).

Inductive BuiltinDiagnosticCode : Type :=
| Failure (c : FailureCode)
| Success (c : SuccessCode)
| Notice (c : NoticeCode).

#[global] Instance PluginFailureCode_eq_dec : EqDecision PluginFailureCode.
Proof. solve_decision. Defined.

#[global] Instance FailureCode_eq_dec : EqDecision FailureCode.
Proof. solve_decision. Defined.

#[global] Instance BuiltinDiagnosticCode_eq_dec : EqDecision BuiltinDiagnosticCode.
Proof. solve_decision. Defined.

Definition plugin_family_of (c : PluginFailureCode) : PluginDiagnosticFamily :=
  match c with
  | Operation _ => FamOperations
  | Common _ => FamCommon
  end.

Definition plugin_canonical_name (c : PluginFailureCode) : string :=
  match c with
  | Operation c => plugin_operation_canonical_name c
  | Common c => common_plugin_canonical_name c
  end.

Definition plugin_allowed_classes (c : PluginFailureCode) : list FailureClass :=
  match c with
  | Operation c => plugin_operation_allowed_classes c
  | Common c => common_plugin_allowed_classes c
  end.

Definition failure_canonical_name (c : FailureCode) : string :=
  match c with
  | CliFailure c => cli_canonical_name c
  | DaemonFailure c => daemon_canonical_name c
  | PluginFailure c => plugin_canonical_name c
  | LoggingFailure c => logging_canonical_name c
  end.

Definition failure_domain (c : FailureCode) : DiagnosticDomain :=
  match c with
  | CliFailure _ => DomCli
  | DaemonFailure _ => DomDaemon
  | PluginFailure _ => DomPlugin
  | LoggingFailure _ => DomLogging
  end.

Definition failure_allowed_classes (c : FailureCode) : list FailureClass :=
  match c with
  | CliFailure c => cli_allowed_classes c
  | DaemonFailure c => daemon_allowed_classes c
  | PluginFailure c => plugin_allowed_classes c
  | LoggingFailure c => logging_allowed_classes c
  end.

Definition canonical_name (c : BuiltinDiagnosticCode) : string :=
  match c with
  | Failure c => failure_canonical_name c
  | Success c => success_canonical_name c
  | Notice c => notice_canonical_name c
  end.

Definition domain (c : BuiltinDiagnosticCode) : DiagnosticDomain :=
  match c with
  | Failure c => failure_domain c
  | Success ScPluginNativeLoaded | Success ScPluginNativeValidated | Success ScPluginNativeRegistered
    | Success ScPluginWorkerStarted | Success ScPluginWorkerHandshakeCompleted | Success ScPluginWorkerValidated
    | Success ScPluginWorkerRegistered | Success ScPluginWorkerProcessCleaned => DomPlugin
  | Success ScCliUpstreamHeadersReceived | Success ScCliUpstreamBodyCompleted | Success ScCliChildCleaned
    | Success ScCliCommandCompleted | Success ScCliGatewayBound | Success ScCliGatewayStopped
    | Success ScCliAcquired | Success ScCliChildSpawned | Success ScCliChildWaited
    | Success ScCliHookForwarded | Notice NtCliNonzeroExit | Notice NtCliPolicyRejected
    | Notice NtCliChildExited => DomCli
  | Success ScLoggingInitialized | Success ScLoggingShutdownCompleted | Success ScSinkInitialized => DomLogging
  | Notice NtConfigurationInherited => DomPlugin
  end.

Definition plugin_family (c : BuiltinDiagnosticCode) : option PluginDiagnosticFamily :=
  match c with
  | Failure (PluginFailure code) => Some (plugin_family_of code)
  | Success ScPluginNativeLoaded | Success ScPluginNativeValidated | Success ScPluginNativeRegistered
    | Success ScPluginWorkerStarted | Success ScPluginWorkerHandshakeCompleted | Success ScPluginWorkerValidated
    | Success ScPluginWorkerRegistered | Success ScPluginWorkerProcessCleaned => Some FamOperations
  | Notice NtConfigurationInherited => Some FamCommon
  | Failure (DaemonFailure _) | Failure (CliFailure _) | Success ScCliUpstreamHeadersReceived
    | Success ScCliUpstreamBodyCompleted | Success ScCliChildCleaned | Success ScCliCommandCompleted
    | Success ScCliGatewayBound | Success ScCliGatewayStopped | Success ScCliAcquired
    | Success ScCliChildSpawned | Success ScCliChildWaited | Success ScCliHookForwarded
    | Notice NtCliNonzeroExit | Notice NtCliPolicyRejected | Notice NtCliChildExited
    | Failure (LoggingFailure _) | Success ScLoggingInitialized | Success ScLoggingShutdownCompleted
    | Success ScSinkInitialized => None
  end.

Definition allowed_classes (c : BuiltinDiagnosticCode) : list FailureClass :=
  match c with
  | Failure c => failure_allowed_classes c
  | _ => []
  end.

Definition allows_class (c : BuiltinDiagnosticCode) (class : option FailureClass) : bool :=
  match c, class with
  | Failure _, Some class => bool_decide (class ∈ allowed_classes c)
  | Success _, None | Notice _, None => true
  | _, _ => false
  end.

Definition all_codes : list BuiltinDiagnosticCode :=
  [Success ScPluginNativeLoaded;
   Success ScPluginNativeValidated;
   Success ScPluginNativeRegistered;
   Success ScPluginWorkerStarted;
   Success ScPluginWorkerHandshakeCompleted;
   Success ScPluginWorkerValidated;
   Success ScPluginWorkerRegistered;
   Success ScPluginWorkerProcessCleaned;
   Failure (PluginFailure (Operation OpArtifactVerification));
   Failure (PluginFailure (Operation OpPolicy));
   Failure (PluginFailure (Operation OpSchemaValidation));
   Failure (PluginFailure (Operation OpNativeLoad));
   Failure (PluginFailure (Operation OpNativeValidation));
   Failure (PluginFailure (Operation OpNativeRegistration));
   Failure (PluginFailure (Operation OpNativeCallback));
   Failure (PluginFailure (Operation OpWorkerLaunch));
   Failure (PluginFailure (Operation OpWorkerHandshake));
   Failure (PluginFailure (Operation OpWorkerValidation));
   Failure (PluginFailure (Operation OpWorkerRegistration));
   Failure (PluginFailure (Operation OpWorkerTransport));
   Failure (PluginFailure (Operation OpWorkerCallback));
   Failure (PluginFailure (Operation OpWorkerCancellation));
   Failure (PluginFailure (Operation OpWorkerShutdown));
   Failure (PluginFailure (Operation OpWorkerExit));
   Failure (DaemonFailure DmRegistration);
   Failure (DaemonFailure DmActivationReported);
   Failure (DaemonFailure DmActivationDeadline);
   Failure (DaemonFailure DmReadiness);
   Failure (DaemonFailure DmControlLost);
   Failure (DaemonFailure DmForward);
   Failure (DaemonFailure DmCollection);
   Failure (DaemonFailure DmWorkerInitialize);
   Failure (DaemonFailure DmWorkerListener);
   Failure (DaemonFailure DmWorkerTeardown);
   Failure (CliFailure ClChildCleanup);
   Failure (CliFailure ClUpstreamResponse);
   Success ScCliUpstreamHeadersReceived;
   Success ScCliUpstreamBodyCompleted;
   Success ScCliChildCleaned;
   Failure (CliFailure ClCommand);
   Failure (CliFailure ClConfiguration);
   Failure (CliFailure ClGatewayBind);
   Failure (CliFailure ClGatewayServe);
   Failure (CliFailure ClAcquire);
   Failure (CliFailure ClChildSpawn);
   Failure (CliFailure ClChildWait);
   Failure (CliFailure ClHookForward);
   Failure (CliFailure ClUpstreamTransport);
   Success ScCliCommandCompleted;
   Success ScCliGatewayBound;
   Success ScCliGatewayStopped;
   Success ScCliAcquired;
   Success ScCliChildSpawned;
   Success ScCliChildWaited;
   Success ScCliHookForwarded;
   Notice NtCliNonzeroExit;
   Notice NtCliPolicyRejected;
   Notice NtCliChildExited;
   Failure (PluginFailure (Common CpConfigurationInvalid));
   Failure (PluginFailure (Common CpRegistrationFailed));
   Failure (PluginFailure (Common CpExporterInitializationFailed));
   Failure (PluginFailure (Common CpStateConflict));
   Failure (PluginFailure (Common CpResourceNotFound));
   Failure (PluginFailure (Common CpSerializationFailed));
   Failure (PluginFailure (Common CpInternal));
   Failure (LoggingFailure LgInitializeFailed);
   Failure (LoggingFailure LgShutdownFailed);
   Failure (LoggingFailure LgProjectionUnavailable);
   Failure (LoggingFailure LgSinkInitializeFailed);
   Failure (LoggingFailure LgSinkRecordDropped);
   Failure (LoggingFailure LgSinkFlushDropped);
   Failure (LoggingFailure LgSinkFlushFailed);
   Failure (LoggingFailure LgSinkWriteFailed);
   Failure (LoggingFailure LgSinkShutdownFailed);
   Success ScLoggingInitialized;
   Success ScLoggingShutdownCompleted;
   Success ScSinkInitialized;
   Notice NtConfigurationInherited].

Definition from_canonical_name (name : string) : option BuiltinDiagnosticCode :=
  head (filter (λ c, canonical_name c = name) all_codes).

(** ** Classifications *)

Record Classification := {
  cf_code : string;
  cf_failure_class : option string;
}.

#[global] Instance Classification_eq_dec : EqDecision Classification.
Proof. solve_decision. Defined.

Definition from_opaque_names (canonical_code : string) (failure_class : option string) : Classification :=
  {| cf_code := canonical_code; cf_failure_class := failure_class |}.

(** [Classification::new]; [None] is [ClassificationError]. *)
Definition Classification_new (code : BuiltinDiagnosticCode) (failure_class : option FailureClass) :
    option Classification :=
  if allows_class code failure_class then
    Some {| cf_code := canonical_name code; cf_failure_class := failure_class_as_str <$> failure_class |}
  else None.

Definition Classification_failure (code : FailureCode) (failure_class : FailureClass) :
    option Classification :=
  Classification_new (Failure code) (Some failure_class).

Definition Classification_success (code : SuccessCode) : Classification :=
  {| cf_code := success_canonical_name code; cf_failure_class := None |}.

Definition Classification_notice (code : NoticeCode) : Classification :=
  {| cf_code := notice_canonical_name code; cf_failure_class := None |}.

(** ** The classifier of plugin errors *)

Inductive PluginError : Type :=
| PeInvalidConfig (message : string)
| PeConflict (message : string)
| PeNotFound (message : string)
| PeSerialization (message : string)
| PeInternal (message : string)
| PeRegistrationFailed (message : string).

Definition plugin_error_cause (error : PluginError) : CommonPluginFailureCode * FailureClass :=
  match error with
  | PeInvalidConfig _ => (CpConfigurationInvalid, FcUnknown)
  | PeConflict _ => (CpStateConflict, FcConflict)
  | PeNotFound _ => (CpResourceNotFound, FcNotFound)
  | PeSerialization _ => (CpSerializationFailed, FcUnknown)
  | PeInternal _ => (CpInternal, FcInternal)
  | PeRegistrationFailed _ => (CpRegistrationFailed, FcUnknown)
  end.

(** [PluginErrorClassifier::classify]; [None] is the panic of [expect]. *)
Definition classify (error : PluginError) : option Classification :=
  let (code, class) := plugin_error_cause error in
  Classification_failure (PluginFailure (Common code)) class.

(** ** The catalogue is consistent *)

(** Goes through the codes. *)
Ltac each_code :=
  repeat match goal with
  | c : BuiltinDiagnosticCode |- _ => destruct c
  | c : FailureCode |- _ => destruct c
  | c : PluginFailureCode |- _ => destruct c
  | c : CommonPluginFailureCode |- _ => destruct c
  | c : PluginOperationFailureCode |- _ => destruct c
  | c : LoggingFailureCode |- _ => destruct c
  | c : CliFailureCode |- _ => destruct c
  | c : DaemonFailureCode |- _ => destruct c
  | c : SuccessCode |- _ => destruct c
  | c : NoticeCode |- _ => destruct c
  end.

Lemma all_codes_complete c : c ∈ all_codes.
Proof. each_code; apply (bool_decide_eq_true_1 _); vm_compute; reflexivity. Qed.

Lemma names_distinct : NoDup (canonical_name <$> all_codes).
Proof. apply (bool_decide_eq_true_1 _). vm_compute. reflexivity. Qed.

Lemma canonical_name_inj c1 c2 : canonical_name c1 = canonical_name c2 → c1 = c2.
Proof.
  intros Heq. pose proof (all_codes_complete c1) as [i Hi]%list_elem_of_lookup.
  pose proof (all_codes_complete c2) as [j Hj]%list_elem_of_lookup.
  assert (i = j) as <-; [|congruence].
  eapply NoDup_lookup; [apply names_distinct|rewrite list_lookup_fmap, Hi; done|rewrite list_lookup_fmap, Hj; cbn; congruence].
Qed.

Lemma from_canonical_name_Some name c : from_canonical_name name = Some c ↔ canonical_name c = name.
Proof.
  unfold from_canonical_name. split.
  - intros Hc. destruct (filter _ all_codes) as [|d l] eqn:Hf; [done|]. injection Hc as ->.
    assert (c ∈ filter (λ c, canonical_name c = name) all_codes) as Hin by (rewrite Hf; by left).
    by apply list_elem_of_filter in Hin as [? _].
  - intros Hc. assert (c ∈ filter (λ c, canonical_name c = name) all_codes) as Hin
      by (apply list_elem_of_filter; split; [done|apply all_codes_complete]).
    destruct (filter _ all_codes) as [|d l] eqn:Hf; [by apply not_elem_of_nil in Hin|]. cbn. f_equal.
    assert (d ∈ filter (λ c, canonical_name c = name) all_codes) as [Hd _]%list_elem_of_filter by (rewrite Hf; by left).
    apply canonical_name_inj. congruence.
Qed.

Lemma failure_class_name c : failure_class_from_canonical_name (failure_class_as_str c) = Some c.
Proof. by destruct c. Qed.

Lemma failure_class_from_name name c : failure_class_from_canonical_name name = Some c → failure_class_as_str c = name.
Proof.
  unfold failure_class_from_canonical_name. destruct (filter _ _) as [|d l] eqn:Hf; [done|]. intros [= ->].
  assert (c ∈ filter (λ c, failure_class_as_str c = name) failure_class_variants) as Hin by (rewrite Hf; by left).
  by apply list_elem_of_filter in Hin as [? _].
Qed.

(** The part of a name before its first dot. *)
Definition name_root (c : BuiltinDiagnosticCode) : option string := head (split_on "."%char (canonical_name c)).

Definition domain_root (d : DiagnosticDomain) : string :=
  match d with
  | DomDaemon => "daemon"
  | DomCli => "cli"
  | DomPlugin => "plugin"
  | DomLogging => "logging"
  end.

(** C29: the catalogue of built-in codes is well formed.  Its listing holds
    every code exactly once; a code is found again from its name; the first
    segment of a name is the domain of the code; exactly the plugin codes
    have a plugin family; exactly the failures have permitted causes; and
    every name fits the fixed identity capacity. *)
Theorem catalogue_well_formed :
  NoDup all_codes
  ∧ ∀ c, c ∈ all_codes ∧ from_canonical_name (canonical_name c) = Some c
      ∧ name_root c = Some (domain_root (domain c))
      ∧ (is_Some (plugin_family c) ↔ domain c = DomPlugin)
      ∧ ((∃ f, c = Failure f) ↔ allowed_classes c ≠ [])
      ∧ String.length (canonical_name c) ≤ 128.
Proof.
  split; [apply (NoDup_fmap_1 canonical_name), names_distinct|]. intros c.
  split; [apply all_codes_complete|]. split; [by apply from_canonical_name_Some|].
  split_and!.
  - each_code; vm_compute; reflexivity.
  - each_code; cbn; split; intros H; try done; by eexists.
  - destruct c; cbn [allowed_classes]; split; try done; [intros _|by eexists| |]; [each_code; done|by intros [f [=]]..].
  - each_code; cbn; lia.
Qed.
