(* ===== verification/DiagTypes.v ===== *)
(** * The data of the diagnostics service

    Records and enumerations of [src/crates/types/src/diagnostics/]
    ([accounting.rs], [coverage.rs], [event.rs], [context.rs],
    [recording.rs], [identity.rs]) and of [src/crates/diagnostics/src/]
    ([observation.rs], [error.rs], [settings.rs], and the types of
    [state.rs]).

    Counts, sizes and generations are 64-bit values in [N]; slots of the
    fixed tables are [nat].  Times, identifiers and the monotonic clock are
    supplied from outside as [N]. *)

From stdpp Require Import base numbers strings list.
From S2P Require Import Prelude Text Utf8 DetailPool DiagCatalogue.

(** ** Counts *)

Record DiagnosticCount := { dc_value : N; dc_saturated : bool }.

Definition zero_count : DiagnosticCount := {| dc_value := 0; dc_saturated := false |}.

(** [DiagnosticCount::add] with [overflowing_add]. *)
Definition count_add (c : DiagnosticCount) (amount : N) : DiagnosticCount :=
  if (max_u64 <? dc_value c + amount)%N
  then {| dc_value := max_u64; dc_saturated := true |}
  else {| dc_value := dc_value c + amount; dc_saturated := dc_saturated c |}.

Inductive DiagnosticOutcome : Type := OutcomeUnknown | OutcomeSuccess | OutcomeFailure.

#[global] Instance DiagnosticOutcome_eq_dec : EqDecision DiagnosticOutcome.
Proof. solve_decision. Defined.

Inductive DiagnosticSeverity : Type := SevTrace | SevDebug | SevInfo | SevWarning | SevError.

Record DiagnosticTotals := {
  dt_recorded_events : DiagnosticCount;
  dt_occurrences : DiagnosticCount;
  dt_history_evictions : DiagnosticCount;
  dt_successes : DiagnosticCount;
  dt_failures : DiagnosticCount;
  dt_unspecified : DiagnosticCount;
}.

Definition zero_totals : DiagnosticTotals :=
  {| dt_recorded_events := zero_count; dt_occurrences := zero_count;
     dt_history_evictions := zero_count; dt_successes := zero_count;
     dt_failures := zero_count; dt_unspecified := zero_count |}.

(** [DiagnosticTotals::record]. *)
Definition totals_record (t : DiagnosticTotals) (outcome : DiagnosticOutcome) (count : N) :
    DiagnosticTotals :=
  {| dt_recorded_events := count_add (dt_recorded_events t) 1;
     dt_occurrences := count_add (dt_occurrences t) count;
     dt_history_evictions := dt_history_evictions t;
     dt_successes :=
       match outcome with OutcomeSuccess => count_add (dt_successes t) count | _ => dt_successes t end;
     dt_failures :=
       match outcome with OutcomeFailure => count_add (dt_failures t) count | _ => dt_failures t end;
     dt_unspecified :=
       match outcome with OutcomeUnknown => count_add (dt_unspecified t) count | _ => dt_unspecified t end |}.

(** [totals.history_evictions_total.add(1)]. *)
Definition totals_evict (t : DiagnosticTotals) : DiagnosticTotals :=
  {| dt_recorded_events := dt_recorded_events t; dt_occurrences := dt_occurrences t;
     dt_history_evictions := count_add (dt_history_evictions t) 1;
     dt_successes := dt_successes t; dt_failures := dt_failures t;
     dt_unspecified := dt_unspecified t |}.

(** The counters of [DiagnosticLoss], one constructor per field. *)
Inductive LossCounter : Type :=
| EventsEvicted | EventsOmitted | ComponentsEvicted | ComponentsRejected | KeysRejected
| ObservationsRejected | MessagesTruncated | DetailsOmitted | CorrelationsTruncated
| CorrelationsOmitted | MetadataRejected | ClassificationsOverflowed | WindowsRejected
| QueriesRejected | StaleObservations | ProjectionDeliveriesOmitted | ProjectionsPanicked
| ProjectionsSuppressed.

#[global] Instance LossCounter_eq_dec : EqDecision LossCounter.
Proof. solve_decision. Defined.

Record DiagnosticLoss := {
  ls_count : LossCounter → DiagnosticCount;
  ls_sequence_saturated : bool;
}.

Definition zero_loss : DiagnosticLoss :=
  {| ls_count := λ _, zero_count; ls_sequence_saturated := false |}.

Definition loss_add (l : DiagnosticLoss) (k : LossCounter) (amount : N) : DiagnosticLoss :=
  {| ls_count := λ k', if decide (k' = k) then count_add (ls_count l k') amount else ls_count l k';
     ls_sequence_saturated := ls_sequence_saturated l |}.

(** ** Errors *)

Inductive DiagnosticError : Type :=
| Disabled | InvalidLimits | Allocation | InvalidComponentKey | InvalidCode | InvalidClassification
| InvalidContext | ComponentCapacity | KeyCapacity | MetadataCapacity | WindowCapacity
| ComponentClosed | SequenceExhausted | QueryDisabled | QueryCapacity | UnsupportedSchema
| InvalidQuery | InvalidCursor | SnapshotCapacity | InconsistentAccounting | ProjectionCapacity
| AlreadyInitialized.

#[global] Instance DiagnosticError_eq_dec : EqDecision DiagnosticError.
Proof. solve_decision. Defined.

(** ** Limits *)

Record DiagnosticLimits := {
  lm_max_components : N;
  lm_max_counters : N;
  lm_max_events : N;
  lm_max_window_buckets : N;
  lm_max_extensions : N;
  lm_max_metadata_bytes : N;
  lm_max_identity_bytes : N;
  lm_max_detail_bytes : N;
  lm_max_correlation_bytes : N;
  lm_detail_pool_bytes : N;
  lm_detail_block_bytes : N;
  lm_max_queries : N;
  lm_max_query_components : N;
  lm_max_query_events : N;
  lm_max_query_counters : N;
  lm_max_query_window_buckets : N;
  lm_max_snapshot_bytes : N;
  lm_query_text_bytes : N;
  lm_max_projections : N;
  lm_max_projection_workspaces : N;
  lm_max_owned_bytes : N;
}.

Definition default_limits : DiagnosticLimits :=
  {| lm_max_components := 64; lm_max_counters := 2048; lm_max_events := 256;
     lm_max_window_buckets := 3840; lm_max_extensions := 128; lm_max_metadata_bytes := 65536;
     lm_max_identity_bytes := 128; lm_max_detail_bytes := 4096; lm_max_correlation_bytes := 128;
     lm_detail_pool_bytes := 262144; lm_detail_block_bytes := 256; lm_max_queries := 4;
     lm_max_query_components := 64; lm_max_query_events := 256; lm_max_query_counters := 256;
     lm_max_query_window_buckets := 512; lm_max_snapshot_bytes := 131072;
     lm_query_text_bytes := 65536; lm_max_projections := 16; lm_max_projection_workspaces := 4;
     lm_max_owned_bytes := 32 * 1024 * 1024 |}.

Definition ID_BYTES : N := 128.
Definition DESCRIPTION_BYTES : N := 256.
Definition MAX_DETAIL_BYTES : N := 4096.

(** The range checks of [DiagnosticLimits::validate] that precede the
    computation of the backing size. *)
Definition limits_in_range (l : DiagnosticLimits) : bool :=
  negb ((lm_max_components l =? 0)
        || (lm_max_identity_bytes l =? 0)
        || (ID_BYTES <? lm_max_identity_bytes l)
        || (MAX_DETAIL_BYTES <? lm_max_detail_bytes l)
        || (ID_BYTES <? lm_max_correlation_bytes l)
        || (lm_detail_block_bytes l <? 4)
        || ((0 <? lm_max_queries l)
            && ((lm_max_query_components l =? 0) || (lm_max_snapshot_bytes l <? 4096)))
        || (lm_max_projection_workspaces l =? 0))%N.

(** ** Handles and attribution *)

Record ComponentHandle := { ch_slot : nat; ch_generation : N }.

#[global] Instance ComponentHandle_eq_dec : EqDecision ComponentHandle.
Proof. solve_decision. Defined.

Record ComponentOwnership := {
  co_subscriber_instance_id : option N;
  co_plugin_instance_id : option N;
  co_configuration_id : option string;
  co_responsibility : option string;
}.

(** [Ownership] stores the same fields in fixed-capacity text. *)
Definition Ownership : Type := ComponentOwnership.

Record CapturedOrigin := { cp_generation : N; cp_ownership : Ownership }.

Record ComponentIdentity := {
  ci_key : string;
  ci_instance_id : N;
  ci_generation : N;
}.

Record ExtensionHandle := {
  eh_context_id : N;
  eh_component : ComponentHandle;
  eh_slot : nat;
  eh_generation : N;
}.

Record ExtensionClassHandle := { ec_extension : ExtensionHandle; ec_index : nat }.

#[global] Instance ExtensionHandle_eq_dec : EqDecision ExtensionHandle.
Proof. solve_decision. Defined.

(** ** Stored values *)

Inductive StoredCode : Type :=
| CodeBuiltin (c : BuiltinDiagnosticCode)
| CodeExtension (slot : nat) (generation : N).

Inductive StoredFailureClass : Type :=
| ClassBuiltin (c : FailureClass)
| ClassExtension (slot : nat) (generation : N) (index : N).

#[global] Instance StoredCode_eq_dec : EqDecision StoredCode.
Proof. solve_decision. Defined.

#[global] Instance StoredFailureClass_eq_dec : EqDecision StoredFailureClass.
Proof. solve_decision. Defined.

Record LifetimeState := {
  lt_totals : DiagnosticTotals;
  lt_last_failure_at : option N;
  lt_last_failure_tick : option N;
}.

Definition zero_lifetime : LifetimeState :=
  {| lt_totals := zero_totals; lt_last_failure_at := None; lt_last_failure_tick := None |}.

Record RefreshState := {
  rf_generation : N;
  rf_started_at : N;
  rf_started_tick : N;
  rf_ownership : Ownership;
  rf_totals : DiagnosticTotals;
}.

Record WindowReservation := { wr_start : nat; wr_len : nat; wr_resolution_millis : N }.

Record ComponentSlot := {
  cs_handle : ComponentHandle;
  cs_instance_id : N;
  cs_key : string;
  cs_registered_at : N;
  cs_registered_tick : N;
  cs_closed_at : option N;
  cs_closed_tick : option N;
  cs_lifetime : LifetimeState;
  cs_refresh : RefreshState;
  cs_window : option WindowReservation;
  cs_counter_head : option nat;
}.

Record CounterSlot := {
  cn_component : ComponentHandle;
  cn_next : option nat;
  cn_code : StoredCode;
  cn_occurrences : DiagnosticCount;
  cn_last_observed_at : option N;
}.

Record WindowSlot := {
  ws_interval : option N;
  ws_successes : DiagnosticCount;
  ws_failures : DiagnosticCount;
  ws_unspecified : DiagnosticCount;
}.

(** An [EnumSet] of causes is the list of its members in the order of
    declaration; [es_opaque_classes] has four places. *)
Record ExtensionSlot := {
  es_generation : N;
  es_component : ComponentHandle;
  es_name : string;
  es_description : string;
  es_allowed_classes : list FailureClass;
  es_opaque_classes : list (option string);
  es_outcome : DiagnosticOutcome;
}.

Record StoredPluginContext := {
  sp_execution : option PluginExecution;
  sp_phase : option PluginPhase;
}.

Record TextRange := { tr_start : N; tr_len : N }.

Record RetainedText := {
  rt_payload : option DetailHandle;
  rt_detail : option TextRange;
  rt_session_id : option TextRange;
  rt_request_id : option TextRange;
}.

Definition no_text : RetainedText :=
  {| rt_payload := None; rt_detail := None; rt_session_id := None; rt_request_id := None |}.

Record RemoteDiagnosticOrigin := {
  ro_source_instance_id : N;
  ro_activation_instance_id : N;
  ro_submission_sequence : N;
  ro_observed_at : option N;
  ro_received_at : N;
  ro_accepted_elapsed_millis : N;
}.

Record StoredObservation := {
  so_sequence : N;
  so_observed_at : N;
  so_remote : option RemoteDiagnosticOrigin;
  so_count : N;
  so_component : ComponentHandle;
  so_origin : CapturedOrigin;
  so_code : StoredCode;
  so_failure_class : option StoredFailureClass;
  so_context : StoredPluginContext;
  so_severity : DiagnosticSeverity;
  so_outcome : DiagnosticOutcome;
  so_text : RetainedText;
  so_detail_truncated : bool;
}.

(** ** What producers supply *)

(** A value with a [Display] implementation, as the writes it makes: each
    write learns whether it succeeded.  It ends with a result or unwinds. *)
Inductive Display : Type :=
| Finish (ok : bool)
| Unwind
| WriteStr (text : string) (rest : bool → Display).

Inductive DiagnosticDetailRef : Type :=
| DetailNone
| DetailText (text : string)
| DetailDisplay (value : Display).

Inductive ObservationCode : Type :=
| ObsBuiltin (c : Classification)
| ObsExtension (extension : ExtensionHandle) (class : option FailureClass)
| ObsOpaqueExtension (extension : ExtensionHandle) (class : ExtensionClassHandle)
| ObsOverflow.

(** [PluginObservationContext]: two names, not necessarily known ones. *)
Record PluginObservationContext := {
  pc_execution : option string;
  pc_phase : option string;
}.

Record Observation := {
  ob_code : ObservationCode;
  ob_remote : option RemoteDiagnosticOrigin;
  ob_detail : DiagnosticDetailRef;
  ob_count : N;
  ob_severity : DiagnosticSeverity;
  ob_outcome : DiagnosticOutcome;
  ob_session_id : option string;
  ob_request_id : option string;
  ob_context : PluginObservationContext;
}.

(** [Observation::new]: severity and outcome follow the kind of the code. *)
Definition Observation_new (classification : Classification) (detail : DiagnosticDetailRef) (count : N) :
    Observation :=
  let '(severity, outcome) :=
    match from_canonical_name (cf_code classification) with
    | Some (Failure _) => (SevError, OutcomeFailure)
    | Some (Success _) => (SevInfo, OutcomeSuccess)
    | _ => (SevInfo, OutcomeUnknown)
    end in
  {| ob_code := ObsBuiltin classification; ob_remote := None; ob_detail := detail; ob_count := count;
     ob_severity := severity; ob_outcome := outcome; ob_session_id := None; ob_request_id := None;
     ob_context := {| pc_execution := None; pc_phase := None |} |}.

(** [Observation::extension]. *)
Definition Observation_extension (handle : ExtensionHandle) (class : option FailureClass)
    (outcome : DiagnosticOutcome) (detail : DiagnosticDetailRef) (count : N) : Observation :=
  {| ob_code := ObsExtension handle class; ob_remote := None; ob_detail := detail; ob_count := count;
     ob_severity := (if decide (outcome = OutcomeFailure) then SevError else SevInfo);
     ob_outcome := outcome; ob_session_id := None; ob_request_id := None;
     ob_context := {| pc_execution := None; pc_phase := None |} |}.

(** [Observation::extension_with_class]. *)
Definition Observation_extension_with_class (handle : ExtensionHandle) (class : ExtensionClassHandle)
    (detail : DiagnosticDetailRef) (count : N) : Observation :=
  {| ob_code := ObsOpaqueExtension handle class; ob_remote := None; ob_detail := detail;
     ob_count := count; ob_severity := SevError; ob_outcome := OutcomeFailure;
     ob_session_id := None; ob_request_id := None;
     ob_context := {| pc_execution := None; pc_phase := None |} |}.

(** [Observation::classification_overflow]. *)
Definition Observation_classification_overflow (outcome : DiagnosticOutcome) (count : N) : Observation :=
  {| ob_code := ObsOverflow; ob_remote := None; ob_detail := DetailNone; ob_count := count;
     ob_severity := SevWarning; ob_outcome := outcome; ob_session_id := None; ob_request_id := None;
     ob_context := {| pc_execution := None; pc_phase := None |} |}.

Record WindowSettings := { wi_resolution_millis : N; wi_bucket_count : nat }.

Record ComponentRegistration := {
  cr_key : string;
  cr_builtin_codes : list BuiltinDiagnosticCode;
  cr_ownership : ComponentOwnership;
  cr_window : option WindowSettings;
}.

Record ExtensionRegistration := {
  er_namespace : string;
  er_name : string;
  er_description : string;
  er_allowed_classes : list FailureClass;
  er_outcome : DiagnosticOutcome;
}.

Inductive EvidenceDisposition : Type := EvidenceRetained | EvidenceTruncated | EvidenceDropped.

Record RecordReceipt := {
  rr_sequence : N;
  rr_code_total : option DiagnosticCount;
  rr_evidence : EvidenceDisposition;
}.

Inductive RecordOutcome : Type :=
| Recorded (receipt : RecordReceipt)
| RecordDisabled.

(** What an operation reads from the clocks and the source of identifiers. *)
Record Clock := { ck_now : N; ck_tick : N; ck_uuid : N }.

(** The parts of [Inner] that the operations read. *)
Record Inner := { in_context_id : N; in_limits : DiagnosticLimits }.
