(* ===== verification/DiagState.v ===== *)
(** * The store of the diagnostics service

    [src/crates/diagnostics/src/state.rs] and [BoundedHistory] of
    [storage.rs]: fixed tables of components, counters, windows and
    extensions, the circular history of observations, and the detail pool.

    The ring buffer behind the history comes from another package.  It is a
    parameter: [CircularBuffer] has its operations, [CircularLaws] what its
    documentation says of them.

    An operation is a function from the store to an [outcome] and a store;
    [Panic] stands for a failed [expect], an index out of range, and a walk
    along a chain that does not end. *)

From stdpp Require Import base numbers strings list.
From S2P Require Import Prelude Text Utf8 DetailPool DiagCatalogue DiagTypes.

(** ** The ring buffer *)

Class CircularBuffer (A B : Type) := {
  cb_with_capacity : nat → B;
  cb_len : B → nat;
  cb_get : B → nat → option A;
  cb_pop_front : B → option A * B;
  cb_push_back : A → B → option A * B;
  cb_items : B → list A;
  cb_capacity : B → nat;
}.

Class CircularLaws (A B : Type) `{CircularBuffer A B} := {
  cb_new_items n : cb_items (cb_with_capacity n) = [];
  cb_new_capacity n : cb_capacity (cb_with_capacity n) = n;
  cb_len_items b : cb_len b = length (cb_items b);
  cb_get_items b i : cb_get b i = cb_items b !! i;
  cb_items_bound b : length (cb_items b) ≤ cb_capacity b;
  cb_pop_items b :
    (cb_pop_front b).1 = head (cb_items b)
    ∧ cb_items (cb_pop_front b).2 = tail (cb_items b)
    ∧ cb_capacity (cb_pop_front b).2 = cb_capacity b;
  cb_push_room b a :
    length (cb_items b) < cb_capacity b →
    (cb_push_back a b).1 = None ∧ cb_items (cb_push_back a b).2 = cb_items b ++ [a];
  cb_push_full b a x l :
    length (cb_items b) = cb_capacity b → cb_items b = x :: l →
    (cb_push_back a b).1 = Some x ∧ cb_items (cb_push_back a b).2 = l ++ [a];
  cb_push_zero b a :
    cb_capacity b = 0 → (cb_push_back a b).1 = Some a ∧ cb_items (cb_push_back a b).2 = [];
  cb_push_capacity b a : cb_capacity (cb_push_back a b).2 = cb_capacity b;
}.

(** ** The store *)

Record State (B : Type) := {
  st_sequence : N;
  st_generation : N;
  st_components : list (option ComponentSlot);
  st_lifetime : LifetimeState;
  st_counters : list (option CounterSlot);
  st_windows : list (option WindowSlot);
  st_extensions : list (option ExtensionSlot);
  st_recent : B;
  st_detail : DetailPool;
  st_metadata_used : N;
  st_loss : DiagnosticLoss;
}.

Arguments st_sequence {B} s.
Arguments st_generation {B} s.
Arguments st_components {B} s.
Arguments st_lifetime {B} s.
Arguments st_counters {B} s.
Arguments st_windows {B} s.
Arguments st_extensions {B} s.
Arguments st_recent {B} s.
Arguments st_detail {B} s.
Arguments st_metadata_used {B} s.
Arguments st_loss {B} s.

Section Setters.
Context {B : Type}.
Implicit Types s : State B.

Definition set_sequence s (v : N) : State B :=
  {| st_sequence := v; st_generation := st_generation s; st_components := st_components s;
     st_lifetime := st_lifetime s; st_counters := st_counters s; st_windows := st_windows s;
     st_extensions := st_extensions s; st_recent := st_recent s; st_detail := st_detail s;
     st_metadata_used := st_metadata_used s; st_loss := st_loss s |}.

Definition set_generation s (v : N) : State B :=
  {| st_sequence := st_sequence s; st_generation := v; st_components := st_components s;
     st_lifetime := st_lifetime s; st_counters := st_counters s; st_windows := st_windows s;
     st_extensions := st_extensions s; st_recent := st_recent s; st_detail := st_detail s;
     st_metadata_used := st_metadata_used s; st_loss := st_loss s |}.

Definition set_components s (v : list (option ComponentSlot)) : State B :=
  {| st_sequence := st_sequence s; st_generation := st_generation s; st_components := v;
     st_lifetime := st_lifetime s; st_counters := st_counters s; st_windows := st_windows s;
     st_extensions := st_extensions s; st_recent := st_recent s; st_detail := st_detail s;
     st_metadata_used := st_metadata_used s; st_loss := st_loss s |}.

Definition set_lifetime s (v : LifetimeState) : State B :=
  {| st_sequence := st_sequence s; st_generation := st_generation s; st_components :=
     st_components s; st_lifetime := v; st_counters := st_counters s; st_windows := st_windows s;
     st_extensions := st_extensions s; st_recent := st_recent s; st_detail := st_detail s;
     st_metadata_used := st_metadata_used s; st_loss := st_loss s |}.

Definition set_counters s (v : list (option CounterSlot)) : State B :=
  {| st_sequence := st_sequence s; st_generation := st_generation s; st_components :=
     st_components s; st_lifetime := st_lifetime s; st_counters := v; st_windows := st_windows s;
     st_extensions := st_extensions s; st_recent := st_recent s; st_detail := st_detail s;
     st_metadata_used := st_metadata_used s; st_loss := st_loss s |}.

Definition set_windows s (v : list (option WindowSlot)) : State B :=
  {| st_sequence := st_sequence s; st_generation := st_generation s; st_components :=
     st_components s; st_lifetime := st_lifetime s; st_counters := st_counters s; st_windows :=
     v; st_extensions := st_extensions s; st_recent := st_recent s; st_detail := st_detail s;
     st_metadata_used := st_metadata_used s; st_loss := st_loss s |}.

Definition set_extensions s (v : list (option ExtensionSlot)) : State B :=
  {| st_sequence := st_sequence s; st_generation := st_generation s; st_components :=
     st_components s; st_lifetime := st_lifetime s; st_counters := st_counters s; st_windows :=
     st_windows s; st_extensions := v; st_recent := st_recent s; st_detail := st_detail s;
     st_metadata_used := st_metadata_used s; st_loss := st_loss s |}.

Definition set_recent s (v : B) : State B :=
  {| st_sequence := st_sequence s; st_generation := st_generation s; st_components :=
     st_components s; st_lifetime := st_lifetime s; st_counters := st_counters s; st_windows :=
     st_windows s; st_extensions := st_extensions s; st_recent := v; st_detail := st_detail s;
     st_metadata_used := st_metadata_used s; st_loss := st_loss s |}.

Definition set_detail s (v : DetailPool) : State B :=
  {| st_sequence := st_sequence s; st_generation := st_generation s; st_components :=
     st_components s; st_lifetime := st_lifetime s; st_counters := st_counters s; st_windows :=
     st_windows s; st_extensions := st_extensions s; st_recent := st_recent s; st_detail := v;
     st_metadata_used := st_metadata_used s; st_loss := st_loss s |}.

Definition set_metadata_used s (v : N) : State B :=
  {| st_sequence := st_sequence s; st_generation := st_generation s; st_components :=
     st_components s; st_lifetime := st_lifetime s; st_counters := st_counters s; st_windows :=
     st_windows s; st_extensions := st_extensions s; st_recent := st_recent s; st_detail :=
     st_detail s; st_metadata_used := v; st_loss := st_loss s |}.

Definition set_loss s (v : DiagnosticLoss) : State B :=
  {| st_sequence := st_sequence s; st_generation := st_generation s; st_components :=
     st_components s; st_lifetime := st_lifetime s; st_counters := st_counters s; st_windows :=
     st_windows s; st_extensions := st_extensions s; st_recent := st_recent s; st_detail :=
     st_detail s; st_metadata_used := st_metadata_used s; st_loss := v |}.

End Setters.

(** ** Operations on the store *)

Definition M (B A : Type) : Type := State B → outcome DiagnosticError A * State B.

Section Monad.
Context {B : Type}.

#[global] Instance M_ret : MRet (M B) := λ A a s, (Ok a, s).

#[global] Instance M_bind : MBind (M B) := λ A C k m s,
  match m s with
  | (Ok a, s') => k a s'
  | (Err e, s') => (Err e, s')
  | (Panic, s') => (Panic, s')
  end.

Definition fail {A : Type} (e : DiagnosticError) : M B A := λ s, (Err e, s).
Definition panic {A : Type} : M B A := λ s, (Panic, s).
Definition gets {A : Type} (f : State B → A) : M B A := λ s, (Ok (f s), s).
Definition modify (f : State B → State B) : M B unit := λ s, (Ok tt, f s).

(** [.expect(..)] and indexing. *)
Definition expect {A : Type} (o : option A) : M B A :=
  match o with Some a => mret a | None => panic end.

(** [.ok_or(e)?] *)
Definition ok_or {A : Type} (o : option A) (e : DiagnosticError) : M B A :=
  match o with Some a => mret a | None => fail e end.

Definition note (k : LossCounter) (amount : N) : M B unit :=
  modify (λ s, set_loss s (loss_add (st_loss s) k amount)).
End Monad.

(** The element in slot [i] of a table. *)
Definition slot_at {A : Type} (l : list (option A)) (i : nat) : option A := l !! i ≫= id.

Definition slen (s : string) : N := N.of_nat (String.length s).

(** [text::<N>(value)]. *)
Definition text_fits (n : N) (value : string) : bool := (slen value <=? n)%N.

Definition Ownership_new (value : ComponentOwnership) : option Ownership :=
  if match co_configuration_id value with Some v => text_fits ID_BYTES v | None => true end
     && match co_responsibility value with Some v => text_fits ID_BYTES v | None => true end
  then Some value else None.

Definition ownership_bytes (o : Ownership) : N :=
  (from_option slen 0 (co_configuration_id o) + from_option slen 0 (co_responsibility o))%N.

(** [Ownership::matches]. *)
Definition ownership_matches (o : Ownership) (query : ComponentOwnership) : bool :=
  from_option (λ v, bool_decide (co_subscriber_instance_id o = Some v)) true
    (co_subscriber_instance_id query)
  && from_option (λ v, bool_decide (co_plugin_instance_id o = Some v)) true
       (co_plugin_instance_id query)
  && from_option (λ v, bool_decide (co_configuration_id o = Some v)) true
       (co_configuration_id query)
  && from_option (λ v, bool_decide (co_responsibility o = Some v)) true (co_responsibility query).

(** [LifetimeState::record]. *)
Definition lifetime_record (l : LifetimeState) (outcome : DiagnosticOutcome) (count observed_at tick : N) :
    LifetimeState :=
  {| lt_totals := totals_record (lt_totals l) outcome count;
     lt_last_failure_at :=
       if decide (outcome = OutcomeFailure) then Some observed_at else lt_last_failure_at l;
     lt_last_failure_tick :=
       if decide (outcome = OutcomeFailure) then Some tick else lt_last_failure_tick l |}.

Definition lifetime_evict (l : LifetimeState) : LifetimeState :=
  {| lt_totals := totals_evict (lt_totals l); lt_last_failure_at := lt_last_failure_at l;
     lt_last_failure_tick := lt_last_failure_tick l |}.

Definition refresh_with_totals (r : RefreshState) (t : DiagnosticTotals) : RefreshState :=
  {| rf_generation := rf_generation r; rf_started_at := rf_started_at r;
     rf_started_tick := rf_started_tick r; rf_ownership := rf_ownership r; rf_totals := t |}.

(** [ComponentSlot::origin]. *)
Definition origin (c : ComponentSlot) : CapturedOrigin :=
  {| cp_generation := rf_generation (cs_refresh c); cp_ownership := rf_ownership (cs_refresh c) |}.

Definition slot_with_totals (c : ComponentSlot) (l : LifetimeState) (r : RefreshState) : ComponentSlot :=
  {| cs_handle := cs_handle c; cs_instance_id := cs_instance_id c; cs_key := cs_key c;
     cs_registered_at := cs_registered_at c; cs_registered_tick := cs_registered_tick c;
     cs_closed_at := cs_closed_at c; cs_closed_tick := cs_closed_tick c; cs_lifetime := l;
     cs_refresh := r; cs_window := cs_window c; cs_counter_head := cs_counter_head c |}.

Definition slot_closed (c : ComponentSlot) (now tick : N) : ComponentSlot :=
  {| cs_handle := cs_handle c; cs_instance_id := cs_instance_id c; cs_key := cs_key c;
     cs_registered_at := cs_registered_at c; cs_registered_tick := cs_registered_tick c;
     cs_closed_at := Some now; cs_closed_tick := Some tick; cs_lifetime := cs_lifetime c;
     cs_refresh := cs_refresh c; cs_window := cs_window c; cs_counter_head := cs_counter_head c |}.

Definition slot_with_head (c : ComponentSlot) (head : option nat) : ComponentSlot :=
  {| cs_handle := cs_handle c; cs_instance_id := cs_instance_id c; cs_key := cs_key c;
     cs_registered_at := cs_registered_at c; cs_registered_tick := cs_registered_tick c;
     cs_closed_at := cs_closed_at c; cs_closed_tick := cs_closed_tick c;
     cs_lifetime := cs_lifetime c; cs_refresh := cs_refresh c; cs_window := cs_window c;
     cs_counter_head := head |}.

Definition counter_with_next (c : CounterSlot) (next : option nat) : CounterSlot :=
  {| cn_component := cn_component c; cn_next := next; cn_code := cn_code c;
     cn_occurrences := cn_occurrences c; cn_last_observed_at := cn_last_observed_at c |}.

(** [ExtensionSlot::metadata_bytes]. *)
Definition extension_bytes (e : ExtensionSlot) : N :=
  (slen (es_name e) + slen (es_description e)
   + foldr (λ o n, from_option slen 0 o + n) 0 (es_opaque_classes e))%N.

(** [TryFrom<&PluginObservationContext> for StoredPluginContext]. *)
Definition stored_context (value : PluginObservationContext) : option StoredPluginContext :=
  execution ←
    match pc_execution value with
    | None => Some None
    | Some name => Some <$> plugin_execution_from_canonical_name name
    end;
  phase ←
    match pc_phase value with
    | None => Some None
    | Some name => Some <$> plugin_phase_from_canonical_name name
    end;
  Some {| sp_execution := execution; sp_phase := phase |}.

Section Ops.
Context {B : Type} `{!CircularBuffer StoredObservation B}.
Implicit Types s : State B.

(** [State::new]; [reserve] is the allocator's answer for the detail pool
    and the tables. *)
Definition State_new (reserve : N → bool) (limits : DiagnosticLimits) : option (State B) :=
  if reserve (lm_max_components limits) && reserve (lm_max_counters limits)
     && reserve (lm_max_window_buckets limits) && reserve (lm_max_extensions limits) then
    detail ← pool_new reserve (N.to_nat (lm_detail_pool_bytes limits))
               (N.to_nat (lm_detail_block_bytes limits));
    Some {| st_sequence := 0; st_generation := 0;
            st_components := replicate (N.to_nat (lm_max_components limits)) None;
            st_lifetime := zero_lifetime;
            st_counters := replicate (N.to_nat (lm_max_counters limits)) None;
            st_windows := replicate (N.to_nat (lm_max_window_buckets limits)) None;
            st_extensions := replicate (N.to_nat (lm_max_extensions limits)) None;
            st_recent := cb_with_capacity (N.to_nat (lm_max_events limits));
            st_detail := detail; st_metadata_used := 0; st_loss := zero_loss |}
  else None.

Definition next_sequence : M B N := λ s,
  if (st_sequence s =? max_u64)%N then
    (Err SequenceExhausted,
     set_loss s {| ls_count := ls_count (st_loss s); ls_sequence_saturated := true |})
  else (Ok (N.succ (st_sequence s)), set_sequence s (N.succ (st_sequence s))).

Definition next_generation : M B N := λ s,
  if (st_generation s =? max_u64)%N then (Err SequenceExhausted, s)
  else (Ok (N.succ (st_generation s)), set_generation s (N.succ (st_generation s))).

(** [let _ = self.next_sequence();] *)
Definition advance_sequence : M B unit := λ s, (Ok tt, (next_sequence s).2).

(** [State::component]. *)
Definition component s (handle : ComponentHandle) : option ComponentSlot :=
  c ← slot_at (st_components s) (ch_slot handle);
  if decide (cs_handle c = handle) then Some c else None.

Definition update_component (i : nat) (f : ComponentSlot → ComponentSlot) : M B unit :=
  c ← gets (λ s, slot_at (st_components s) i);
  c ← expect c;
  modify (λ s, set_components s (<[i := Some (f c)]> (st_components s))).

Definition update_counter (i : nat) (f : CounterSlot → CounterSlot) : M B unit :=
  c ← gets (λ s, slot_at (st_counters s) i);
  c ← expect c;
  modify (λ s, set_counters s (<[i := Some (f c)]> (st_counters s))).

Definition new_counter (handle : ComponentHandle) (code : StoredCode) : CounterSlot :=
  {| cn_component := handle; cn_next := None; cn_code := code; cn_occurrences := zero_count;
     cn_last_observed_at := None |}.

(** The loop of [reserve_builtin_counters] from [index] on. *)
Fixpoint reserve_from (handle : ComponentHandle) (todo : nat) (index : nat)
    (codes : list BuiltinDiagnosticCode) (head tail : option nat) : M B (option nat) :=
  match todo with
  | 0 => mret head
  | S todo =>
      slot ← gets (λ s, slot_at (st_counters s) index);
      match slot with
      | Some _ => reserve_from handle todo (S index) codes head tail
      | None =>
          match codes with
          | [] => mret head
          | code :: codes =>
              modify (λ s, set_counters s
                (<[index := Some (new_counter handle (CodeBuiltin code))]> (st_counters s)));;
              match tail with
              | Some previous =>
                  update_counter previous (λ c, counter_with_next c (Some index));;
                  reserve_from handle todo (S index) codes head (Some index)
              | None => reserve_from handle todo (S index) codes (Some index) (Some index)
              end
          end
      end
  end.

Definition reserve_builtin_counters (handle : ComponentHandle) (codes : list BuiltinDiagnosticCode) :
    M B (option nat) :=
  n ← gets (λ s, length (st_counters s));
  reserve_from handle n 0 codes None None.

(** The items of [component_counters]: at most one per slot. *)
Fixpoint counters_from (fuel : nat) (counters : list (option CounterSlot)) (handle : ComponentHandle)
    (next : option nat) : list (nat * CounterSlot) :=
  match fuel, next with
  | S fuel, Some index =>
      match slot_at counters index with
      | Some counter =>
          if decide (cn_component counter = handle)
          then (index, counter) :: counters_from fuel counters handle (cn_next counter)
          else []
      | None => []
      end
  | _, _ => []
  end.

Definition component_counters s (handle : ComponentHandle) : list (nat * CounterSlot) :=
  counters_from (length (st_counters s)) (st_counters s) handle (component s handle ≫= cs_counter_head).

(** The search of [link_counter]: the last counter of the chain at or before
    [index] and the one after it. *)
Fixpoint link_position (fuel : nat) (counters : list (option CounterSlot)) (index : nat)
    (previous next : option nat) : option (option nat * option nat) :=
  match fuel with
  | 0 => None
  | S fuel =>
      match next with
      | None => Some (previous, None)
      | Some current =>
          if index <? current then Some (previous, next)
          else
            c ← slot_at counters current;
            link_position fuel counters index next (cn_next c)
      end
  end.

Definition link_counter (handle : ComponentHandle) (index : nat) : M B unit :=
  c ← gets (λ s, component s handle);
  c ← expect c;
  counters ← gets st_counters;
  '(previous, next) ←
    expect (link_position (S (length counters)) counters index None (cs_counter_head c));
  update_counter index (λ c, counter_with_next c next);;
  match previous with
  | Some previous => update_counter previous (λ c, counter_with_next c (Some index))
  | None => update_component (ch_slot handle) (λ c, slot_with_head c (Some index))
  end.

(** [State::code_name]. *)
Definition code_name s (code : StoredCode) : option string :=
  match code with
  | CodeBuiltin code => Some (canonical_name code)
  | CodeExtension slot generation =>
      e ← slot_at (st_extensions s) slot;
      if decide (es_generation e = generation) then Some (es_name e) else None
  end.

(** [State::class_name]. *)
Definition class_name s (class : StoredFailureClass) : option string :=
  match class with
  | ClassBuiltin class => Some (failure_class_as_str class)
  | ClassExtension slot generation index =>
      e ← slot_at (st_extensions s) slot;
      if decide (es_generation e = generation) then slot_at (es_opaque_classes e) (N.to_nat index)
      else None
  end.

Definition evict_totals (c : ComponentSlot) : ComponentSlot :=
  slot_with_totals c (lifetime_evict (cs_lifetime c))
    (refresh_with_totals (cs_refresh c) (totals_evict (rf_totals (cs_refresh c)))).

(** [State::evict_event]. *)
Definition evict_event (event : StoredObservation) : M B unit :=
  c ← gets (λ s, component s (so_component event));
  match c with
  | Some _ => update_component (ch_slot (so_component event)) evict_totals
  | None => mret tt
  end;;
  modify (λ s, set_lifetime s (lifetime_evict (st_lifetime s)));;
  note EventsEvicted 1;;
  match rt_payload (so_text event) with
  | Some handle =>
      r ← gets (λ s, free (st_detail s) handle);
      '(_, detail) ← expect r;
      modify (λ s, set_detail s detail)
  | None => mret tt
  end.

Definition pop_front : M B (option StoredObservation) := λ s,
  let (event, recent) := cb_pop_front (st_recent s) in (Ok event, set_recent s recent).

Definition push_back (event : StoredObservation) : M B (option StoredObservation) := λ s,
  let (displaced, recent) := cb_push_back event (st_recent s) in (Ok displaced, set_recent s recent).

(** [State::evict_oldest]. *)
Definition evict_oldest : M B bool :=
  event ← pop_front;
  match event with
  | Some event => evict_event event;; mret true
  | None => mret false
  end.

(** [min_by_key] over the closed components: the first of the oldest. *)
Fixpoint oldest_closed (slots : list (option ComponentSlot)) (index : nat) (best : option (nat * N)) :
    option nat :=
  match slots with
  | [] => fst <$> best
  | slot :: slots =>
      let best' :=
        match slot with
        | Some c =>
            match cs_closed_at c with
            | Some _ =>
                match best with
                | Some (_, tick) =>
                    if (cs_registered_tick c <? tick)%N then Some (index, cs_registered_tick c) else best
                | None => Some (index, cs_registered_tick c)
                end
            | None => best
            end
        | None => best
        end in
      oldest_closed slots (S index) best'
  end.

(** The first loop of [reclaim_component]: the history is turned once. *)
Fixpoint rotate_history (n : nat) (handle : ComponentHandle) : M B unit :=
  match n with
  | 0 => mret tt
  | S n =>
      event ← pop_front;
      event ← expect event;
      (if decide (so_component event = handle) then evict_event event
       else push_back event;; mret tt);;
      rotate_history n handle
  end.

(** The loop that releases the counters of a component. *)
Fixpoint release_counters (fuel : nat) (next : option nat) : M B unit :=
  match fuel, next with
  | _, None => mret tt
  | 0, Some _ => panic
  | S fuel, Some index =>
      c ← gets (λ s, slot_at (st_counters s) index);
      c ← expect c;
      modify (λ s, set_counters s (<[index := None]> (st_counters s)));;
      release_counters fuel (cn_next c)
  end.

(** [windows[start..start + len].fill(None)]. *)
Definition clear_windows (w : WindowReservation) : M B unit := λ s,
  if wr_start w + wr_len w <=? length (st_windows s) then
    (Ok tt, set_windows s (take (wr_start w) (st_windows s) ++ replicate (wr_len w) None
                           ++ drop (wr_start w + wr_len w) (st_windows s)))
  else (Panic, s).

Definition owned_extension (handle : ComponentHandle) (slot : option ExtensionSlot) : bool :=
  match slot with Some e => bool_decide (es_component e = handle) | None => false end.

(** The loop over the extensions: those of the component are taken and
    their bytes given back. *)
Definition release_extensions (handle : ComponentHandle) (slots : list (option ExtensionSlot)) (used : N) :
    list (option ExtensionSlot) * N :=
  (map (λ slot, if owned_extension handle slot then None else slot) slots,
   foldl (λ used slot, if owned_extension handle slot then (used - from_option extension_bytes 0 slot)%N
                       else used) used slots).

(** [State::reclaim_component]. *)
Definition reclaim_component (index : nat) (count_eviction : bool) : M B bool :=
  c ← gets (λ s, slot_at (st_components s) index);
  c ← expect c;
  n ← gets (λ s, cb_len (st_recent s));
  rotate_history n (cs_handle c);;
  modify (λ s, set_components s (<[index := None]> (st_components s)));;
  modify (λ s, set_metadata_used s
    (st_metadata_used s - (slen (cs_key c) + ownership_bytes (rf_ownership (cs_refresh c))))%N);;
  counters ← gets (λ s, length (st_counters s));
  release_counters (S counters) (cs_counter_head c);;
  match cs_window c with Some w => clear_windows w | None => mret tt end;;
  modify (λ s,
    let r := release_extensions (cs_handle c) (st_extensions s) (st_metadata_used s) in
    set_metadata_used (set_extensions s r.1) r.2);;
  (if count_eviction then note ComponentsEvicted 1 else mret tt);;
  advance_sequence;;
  mret true.

(** [State::evict_closed_component]. *)
Definition evict_closed_component : M B bool :=
  candidate ← gets (λ s, oldest_closed (st_components s) 0 None);
  match candidate with
  | None => mret false
  | Some index => reclaim_component index true
  end.

(** [State::discard_unobserved_component]. *)
Definition discard_unobserved_component (handle : ComponentHandle) : M B bool :=
  c ← gets (λ s, component s handle);
  match c with
  | None => mret false
  | Some c =>
      if (dc_value (dt_recorded_events (lt_totals (cs_lifetime c))) =? 0)%N
      then reclaim_component (ch_slot handle) false
      else mret false
  end.

Definition u16_max : N := 65535.

(** The selection loop of [retain_event_text] over the three fields. *)
Fixpoint select_fields (p : DetailPool) (index : nat) (fields : list (option string))
    (selected : list string) (ranges : list (option TextRange)) (plan : option DetailPlan) (len : N) :
    list (option TextRange) * option DetailPlan :=
  match fields with
  | [] => (ranges, plan)
  | None :: fields => select_fields p (S index) fields selected ranges plan len
  | Some field :: fields =>
      if (u16_max <? slen field)%N || (u16_max <? len + slen field)%N then
        select_fields p (S index) fields selected ranges plan len
      else
        let candidate := <[index := field]> selected in
        match plan_parts p candidate with
        | Some plan =>
            select_fields p (S index) fields candidate
              (<[index := Some {| tr_start := len; tr_len := slen field |}]> ranges) (Some plan)
              (len + slen field)%N
        | None => select_fields p (S index) fields selected ranges plan len
        end
  end.

(** The loop that frees history until the plan fits.  Every round drops an
    event, so [fuel] of one more than the history is enough. *)
Fixpoint allocate_text (fuel : nat) (plan : DetailPlan) : M B (option DetailHandle) :=
  match fuel with
  | 0 => panic
  | S fuel =>
      r ← gets (λ s, allocate_plan (st_detail s) plan);
      '(handle, detail) ← expect r;
      modify (λ s, set_detail s detail);;
      match handle with
      | Some handle => mret (Some handle)
      | None =>
          evicted ← evict_oldest;
          if evicted : bool then allocate_text fuel plan else mret None
      end
  end.

(** [State::retain_event_text]. *)
Definition retain_event_text (detail session request : option string) : M B RetainedText :=
  p ← gets st_detail;
  let (ranges, plan) :=
    select_fields p 0 [detail; session; request] [""; ""; ""]%string [None; None; None] None 0 in
  if forallb (λ r, match r with None => true | Some _ => false end) ranges then mret no_text
  else
    plan ← expect plan;
    n ← gets (λ s, cb_len (st_recent s));
    payload ← allocate_text (S n) plan;
    match payload with
    | None => mret no_text
    | Some payload =>
        mret {| rt_payload := Some payload; rt_detail := slot_at ranges 0;
                rt_session_id := slot_at ranges 1; rt_request_id := slot_at ranges 2 |}
    end.

Definition empty_window : WindowSlot :=
  {| ws_interval := None; ws_successes := zero_count; ws_failures := zero_count;
     ws_unspecified := zero_count |}.

Definition window_record (slot : WindowSlot) (interval : N) (outcome : DiagnosticOutcome) (count : N) :
    WindowSlot :=
  let slot :=
    if decide (ws_interval slot = Some interval) then slot
    else {| ws_interval := Some interval; ws_successes := zero_count; ws_failures := zero_count;
            ws_unspecified := zero_count |} in
  match outcome with
  | OutcomeSuccess =>
      {| ws_interval := ws_interval slot; ws_successes := count_add (ws_successes slot) count;
         ws_failures := ws_failures slot; ws_unspecified := ws_unspecified slot |}
  | OutcomeFailure =>
      {| ws_interval := ws_interval slot; ws_successes := ws_successes slot;
         ws_failures := count_add (ws_failures slot) count; ws_unspecified := ws_unspecified slot |}
  | OutcomeUnknown =>
      {| ws_interval := ws_interval slot; ws_successes := ws_successes slot;
         ws_failures := ws_failures slot; ws_unspecified := count_add (ws_unspecified slot) count |}
  end.

(** [State::record_window]; a zero divisor panics. *)
Definition record_window (handle : ComponentHandle) (tick : N) (outcome : DiagnosticOutcome) (count : N) :
    M B unit :=
  c ← gets (λ s, component s handle);
  match c ≫= λ c, (λ w, (c, w)) <$> cs_window c with
  | None => mret tt
  | Some (c, w) =>
      if (wr_resolution_millis w =? 0)%N || (wr_len w =? 0) then panic
      else
        let interval := ((tick - cs_registered_tick c) / wr_resolution_millis w)%N in
        let index := wr_start w + N.to_nat (interval mod N.of_nat (wr_len w))%N in
        slot ← gets (λ s, slot_at (st_windows s) index);
        slot ← expect slot;
        modify (λ s, set_windows s
          (<[index := Some (window_record slot interval outcome count)]> (st_windows s)))
  end.
End Ops.
