(* ===== verification/DiagRecording.v ===== *)
(** * Recording an observation

    [src/crates/diagnostics/src/recording.rs] and the publication workspace
    of [projection.rs]: preparation of the detail text, resolution of the
    code, the numeric totals, and the retained evidence. *)

From stdpp Require Import base numbers strings list.
From S2P Require Import Prelude Text Utf8 DetailPool DiagCatalogue DiagTypes DiagState.

(** ** Bounded text *)

Definition bounded_str (value : string) (max : N) : string :=
  str_take (boundary_below value (min (String.length value) (N.to_nat max))) value.

(** The run of a [Display] against [BoundedFormat]: the text in the buffer,
    whether a write was cut, and whether the formatting failed; [None] when it
    unwinds. *)
Fixpoint run_display (d : Display) (max : N) (written : string) (truncated : bool) :
    option (string * bool * bool) :=
  match d with
  | Finish ok => Some (written, truncated, negb ok)
  | Unwind => None
  | WriteStr value rest =>
      let part := bounded_str value (max - slen written)%N in
      let cut := String.length part <? String.length value in
      run_display (rest (negb cut)) max (written +:+ part) (truncated || cut)
  end.

(** [prepare_detail].  The buffer has [MAX_DETAIL_BYTES] bytes, and a larger
    [max] panics; [None] is that panic, one of the value or text that is not UTF-8. *)
Definition prepare_detail (detail : DiagnosticDetailRef) (max : N) : option (option string * bool) :=
  match detail with
  | DetailNone => Some (None, false)
  | DetailText text =>
      let value := bounded_str text max in
      Some (Some value, negb (String.length value =? String.length text))
  | DetailDisplay value =>
      if (MAX_DETAIL_BYTES <? max)%N then None
      else
        '(text, truncated, failed) ← run_display value max "" false;
        if utf8_valid text then Some (Some text, truncated || failed) else None
  end.

(** ** Publication workspaces *)

Record DiagnosticOutputSummary := {
  os_sequence : N;
  os_observed_at : N;
  os_component_instance_id : N;
  os_classification : Classification;
  os_severity : DiagnosticSeverity;
  os_outcome : DiagnosticOutcome;
  os_count : N;
}.

(** What is published of an observation: [PublicationWorkspace::fill]; [None]
    is [false]. *)
Definition fill (component_instance_id : N) (code : StoredCode) (class : option StoredFailureClass)
    (sequence observed_at : N) (observation : Observation) : option DiagnosticOutputSummary :=
  match code with
  | CodeExtension _ _ => None
  | CodeBuiltin code =>
      class ← match class with
              | Some (ClassBuiltin class) => Some (Some class)
              | Some (ClassExtension _ _ _) => None
              | None => Some None
              end;
      classification ← Classification_new code class;
      Some {| os_sequence := sequence; os_observed_at := observed_at;
              os_component_instance_id := component_instance_id;
              os_classification := classification; os_severity := ob_severity observation;
              os_outcome := ob_outcome observation; os_count := ob_count observation |}
  end.

(** ** The recording boundary *)

(** The publication a caller passes: none requested, requested but no
    workspace free, or a workspace. *)
Inductive Publication : Type := NotRequested | NoWorkspace | Workspace.

Section Recording.
Context {B : Type} `{!CircularBuffer StoredObservation B}.
Implicit Types s : State B.

(** The descriptor of a registered extension. *)
Definition descriptor s (handle : ComponentHandle) (extension : ExtensionHandle) :
    option ExtensionSlot :=
  e ← slot_at (st_extensions s) (eh_slot extension);
  if decide (es_generation e = eh_generation extension ∧ es_component e = handle)
  then Some e else None.

Definition u8_max : N := 255.

(** [resolve_observation_code]. *)
Definition resolve_observation_code s (inner : Inner) (handle : ComponentHandle)
    (observation : Observation) :
    DiagnosticError + (option StoredCode * option StoredFailureClass) :=
  match ob_code observation with
  | ObsBuiltin classification =>
      match from_canonical_name (cf_code classification) with
      | None => inl InvalidCode
      | Some code =>
          match match cf_failure_class classification with
                | None => Some None
                | Some name => Some <$> failure_class_from_canonical_name name
                end with
          | None => inl InvalidClassification
          | Some class =>
              if allows_class code class
              then inr (Some (CodeBuiltin code), ClassBuiltin <$> class)
              else inl InvalidClassification
          end
      end
  | ObsExtension extension class =>
      if negb (eh_context_id extension =? in_context_id inner)%N
         || bool_decide (eh_component extension ≠ handle) then inl InvalidCode
      else
        match descriptor s handle extension with
        | None => inl InvalidCode
        | Some d =>
            let stored :=
              inr (Some (CodeExtension (eh_slot extension) (eh_generation extension)),
                   ClassBuiltin <$> class) in
            if decide (es_outcome d = OutcomeFailure) then
              match class with
              | Some c => if decide (c ∈ es_allowed_classes d) then stored else inl InvalidClassification
              | None => inl InvalidClassification
              end
            else match class with Some _ => inl InvalidClassification | None => stored end
        end
  | ObsOpaqueExtension extension class =>
      if negb (eh_context_id extension =? in_context_id inner)%N
         || bool_decide (eh_component extension ≠ handle)
         || bool_decide (ec_extension class ≠ extension) then inl InvalidClassification
      else
        match descriptor s handle extension with
        | None => inl InvalidCode
        | Some d =>
            if (u8_max <? N.of_nat (ec_index class))%N then inl InvalidClassification
            else
              let cause :=
                ClassExtension (eh_slot extension) (eh_generation extension) (N.of_nat (ec_index class)) in
              if decide (es_outcome d ≠ OutcomeFailure) then inl InvalidClassification
              else
                match class_name s cause with
                | None => inl InvalidClassification
                | Some _ =>
                    inr (Some (CodeExtension (eh_slot extension) (eh_generation extension)), Some cause)
                end
        end
  | ObsOverflow => inr (None, None)
  end.

Definition lift {A : Type} (r : DiagnosticError + A) : M B A :=
  match r with inl e => fail e | inr a => mret a end.

Definition bounded_opt (o : option string) (max : N) : option string :=
  (λ v, bounded_str v max) <$> o.

Definition was_truncated (o bounded : option string) : bool :=
  match o, bounded with
  | Some a, Some b => negb (String.length a =? String.length b)
  | _, _ => false
  end.

(** The counter that the code was declared with. *)
Definition declared_counter s (handle : ComponentHandle) (code : StoredCode) : option nat :=
  fst <$> head (filter (λ ic : nat * CounterSlot, cn_code ic.2 = code) (component_counters s handle)).

Definition observe_totals (observation : Observation) (now tick : N) (c : ComponentSlot) : ComponentSlot :=
  slot_with_totals c
    (lifetime_record (cs_lifetime c) (ob_outcome observation) (ob_count observation) now tick)
    (refresh_with_totals (cs_refresh c)
       (totals_record (rf_totals (cs_refresh c)) (ob_outcome observation) (ob_count observation))).

Definition observe_counter (count now : N) (c : CounterSlot) : CounterSlot :=
  {| cn_component := cn_component c; cn_next := cn_next c; cn_code := cn_code c;
     cn_occurrences := count_add (cn_occurrences c) count; cn_last_observed_at := Some now |}.

(** The numeric part of [record_observation]: context and component totals,
    the outcome window and the counter of the code. *)
Definition count_observation (handle : ComponentHandle) (observation : Observation) (now tick : N)
    (counter_index : option nat) : M B (option DiagnosticCount) :=
  modify (λ s, set_lifetime s
    (lifetime_record (st_lifetime s) (ob_outcome observation) (ob_count observation) now tick));;
  update_component (ch_slot handle) (observe_totals observation now tick);;
  record_window handle tick (ob_outcome observation) (ob_count observation);;
  match counter_index with
  | None => mret None
  | Some index =>
      update_counter index (observe_counter (ob_count observation) now);;
      c ← gets (λ s, slot_at (st_counters s) index);
      mret (cn_occurrences <$> c)
  end.

Definition accepted_remote (remote : RemoteDiagnosticOrigin) (now tick : N) : RemoteDiagnosticOrigin :=
  {| ro_source_instance_id := ro_source_instance_id remote;
     ro_activation_instance_id := ro_activation_instance_id remote;
     ro_submission_sequence := ro_submission_sequence remote;
     ro_observed_at := ro_observed_at remote;
     ro_received_at := now; ro_accepted_elapsed_millis := tick |}.

Definition omitted (value : option string) (range : option TextRange) : bool :=
  match value, range with Some _, None => true | _, _ => false end.

Definition b2n (b : bool) : N := if b then 1 else 0.

(** The evidence part for [max_events > 0]: the text is retained, the event
    appended, a displaced event evicted. *)
Definition retain_event (event : RetainedText → StoredObservation) (truncated session_truncated
    request_truncated : bool) (detail session request : option string) : M B EvidenceDisposition :=
  retained ← retain_event_text detail session request;
  (if omitted detail (rt_detail retained) then note DetailsOmitted 1 else mret tt);;
  let correlation_omitted :=
    (b2n (omitted session (rt_session_id retained)) + b2n (omitted request (rt_request_id retained)))%N in
  note CorrelationsOmitted correlation_omitted;;
  displaced ← push_back (event retained);
  match displaced with Some evicted => evict_event evicted | None => mret tt end;;
  mret (if truncated || session_truncated || request_truncated || omitted detail (rt_detail retained)
           || (0 <? correlation_omitted)%N
        then EvidenceTruncated else EvidenceRetained).

(** [record_observation]; the second component is the payload to publish. *)
Definition record_observation (inner : Inner) (clock : Clock) (handle : ComponentHandle)
    (requested_origin : option CapturedOrigin) (observation : Observation)
    (detail : option string) (truncated : bool) (publication : Publication) :
    M B (RecordReceipt * option DiagnosticOutputSummary) :=
  c ← gets (λ s, component s handle);
  match (c ≫= λ c, match cs_closed_at c with None => Some c | Some _ => None end) with
  | None => note StaleObservations 1;; fail ComponentClosed
  | Some c =>
      let origin := default (origin c) requested_origin in
      context ← ok_or (stored_context (ob_context observation)) InvalidContext;
      r ← gets (λ s, resolve_observation_code s inner handle observation);
      '(code, class) ← lift r;
      counter_index ←
        match code with
        | None => mret None
        | Some code =>
            i ← gets (λ s, declared_counter s handle code);
            i ← ok_or i InvalidCode;
            mret (Some i)
        end;
      sequence ← next_sequence;
      let now := ck_now clock in
      let tick := ck_tick clock in
      code_total ← count_observation handle observation now tick counter_index;
      match code with
      | None =>
          note ClassificationsOverflowed (ob_count observation);;
          note EventsOmitted 1;;
          mret ({| rr_sequence := sequence; rr_code_total := None; rr_evidence := EvidenceDropped |}, None)
      | Some code =>
          (if truncated then note MessagesTruncated 1 else mret tt);;
          let limit := lm_max_correlation_bytes (in_limits inner) in
          let session := bounded_opt (ob_session_id observation) limit in
          let request := bounded_opt (ob_request_id observation) limit in
          let session_truncated := was_truncated (ob_session_id observation) session in
          let request_truncated := was_truncated (ob_request_id observation) request in
          (if session_truncated then note CorrelationsTruncated 1 else mret tt);;
          (if request_truncated then note CorrelationsTruncated 1 else mret tt);;
          let summary := fill (cs_instance_id c) code class sequence now observation in
          match publication, summary with
          | Workspace, None => note ProjectionsSuppressed 1
          | Workspace, Some _ | NotRequested, _ => mret tt
          | NoWorkspace, _ => note ProjectionDeliveriesOmitted 1
          end;;
          evidence ←
            (if (lm_max_events (in_limits inner) =? 0)%N then note EventsOmitted 1;; mret EvidenceDropped
             else
               retain_event
                 (λ text,
                    {| so_sequence := sequence; so_observed_at := now;
                       so_remote := (λ r, accepted_remote r now tick) <$> ob_remote observation;
                       so_count := ob_count observation; so_component := handle; so_origin := origin;
                       so_code := code; so_failure_class := class; so_context := context;
                       so_severity := ob_severity observation; so_outcome := ob_outcome observation;
                       so_text := text; so_detail_truncated := truncated |})
                 truncated session_truncated request_truncated detail session request);
          mret ({| rr_sequence := sequence; rr_code_total := code_total; rr_evidence := evidence |},
                match publication with Workspace => summary | _ => None end)
      end
  end.
End Recording.

(** C28: the store accepts exactly the classifications of the checked
    constructor.  An observation with a built-in classification resolves if
    and only if [Classification::new] makes that classification, and then to
    the very code and cause it was made from; the classifier of plugin errors
    always makes one. *)
Theorem classification_roundtrip {B} (s : State B) inner h ob cl :
  ob_code ob = ObsBuiltin cl →
  (∀ code class, Classification_new code class = Some cl →
     resolve_observation_code s inner h ob = inr (Some (CodeBuiltin code), ClassBuiltin <$> class))
  ∧ (∀ code class, resolve_observation_code s inner h ob = inr (code, class) →
     ∃ c k, code = Some (CodeBuiltin c) ∧ class = ClassBuiltin <$> k ∧ Classification_new c k = Some cl)
  ∧ ∀ error, is_Some (classify error).
Proof.
  intros Hob. unfold resolve_observation_code. rewrite Hob. split_and!.
  - intros code class. unfold Classification_new. destruct (allows_class code class) eqn:Ha; [|done]. intros [= <-].
    cbn [cf_code cf_failure_class]. rewrite (proj2 (from_canonical_name_Some _ code) eq_refl).
    destruct class as [class|]; cbn; [rewrite failure_class_name; cbn|]; by rewrite Ha.
  - intros code class. destruct (from_canonical_name (cf_code cl)) as [c|] eqn:Hc; [|done].
    apply from_canonical_name_Some in Hc. destruct cl as [name class0]. cbn [cf_code cf_failure_class] in *. subst name.
    destruct class0 as [name|]; cbn.
    + destruct (failure_class_from_canonical_name name) as [k|] eqn:Hk; cbn; [|done].
      destruct (allows_class c (Some k)) eqn:Ha; [|done]. intros [= <- <-]. exists c, (Some k). split_and!; [done..|].
      unfold Classification_new. rewrite Ha. cbn. by rewrite (failure_class_from_name _ _ Hk).
    + destruct (allows_class c None) eqn:Ha; [|done]. intros [= <- <-]. exists c, None. split_and!; [done..|].
      unfold Classification_new. by rewrite Ha.
  - intros []; by eexists.
Qed.
