(* ===== verification/DiagLifecycle.v ===== *)
(** * Registration, refresh and closing of components

    [src/crates/diagnostics/src/lifecycle.rs].  Admission reclaims closed
    components, oldest first, until the request fits or none is left. *)

From Stdlib Require Import Ascii.
From stdpp Require Import base numbers strings list.
From S2P Require Import Prelude Text Utf8 DetailPool DiagCatalogue DiagTypes DiagState.

Definition name_byte (c : ascii) : bool :=
  byte_between 97 122 c || byte_between 48 57 c || Ascii.eqb c "_" || Ascii.eqb c "-" || Ascii.eqb c ".".

Definition valid_name (value : string) (max : N) : bool :=
  negb (str_empty value)
  && (slen value <=? max)%N
  && str_all name_byte value
  && forallb (λ part, negb (str_empty part)) (split_on "." value).

(** [ownership]: the configured bound, then the fixed capacity. *)
Definition checked_ownership (value : ComponentOwnership) (limits : DiagnosticLimits) :
    DiagnosticError + Ownership :=
  if from_option (λ v, (lm_max_identity_bytes limits <? slen v)%N) false (co_configuration_id value)
     || from_option (λ v, (lm_max_identity_bytes limits <? slen v)%N) false (co_responsibility value)
  then inl MetadataCapacity
  else match Ownership_new value with Some o => inr o | None => inl MetadataCapacity end.

(** The loop of [free_window_start] at [index] with [free] empty slots just
    before it. *)
Fixpoint window_run (slots : list (option WindowSlot)) (index free len : nat) : option nat :=
  match slots with
  | [] => None
  | slot :: slots =>
      let free := match slot with None => S free | Some _ => 0 end in
      if free =? len then Some (S index - len) else window_run slots (S index) free len
  end.

Section Lifecycle.
Context {B : Type} `{!CircularBuffer StoredObservation B}.
Implicit Types s : State B.

Definition free_window_start s (len : nat) : option nat :=
  if len =? 0 then Some 0
  else if length (st_windows s) <? len then None
  else window_run (st_windows s) 0 0 len.

Definition ensure_revision : M B unit := λ s,
  if (st_sequence s =? max_u64)%N || (st_generation s =? max_u64)%N then
    (Err SequenceExhausted,
     set_loss s {| ls_count := ls_count (st_loss s); ls_sequence_saturated := true |})
  else (Ok tt, s).

(** [Err(note_admission(state, error))]. *)
Definition reject {A : Type} (error : DiagnosticError) : M B A :=
  match error with
  | MetadataCapacity => note MetadataRejected 1
  | WindowCapacity => note WindowsRejected 1
  | KeyCapacity => note KeysRejected 1
  | _ => mret tt
  end;;
  fail error.

(** [used.checked_add(extra).is_none_or(|n| n > max)]. *)
Definition metadata_full (used extra max : N) : bool := (usize_max <? used + extra)%N || (max <? used + extra)%N.

Definition is_free {A : Type} (slot : option A) : bool := match slot with None => true | Some _ => false end.

Definition free_slots {A : Type} (slots : list (option A)) : nat := length (List.filter is_free slots).

(** [iter().position(Option::is_none)]. *)
Fixpoint first_free {A : Type} (slots : list (option A)) : option nat :=
  match slots with
  | [] => None
  | None :: _ => Some 0
  | Some _ :: slots => S <$> first_free slots
  end.

Definition component_admission s (inner : Inner) (metadata : N) (codes windows : nat) :
    option DiagnosticError :=
  if free_slots (st_components s) =? 0 then Some ComponentCapacity
  else if free_slots (st_counters s) <? codes then Some KeyCapacity
  else if is_free (free_window_start s windows) then Some WindowCapacity
  else if metadata_full (st_metadata_used s) metadata (lm_max_metadata_bytes (in_limits inner))
  then Some MetadataCapacity
  else None.

(** [while let Some(error) = check(state) { if evict_closed_component()
    { continue } return Err(..) }].  Every round reclaims a component, so one
    more round than there are slots is enough. *)
Fixpoint make_room (fuel : nat) (check : State B → option DiagnosticError) : M B unit :=
  match fuel with
  | 0 => panic
  | S fuel =>
      error ← gets check;
      match error with
      | None => mret tt
      | Some error =>
          evicted ← evict_closed_component;
          if evicted : bool then make_room fuel check else reject error
      end
  end.

Definition admit_when (check : State B → option DiagnosticError) : M B unit :=
  n ← gets (λ s, length (st_components s));
  make_room (S n) check.

(** [windows[start..start + len]] become empty buckets. *)
Definition reserve_windows (w : WindowReservation) : M B unit := λ s,
  if wr_start w + wr_len w <=? length (st_windows s) then
    (Ok tt, set_windows s (take (wr_start w) (st_windows s) ++ replicate (wr_len w) (Some empty_window)
                           ++ drop (wr_start w + wr_len w) (st_windows s)))
  else (Panic, s).

Fixpoint has_duplicate (codes : list BuiltinDiagnosticCode) : bool :=
  match codes with
  | [] => false
  | code :: codes => bool_decide (code ∈ codes) || has_duplicate codes
  end.

Definition new_component (handle : ComponentHandle) (uuid : N) (key : string) (now tick : N)
    (attribution : Ownership) (window : option WindowReservation) (head : option nat) : ComponentSlot :=
  {| cs_handle := handle; cs_instance_id := uuid; cs_key := key; cs_registered_at := now;
     cs_registered_tick := tick; cs_closed_at := None; cs_closed_tick := None;
     cs_lifetime := zero_lifetime;
     cs_refresh := {| rf_generation := 1; rf_started_at := now; rf_started_tick := tick;
                      rf_ownership := attribution; rf_totals := zero_totals |};
     cs_window := window; cs_counter_head := head |}.

(** The part of [register_component] after admission. *)
Definition install_component (clock : Clock) (registration : ComponentRegistration) (attribution : Ownership)
    (metadata : N) (window_count : nat) : M B (ComponentHandle * ComponentIdentity) :=
  slot ← gets (λ s, first_free (st_components s));
  slot ← expect slot;
  window_start ← gets (λ s, free_window_start s window_count);
  window_start ← expect window_start;
  generation ← next_generation;
  _ ← next_sequence;
  let handle := {| ch_slot := slot; ch_generation := generation |} in
  let window :=
    (λ v, {| wr_start := window_start; wr_len := wi_bucket_count v;
             wr_resolution_millis := wi_resolution_millis v |}) <$> cr_window registration in
  head ← reserve_builtin_counters handle (cr_builtin_codes registration);
  match window with Some w => reserve_windows w | None => mret tt end;;
  modify (λ s, set_components s
    (<[slot := Some (new_component handle (ck_uuid clock) (cr_key registration) (ck_now clock)
                       (ck_tick clock) attribution window head)]> (st_components s)));;
  modify (λ s, set_metadata_used s (st_metadata_used s + metadata)%N);;
  mret (handle, {| ci_key := cr_key registration; ci_instance_id := ck_uuid clock;
                   ci_generation := generation |}).

(** [register_component]. *)
Definition register_component (inner : Inner) (clock : Clock) (registration : ComponentRegistration) :
    M B (ComponentHandle * ComponentIdentity) :=
  let limits := in_limits inner in
  if negb (valid_name (cr_key registration) (lm_max_identity_bytes limits)) then fail InvalidComponentKey
  else
    counters ← gets (λ s, length (st_counters s));
    if counters <? length (cr_builtin_codes registration) then reject KeyCapacity
    else if has_duplicate (cr_builtin_codes registration) then fail InvalidCode
    else if negb (text_fits ID_BYTES (cr_key registration)) then fail MetadataCapacity
    else
      match checked_ownership (cr_ownership registration) limits with
      | inl e => reject e
      | inr attribution =>
          let metadata := (slen (cr_key registration) + ownership_bytes attribution)%N in
          if (usize_max <? metadata)%N then fail MetadataCapacity
          else if (lm_max_metadata_bytes limits <? metadata)%N then reject MetadataCapacity
          else
            let window_count := from_option wi_bucket_count 0 (cr_window registration) in
            windows ← gets (λ s, length (st_windows s));
            if from_option (λ v, (wi_bucket_count v =? 0) || (wi_resolution_millis v =? 0)%N) false
                 (cr_window registration)
               || (windows <? window_count) then reject WindowCapacity
            else
              ensure_revision;;
              admit_when (λ s, component_admission s inner metadata
                                 (length (cr_builtin_codes registration)) window_count);;
              install_component clock registration attribution metadata window_count
      end.

(** ** Extensions *)

Definition reserved_namespaces : list string :=
  ["runtime"; "plugin"; "upstream"; "observability"; "logging"; "binding"; "otel"; "atif";
   "configuration"; "deployment"]%string.

(** [matches!(namespace.split('.').next(), Some("runtime" | ..))]. *)
Definition reserved_namespace (namespace : string) : bool :=
  match head (split_on "." namespace) with
  | Some n => bool_decide (n ∈ reserved_namespaces)
  | None => false
  end.

(** The set of declared causes; [None] is a repeated cause. *)
Fixpoint class_set (classes : list FailureClass) (acc : list FailureClass) : option (list FailureClass) :=
  match classes with
  | [] => Some (filter (λ c, c ∈ acc) failure_class_variants)
  | c :: classes => if decide (c ∈ acc) then None else class_set classes (c :: acc)
  end.

(** The descriptor of this component with this name. *)
Fixpoint find_extension (slots : list (option ExtensionSlot)) (index : nat) (handle : ComponentHandle)
    (name : string) : option (nat * ExtensionSlot) :=
  match slots with
  | [] => None
  | Some e :: slots =>
      if decide (es_component e = handle ∧ es_name e = name) then Some (index, e)
      else find_extension slots (S index) handle name
  | None :: slots => find_extension slots (S index) handle name
  end.

(** The test of [admit_extension]. *)
Definition extension_admission s (inner : Inner) (metadata : N) : option DiagnosticError :=
  if (free_slots (st_extensions s) =? 0) || (free_slots (st_counters s) =? 0) then Some KeyCapacity
  else if metadata_full (st_metadata_used s) metadata (lm_max_metadata_bytes (in_limits inner))
  then Some MetadataCapacity
  else None.

Definition open_component s (handle : ComponentHandle) : option ComponentSlot :=
  c ← component s handle;
  match cs_closed_at c with None => Some c | Some _ => None end.

(** The part of [register_extension] after admission. *)
Definition install_extension (inner : Inner) (handle : ComponentHandle) (registration : ExtensionRegistration)
    (name : string) (classes : list FailureClass) (metadata : N) : M B ExtensionHandle :=
  slot ← gets (λ s, first_free (st_extensions s));
  slot ← expect slot;
  counter ← gets (λ s, first_free (st_counters s));
  counter ← expect counter;
  generation ← next_generation;
  _ ← next_sequence;
  if negb (text_fits ID_BYTES name) || negb (text_fits DESCRIPTION_BYTES (er_description registration))
  then fail MetadataCapacity
  else
    modify (λ s, set_extensions s
      (<[slot := Some {| es_generation := generation; es_component := handle; es_name := name;
                         es_description := er_description registration;
                         es_allowed_classes := classes; es_opaque_classes := replicate 4 None;
                         es_outcome := er_outcome registration |}]> (st_extensions s)));;
    modify (λ s, set_counters s
      (<[counter := Some (new_counter handle (CodeExtension slot generation))]> (st_counters s)));;
    link_counter handle counter;;
    modify (λ s, set_metadata_used s (st_metadata_used s + metadata)%N);;
    mret {| eh_context_id := in_context_id inner; eh_component := handle; eh_slot := slot;
            eh_generation := generation |}.

(** [register_extension]. *)
Definition register_extension (inner : Inner) (handle : ComponentHandle) (registration : ExtensionRegistration) :
    M B ExtensionHandle :=
  let limits := in_limits inner in
  c ← gets (λ s, open_component s handle);
  _ ← ok_or c ComponentClosed;
  if negb (valid_name (er_namespace registration) (lm_max_identity_bytes limits))
     || negb (valid_name (er_name registration) (lm_max_identity_bytes limits)) then fail InvalidCode
  else if reserved_namespace (er_namespace registration) then fail InvalidCode
  else
    let len := (slen (er_namespace registration) + 1 + slen (er_name registration))%N in
    if (usize_max <? len)%N then fail MetadataCapacity
    else if (lm_max_identity_bytes limits <? len)%N
            || (DESCRIPTION_BYTES <? slen (er_description registration))%N then reject MetadataCapacity
    else if (ID_BYTES <? len)%N then panic
    else
      let name := er_namespace registration +:+ "." +:+ er_name registration in
      match from_canonical_name name with
      | Some _ => fail InvalidCode
      | None =>
          match class_set (er_allowed_classes registration) [] with
          | None => fail InvalidClassification
          | Some classes =>
              if bool_decide (er_outcome registration ≠ OutcomeFailure) && bool_decide (classes ≠ [])
              then fail InvalidClassification
              else
                known ← gets (λ s, find_extension (st_extensions s) 0 handle name);
                match known with
                | Some (slot, value) =>
                    if bool_decide (es_description value ≠ er_description registration)
                       || bool_decide (es_allowed_classes value ≠ classes)
                       || bool_decide (es_outcome value ≠ er_outcome registration)
                    then fail InvalidCode
                    else mret {| eh_context_id := in_context_id inner; eh_component := handle;
                                 eh_slot := slot; eh_generation := es_generation value |}
                | None =>
                    let metadata := (len + slen (er_description registration))%N in
                    if (usize_max <? metadata)%N then fail MetadataCapacity
                    else if (lm_max_metadata_bytes limits <? metadata)%N then reject MetadataCapacity
                    else
                      ensure_revision;;
                      admit_when (λ s, extension_admission s inner metadata);;
                      install_extension inner handle registration name classes metadata
                end
          end
      end.

Definition class_byte (c : ascii) : bool :=
  byte_between 97 122 c || byte_between 48 57 c || Ascii.eqb c "_".

Definition valid_class_name (name : string) : bool :=
  match name with
  | EmptyString => false
  | String c _ => (slen name <=? 32)%N && byte_between 97 122 c && str_all class_byte name
  end.

Fixpoint class_index (slots : list (option string)) (name : string) : option nat :=
  match slots with
  | [] => None
  | Some n :: slots => if decide (n = name) then Some 0 else S <$> class_index slots name
  | None :: slots => S <$> class_index slots name
  end.

Definition extension_of s (component : ComponentHandle) (extension : ExtensionHandle) : option ExtensionSlot :=
  e ← slot_at (st_extensions s) (eh_slot extension);
  if decide (es_component e = component ∧ es_generation e = eh_generation extension)
  then Some e else None.

Definition with_opaque (e : ExtensionSlot) (classes : list (option string)) : ExtensionSlot :=
  {| es_generation := es_generation e; es_component := es_component e; es_name := es_name e;
     es_description := es_description e; es_allowed_classes := es_allowed_classes e;
     es_opaque_classes := classes; es_outcome := es_outcome e |}.

Definition metadata_admission s (inner : Inner) (metadata : N) : option DiagnosticError :=
  if metadata_full (st_metadata_used s) metadata (lm_max_metadata_bytes (in_limits inner))
  then Some MetadataCapacity else None.

(** [register_extension_class]. *)
Definition register_extension_class (inner : Inner) (component : ComponentHandle)
    (extension : ExtensionHandle) (name : string) : M B ExtensionClassHandle :=
  if negb (eh_context_id extension =? in_context_id inner)%N
     || bool_decide (eh_component extension ≠ component) then fail InvalidCode
  else
    c ← gets (λ s, open_component s component);
    _ ← ok_or c ComponentClosed;
    if negb (valid_class_name name) then fail InvalidClassification
    else
      d ← gets (λ s, extension_of s component extension);
      d ← ok_or d InvalidCode;
      if decide (es_outcome d ≠ OutcomeFailure) then fail InvalidClassification
      else
        match class_index (es_opaque_classes d) name with
        | Some index => mret {| ec_extension := extension; ec_index := index |}
        | None =>
            match failure_class_from_canonical_name name with
            | Some _ => fail InvalidClassification
            | None =>
                match first_free (es_opaque_classes d) with
                | None => reject MetadataCapacity
                | Some index =>
                    ensure_revision;;
                    admit_when (λ s, metadata_admission s inner (slen name));;
                    _ ← next_sequence;
                    e ← gets (λ s, slot_at (st_extensions s) (eh_slot extension));
                    e ← expect e;
                    modify (λ s, set_extensions s
                      (<[eh_slot extension :=
                           Some (with_opaque e (<[index := Some name]> (es_opaque_classes e)))]>
                         (st_extensions s)));;
                    modify (λ s, set_metadata_used s (st_metadata_used s + slen name)%N);;
                    mret {| ec_extension := extension; ec_index := index |}
                end
            end
        end.

(** ** Closing and refresh *)

(** [close_component] with collection enabled. *)
Definition close_component (clock : Clock) (handle : ComponentHandle) : M B bool :=
  c ← gets (λ s, component s handle);
  c ← ok_or c ComponentClosed;
  match cs_closed_at c with
  | Some _ => mret false
  | None =>
      _ ← next_sequence;
      update_component (ch_slot handle) (λ c, slot_closed c (ck_now clock) (ck_tick clock));;
      mret true
  end.

Definition refreshed (c : ComponentSlot) (r : RefreshState) : ComponentSlot :=
  slot_with_totals c (cs_lifetime c) r.

Definition refresh_admission s (inner : Inner) (old new : N) : option DiagnosticError :=
  if metadata_full (st_metadata_used s - old)%N new (lm_max_metadata_bytes (in_limits inner))
  then Some MetadataCapacity else None.

(** [refresh_component] with collection enabled. *)
Definition refresh_component (inner : Inner) (clock : Clock) (handle : ComponentHandle)
    (new_ownership : ComponentOwnership) : M B N :=
  match checked_ownership new_ownership (in_limits inner) with
  | inl e => reject e
  | inr attribution =>
      old ← gets (λ s, open_component s handle);
      old ← ok_or old ComponentClosed;
      ensure_revision;;
      if (rf_generation (cs_refresh old) =? max_u64)%N then fail SequenceExhausted
      else
        let generation := N.succ (rf_generation (cs_refresh old)) in
        let old_bytes := ownership_bytes (rf_ownership (cs_refresh old)) in
        admit_when (λ s, refresh_admission s inner old_bytes (ownership_bytes attribution));;
        _ ← next_sequence;
        used ← gets st_metadata_used;
        if (used <? old_bytes)%N then panic
        else
          modify (λ s, set_metadata_used s (used - old_bytes + ownership_bytes attribution)%N);;
          update_component (ch_slot handle)
            (λ c, refreshed c {| rf_generation := generation; rf_started_at := ck_now clock;
                                 rf_started_tick := ck_tick clock; rf_ownership := attribution;
                                 rf_totals := zero_totals |});;
          mret generation
  end.
End Lifecycle.
