(* ===== verification/DiagInvariant.v ===== *)
(** * Invariants of the diagnostics store

    What holds between any two operations on the store: the tables refer to
    each other consistently, the history and the detail pool agree, the
    metadata account is exact, and every accepted observation is either
    retained, evicted or counted as omitted.  The predicates are stated on
    the parts of the store they speak about, so that an operation that
    leaves those parts alone keeps them for free. *)

From stdpp Require Import base numbers strings list.
From S2P Require Import Prelude Text Utf8 DetailPool DetailPoolFacts DiagCatalogue DiagTypes DiagState.

(** ** A ring buffer

    A list with a capacity implements the interface. *)
Record Ring (A : Type) := { rg_capacity : nat; rg_raw : list A }.

Arguments rg_capacity {A} r.
Arguments rg_raw {A} r.

Definition rg_items {A : Type} (r : Ring A) : list A := take (rg_capacity r) (rg_raw r).

#[global] Instance ring_buffer A : CircularBuffer A (Ring A) := {
  cb_with_capacity n := {| rg_capacity := n; rg_raw := [] |};
  cb_len r := length (rg_items r);
  cb_get r i := rg_items r !! i;
  cb_pop_front r := (head (rg_items r), {| rg_capacity := rg_capacity r; rg_raw := tail (rg_items r) |});
  cb_push_back a r :=
    if length (rg_items r) <? rg_capacity r then
      (None, {| rg_capacity := rg_capacity r; rg_raw := rg_items r ++ [a] |})
    else
      match rg_items r with
      | [] => (Some a, r)
      | x :: l => (Some x, {| rg_capacity := rg_capacity r; rg_raw := l ++ [a] |})
      end;
  cb_items r := rg_items r;
  cb_capacity r := rg_capacity r;
}.

#[global] Instance ring_laws A : CircularLaws A (Ring A).
Proof.
  split; unfold cb_with_capacity, cb_len, cb_get, cb_pop_front, cb_push_back, cb_items, cb_capacity,
    ring_buffer, rg_items; cbn [rg_capacity rg_raw fst snd]; try done.
  - intros n. by rewrite take_nil.
  - intros r. rewrite length_take. lia.
  - intros r. split_and!; [done| |done]. apply take_ge.
    destruct (take _ _) eqn:Ht; cbn; [lia|]. apply (f_equal length) in Ht. rewrite length_take in Ht. cbn in Ht. lia.
  - intros r a Hr. rewrite (proj2 (Nat.ltb_lt _ _)) by done. split; [done|]. cbn [snd rg_capacity rg_raw].
    apply take_ge. rewrite length_app. cbn. lia.
  - intros r a x l Hr Hx. rewrite (proj2 (Nat.ltb_ge _ _)) by lia. rewrite Hx. split; [done|].
    cbn [snd rg_capacity rg_raw]. apply take_ge. rewrite length_app. apply (f_equal length) in Hx. cbn in *. lia.
  - intros [cap raw] a Hr. cbn in Hr. by subst cap.
  - intros r a. destruct (_ <? _); [done|]. by destruct (take _ _).
Qed.

(** ** Weakest preconditions

    [wp m Q E s]: run from [s], [m] does not panic, and ends with [Q] or
    fails with [E]. *)
Section Wp.
Context {B : Type}.

Definition wp {A : Type} (m : M B A) (Q : A → State B → Prop) (E : DiagnosticError → State B → Prop)
    (s : State B) : Prop :=
  match m s with
  | (Ok a, s') => Q a s'
  | (Err e, s') => E e s'
  | (Panic, _) => False
  end.

Lemma wp_ret {A} (a : A) Q E s : Q a s → wp (mret a) Q E s.
Proof. done. Qed.

Lemma wp_bind {A C} (m : M B A) (k : A → M B C) Q E s :
  wp m (λ a s', wp (k a) Q E s') E s → wp (m ≫= k) Q E s.
Proof. unfold wp, mbind, M_bind. by destruct (m s) as [[a|e|] s']. Qed.

Lemma wp_gets {A} (f : State B → A) Q E s : Q (f s) s → wp (gets f) Q E s.
Proof. done. Qed.

Lemma wp_modify (f : State B → State B) Q E s : Q tt (f s) → wp (modify f) Q E s.
Proof. done. Qed.

Lemma wp_expect {A} (a : A) Q E s : Q a s → wp (expect (Some a)) Q E s.
Proof. done. Qed.

Lemma wp_fail {A} e (Q : A → State B → Prop) (E : DiagnosticError → State B → Prop) s :
  E e s → wp (fail e) Q E s.
Proof. done. Qed.

Lemma wp_ok_or {A} (o : option A) e Q E s :
  (∀ a, o = Some a → Q a s) → (o = None → E e s) → wp (ok_or o e) Q E s.
Proof. destruct o as [a|]; [intros H _; by apply H|intros _ H; by apply H]. Qed.

Lemma wp_mono {A} (m : M B A) (Q Q' : A → State B → Prop) (E E' : DiagnosticError → State B → Prop) s :
  wp m Q E s → (∀ a s', Q a s' → Q' a s') → (∀ e s', E e s' → E' e s') → wp m Q' E' s.
Proof. unfold wp. destruct (m s) as [[a|e|] s']; eauto. Qed.

Lemma wp_note k n (Q : unit → State B → Prop) E s :
  Q tt (set_loss s (loss_add (st_loss s) k n)) → wp (note k n) Q E s.
Proof. done. Qed.
End Wp.

(** Runs the administrative steps of an operation. *)
Ltac wp_run :=
  repeat (cbv beta; lazymatch goal with
  | |- wp (mbind _ _) _ _ _ => apply wp_bind
  | |- wp (gets _) _ _ _ => apply wp_gets
  | |- wp (modify _) _ _ _ => apply wp_modify
  | |- wp (mret _) _ _ _ => apply wp_ret
  | |- wp (note _ _) _ _ _ => apply wp_note
  | |- wp (expect (Some _)) _ _ _ => apply wp_expect
  | |- wp (fail _) _ _ _ => apply wp_fail
  end).

(** ** The tables *)

Definition find_slot (comps : list (option ComponentSlot)) (h : ComponentHandle) : option ComponentSlot :=
  c ← slot_at comps (ch_slot h);
  if decide (cs_handle c = h) then Some c else None.

Definition owns (counters : list (option CounterSlot)) (h : ComponentHandle) (j : nat) : Prop :=
  ∃ cn, slot_at counters j = Some cn ∧ cn_component cn = h.

#[global] Instance owns_dec counters h j : Decision (owns counters h j).
Proof.
  destruct (slot_at counters j) as [cn|] eqn:Hcn.
  - destruct (decide (cn_component cn = h)) as [Heq|Hne].
    + left. by exists cn.
    + right. intros (cn' & Hcn' & Heq). congruence.
  - right. intros (cn' & Hcn' & _). congruence.
Defined.

(** The counters of a component, in the order of the pool. *)
Definition owned (counters : list (option CounterSlot)) (h : ComponentHandle) : list nat :=
  filter (owns counters h) (seq 0 (length counters)).

Fixpoint chain (counters : list (option CounterSlot)) (next : option nat) (ix : list nat) : Prop :=
  match ix with
  | [] => next = None
  | j :: ix => next = Some j ∧ ∃ cn, slot_at counters j = Some cn ∧ chain counters (cn_next cn) ix
  end.

Definition in_window (w : WindowReservation) (k : nat) : Prop := wr_start w ≤ k < wr_start w + wr_len w.

Record tables_ok (comps : list (option ComponentSlot)) (counters : list (option CounterSlot))
    (windows : list (option WindowSlot)) (exts : list (option ExtensionSlot)) (generation : N) : Prop := {
  tb_handle : ∀ i c, slot_at comps i = Some c →
    ch_slot (cs_handle c) = i ∧ (ch_generation (cs_handle c) ≤ generation)%N;
  tb_chain : ∀ i c, slot_at comps i = Some c →
    chain counters (cs_counter_head c) (owned counters (cs_handle c));
  tb_counter : ∀ j cn, slot_at counters j = Some cn →
    is_Some (find_slot comps (cn_component cn))
    ∧ ∀ k g, cn_code cn = CodeExtension k g → (g ≤ generation)%N;
  tb_codes : ∀ j1 j2 cn1 cn2, slot_at counters j1 = Some cn1 → slot_at counters j2 = Some cn2 →
    cn_component cn1 = cn_component cn2 → cn_code cn1 = cn_code cn2 → j1 = j2;
  tb_window : ∀ i c w, slot_at comps i = Some c → cs_window c = Some w →
    0 < wr_len w ∧ (0 < wr_resolution_millis w)%N ∧ wr_start w + wr_len w ≤ length windows
    ∧ ∀ k, in_window w k → is_Some (slot_at windows k);
  tb_disjoint : ∀ i1 i2 c1 c2 w1 w2 k, slot_at comps i1 = Some c1 → slot_at comps i2 = Some c2 →
    cs_window c1 = Some w1 → cs_window c2 = Some w2 → in_window w1 k → in_window w2 k → i1 = i2;
  tb_extension : ∀ k e, slot_at exts k = Some e →
    is_Some (find_slot comps (es_component e)) ∧ (es_generation e ≤ generation)%N
    ∧ length (es_opaque_classes e) = 4
    ∧ ∃ j cn, slot_at counters j = Some cn ∧ cn_component cn = es_component e
        ∧ cn_code cn = CodeExtension k (es_generation e);
}.

(** ** History and detail *)

(** A retained event with the chain of the pool that holds its text. *)
Notation Held := (StoredObservation * option Entry)%type.

Definition held_text (oe : option Entry) : string := from_option entry_text EmptyString oe.

(** A range lies within the text of a payload. *)
Definition range_in (rt : RetainedText) (oe : option Entry) (r : option TextRange) : Prop :=
  match r with
  | None => True
  | Some r => rt_payload rt ≠ None ∧ (tr_start r + tr_len r ≤ slen (held_text oe))%N
  end.

Definition ranges_in (rt : RetainedText) (oe : option Entry) : Prop :=
  range_in rt oe (rt_detail rt) ∧ range_in rt oe (rt_session_id rt) ∧ range_in rt oe (rt_request_id rt).

Definition held_ok (comps : list (option ComponentSlot)) (he : Held) : Prop :=
  is_Some (find_slot comps (so_component he.1))
  ∧ match rt_payload (so_text he.1), he.2 with
    | Some h, Some e => h = handle_of e
    | Some h, None => h = empty_handle
    | None, None => True
    | None, Some _ => False
    end
  ∧ ranges_in (so_text he.1) he.2.

Definition held_entries (hs : list Held) : list Entry := omap snd hs.

(** [flight] are the chains that belong to no retained event: those of an
    event that is being recorded or evicted. *)
Record history_ok (comps : list (option ComponentSlot)) (events : list StoredObservation)
    (detail : DetailPool) (flight : list Entry) (hs : list Held) : Prop := {
  hi_events : events = hs.*1;
  hi_held : Forall (held_ok comps) hs;
  hi_pool : pool_ok detail (flight ++ held_entries hs);
}.

(** ** Metadata *)

Definition sum_N (l : list N) : N := foldr N.add 0%N l.

Definition component_bytes (c : option ComponentSlot) : N :=
  from_option (λ c, slen (cs_key c) + ownership_bytes (rf_ownership (cs_refresh c)))%N 0%N c.

Definition metadata_bytes_of (comps : list (option ComponentSlot)) (exts : list (option ExtensionSlot)) : N :=
  (sum_N (component_bytes <$> comps) + sum_N (from_option extension_bytes 0%N <$> exts))%N.

(** ** Accounting of evidence *)

Definition exact (c : DiagnosticCount) : Prop := dc_saturated c = false.

(** Unless a count has saturated, the accepted observations are the retained,
    the evicted and the omitted ones. *)
Record evidence_ok (totals : DiagnosticTotals) (loss : DiagnosticLoss) (retained : nat) : Prop := {
  ev_evictions : dt_history_evictions totals = ls_count loss EventsEvicted;
  ev_balance : exact (dt_recorded_events totals) → exact (ls_count loss EventsEvicted) →
    exact (ls_count loss EventsOmitted) →
    dc_value (dt_recorded_events totals)
    = (N.of_nat retained + dc_value (ls_count loss EventsEvicted)
       + dc_value (ls_count loss EventsOmitted))%N;
}.

(** ** The store *)

Section Store.
Context {B : Type} `{!CircularBuffer StoredObservation B}.

(** [extra] observations are counted but not yet retained or lost. *)
Record store_mid (limits : DiagnosticLimits) (extra : nat) (flight : list Entry) (s : State B)
    (hs : list Held) : Prop := {
  sk_tables : tables_ok (st_components s) (st_counters s) (st_windows s) (st_extensions s) (st_generation s);
  sk_history : history_ok (st_components s) (cb_items (st_recent s)) (st_detail s) flight hs;
  sk_metadata : st_metadata_used s = metadata_bytes_of (st_components s) (st_extensions s);
  sk_budget : (st_metadata_used s ≤ lm_max_metadata_bytes limits)%N;
  sk_evidence : evidence_ok (lt_totals (st_lifetime s)) (st_loss s) (extra + length hs);
  sk_capacity : cb_capacity (st_recent s) = N.to_nat (lm_max_events limits);
  sk_clock : (st_generation s ≤ max_u64)%N;
}.

Definition store_ok (limits : DiagnosticLimits) : State B → list Held → Prop := store_mid limits 0 [].
End Store.

(** ** Frames

    Operations on counts keep the shape of a component: its place in the
    tables and its metadata. *)

Definition shape (c : ComponentSlot) :
    ComponentHandle * string * option nat * option WindowReservation * Ownership :=
  (cs_handle c, cs_key c, cs_counter_head c, cs_window c, rf_ownership (cs_refresh c)).

Definition shapes (comps : list (option ComponentSlot)) := fmap (M:=option) shape <$> comps.

(** Its place in the tables alone. *)
Definition place (c : ComponentSlot) : ComponentHandle * option nat * option WindowReservation :=
  (cs_handle c, cs_counter_head c, cs_window c).

Definition places (comps : list (option ComponentSlot)) := fmap (M:=option) place <$> comps.

Definition counter_shape (c : CounterSlot) : ComponentHandle * option nat * StoredCode :=
  (cn_component c, cn_next c, cn_code c).

Definition counter_shapes (counters : list (option CounterSlot)) := fmap (M:=option) counter_shape <$> counters.

(** What totals count of accepted observations. *)
Definition tally (t : DiagnosticTotals) :
    DiagnosticCount * DiagnosticCount * DiagnosticCount * DiagnosticCount * DiagnosticCount :=
  (dt_recorded_events t, dt_occurrences t, dt_successes t, dt_failures t, dt_unspecified t).

(** Whether a component is closed, since when it is registered, and what it
    has counted. *)
Definition status (c : ComponentSlot) :=
  (cs_closed_at c, cs_registered_tick c, tally (lt_totals (cs_lifetime c)), tally (rf_totals (cs_refresh c))).

Definition statuses (comps : list (option ComponentSlot)) := fmap (M:=option) status <$> comps.

Lemma slot_at_fmap {A C : Type} (f : A → C) (l : list (option A)) i :
  slot_at (fmap (M:=option) f <$> l) i = f <$> slot_at l i.
Proof. unfold slot_at. rewrite list_lookup_fmap. by destruct (l !! i) as [[a|]|]. Qed.

Lemma slot_at_same {A C : Type} (f : A → C) (l l' : list (option A)) i a :
  fmap (M:=option) f <$> l' = fmap (M:=option) f <$> l → slot_at l' i = Some a →
  ∃ b, slot_at l i = Some b ∧ f b = f a.
Proof.
  intros Hf Ha. assert (f <$> slot_at l' i = f <$> slot_at l i) as H by (by rewrite <-!slot_at_fmap, Hf).
  rewrite Ha in H. cbn in H. destruct (slot_at l i) as [b|]; [|done]. exists b. by injection H as <-.
Qed.

Lemma slot_at_lt {A : Type} (l : list (option A)) i a : slot_at l i = Some a → i < length l.
Proof. unfold slot_at. destruct (l !! i) eqn:H; [|done]. intros _. by eapply lookup_lt_Some. Qed.

Lemma slot_at_insert {A : Type} (l : list (option A)) i j o :
  i < length l → slot_at (<[i:=o]> l) j = if decide (j = i) then o else slot_at l j.
Proof.
  intros Hi. unfold slot_at. case_decide as Hj.
  - subst. by rewrite list_lookup_insert_eq.
  - by rewrite list_lookup_insert_ne.
Qed.

Lemma same_insert {A C : Type} (f : A → C) (l : list (option A)) i a a' :
  slot_at l i = Some a → f a' = f a →
  fmap (M:=option) f <$> <[i:=Some a']> l = fmap (M:=option) f <$> l.
Proof.
  intros Ha Hf. rewrite list_fmap_insert. apply list_insert_id. cbn. rewrite Hf, list_lookup_fmap.
  unfold slot_at in Ha. destruct (l !! i) as [o|]; [|done]. cbn in *. by rewrite Ha.
Qed.

Lemma same_length {A C : Type} (f : A → C) (l l' : list (option A)) :
  fmap (M:=option) f <$> l' = fmap (M:=option) f <$> l → length l' = length l.
Proof. intros H%(f_equal length). by rewrite !length_fmap in H. Qed.

Lemma shapes_places comps comps' : shapes comps' = shapes comps → places comps' = places comps.
Proof.
  revert comps. induction comps' as [|o' comps' IH]; intros [|o comps]; [done..|]. intros [= Ho Hs].
  unfold places. rewrite !fmap_cons. f_equal; [|by apply IH]. destruct o, o'; [|done..]. cbn in Ho |- *.
  injection Ho as Hshape. unfold shape, place in *. congruence.
Qed.

Lemma find_slot_same comps comps' h :
  places comps' = places comps → is_Some (find_slot comps h) → is_Some (find_slot comps' h).
Proof.
  intros Hs [c Hc]. unfold find_slot in *. destruct (slot_at comps (ch_slot h)) as [c0|] eqn:H0; [|done].
  cbn in Hc. destruct (decide (cs_handle c0 = h)) as [Hh|]; [|done].
  destruct (slot_at_same place comps' comps (ch_slot h) c0) as (c1 & H1 & Heq); [done|done|].
  rewrite H1. cbn. unfold place in Heq. rewrite decide_True by congruence. done.
Qed.

Lemma find_slot_Some comps h c :
  find_slot comps h = Some c ↔ slot_at comps (ch_slot h) = Some c ∧ cs_handle c = h.
Proof.
  unfold find_slot. destruct (slot_at comps (ch_slot h)) as [c0|]; cbn; [|naive_solver].
  case_decide; naive_solver.
Qed.

Lemma owns_same counters counters' h j :
  counter_shapes counters' = counter_shapes counters → owns counters h j → owns counters' h j.
Proof.
  intros Hs (cn & Hcn & Hh).
  destruct (slot_at_same counter_shape counters' counters j cn) as (cn' & Hcn' & Heq); [done|done|].
  exists cn'. unfold counter_shape in Heq. split; [done|congruence].
Qed.

Lemma owned_same counters counters' h :
  counter_shapes counters' = counter_shapes counters → owned counters' h = owned counters h.
Proof.
  intros Hs. unfold owned. rewrite (same_length counter_shape _ _ Hs). apply list_filter_iff.
  intros j. split; by apply owns_same.
Qed.

Lemma chain_same counters counters' next ix :
  counter_shapes counters' = counter_shapes counters → chain counters next ix → chain counters' next ix.
Proof.
  intros Hs. revert next. induction ix as [|j ix IH]; intros next; [done|]. intros (-> & cn & Hcn & Hc).
  destruct (slot_at_same counter_shape counters' counters j cn) as (cn' & Hcn' & Heq); [done|done|].
  split; [done|]. exists cn'. split; [done|]. apply IH. unfold counter_shape in Heq. by injection Heq as _ -> _.
Qed.

(** The tables depend on the places only. *)
Lemma tables_same comps comps' counters counters' windows windows' exts g g' :
  tables_ok comps counters windows exts g →
  places comps' = places comps → counter_shapes counters' = counter_shapes counters →
  length windows' = length windows → (∀ k, is_Some (slot_at windows k) → is_Some (slot_at windows' k)) →
  (g ≤ g')%N → tables_ok comps' counters' windows' exts g'.
Proof.
  intros [T1 T2 T3 T4 T5 T6 T7] Hc Hn Hw Hw' Hg.
  assert (∀ i c', slot_at comps' i = Some c' → ∃ c, slot_at comps i = Some c ∧ place c = place c') as Hcc
    by (intros; by eapply slot_at_same).
  assert (∀ j n', slot_at counters' j = Some n' →
    ∃ n, slot_at counters j = Some n ∧ counter_shape n = counter_shape n') as Hnn
    by (intros; by eapply slot_at_same).
  unfold place, counter_shape in Hcc, Hnn. split.
  - intros i c' (c & Hi & [= <- _ _])%Hcc. destruct (T1 i c Hi) as [-> ?]. split; [done|lia].
  - intros i c' (c & Hi & [= <- <- _])%Hcc. rewrite (owned_same counters) by done.
    eapply chain_same; [done|]. by apply (T2 i c).
  - intros j n' (n & Hj & [= <- _ <-])%Hnn. destruct (T3 j n Hj) as [H1 H2].
    split; [by eapply find_slot_same|]. intros k g0 Hk%H2. lia.
  - intros j1 j2 n1' n2' (n1 & Hj1 & [= <- _ <-])%Hnn (n2 & Hj2 & [= <- _ <-])%Hnn. by apply T4.
  - intros i c' w (c & Hi & [= _ _ <-])%Hcc Hcw. destruct (T5 i c w Hi Hcw) as (? & ? & ? & Hk).
    split_and!; [done..|lia|]. intros k Hin. by apply Hw', Hk.
  - intros i1 i2 c1' c2' w1 w2 k (c1 & Hi1 & [= _ _ <-])%Hcc (c2 & Hi2 & [= _ _ <-])%Hcc.
    by apply T6.
  - intros k e Hk. destruct (T7 k e Hk) as (H1 & H2 & H3 & j & n & Hj & Hn1 & Hn2).
    split_and!; [by eapply find_slot_same|lia|done|].
    destruct (slot_at_same counter_shape counters' counters j n) as (n' & Hj' & [= H4 _ H5]); [done|done|].
    exists j, n'. split_and!; [done|congruence|congruence].
Qed.

Lemma history_same comps comps' events detail flight hs :
  history_ok comps events detail flight hs → places comps' = places comps →
  history_ok comps' events detail flight hs.
Proof.
  intros [H1 H2 H3] Hs. split; [done| |done]. eapply Forall_impl; [exact H2|]. intros [e o] [Hf Hp].
  split; [by eapply find_slot_same|done].
Qed.

Lemma component_bytes_same comps comps' :
  shapes comps' = shapes comps → component_bytes <$> comps' = component_bytes <$> comps.
Proof.
  revert comps. induction comps' as [|o' comps' IH]; intros [|o comps]; [done..|]. intros [= Ho Hs].
  rewrite !fmap_cons, (IH comps) by done. f_equal. destruct o, o'; [|done..]. cbn in Ho.
  injection Ho as Hshape. unfold shape in Hshape. unfold component_bytes. cbn. congruence.
Qed.

Lemma metadata_same comps comps' exts :
  shapes comps' = shapes comps → metadata_bytes_of comps' exts = metadata_bytes_of comps exts.
Proof. intros Hs. unfold metadata_bytes_of. by rewrite (component_bytes_same comps comps'). Qed.
