(* ===== verification/DiagHistory.v ===== *)
(** * Facts about the history

    Eviction, the rotation that drops the events of a component, and the
    retention of text: each keeps the invariant, never panics, and leaves
    the chains of the events that stay untouched. *)

From stdpp Require Import base numbers strings list.
From S2P Require Import Prelude Text Utf8 DetailPool DetailPoolFacts DiagCatalogue DiagTypes DiagState DiagInvariant.

(** ** Counts *)

Lemma count_add_exact c n : exact (count_add c n) → exact c ∧ dc_value (count_add c n) = (dc_value c + n)%N.
Proof. unfold count_add, exact. by destruct (_ <? _)%N. Qed.

Lemma loss_add_eq l k n : ls_count (loss_add l k n) k = count_add (ls_count l k) n.
Proof. cbn. by rewrite decide_True. Qed.

Lemma loss_add_ne l k k' n : k' ≠ k → ls_count (loss_add l k n) k' = ls_count l k'.
Proof. intros. cbn. by rewrite decide_False. Qed.

Lemma evidence_evict t l n :
  evidence_ok t l (S n) → evidence_ok (totals_evict t) (loss_add l EventsEvicted 1) n.
Proof.
  intros [H1 H2]. split; rewrite loss_add_eq; [by rewrite <-H1|].
  rewrite loss_add_ne by done. intros Hr [He ->]%count_add_exact Ho.
  change (dt_recorded_events (totals_evict t)) with (dt_recorded_events t). rewrite (H2 Hr He Ho). lia.
Qed.

Lemma evidence_omit t l n : evidence_ok t l (S n) → evidence_ok t (loss_add l EventsOmitted 1) n.
Proof.
  intros [H1 H2]. split; rewrite loss_add_ne by done; [done|]. rewrite loss_add_eq.
  intros Hr He [Ho ->]%count_add_exact. rewrite (H2 Hr He Ho). lia.
Qed.

Lemma evidence_note t l n k amount :
  k ≠ EventsEvicted → k ≠ EventsOmitted → evidence_ok t l n → evidence_ok t (loss_add l k amount) n.
Proof. intros Hk1 Hk2 [H1 H2]. split; rewrite !loss_add_ne by done; done. Qed.

Lemma evidence_record t l n outcome count :
  evidence_ok t l n → evidence_ok (totals_record t outcome count) l (S n).
Proof.
  intros [H1 H2]. split; [done|]. cbn [dt_recorded_events totals_record].
  intros [Hr ->]%count_add_exact He Ho. rewrite (H2 Hr He Ho). lia.
Qed.

Section History.
Context {B : Type} `{!CircularBuffer StoredObservation B, !CircularLaws StoredObservation B}.
Implicit Types s : State B.

(** The geometry of the pool, on which a plan depends, and its generation. *)
Definition geometry (p : DetailPool) : nat * nat * N :=
  (po_block_bytes p, length (po_blocks p), po_generation p).

(** What evictions leave alone. *)
Record keeps s s' : Prop := {
  kp_generation : st_generation s' = st_generation s;
  kp_sequence : st_sequence s' = st_sequence s;
  kp_counters : st_counters s' = st_counters s;
  kp_windows : st_windows s' = st_windows s;
  kp_extensions : st_extensions s' = st_extensions s;
  kp_metadata : st_metadata_used s' = st_metadata_used s;
  kp_shapes : shapes (st_components s') = shapes (st_components s);
  kp_statuses : statuses (st_components s') = statuses (st_components s);
  kp_tally : tally (lt_totals (st_lifetime s')) = tally (lt_totals (st_lifetime s));
}.

#[global] Instance keeps_refl : Reflexive keeps.
Proof. by split. Qed.

#[global] Instance keeps_trans : Transitive keeps.
Proof. intros s1 s2 s3 [] []. split; congruence. Qed.

Lemma update_component_wp i f c (Q : unit → State B → Prop) E s :
  slot_at (st_components s) i = Some c →
  Q tt (set_components s (<[i:=Some (f c)]> (st_components s))) → wp (update_component i f) Q E s.
Proof. intros Hc HQ. unfold update_component. wp_run. rewrite Hc. by wp_run. Qed.

Lemma update_counter_wp i f c (Q : unit → State B → Prop) E s :
  slot_at (st_counters s) i = Some c →
  Q tt (set_counters s (<[i:=Some (f c)]> (st_counters s))) → wp (update_counter i f) Q E s.
Proof. intros Hc HQ. unfold update_counter. wp_run. rewrite Hc. by wp_run. Qed.

(** The text of the event is the chain it holds. *)
Definition holds (he : Held) : Prop :=
  match rt_payload (so_text he.1), he.2 with
  | Some h, Some e => h = handle_of e
  | Some h, None => h = empty_handle
  | None, None => True
  | None, Some _ => False
  end.

(** The invariant follows the shapes. *)
Lemma store_mid_same limits x fl s s' hs :
  store_mid limits x fl s hs → keeps s s' → st_lifetime s' = st_lifetime s → st_loss s' = st_loss s →
  st_recent s' = st_recent s → st_detail s' = st_detail s → store_mid limits x fl s' hs.
Proof.
  intros [T H Me Bu Ev Ca Ck] [] El Eo Er Ed.
  split; rewrite ?kp_generation0, ?kp_counters0, ?kp_windows0, ?kp_extensions0, ?kp_metadata0, ?El, ?Eo, ?Er, ?Ed;
    try done.
  - by eapply tables_same; [|apply shapes_places|..].
  - by eapply history_same, shapes_places.
  - rewrite Me. symmetry. by apply metadata_same.
Qed.

Lemma release_payload_wp limits x fl s hs he :
  store_mid limits x (option_list he.2 ++ fl) s hs → holds he →
  wp (match rt_payload (so_text he.1) with
      | Some handle =>
          r ← gets (λ s, free (st_detail s) handle);
          '(_, detail) ← expect r;
          modify (λ s, set_detail s detail)
      | None => mret tt
      end)
    (λ _ s', store_mid limits x fl s' hs ∧ keeps s s' ∧ st_recent s' = st_recent s
             ∧ geometry (st_detail s') = geometry (st_detail s)) (λ _ _, False) s.
Proof.
  destruct he as [ev oe]. unfold holds. cbn [fst snd].
  intros [T [H1 H2 H3] Me Bu Ev Ca Ck] Hh. destruct (rt_payload (so_text ev)) as [h|], oe as [e|]; try done; cbn in *.
  - subst h. destruct (free_live _ _ _ H3) as (p' & Hf & [R1 R2 R3 R4 _]). wp_run. rewrite Hf. wp_run.
    split_and!; [by split|done|done|]. unfold geometry. cbn. congruence.
  - subst h. wp_run. cbn. by wp_run.
Qed.

Lemma evict_event_wp limits x fl s hs he :
  store_mid limits (S x) (option_list he.2 ++ fl) s hs → holds he →
  wp (evict_event he.1)
    (λ _ s', store_mid limits x fl s' hs ∧ keeps s s' ∧ st_recent s' = st_recent s
             ∧ geometry (st_detail s') = geometry (st_detail s)) (λ _ _, False) s.
Proof.
  intros Hs Hh. unfold evict_event. wp_run.
  assert (∀ s1, store_mid limits (S x) (option_list he.2 ++ fl) s1 hs → keeps s s1 → st_recent s1 = st_recent s →
    st_detail s1 = st_detail s →
    wp (modify (λ s, set_lifetime s (lifetime_evict (st_lifetime s)));; note EventsEvicted 1;;
        match rt_payload (so_text he.1) with
        | Some handle =>
            r ← gets (λ s, free (st_detail s) handle);
            '(_, detail) ← expect r;
            modify (λ s, set_detail s detail)
        | None => mret tt
        end)
      (λ _ s', store_mid limits x fl s' hs ∧ keeps s s' ∧ st_recent s' = st_recent s
             ∧ geometry (st_detail s') = geometry (st_detail s)) (λ _ _, False) s1) as Hrest.
  { intros s1 [T H Me Bu Ev Ca Ck] Hk Hr Hd. wp_run. eapply wp_mono.
    - eapply (release_payload_wp limits x fl); [|exact Hh]. split; try done. by apply evidence_evict.
    - intros _ s2 (? & ? & ? & ?). cbn in *. split_and!; [done| |congruence|congruence]. etrans; [exact Hk|].
      etrans; [|done]. by split.
    - done. }
  destruct (component s (so_component he.1)) as [c|] eqn:Hc; [|by apply Hrest].
  apply find_slot_Some in Hc as [Hc _]. eapply update_component_wp; [exact Hc|].
  assert (keeps s (set_components s (<[ch_slot (so_component he.1):=Some (evict_totals c)]> (st_components s)))) as Hk.
  { split; try done; by eapply same_insert. }
  apply Hrest; [|done|done|done]. by eapply store_mid_same.
Qed.

Lemma pop_front_wp limits x fl s he hs :
  store_mid limits x fl s (he :: hs) →
  wp pop_front
    (λ o s', o = Some he.1 ∧ store_mid limits (S x) (option_list he.2 ++ fl) s' hs ∧ keeps s s'
             ∧ st_detail s' = st_detail s) (λ _ _, False) s.
Proof.
  intros [T [H1 H2 H3] Me Bu Ev Ca Ck]. unfold pop_front, wp.
  destruct (cb_pop_items (st_recent s)) as (P1 & P2 & P3). destruct (cb_pop_front (st_recent s)) as [o r].
  cbn in P1, P2, P3. rewrite H1 in P1, P2. split_and!; [done| |done|done].
  apply Forall_cons in H2 as [_ H2]. replace (x + length (he :: hs)) with (S x + length hs) in Ev by (cbn; lia).
  split; cbn; rewrite ?P3; try done.
  split; [by rewrite P2|done|]. unfold held_entries in *.
  destruct he as [ev [e|]]; cbn in *; [|done]. by rewrite Permutation_middle.
Qed.

Lemma pop_front_empty_wp limits x fl s :
  store_mid limits x fl s [] →
  wp pop_front (λ o s', o = None ∧ store_mid limits x fl s' [] ∧ keeps s s' ∧ st_detail s' = st_detail s)
    (λ _ _, False) s.
Proof.
  intros [T [H1 H2 H3] Me Bu Ev Ca Ck]. unfold pop_front, wp.
  destruct (cb_pop_items (st_recent s)) as (P1 & P2 & P3). destruct (cb_pop_front (st_recent s)) as [o r].
  cbn in P1, P2, P3. rewrite H1 in P1, P2. split_and!; [done| |done|done]. split; cbn; rewrite ?P3; try done.
Qed.

Lemma held_holds comps he : held_ok comps he → holds he.
Proof. by intros (_ & H & _). Qed.

(** [evict_oldest] drops the front of the history. *)
Lemma evict_oldest_wp limits x fl s hs :
  store_mid limits x fl s hs →
  wp evict_oldest
    (λ b s', keeps s s' ∧ geometry (st_detail s') = geometry (st_detail s) ∧ match hs with
                          | [] => b = false ∧ store_mid limits x fl s' []
                          | _ :: hs' => b = true ∧ store_mid limits x fl s' hs'
                          end) (λ _ _, False) s.
Proof.
  intros Hs. unfold evict_oldest. apply wp_bind. destruct hs as [|he hs].
  - eapply wp_mono; [by eapply pop_front_empty_wp| |done]. cbn. intros o s' (-> & H & Hk & Hd). wp_run.
    by rewrite Hd.
  - pose proof (hi_held _ _ _ _ _ (sk_history _ _ _ _ _ Hs)) as Hh. apply Forall_cons in Hh as [Hh _].
    eapply wp_mono; [by eapply pop_front_wp| |done]. cbn. intros o s1 (-> & H & Hk & Hd). apply wp_bind.
    eapply wp_mono; [eapply evict_event_wp; [exact H|by eapply held_holds]| |done].
    cbn. intros _ s2 (H2 & Hk2 & _ & Hg). wp_run. split_and!; [by etrans|by rewrite Hg, Hd|done|done].
Qed.

(** [push_back] into a history with room. *)
Lemma push_room_wp limits x fl s hs he :
  store_mid limits (S x) (option_list he.2 ++ fl) s hs → held_ok (st_components s) he →
  length hs < N.to_nat (lm_max_events limits) →
  wp (push_back he.1) (λ o s', o = None ∧ store_mid limits x fl s' (hs ++ [he]) ∧ keeps s s') (λ _ _, False) s.
Proof.
  intros [T [H1 H2 H3] Me Bu Ev Ca Ck] Hh Hlt. unfold push_back, wp.
  destruct (cb_push_room (st_recent s) he.1) as (P1 & P2); [by rewrite H1, length_fmap, Ca|].
  pose proof (cb_push_capacity (st_recent s) he.1) as P3.
  destruct (cb_push_back he.1 (st_recent s)) as [o r]. cbn in P1, P2, P3. split_and!; [done| |done].
  replace (S x + length hs) with (x + length (hs ++ [he])) in Ev by (rewrite length_app; cbn; lia).
  split; cbn; rewrite ?P3; try done.
  split; [by rewrite P2, H1, fmap_app|by apply Forall_app; split; [|apply Forall_singleton]|].
  unfold held_entries in *. rewrite omap_app. destruct he as [ev [e|]]; cbn in *; [|by rewrite app_nil_r].
  by rewrite (assoc_L (++)), <-Permutation_cons_append.
Qed.

(** [push_back] into a full history hands back its front. *)
Lemma push_full_wp limits x fl s he0 hs he :
  store_mid limits (S x) (option_list he.2 ++ fl) s (he0 :: hs) → held_ok (st_components s) he →
  length (he0 :: hs) = N.to_nat (lm_max_events limits) →
  wp (push_back he.1)
    (λ o s', o = Some he0.1 ∧ store_mid limits (S x) (option_list he0.2 ++ fl) s' (hs ++ [he]) ∧ keeps s s')
    (λ _ _, False) s.
Proof.
  intros [T [H1 H2 H3] Me Bu Ev Ca Ck] Hh Hlen. unfold push_back, wp.
  destruct (cb_push_full (st_recent s) he.1 he0.1 hs.*1) as (P1 & P2);
    [by rewrite H1, length_fmap, Ca|by rewrite H1|].
  pose proof (cb_push_capacity (st_recent s) he.1) as P3.
  destruct (cb_push_back he.1 (st_recent s)) as [o r]. cbn in P1, P2, P3. split_and!; [done| |done].
  apply Forall_cons in H2 as [H0 H2].
  replace (S x + length (he0 :: hs)) with (S x + length (hs ++ [he])) in Ev by (rewrite length_app; cbn; lia).
  split; cbn; rewrite ?P3; try done.
  split; [by rewrite P2, fmap_app|by apply Forall_app; split; [|apply Forall_singleton]|].
  unfold held_entries in *. rewrite omap_app.
  eapply pool_ok_Proper; [|exact H3].
  destruct he as [ev [e|]], he0 as [ev0 [e0|]]; cbn; solve_Permutation.
Qed.

(** ** Retention of text *)

(** The chain that holds a payload, or none for an empty text. *)
Definition stored (oe : option Entry) (h : DetailHandle) (text : string) : Prop :=
  match oe with
  | Some e => h = handle_of e ∧ entry_text e = text
  | None => h = empty_handle ∧ text = EmptyString
  end.

Lemma stored_view p oe es h text :
  pool_ok p (option_list oe ++ es) → stored oe h text → view p h = Some text.
Proof.
  intros Hp. destruct oe as [e|]; cbn; [intros [-> <-]|by intros [-> ->]].
  apply (live_resolves p (e :: es)); [done|by left].
Qed.

Lemma plan_of_geometry p p' parts plan :
  plan_of p parts plan → po_block_bytes p' = po_block_bytes p → plan_of p' parts plan.
Proof. intros [P1 P2 P3 P4] Hb. split; rewrite ?Hb; done. Qed.

(** Freeing history makes room for any plan the pool admitted. *)
Lemma allocate_text_wp limits x fuel plan parts s hs :
  store_mid limits x [] s hs → plan_of (st_detail s) parts plan →
  dp_needed plan = 0 ∨ po_generation (st_detail s) ≠ max_u64 ∧ dp_needed plan ≤ length (po_blocks (st_detail s)) →
  length hs < fuel →
  wp (allocate_text fuel plan)
    (λ o s', ∃ dropped hs' oe h, o = Some h ∧ hs = dropped ++ hs' ∧ keeps s s'
      ∧ store_mid limits x (option_list oe) s' hs' ∧ stored oe h (text_of parts)) (λ _ _, False) s.
Proof.
  revert s hs. induction fuel as [|fuel IH]; intros s hs Hs Hpl Hadm Hf; [lia|]. cbn [allocate_text].
  pose proof (hi_pool _ _ _ _ _ (sk_history _ _ _ _ _ Hs)) as Hpool. cbn [app] in Hpool.
  destruct (allocate_plan_cases _ _ _ _ Hpool Hpl)
    as [[Hlt Hc]|[(H0 & Ht & Hc)|[(Hpos & Hg & Hc)|(Hle & e & p1 & Hc & Hal)]]]; wp_run; rewrite Hc; wp_run.
  - destruct (pool_accounting _ _ Hpool) as (_ & _ & Hfree).
    destruct hs as [|he hs]; [cbn in Hfree; lia|]. eapply wp_mono; [eapply evict_oldest_wp| |done].
    + eapply (store_mid_same _ _ _ s); [exact Hs|by split|done..].
    + cbn. intros b s1 (Hk & Hgeo & -> & Hs1). unfold geometry in Hgeo. cbn in Hgeo. injection Hgeo as G1 G2 G3.
      eapply wp_mono; [apply (IH s1 hs)| |done].
      * done.
      * by eapply plan_of_geometry.
      * by rewrite G2, G3.
      * cbn in Hf. lia.
      * cbn. intros o s2 (dropped & hs' & oe & h & -> & -> & Hk2 & Hs2 & Hst).
        exists (he :: dropped), hs', oe, h. split_and!; try done. etrans; [|exact Hk2]. etrans; [|exact Hk]. by split.
  - exists [], hs, None, empty_handle. split_and!; try done.
    eapply (store_mid_same _ _ _ s); [exact Hs|by split|done..].
  - lia.
  - exists [], hs, (Some e), (handle_of e). split_and!; try done; [|split; [done|apply Hal]].
    destruct Hs as [T [H1 H2 H3] Me Bu Ev Ca Ck]. split; try done. split; [done|done|apply Hal].
Qed.

(** A field of the retained text. *)
Definition text_at (text : string) (r : option TextRange) : option string :=
  (λ r, str_take (N.to_nat (tr_len r)) (str_drop (N.to_nat (tr_start r)) text)) <$> r.

Lemma str_drop_prefix u v : str_drop (String.length u) (u +:+ v) = v.
Proof. rewrite str_drop_app by done. rewrite Nat.sub_diag. by destruct v. Qed.

Lemma str_take_prefix u v : str_take (String.length u) (u +:+ v) = u.
Proof. rewrite str_take_app by done. rewrite Nat.sub_diag. cbn. by rewrite append_nil_r. Qed.

Lemma text_at_part parts j v :
  parts !! j = Some v →
  text_at (text_of parts) (Some {| tr_start := slen (text_of (take j parts)); tr_len := slen v |}) = Some v.
Proof.
  intros Hj. unfold text_at. cbn [fmap option_fmap option_map tr_len tr_start]. unfold slen. rewrite !Nat2N.id.
  rewrite <-(take_drop_middle parts j v Hj) at 2. rewrite text_of_app, text_of_cons.
  by rewrite str_drop_prefix, str_take_prefix.
Qed.

(** The selection of fields so far: each admitted field has its range in the
    text of the selected parts, and the plan is the one for these parts. *)
Record selection (p : DetailPool) (fields : list (option string)) (index : nat) (selected : list string)
    (ranges : list (option TextRange)) (plan : option DetailPlan) (len : N) : Prop := {
  sl_length : length selected = length fields ∧ length ranges = length fields;
  sl_done : ∀ j r, ranges !! j = Some (Some r) →
    ∃ v, fields !! j = Some (Some v) ∧ selected !! j = Some v
      ∧ r = {| tr_start := slen (text_of (take j selected)); tr_len := slen v |};
  sl_rest : ∀ j, index ≤ j → j < length fields → selected !! j = Some ""%string ∧ ranges !! j = Some None;
  sl_len : len = slen (text_of selected);
  sl_text : Forall (λ v, utf8_valid v = true) selected;
  sl_plan : match plan with
            | Some pl => plan_parts p selected = Some pl
            | None => Forall (λ r, r = None) ranges
            end;
}.

Lemma text_of_empty parts :
  (∀ v, v ∈ parts → v = EmptyString) → text_of parts = EmptyString.
Proof.
  induction parts as [|v parts IH]; intros He; [done|]. rewrite text_of_cons, (He v) by (by left).
  rewrite append_nil_l. apply IH. intros u Hu. apply He. by right.
Qed.

Lemma selection_step p fields index selected ranges plan len v pl :
  selection p fields index selected ranges plan len → fields !! index = Some (Some v) → utf8_valid v = true →
  plan_parts p (<[index:=v]> selected) = Some pl →
  selection p fields (S index) (<[index:=v]> selected)
    (<[index:=Some {| tr_start := len; tr_len := slen v |}]> ranges) (Some pl) (len + slen v).
Proof.
  intros [[L1 L2] D R L T P] Hv Hu Hpl. pose proof (lookup_lt_Some _ _ _ Hv) as Hlt.
  destruct (R index) as [Hold _]; [done..|].
  assert (text_of (drop (S index) selected) = EmptyString) as Htail.
  { apply text_of_empty. intros u (j & Hj)%list_elem_of_lookup. rewrite lookup_drop in Hj.
    destruct (R (S index + j)) as [Hs _]; [lia|rewrite <-L1; by eapply lookup_lt_Some|]. congruence. }
  assert (text_of selected = text_of (take index selected)) as Hpre.
  { rewrite <-(take_drop_middle selected index _ Hold) at 1.
    by rewrite text_of_app, text_of_cons, append_nil_l, Htail, append_nil_r. }
  split.
  - by rewrite !length_insert.
  - intros j r Hj. destruct (decide (j = index)) as [->|Hne].
    + rewrite list_lookup_insert_eq in Hj by lia. injection Hj as <-. exists v.
      rewrite list_lookup_insert_eq by lia. split_and!; [done..|]. rewrite take_insert_ge by lia.
      by rewrite L, Hpre.
    + rewrite list_lookup_insert_ne in Hj by done. destruct (D j r Hj) as (u & Hf & Hs & ->). exists u.
      rewrite list_lookup_insert_ne by done. split_and!; [done..|]. do 2 f_equal.
      destruct (decide (j < index)); [by rewrite take_insert_ge by lia|].
      destruct (R j) as [_ Hr]; [lia|by eapply lookup_lt_Some|congruence].
  - intros j Hj Hj'. rewrite !list_lookup_insert_ne by lia. apply R; lia.
  - rewrite (insert_take_drop selected index v) by lia.
    rewrite text_of_app, text_of_cons, Htail, append_nil_r, L, Hpre. unfold slen. rewrite append_length. lia.
  - by apply Forall_insert.
  - done.
Qed.

Lemma selection_skip p fields index selected ranges plan len :
  selection p fields index selected ranges plan len → selection p fields (S index) selected ranges plan len.
Proof. intros [L D R N T P]. split; try done. intros j Hj. apply R. lia. Qed.

Lemma select_fields_spec p all fields index selected ranges plan len ranges' plan' :
  all = take index all ++ fields → index ≤ length all →
  Forall (λ f, ∀ v, f = Some v → utf8_valid v = true) all →
  selection p all index selected ranges plan len →
  select_fields p index fields selected ranges plan len = (ranges', plan') →
  ∃ selected' len', selection p all (length all) selected' ranges' plan' len'.
Proof.
  revert index selected ranges plan len. induction fields as [|f fields IH];
    intros index selected ranges plan len Hall Hle Hu Hs Hsel.
  { cbn in Hsel. injection Hsel as <- <-. exists selected, len. apply (f_equal length) in Hall.
    rewrite app_nil_r, length_take in Hall. replace (length all) with index by lia. done. }
  assert (all !! index = Some f) as Hf.
  { rewrite Hall, lookup_app_r; rewrite length_take; [|lia]. by rewrite Nat.min_l, Nat.sub_diag by lia. }
  pose proof (lookup_lt_Some _ _ _ Hf) as Hlt.
  assert (all = take (S index) all ++ fields) as Hall'.
  { rewrite (take_S_r _ _ _ Hf), <-app_assoc. cbn. exact Hall. }
  cbn in Hsel. destruct f as [v|]; [|by eapply IH; [..|by eapply selection_skip|exact Hsel]].
  destruct (_ || _); [by eapply IH; [..|by eapply selection_skip|exact Hsel]|].
  destruct (plan_parts p (<[index:=v]> selected)) as [pl|] eqn:Hpl;
    [|by eapply IH; [..|by eapply selection_skip|exact Hsel]].
  eapply IH; [done|lia|done| |exact Hsel]. eapply selection_step; [done|done| |done].
  rewrite Forall_lookup in Hu. by eapply Hu.
Qed.

Definition keeps_field (text : string) (r : option TextRange) (v : option string) : Prop :=
  match r with
  | None => True
  | Some r => (tr_start r + tr_len r ≤ slen text)%N ∧ text_at text (Some r) = v
  end.

(** The retained text of an event: every field it has a range for reads back
    the value of that field. *)
Definition retained (rt : RetainedText) (oe : option Entry) (detail session request : option string) : Prop :=
  match rt_payload rt with
  | None => oe = None ∧ rt = no_text
  | Some h =>
      ∃ text, stored oe h text ∧ keeps_field text (rt_detail rt) detail
        ∧ keeps_field text (rt_session_id rt) session ∧ keeps_field text (rt_request_id rt) request
  end.

(** *** Which fields are retained *)

(** The blocks a text takes, and whether the pool admits a text of that many:
    its generations are not used up and the blocks exist.  What is stored at
    the moment does not matter, for history makes room. *)
Definition blocks_needed (p : DetailPool) (parts : list string) : nat :=
  length (filter (λ item, item.2 = true) (text_chunks parts (po_block_bytes p))).

Definition fits (p : DetailPool) (parts : list string) : bool :=
  (blocks_needed p parts =? 0)
  || (negb (po_generation p =? max_u64)%N && (blocks_needed p parts <=? length (po_blocks p))).

(** A field is retained when it fits next to the fields before it. *)
Definition admitted (p : DetailPool) (before : list (option string)) (v : option string) (after : nat) :
    option string :=
  v ← v;
  if fits p ((default EmptyString <$> before) ++ v :: replicate after EmptyString) then Some v else None.

Definition retained_texts (p : DetailPool) (detail session request : option string) :
    option string * option string * option string :=
  let d := admitted p [] detail 2 in
  let s := admitted p [d] session 1 in
  (d, s, admitted p [d; s] request 0).

Lemma plan_parts_fits p parts :
  fits p parts = match plan_parts p parts with Some _ => true | None => false end.
Proof.
  unfold plan_parts, fits, blocks_needed. rewrite length_take.
  set (n := length (filter _ _)). set (l := length (po_blocks p)).
  assert ((min (S l) n =? 0) = (n =? 0)) as -> by (destruct (Nat.eqb_spec n 0), (Nat.eqb_spec (min (S l) n) 0); lia).
  assert ((min (S l) n <=? l) = (n <=? l)) as -> by (destruct (Nat.leb_spec n l), (Nat.leb_spec (min (S l) n) l); lia).
  by destruct (_ || _).
Qed.

(** The value of a field that has a range. *)
Definition chosen (r : option TextRange) (v : option string) : option string :=
  match r with Some _ => v | None => None end.

Definition opt_len (v : option string) : N := from_option slen 0%N v.

Definition chosen_texts (rt : RetainedText) (detail session request : option string) :
    option string * option string * option string :=
  (chosen (rt_detail rt) detail, chosen (rt_session_id rt) session, chosen (rt_request_id rt) request).

Lemma slen_within a b n : (b + a ≤ n)%N → (n <? a)%N || (n <? b + a)%N = false.
Proof. intros. apply orb_false_iff. split; apply N.ltb_ge; lia. Qed.

Lemma select_fields_texts p detail session request ranges plan payload :
  (opt_len detail + opt_len session + opt_len request ≤ u16_max)%N →
  select_fields p 0 [detail; session; request] ["";"";""]%string [None; None; None] None 0 = (ranges, plan) →
  chosen_texts {| rt_payload := payload; rt_detail := slot_at ranges 0; rt_session_id := slot_at ranges 1;
                  rt_request_id := slot_at ranges 2 |} detail session request
  = retained_texts p detail session request.
Proof.
  unfold retained_texts, admitted, chosen_texts. intros Hlen. cbn [select_fields].
  destruct detail as [d|], session as [s|], request as [r|];
    cbn [opt_len from_option mbind option_bind default fmap list_fmap app replicate list_insert insert] in *;
    rewrite ?plan_parts_fits, ?slen_within by lia;
    repeat first
      [ progress cbn [mbind option_bind default fmap list_fmap app replicate list_insert insert from_option id]
      | rewrite plan_parts_fits | rewrite slen_within by lia
      | match goal with |- context [plan_parts p ?l] => destruct (plan_parts p l) end ];
    by intros [= <- _].
Qed.

Lemma selection_field p fields index selected ranges plan len j v :
  selection p fields index selected ranges plan len → fields !! j = Some v →
  keeps_field (text_of selected) (slot_at ranges j) v.
Proof.
  intros [L D R N T P] Hv. unfold keeps_field, slot_at. destruct (ranges !! j) as [[r|]|] eqn:Hr; cbn [mbind option_bind id]; [|done..].
  destruct (D j r Hr) as (u & Hu & Hs & ->). rewrite Hv in Hu. injection Hu as ->. split; [|by apply text_at_part].
  cbn [tr_start tr_len]. unfold slen. rewrite <-(take_drop_middle selected j u Hs) at 2.
  rewrite text_of_app, text_of_cons, !append_length. lia.
Qed.

Lemma retain_event_text_wp limits x s hs detail session request :
  store_mid limits x [] s hs →
  Forall (λ f, ∀ v, f = Some v → utf8_valid v = true) [detail; session; request] →
  (opt_len detail + opt_len session + opt_len request ≤ u16_max)%N →
  wp (retain_event_text detail session request)
    (λ rt s', ∃ dropped hs' oe, hs = dropped ++ hs' ∧ keeps s s'
      ∧ store_mid limits x (option_list oe) s' hs' ∧ retained rt oe detail session request
      ∧ chosen_texts rt detail session request = retained_texts (st_detail s) detail session request)
    (λ _ _, False) s.
Proof.
  intros Hs Hu Hlen. unfold retain_event_text. wp_run.
  destruct (select_fields _ _ _ _ _ _ _) as [ranges plan] eqn:Hsel.
  pose proof (λ payload, select_fields_texts _ _ _ _ _ _ payload Hlen Hsel) as Htexts.
  destruct (select_fields_spec (st_detail s) [detail; session; request] [detail; session; request] 0
    ["";"";""]%string [None; None; None] None 0 ranges plan) as (selected & len & Hselection);
    [done|cbn; lia|done| |done|].
  { split; try done; [| |by repeat constructor|by repeat constructor].
    - by intros [|[|[|j]]] r.
    - intros [|[|[|j]]] _ Hj; [done..|cbn in Hj; lia]. }
  destruct (forallb _ ranges) eqn:Hall.
  { wp_run. exists [], hs, None. split_and!; [done..|]. rewrite <-(Htexts None).
    assert (∀ j, slot_at ranges j = None) as Hno.
    { intros j. unfold slot_at. destruct (ranges !! j) as [[r|]|] eqn:Hj; [|done..]. exfalso.
      rewrite forallb_forall in Hall. by specialize (Hall (Some r) (proj1 (list_elem_of_In _ _) (list_elem_of_lookup_2 _ _ _ Hj))). }
    unfold chosen_texts. cbn [rt_detail rt_session_id rt_request_id no_text]. by rewrite !Hno. }
  destruct plan as [pl|].
  2:{ exfalso. apply not_true_iff_false in Hall. apply Hall, forallb_forall. intros r Hr.
      pose proof (sl_plan _ _ _ _ _ _ _ Hselection) as HF. cbn in HF. rewrite Forall_forall in HF.
      apply list_elem_of_In in Hr. by rewrite (HF r Hr). }
  pose proof (plan_parts_of (st_detail s) selected pl (sl_text _ _ _ _ _ _ _ Hselection)
    (sl_plan _ _ _ _ _ _ _ Hselection)) as [Hplan Hadm].
  wp_run. eapply wp_mono.
  - eapply allocate_text_wp; [exact Hs|exact Hplan|done|].
    rewrite cb_len_items, (hi_events _ _ _ _ _ (sk_history _ _ _ _ _ Hs)), length_fmap. apply Nat.lt_succ_diag_r.
  - cbn. intros o s' (dropped & hs' & oe & h & -> & -> & Hk & Hs' & Hst). wp_run.
    exists dropped, hs', oe. split_and!; [done..| |apply Htexts].
    exists (text_of selected). cbn [rt_detail rt_session_id rt_request_id].
    split_and!; [done| | |]; by eapply selection_field.
  - done.
Qed.

(** ** Rotation *)

Lemma history_room limits x fl s hs :
  store_mid limits x fl s hs → length hs ≤ N.to_nat (lm_max_events limits).
Proof.
  intros [_ [H1 _ _] _ _ _ Ca _]. rewrite <-Ca. pose proof (cb_items_bound (st_recent s)) as Hb.
  by rewrite H1, length_fmap in Hb.
Qed.

(** The rotation of [reclaim_component] drops the events of the component and
    keeps the others in their order. *)
Lemma rotate_history_wp limits x fl s todo kept handle :
  store_mid limits x fl s (todo ++ kept) →
  wp (rotate_history (length todo) handle)
    (λ _ s', keeps s s'
      ∧ store_mid limits x fl s' (kept ++ filter (λ he : Held, so_component he.1 ≠ handle) todo)) (λ _ _, False) s.
Proof.
  revert s kept. induction todo as [|he todo IH]; intros s kept Hs; cbn [length rotate_history].
  { wp_run. by rewrite app_nil_r. }
  pose proof (hi_held _ _ _ _ _ (sk_history _ _ _ _ _ Hs)) as Hh. apply Forall_cons in Hh as [Hh _].
  pose proof (history_room _ _ _ _ _ Hs) as Hroom. apply wp_bind.
  eapply wp_mono; [eapply pop_front_wp; exact Hs| |done]. cbv beta. intros o s1 (-> & Hs1 & Hk1 & _). wp_run.
  rewrite filter_cons. destruct (decide (so_component he.1 = handle)) as [Heq|Hne].
  - rewrite decide_False by tauto. eapply wp_mono; [eapply evict_event_wp; [exact Hs1|by eapply held_holds]| |done].
    cbv beta. intros _ s2 (Hs2 & Hk2 & _). eapply wp_mono; [by apply IH| |done].
    cbv beta. intros _ s3 [Hk3 Hs3]. split; [|done]. etrans; [exact Hk1|]. by etrans.
  - rewrite decide_True by done. wp_run. eapply wp_mono; [eapply push_room_wp; [exact Hs1| |exact Hroom]| |done].
    { destruct Hh as [Hf Hp]. split; [|done]. eapply find_slot_same; [apply shapes_places, Hk1|done]. }
    cbv beta. intros o s2 (-> & Hs2 & Hk2). wp_run. rewrite <-app_assoc in Hs2.
    eapply wp_mono; [apply IH; exact Hs2| |done].
    cbv beta. intros _ s3 [Hk3 Hs3]. split; [etrans; [exact Hk1|]; by etrans|]. by rewrite <-app_assoc in Hs3.
Qed.
End History.
