(* ===== verification/DiagTables.v ===== *)
(** * Facts about the tables

    Reclaiming a component, reserving its counters and windows, and linking
    the counter of an extension, on the tables alone: each step keeps the
    tables consistent, so that the chain of a component is exactly the list
    of its counters in the order of the pool. *)

From stdpp Require Import base numbers strings list.
From S2P Require Import Prelude Text Utf8 DetailPool DetailPoolFacts DiagCatalogue DiagTypes DiagState DiagLifecycle DiagInvariant DiagHistory.

(** ** Releasing counters *)

Definition clear {A : Type} (ix : list nat) (l : list (option A)) : list (option A) :=
  foldl (λ l j, <[j:=None]> l) l ix.

Lemma clear_cons {A} j ix (l : list (option A)) : clear (j :: ix) l = clear ix (<[j:=None]> l).
Proof. done. Qed.

Lemma length_clear {A} ix (l : list (option A)) : length (clear ix l) = length l.
Proof. revert l. induction ix as [|j ix IH]; intros l; [done|]. by rewrite clear_cons, IH, length_insert. Qed.

Lemma slot_at_insert_None {A} (l : list (option A)) i j :
  slot_at (<[i:=None]> l) j = if decide (j = i) then None else slot_at l j.
Proof.
  destruct (decide (i < length l)) as [Hlt|Hge]; [by apply slot_at_insert|].
  rewrite list_insert_ge by lia. case_decide; [|done]. subst. unfold slot_at.
  by rewrite lookup_ge_None_2 by lia.
Qed.

Lemma slot_at_clear {A} ix (l : list (option A)) j :
  slot_at (clear ix l) j = if decide (j ∈ ix) then None else slot_at l j.
Proof.
  revert l. induction ix as [|i ix IH]; intros l; [done|]. rewrite clear_cons, IH.
  rewrite slot_at_insert_None. destruct (decide (j ∈ ix)).
  - rewrite decide_True; [done|by right].
  - destruct (decide (j = i)) as [->|]; [by rewrite decide_True by (by left)|].
    rewrite decide_False; [done|]. rewrite elem_of_cons. tauto.
Qed.

(** A chain depends on the slots it visits. *)
Lemma chain_agree counters counters' next ix :
  (∀ j, j ∈ ix → slot_at counters' j = slot_at counters j) → chain counters next ix → chain counters' next ix.
Proof.
  revert next. induction ix as [|j ix IH]; intros next Hj; [done|]. intros (-> & cn & Hcn & Hc).
  split; [done|]. exists cn. rewrite Hj by (by left). split; [done|]. apply IH; [|done].
  intros k Hk. apply Hj. by right.
Qed.

Lemma owned_elem counters h j : j ∈ owned counters h ↔ owns counters h j.
Proof.
  unfold owned. rewrite list_elem_of_filter, elem_of_seq. split; [tauto|]. intros Ho. split; [done|].
  destruct Ho as (cn & Hcn & _). apply slot_at_lt in Hcn. lia.
Qed.

Lemma owned_NoDup counters h : NoDup (owned counters h).
Proof. apply NoDup_filter, NoDup_seq. Qed.

Lemma owned_short counters h : length (owned counters h) ≤ length counters.
Proof. unfold owned. rewrite length_filter. by rewrite length_seq. Qed.

(** The owned list depends on who owns each slot. *)
Lemma owned_agree counters counters' h :
  length counters' = length counters → (∀ j, owns counters' h j ↔ owns counters h j) →
  owned counters' h = owned counters h.
Proof. intros Hl Ho. unfold owned. rewrite Hl. by apply list_filter_iff. Qed.

Section Release.
Context {B : Type} `{!CircularBuffer StoredObservation B}.

Lemma release_counters_wp fuel next ix (s : State B) E :
  chain (st_counters s) next ix → NoDup ix → length ix ≤ fuel →
  wp (release_counters fuel next) (λ _ s', s' = set_counters s (clear ix (st_counters s))) E s.
Proof.
  revert next ix s. induction fuel as [|fuel IH]; intros next ix s Hc Hnd Hf.
  - destruct ix; [|cbn in Hf; lia]. cbn in Hc. subst. by destruct s.
  - destruct ix as [|j ix]; [cbn in Hc; subst; by destruct s|].
    destruct Hc as (-> & cn & Hcn & Hc). apply NoDup_cons in Hnd as [Hj Hnd].
    cbn [release_counters]. wp_run. rewrite Hcn. wp_run. eapply wp_mono; [apply (IH _ ix)| |done].
    + cbn. eapply chain_agree; [|exact Hc]. intros k Hk. rewrite slot_at_insert_None, decide_False; [done|].
      by intros ->.
    + done.
    + cbn in Hf. lia.
    + cbv beta. by intros _ s' ->.
Qed.
End Release.

(** ** Removing a component *)

Definition clear_range {A : Type} (w : WindowReservation) (l : list (option A)) : list (option A) :=
  take (wr_start w) l ++ replicate (wr_len w) None ++ drop (wr_start w + wr_len w) l.

Lemma slot_at_range {A} (w : WindowReservation) (o : option A) l k :
  wr_start w + wr_len w ≤ length l →
  slot_at (take (wr_start w) l ++ replicate (wr_len w) o ++ drop (wr_start w + wr_len w) l) k
  = if decide (in_window w k) then o else slot_at l k.
Proof.
  intros Hl. unfold slot_at, in_window. case_decide as Hk.
  - rewrite lookup_app_r; rewrite length_take; [|lia].
    rewrite lookup_app_l by (rewrite length_replicate; lia). by rewrite lookup_replicate_2 by lia.
  - destruct (decide (k < wr_start w)).
    + rewrite lookup_app_l by (rewrite length_take; lia). by rewrite lookup_take_lt.
    + rewrite lookup_app_r; rewrite length_take; [|lia].
      rewrite lookup_app_r; rewrite length_replicate; [|lia]. rewrite lookup_drop. do 2 f_equal. lia.
Qed.

Lemma length_range {A} (w : WindowReservation) (o : option A) l :
  wr_start w + wr_len w ≤ length l →
  length (take (wr_start w) l ++ replicate (wr_len w) o ++ drop (wr_start w + wr_len w) l) = length l.
Proof. intros. rewrite !length_app, length_take, length_replicate, length_drop. lia. Qed.

Lemma find_slot_remove comps i c h :
  slot_at comps i = Some c → h ≠ cs_handle c →
  find_slot (<[i:=None]> comps) h = find_slot comps h.
Proof.
  intros Hi Hh. unfold find_slot. rewrite slot_at_insert_None. case_decide as Hs; [|done].
  rewrite Hs, Hi. cbn. by rewrite decide_False.
Qed.

(** The tables without a component, its counters, windows and extensions. *)
Lemma tables_remove comps counters windows windows' exts exts' g i c :
  tables_ok comps counters windows exts g → slot_at comps i = Some c →
  length windows' = length windows →
  (∀ k, (∀ w, cs_window c = Some w → ¬ in_window w k) → slot_at windows' k = slot_at windows k) →
  (∀ k e, slot_at exts' k = Some e → slot_at exts k = Some e ∧ es_component e ≠ cs_handle c) →
  tables_ok (<[i:=None]> comps) (clear (owned counters (cs_handle c)) counters) windows' exts' g.
Proof.
  intros [T1 T2 T3 T4 T5 T6 T7] Hi Hlw Hw He. set (h := cs_handle c) in *.
  assert (∀ i' c', slot_at (<[i:=None]> comps) i' = Some c' → slot_at comps i' = Some c' ∧ i' ≠ i) as Hcomp.
  { intros i' c'. rewrite slot_at_insert_None. by case_decide. }
  assert (∀ i' c', slot_at (<[i:=None]> comps) i' = Some c' → cs_handle c' ≠ h) as Hne.
  { intros i' c' [Hc' Hn]%Hcomp Heq. destruct (T1 i' c' Hc') as [H1 _], (T1 i c Hi) as [H2 _]. unfold h in Heq.
    congruence. }
  assert (∀ j cn, slot_at (clear (owned counters h) counters) j = Some cn ↔
    slot_at counters j = Some cn ∧ cn_component cn ≠ h) as Hcn.
  { intros j cn. rewrite slot_at_clear. destruct (decide (j ∈ owned counters h)) as [Ho|Ho].
    - apply owned_elem in Ho as (cn' & Hcn' & Hh). split; [done|]. intros [Hj Hd]. congruence.
    - rewrite owned_elem in Ho. split; [|tauto]. intros Hj. split; [done|]. intros Hh. apply Ho. by exists cn. }
  assert (∀ h' j, h' ≠ h → owns (clear (owned counters h) counters) h' j ↔ owns counters h' j) as Hown.
  { intros h' j Hh'. unfold owns. setoid_rewrite Hcn. naive_solver. }
  split.
  - intros i' c' [Hc' _]%Hcomp. by apply T1.
  - intros i' c' Hc'. pose proof (Hne i' c' Hc') as Hh. apply Hcomp in Hc' as [Hc' _].
    rewrite (owned_agree counters (clear (owned counters h) counters)) by (rewrite ?length_clear; auto).
    eapply chain_agree; [|by eapply T2]. intros j Hj%owned_elem. rewrite slot_at_clear, decide_False; [done|].
    rewrite owned_elem. destruct Hj as (cn & Hj & Hcc). intros (cn' & Hj' & Hcc'). congruence.
  - intros j cn [Hj Hd]%Hcn. destruct (T3 j cn Hj) as [Hf Hg]. split; [|done].
    by rewrite (find_slot_remove comps i c).
  - intros j1 j2 cn1 cn2 [H1 _]%Hcn [H2 _]%Hcn. by eapply T4.
  - intros i' c' w [Hc' Hn]%Hcomp Hcw. destruct (T5 i' c' w Hc' Hcw) as (? & ? & ? & Hk).
    split_and!; [done..|lia|]. intros k Hin. rewrite Hw; [by apply Hk|]. intros w' Hw' Hin'.
    by destruct (Hn (T6 i' i c' c w w' k Hc' Hi Hcw Hw' Hin Hin')).
  - intros i1 i2 c1 c2 w1 w2 k [H1 _]%Hcomp [H2 _]%Hcomp. by eapply T6.
  - intros k e [Hk Hd]%He. destruct (T7 k e Hk) as (Hf & Hg & Hl & j & cn & Hj & Hc1 & Hc2).
    split_and!; [by rewrite (find_slot_remove comps i c)|done|done|].
    exists j, cn. split_and!; [|done|done]. apply Hcn. split; [done|congruence].
Qed.
