(* ===== verification/DiagReclaim.v ===== *)
(** * Reclaiming components

    [reclaim_component], [evict_closed_component] and the admission loop:
    they keep the invariant, terminate, drop only closed components with
    their events, and leave open components and their extensions alone. *)

From stdpp Require Import base numbers strings list.
From S2P Require Import Prelude Text Utf8 DetailPool DetailPoolFacts DiagCatalogue DiagTypes DiagState DiagLifecycle DiagInvariant DiagHistory DiagTables.

(** ** Sums over tables *)

Lemma sum_N_cons n l : sum_N (n :: l) = (n + sum_N l)%N.
Proof. done. Qed.

Lemma sum_N_remove {A : Type} (f : option A → N) (l : list (option A)) i a :
  f None = 0%N → slot_at l i = Some a → sum_N (f <$> l) = (f (Some a) + sum_N (f <$> <[i:=None]> l))%N.
Proof.
  intros Hf. unfold slot_at. revert i. induction l as [|o l IH]; intros [|i]; [done..| |]; cbn [lookup list_lookup].
  - cbn [mbind option_bind id]. intros ->. cbn [insert list_insert]. rewrite !fmap_cons, !sum_N_cons, Hf. lia.
  - intros Hi. change (<[S i:=None]> (o :: l)) with (o :: <[i:=None]> l).
    rewrite !fmap_cons, !sum_N_cons. rewrite (IH i Hi). lia.
Qed.

Lemma sum_N_add {A : Type} (f : option A → N) (l : list (option A)) i a :
  f None = 0%N → l !! i = Some None → sum_N (f <$> <[i:=Some a]> l) = (f (Some a) + sum_N (f <$> l))%N.
Proof.
  intros Hf Hi. rewrite (sum_N_remove f (<[i:=Some a]> l) i a); [|done|].
  - rewrite list_insert_insert_eq. by rewrite (list_insert_id l i None).
  - unfold slot_at. rewrite list_lookup_insert_eq; [done|by eapply lookup_lt_Some].
Qed.

(** Giving back the bytes of the extensions of a component. *)
Lemma release_extensions_sum handle exts used :
  (release_extensions handle exts used).2
  = (used - (sum_N (from_option extension_bytes 0%N <$> exts)
             - sum_N (from_option extension_bytes 0%N <$> (release_extensions handle exts used).1)))%N
  ∧ (sum_N (from_option extension_bytes 0%N <$> (release_extensions handle exts used).1)
     ≤ sum_N (from_option extension_bytes 0%N <$> exts))%N.
Proof.
  unfold release_extensions. cbn [fst snd]. revert used. induction exts as [|o exts IH]; intros used; [cbn; lia|].
  cbn [map foldl]. rewrite !fmap_cons, !sum_N_cons.
  destruct (owned_extension handle o); destruct (IH used) as [_ H2]; cbn [from_option].
  - rewrite (proj1 (IH _)). lia.
  - rewrite (proj1 (IH _)). lia.
Qed.

Lemma release_extensions_slot handle exts used k :
  slot_at (release_extensions handle exts used).1 k
  = match slot_at exts k with
    | Some e => if decide (es_component e = handle) then None else Some e
    | None => None
    end.
Proof.
  unfold release_extensions, slot_at. cbn [fst]. change (map ?f ?l) with (f <$> l). rewrite list_lookup_fmap.
  destruct (exts !! k) as [[e|]|]; cbn; [|done..]. case_bool_decide; [by rewrite decide_True|by rewrite decide_False].
Qed.

(** ** Free slots *)

Lemma free_slots_cons {A} (o : option A) l : free_slots (o :: l) = (if is_free o then 1 else 0) + free_slots l.
Proof. unfold free_slots. cbn. by destruct (is_free o). Qed.

Lemma free_slots_remove {A} (l : list (option A)) i a :
  slot_at l i = Some a → free_slots (<[i:=None]> l) = S (free_slots l).
Proof.
  unfold slot_at. revert i. induction l as [|o l IH]; intros [|i]; [done..| |]; cbn [lookup list_lookup].
  - cbn [mbind option_bind id]. intros ->. by change (<[0:=None]> (Some a :: l)) with (None :: l).
  - intros Hi. change (<[S i:=None]> (o :: l)) with (o :: <[i:=None]> l).
    rewrite !free_slots_cons, (IH i Hi). lia.
Qed.

Lemma free_slots_le {A} (l : list (option A)) : free_slots l ≤ length l.
Proof. unfold free_slots. induction l as [|o l IH]; cbn; [done|]. destruct (is_free o); cbn; lia. Qed.

Lemma free_slots_fmap {A C} (f : A → C) (l : list (option A)) :
  free_slots (fmap (M:=option) f <$> l) = free_slots l.
Proof. unfold free_slots. induction l as [|[a|] l IH]; cbn; by rewrite ?IH. Qed.

Lemma free_slots_same {A C} (f : A → C) (l l' : list (option A)) :
  fmap (M:=option) f <$> l' = fmap (M:=option) f <$> l → free_slots l' = free_slots l.
Proof. intros H. by rewrite <-(free_slots_fmap f l'), H, free_slots_fmap. Qed.

Lemma first_free_Some {A} (l : list (option A)) i : first_free l = Some i → l !! i = Some None.
Proof.
  revert i. induction l as [|[a|] l IH]; intros i; cbn; [done| |by intros [= <-]].
  destruct (first_free l) as [j|]; [|done]. intros [= <-]. by apply IH.
Qed.

Lemma first_free_exists {A} (l : list (option A)) : free_slots l ≠ 0 → is_Some (first_free l).
Proof.
  unfold free_slots. induction l as [|[a|] l IH]; cbn; [done| |by eexists].
  intros Hl. destruct (IH Hl) as [i ->]. by eexists.
Qed.

(** ** The oldest closed component *)

Lemma oldest_closed_spec slots index best i :
  oldest_closed slots index best = Some i →
  (∃ j c, i = index + j ∧ slot_at slots j = Some c ∧ is_Some (cs_closed_at c)) ∨ fst <$> best = Some i.
Proof.
  revert index best. induction slots as [|o slots IH]; intros index best; cbn; [by right|]. intros Ho.
  destruct (IH _ _ Ho) as [(j & c & -> & Hj & Hc)|Hb].
  - left. exists (S j), c. split; [lia|]. done.
  - destruct o as [c|]; [|by right]. destruct (cs_closed_at c) as [t|] eqn:Hcl; [|by right].
    assert (i = index → (∃ j c0, i = index + j ∧ slot_at (Some c :: slots) j = Some c0 ∧ is_Some (cs_closed_at c0))
      ∨ fst <$> best = Some i) as Hhit.
    { intros ->. left. exists 0, c. split; [lia|]. by rewrite Hcl. }
    destruct best as [[b tick]|]; [|by injection Hb as <-; apply Hhit].
    destruct (_ <? _)%N; [by injection Hb as <-; apply Hhit|by right].
Qed.

Section Reclaim.
Context {B : Type} `{!CircularBuffer StoredObservation B, !CircularLaws StoredObservation B}.
Implicit Types s : State B.

(** The invariant does not depend on the sequence, nor on losses other than
    those of events. *)
Lemma store_mid_loss limits x fl s hs seq loss :
  store_mid limits x fl s hs →
  ls_count loss EventsEvicted = ls_count (st_loss s) EventsEvicted →
  ls_count loss EventsOmitted = ls_count (st_loss s) EventsOmitted →
  store_mid limits x fl (set_loss (set_sequence s seq) loss) hs.
Proof.
  intros [T H Me Bu [E1 E2] Ca Ck] H1 H2. split; cbn; try done. split; [by rewrite H1|]. by rewrite H1, H2.
Qed.

Lemma store_mid_note limits x fl s hs k n :
  store_mid limits x fl s hs → k ≠ EventsEvicted → k ≠ EventsOmitted →
  store_mid limits x fl (set_loss s (loss_add (st_loss s) k n)) hs.
Proof.
  intros Hs H1 H2. apply (store_mid_loss _ _ _ _ _ (st_sequence s) (loss_add (st_loss s) k n)) in Hs.
  - by destruct s.
  - by rewrite loss_add_ne.
  - by rewrite loss_add_ne.
Qed.

(** What changes in [advance_sequence], [next_sequence] and notes. *)
Definition same_but_counts s s' : Prop :=
  ∃ seq loss, (st_sequence s ≤ seq)%N ∧ s' = set_loss (set_sequence s seq) loss.

Lemma advance_sequence_wp limits x fl s hs E :
  store_mid limits x fl s hs →
  wp advance_sequence (λ _ s', store_mid limits x fl s' hs ∧ same_but_counts s s') E s.
Proof.
  intros Hs. unfold wp, advance_sequence, next_sequence. destruct (_ =? _)%N; cbn; split.
  - by apply (store_mid_loss _ _ _ _ _ (st_sequence s)).
  - eexists (st_sequence s), _. split; [|done]. lia.
  - by apply (store_mid_loss _ _ _ _ _ _ (st_loss s)).
  - exists (N.succ (st_sequence s)), (st_loss s). split; [lia|done].
Qed.

Lemma next_sequence_wp limits x fl s hs (Q : N → State B → Prop) E :
  store_mid limits x fl s hs →
  (∀ s', store_mid limits x fl s' hs → same_but_counts s s' → st_sequence s' = N.succ (st_sequence s) →
    Q (st_sequence s') s') →
  (∀ s', store_mid limits x fl s' hs → same_but_counts s s' → E SequenceExhausted s') →
  wp next_sequence Q E s.
Proof.
  intros Hs HQ HE. unfold wp, next_sequence. destruct (_ =? _)%N.
  - apply HE; [by apply (store_mid_loss _ _ _ _ _ (st_sequence s))|eexists (st_sequence s), _; split; [|done]; lia].
  - apply (HQ (set_sequence s (N.succ (st_sequence s))));
      [by apply (store_mid_loss _ _ _ _ _ _ (st_loss s))|exists (N.succ (st_sequence s)), (st_loss s); split; [lia|done]|done].
Qed.

(** ** What reclaiming leaves *)

Record reclaims s s' : Prop := {
  rc_generation : st_generation s' = st_generation s;
  rc_sequence : (st_sequence s ≤ st_sequence s')%N;
  rc_components : length (st_components s') = length (st_components s);
  rc_counters : length (st_counters s') = length (st_counters s);
  rc_windows : length (st_windows s') = length (st_windows s);
  rc_extensions : length (st_extensions s') = length (st_extensions s);
  rc_open : ∀ i c, slot_at (st_components s) i = Some c → cs_closed_at c = None →
    ∃ c', slot_at (st_components s') i = Some c' ∧ shape c' = shape c ∧ status c' = status c;
  rc_ext : ∀ k e, slot_at (st_extensions s) k = Some e →
    is_Some (find_slot (st_components s') (es_component e)) → slot_at (st_extensions s') k = Some e;
  rc_only : ∀ i c', slot_at (st_components s') i = Some c' →
    ∃ c, slot_at (st_components s) i = Some c ∧ shape c = shape c' ∧ status c = status c';
}.

(** The extensions of open components are kept. *)
Lemma rc_kept s s' k e c :
  reclaims s s' → slot_at (st_extensions s) k = Some e →
  find_slot (st_components s) (es_component e) = Some c → cs_closed_at c = None →
  slot_at (st_extensions s') k = Some e.
Proof.
  intros Hr Hk [Hi Hh]%find_slot_Some Ho. apply (rc_ext _ _ Hr); [done|].
  destruct (rc_open _ _ Hr _ _ Hi Ho) as (c' & Hi' & Hs & _). exists c'. apply find_slot_Some. unfold shape in Hs.
  split; [done|congruence].
Qed.

#[global] Instance reclaims_refl : Reflexive reclaims.
Proof. split; try done; eauto. Qed.

#[global] Instance reclaims_trans : Transitive reclaims.
Proof.
  intros s1 s2 s3 [G1 Q1 C1 N1 W1 X1 O1 K1 Y1] [G2 Q2 C2 N2 W2 X2 O2 K2 Y2]. split; try congruence.
  - by etrans.
  - intros i c Hi Hc. destruct (O1 i c Hi Hc) as (c2 & Hi2 & Hs2 & Ht2).
    destruct (O2 i c2 Hi2) as (c3 & Hi3 & Hs3 & Ht3); [unfold status in Ht2; congruence|].
    exists c3. split_and!; [done|congruence|congruence].
  - intros k e Hk Hf. apply K2; [apply K1; [done|]|done]. destruct Hf as [c3 [Hi3 Hh]%find_slot_Some].
    destruct (Y2 _ c3 Hi3) as (c2 & Hi2 & Hs2 & _). exists c2. apply find_slot_Some. unfold shape in Hs2.
    split; [done|congruence].
  - intros i c3 (c2 & Hi2 & Hs2 & Ht2)%Y2. destruct (Y1 i c2 Hi2) as (c & Hi & Hs & Ht).
    exists c. split_and!; [done|congruence|congruence].
Qed.

(** The history without the events of a component. *)
Definition without (handle : ComponentHandle) (hs : list Held) : list Held :=
  filter (λ he : Held, so_component he.1 ≠ handle) hs.

(** The store after the tables have dropped component [c] of slot [i]. *)
Definition dropped (i : nat) (c : ComponentSlot) s : State B :=
  let exts := release_extensions (cs_handle c) (st_extensions s)
                (st_metadata_used s - (slen (cs_key c) + ownership_bytes (rf_ownership (cs_refresh c))))%N in
  set_metadata_used
    (set_extensions
       (set_windows
          (set_counters (set_components s (<[i:=None]> (st_components s)))
             (clear (owned (st_counters s) (cs_handle c)) (st_counters s)))
          (match cs_window c with Some w => clear_range w (st_windows s) | None => st_windows s end))
       exts.1)
    exts.2.

Lemma dropped_ok limits x fl s hs i c c' :
  store_mid limits x fl s hs → slot_at (st_components s) i = Some c' → shape c' = shape c →
  without (cs_handle c) hs = hs → store_mid limits x fl (dropped i c s) hs.
Proof.
  intros [T [H1 H2 H3] Me Bu Ev Ca Ck] Hi Hsh Hwo. unfold shape in Hsh. injection Hsh as S1 S2 S3 S4 S5.
  destruct (release_extensions_sum (cs_handle c) (st_extensions s)
    (st_metadata_used s - (slen (cs_key c) + ownership_bytes (rf_ownership (cs_refresh c)))))
    as [R1 R2]. unfold dropped.
  remember (release_extensions (cs_handle c) (st_extensions s)
    (st_metadata_used s - (slen (cs_key c) + ownership_bytes (rf_ownership (cs_refresh c))))) as ex eqn:Hex.
  unfold metadata_bytes_of in Me.
  rewrite (sum_N_remove component_bytes _ i c') in Me by done. unfold component_bytes at 1 in Me. cbn in Me.
  rewrite S2, S5 in Me.
  split; cbn; try done.
  - rewrite <-S1. eapply tables_remove; [exact T|exact Hi| | |].
    + rewrite <-S4. destruct (cs_window c') as [w|] eqn:Hw; [|done]. apply length_range.
      by destruct (tb_window _ _ _ _ _ T i c' w Hi Hw) as (_ & _ & ? & _).
    + intros k Hk. rewrite <-S4. destruct (cs_window c') as [w|] eqn:Hw; [|done]. unfold clear_range.
      rewrite slot_at_range by (by destruct (tb_window _ _ _ _ _ T i c' w Hi Hw) as (_ & _ & ? & _)).
      rewrite decide_False; [done|]. by apply Hk.
    + intros k e. rewrite Hex, release_extensions_slot. destruct (slot_at _ k) as [e0|]; [|done].
      case_decide as Hd; [done|]. intros [= <-]. split; [done|congruence].
  - split; [done| |done]. apply Forall_forall. intros he Hhe.
    assert (so_component he.1 ≠ cs_handle c) as Hne.
    { rewrite <-Hwo in Hhe. by apply list_elem_of_filter in Hhe as [? _]. }
    rewrite Forall_forall in H2. destruct (H2 he Hhe) as [Hf Hp]. split; [|done].
    rewrite (find_slot_remove _ i c'); [done|done|congruence].
  - unfold metadata_bytes_of. rewrite R1, Me. lia.
  - rewrite R1. lia.
Qed.

Lemma dropped_reclaims s s1 i c :
  keeps s s1 → slot_at (st_components s) i = Some c → ch_slot (cs_handle c) = i → cs_closed_at c ≠ None →
  length (match cs_window c with Some w => clear_range w (st_windows s1) | None => st_windows s1 end)
  = length (st_windows s1) →
  reclaims s (dropped i c s1).
Proof.
  intros [K1 K2 K3 K4 K5 K6 K7 K8 _] Hi Hs Hcl Hw. split; cbn -[release_extensions].
  - done.
  - by rewrite K2.
  - rewrite length_insert. by eapply same_length.
  - by rewrite length_clear, K3.
  - by rewrite Hw, K4.
  - unfold release_extensions. cbn. by rewrite length_map, K5.
  - intros i' c' Hi' Hc'. rewrite slot_at_insert_None, decide_False by (intros ->; congruence).
    destruct (slot_at_same shape (st_components s1) (st_components s) i' c') as (c1 & H1 & E1); [done|done|].
    destruct (slot_at_same status (st_components s1) (st_components s) i' c') as (c2 & H2 & E2); [done|done|].
    exists c1. split_and!; [done|done|congruence].
  - intros k e Hk Hf. rewrite release_extensions_slot, K5, Hk, decide_False; [done|].
    intros Heq. destruct Hf as [d [Hd _]%find_slot_Some]. by rewrite slot_at_insert_None, decide_True in Hd
      by congruence.
  - intros i' c'. rewrite slot_at_insert_None. case_decide; [done|]. intros Hi'.
    destruct (slot_at_same shape (st_components s) (st_components s1) i' c') as (c1 & H1 & E1); [done|done|].
    destruct (slot_at_same status (st_components s) (st_components s1) i' c') as (c2 & H2 & E2); [done|done|].
    exists c1. split_and!; [done|done|congruence].
Qed.

Lemma clear_windows_wp w (Q : unit → State B → Prop) E s :
  wr_start w + wr_len w ≤ length (st_windows s) →
  Q tt (set_windows s (clear_range w (st_windows s))) → wp (clear_windows w) Q E s.
Proof. intros Hw HQ. unfold wp, clear_windows. by rewrite (proj2 (Nat.leb_le _ _) Hw). Qed.

(** [reclaim_component] up to its last two statements. *)
Lemma reclaim_tables_wp {A} limits x fl s0 s hs i c c1 (k : M B A) (Q : A → State B → Prop) E :
  store_mid limits x fl s hs → keeps s0 s → slot_at (st_components s) i = Some c1 → shape c1 = shape c →
  wp k Q E (dropped i c s) →
  wp (modify (λ s, set_components s (<[i := None]> (st_components s)));;
      modify (λ s, set_metadata_used s
        (st_metadata_used s - (slen (cs_key c) + ownership_bytes (rf_ownership (cs_refresh c))))%N);;
      counters ← gets (λ s, length (st_counters s));
      release_counters (S counters) (cs_counter_head c);;
      match cs_window c with Some w => clear_windows w | None => mret tt end;;
      modify (λ s,
        let r := release_extensions (cs_handle c) (st_extensions s) (st_metadata_used s) in
        set_metadata_used (set_extensions s r.1) r.2);;
      k) Q E s.
Proof.
  intros Hs Hk Hi Hsh HQ. unfold shape in Hsh. injection Hsh as S1 S2 S3 S4 S5.
  pose proof (sk_tables _ _ _ _ _ Hs) as T. wp_run.
  eapply wp_mono; [apply (release_counters_wp _ _ (owned (st_counters s) (cs_handle c)))| |done]; cbn.
  - rewrite <-S1, <-S3. by eapply tb_chain.
  - apply owned_NoDup.
  - pose proof (owned_short (st_counters s) (cs_handle c)). lia.
  - intros _ s2 ->. wp_run. unfold dropped in HQ.
    destruct (cs_window c) as [w|] eqn:Hw.
    + apply clear_windows_wp; cbn.
      * by destruct (tb_window _ _ _ _ _ T i c1 w Hi) as (_ & _ & ? & _); [congruence|].
      * wp_run. exact HQ.
    + wp_run. exact HQ.
Qed.

Lemma without_idem handle hs : without handle (without handle hs) = without handle hs.
Proof. unfold without. rewrite list_filter_filter. apply list_filter_iff. intros he. tauto. Qed.

(** What a reclaimed component takes with it. *)
Record reclaimed (i : nat) (c : ComponentSlot) s s' : Prop := {
  rd_slot : slot_at (st_components s') i = None;
  rd_generation : st_generation s' = st_generation s;
  rd_sequence : (st_sequence s ≤ st_sequence s')%N;
  rd_others : shapes (<[i:=None]> (st_components s')) = shapes (<[i:=None]> (st_components s))
    ∧ statuses (<[i:=None]> (st_components s')) = statuses (<[i:=None]> (st_components s));
  rd_ext : ∀ k e, slot_at (st_extensions s) k = Some e →
    is_Some (find_slot (st_components s') (es_component e)) → slot_at (st_extensions s') k = Some e;
  rd_free : free_slots (st_components s') = S (free_slots (st_components s));
  rd_length : length (st_components s') = length (st_components s);
  rd_reclaims : cs_closed_at c ≠ None → reclaims s s';
}.

Lemma reclaimed_counts i c s s1 s2 :
  reclaimed i c s s1 → same_but_counts s1 s2 → reclaimed i c s s2.
Proof.
  intros [R1 G Q O X R2 R3 R4] (seq & loss & Hq & ->). split; [done|done|by etrans|done..|].
  intros Hc. destruct (R4 Hc). split; try done. by etrans.
Qed.

Lemma reclaim_component_wp limits x fl s hs i c b :
  store_mid limits x fl s hs → slot_at (st_components s) i = Some c →
  wp (reclaim_component i b)
    (λ r s', r = true ∧ store_mid limits x fl s' (without (cs_handle c) hs) ∧ reclaimed i c s s')
    (λ _ _, False) s.
Proof.
  intros Hs Hi. pose proof (sk_tables _ _ _ _ _ Hs) as T. destruct (tb_handle _ _ _ _ _ T i c Hi) as [Hslot _].
  unfold reclaim_component. wp_run. rewrite Hi. wp_run.
  rewrite cb_len_items, (hi_events _ _ _ _ _ (sk_history _ _ _ _ _ Hs)), length_fmap.
  eapply wp_mono; [apply (rotate_history_wp limits x fl s hs []); by rewrite app_nil_r| |done].
  cbv beta. intros _ s1 [Hk Hs1]. cbn [app] in Hs1. fold (without (cs_handle c) hs) in Hs1.
  destruct (slot_at_same shape (st_components s1) (st_components s) i c) as (c1 & Hi1 & Hsh); [symmetry; apply Hk|done|].
  eapply (reclaim_tables_wp limits x fl s s1); [exact Hs1|exact Hk|exact Hi1|done|].
  assert (store_mid limits x fl (dropped i c s1) (without (cs_handle c) hs)) as Hd.
  { eapply dropped_ok; [exact Hs1|exact Hi1|done|apply without_idem]. }
  assert (reclaimed i c s (dropped i c s1)) as Hr.
  { split; change (st_components (dropped i c s1)) with (<[i:=None]> (st_components s1)).
    - by rewrite slot_at_insert_None, decide_True.
    - apply Hk.
    - change (st_sequence (dropped i c s1)) with (st_sequence s1). by rewrite (kp_sequence _ _ Hk).
    - rewrite list_insert_insert_eq. unfold shapes, statuses. rewrite !list_fmap_insert.
      split; f_equal; apply Hk.
    - change (st_extensions (dropped i c s1)) with (release_extensions (cs_handle c) (st_extensions s1)
        (st_metadata_used s1 - (slen (cs_key c) + ownership_bytes (rf_ownership (cs_refresh c))))%N).1.
      intros k e He Hf. rewrite release_extensions_slot, (kp_extensions _ _ Hk), He, decide_False; [done|].
      intros Heq. destruct Hf as [d [Hslot' _]%find_slot_Some].
      by rewrite slot_at_insert_None, decide_True in Hslot' by congruence.
    - rewrite (free_slots_remove _ _ _ Hi1). f_equal. by eapply free_slots_same, Hk.
    - rewrite length_insert. eapply same_length, Hk.
    - intros Hcl. apply dropped_reclaims; [done..|]. destruct (cs_window c) as [w|] eqn:Hw; [|done].
      apply length_range. rewrite (kp_windows _ _ Hk). by destruct (tb_window _ _ _ _ _ T i c w Hi Hw) as (_ & _ & ? & _). }
  assert (∀ s2, store_mid limits x fl s2 (without (cs_handle c) hs) → reclaimed i c s s2 →
    wp (advance_sequence;; mret true) (λ r s', r = true ∧ store_mid limits x fl s' (without (cs_handle c) hs)
      ∧ reclaimed i c s s') (λ _ _, False) s2) as Hend.
  { intros s2 Hs2 Hr2. apply wp_bind. eapply wp_mono; [exact (advance_sequence_wp limits x fl s2 _ (λ _ _, False) Hs2)| |done].
    cbv beta. intros _ s3 [Hs3 Hc3]. wp_run. split_and!; [done..|]. by eapply reclaimed_counts. }
  apply wp_bind. destruct b; wp_run.
  - apply Hend; [by apply store_mid_note|]. eapply reclaimed_counts; [exact Hr|].
    by exists (st_sequence (dropped i c s1)), (loss_add (st_loss (dropped i c s1)) ComponentsEvicted 1).
  - by apply Hend.
Qed.

Lemma reclaim_wp_true limits x fl s hs i c b :
  store_mid limits x fl s hs → slot_at (st_components s) i = Some c →
  ∃ s', reclaim_component i b s = (Ok true, s') ∧ store_mid limits x fl s' (without (cs_handle c) hs)
    ∧ reclaimed i c s s'.
Proof.
  intros Hs Hi. pose proof (reclaim_component_wp limits x fl s hs i c b Hs Hi) as Hw. unfold wp in Hw.
  destruct (reclaim_component i b s) as [[r|e|] s']; [|done..]. destruct Hw as (-> & Hs' & Hr). by exists s'.
Qed.

(** Only closed components are evicted. *)
Lemma evict_closed_wp limits x fl s hs :
  store_mid limits x fl s hs →
  wp evict_closed_component
    (λ r s', if r : bool
             then ∃ hs', store_mid limits x fl s' hs' ∧ sublist hs' hs ∧ reclaims s s'
                    ∧ free_slots (st_components s') = S (free_slots (st_components s))
             else s' = s)
    (λ _ _, False) s.
Proof.
  intros Hs. unfold evict_closed_component. wp_run.
  destruct (oldest_closed (st_components s) 0 None) as [i|] eqn:Ho; [|by wp_run].
  destruct (oldest_closed_spec _ _ _ _ Ho) as [(j & c & Hj & Hc & Hcl)|]; [|done]. cbn in Hj. subst j.
  destruct (reclaim_wp_true limits x fl s hs i c true Hs Hc) as (s' & Hrun & Hs' & [R1 _ _ _ _ R2 R3 R4]).
  unfold wp. rewrite Hrun. exists (without (cs_handle c) hs). split_and!; [done| |apply R4; by destruct Hcl as [? ->]|done].
  apply sublist_filter.
Qed.

(** The admission loop ends, and ends admitted or with the error. *)
Lemma admit_wp limits x fl fuel check s hs :
  store_mid limits x fl s hs → length (st_components s) < fuel + free_slots (st_components s) →
  wp (make_room fuel check)
    (λ _ s', check s' = None ∧ reclaims s s' ∧ ∃ hs', store_mid limits x fl s' hs' ∧ sublist hs' hs)
    (λ _ s', ∃ hs', store_mid limits x fl s' hs' ∧ sublist hs' hs ∧ ∃ s1 loss, reclaims s s1 ∧ s' = set_loss s1 loss) s.
Proof.
  revert s hs. induction fuel as [|fuel IH]; intros s hs Hs Hf.
  { pose proof (free_slots_le (st_components s)). lia. }
  cbn [make_room]. wp_run. destruct (check s) as [error|] eqn:Hcheck.
  2:{ wp_run. split_and!; [done..|]. by exists hs. }
  wp_run. eapply wp_mono; [by eapply evict_closed_wp| |done]. cbv beta.
  intros [] s1 H1.
  - destruct H1 as (hs1 & Hs1 & Hsub & Hr & Hfree).
    eapply wp_mono; [apply (IH s1 hs1 Hs1); rewrite (rc_components _ _ Hr); lia| |]; cbv beta.
    + intros _ s2 (Hc & Hr2 & hs2 & Hs2 & Hsub2). split_and!; [done|by etrans|]. exists hs2. split; [done|by etrans].
    + intros e s2 (hs2 & Hs2 & Hsub2 & s3 & loss & Hr3 & ->). exists hs2. split_and!; [done|by etrans|].
      exists s3, loss. split; [by etrans|done].
  - subst s1. unfold reject.
    assert (∀ k, k ≠ EventsEvicted → k ≠ EventsOmitted →
      ∃ hs', store_mid limits x fl (set_loss s (loss_add (st_loss s) k 1)) hs' ∧ sublist hs' hs
        ∧ ∃ s1 loss, reclaims s s1 ∧ set_loss s (loss_add (st_loss s) k 1) = set_loss s1 loss) as Hn.
    { intros k Hk1 Hk2. exists hs. split_and!; [by apply store_mid_note|done|]. by exists s, (loss_add (st_loss s) k 1). }
    assert (∃ hs', store_mid limits x fl s hs' ∧ sublist hs' hs ∧ ∃ s1 loss, reclaims s s1 ∧ s = set_loss s1 loss) as H0.
    { exists hs. split_and!; [done..|]. exists s, (st_loss s). split; [done|by destruct s]. }
    apply wp_bind. destruct error; wp_run; first [exact H0|by apply Hn].
Qed.
End Reclaim.
