(* ===== verification/DiagInstall.v ===== *)
(** * Installing components and extensions

    The counters of a component, the windows it reserves and the counter of
    an extension are added to the tables: the chain of the component stays
    the list of its counters in the order of the pool, and nothing that
    belongs to another component changes. *)

From stdpp Require Import base numbers strings list sorting.
From S2P Require Import Prelude Text Utf8 DetailPool DetailPoolFacts DiagCatalogue DiagTypes DiagState DiagLifecycle DiagInvariant DiagHistory DiagTables DiagReclaim.

(** ** Segments of chains *)

Fixpoint seg (counters : list (option CounterSlot)) (next : option nat) (ix : list nat) (stop : option nat) :
    Prop :=
  match ix with
  | [] => next = stop
  | j :: ix => next = Some j ∧ ∃ cn, slot_at counters j = Some cn ∧ seg counters (cn_next cn) ix stop
  end.

Lemma chain_seg counters next ix : chain counters next ix ↔ seg counters next ix None.
Proof.
  revert next. induction ix as [|j ix IH]; intros next; [done|]. cbn. setoid_rewrite IH. done.
Qed.

Lemma seg_app counters next ix ix' stop :
  seg counters next (ix ++ ix') stop ↔ ∃ mid, seg counters next ix mid ∧ seg counters mid ix' stop.
Proof.
  revert next. induction ix as [|j ix IH]; intros next; cbn.
  - split; [by exists next|intros (mid & -> & H); done].
  - setoid_rewrite IH. naive_solver.
Qed.

Lemma seg_snoc counters next ix t stop :
  seg counters next (ix ++ [t]) stop
  ↔ seg counters next ix (Some t) ∧ ∃ cn, slot_at counters t = Some cn ∧ cn_next cn = stop.
Proof. rewrite seg_app. cbn. naive_solver. Qed.

Lemma seg_agree counters counters' next ix stop :
  (∀ j, j ∈ ix → slot_at counters' j = slot_at counters j) → seg counters next ix stop → seg counters' next ix stop.
Proof.
  revert next. induction ix as [|j ix IH]; intros next Hj; [done|]. intros (-> & cn & Hcn & Hc).
  split; [done|]. exists cn. rewrite Hj by (by left). split; [done|]. apply IH; [|done].
  intros k Hk. apply Hj. by right.
Qed.

(** A strictly increasing list is determined by its members. *)
Lemma increasing_unique ix ix' :
  StronglySorted lt ix → StronglySorted lt ix' → (∀ j, j ∈ ix ↔ j ∈ ix') → ix = ix'.
Proof.
  assert (∀ l, StronglySorted lt l → StronglySorted le l ∧ NoDup l) as Hlt.
  { induction 1 as [|j l _ [IH1 IH2] HF]; [split; constructor|]. split.
    - constructor; [done|]. eapply Forall_impl; [exact HF|]. lia.
    - constructor; [|done]. intros Hin. rewrite Forall_forall in HF. specialize (HF j Hin). lia. }
  intros [H1 N1]%Hlt [H2 N2]%Hlt Hm. eapply (StronglySorted_unique le); [done..|].
  by apply NoDup_Permutation.
Qed.

Lemma seq_increasing n m : StronglySorted lt (seq n m).
Proof.
  revert n. induction m as [|m IH]; intros n; cbn; constructor; [done|].
  apply Forall_forall. intros j Hj%elem_of_seq. lia.
Qed.

Lemma filter_increasing (P : nat → Prop) `{!∀ j, Decision (P j)} l :
  StronglySorted lt l → StronglySorted lt (filter P l).
Proof.
  induction 1 as [|j l _ IH HF]; [constructor|]. rewrite filter_cons. case_decide; [|done].
  constructor; [done|]. rewrite Forall_forall in HF |- *. intros k [_ Hk]%list_elem_of_filter. by apply HF.
Qed.

Lemma owned_increasing counters h : StronglySorted lt (owned counters h).
Proof. apply filter_increasing, seq_increasing. Qed.

Lemma owned_is counters h ix :
  StronglySorted lt ix → (∀ j, j ∈ ix ↔ owns counters h j) → owned counters h = ix.
Proof.
  intros Hs Hm. apply increasing_unique; [apply owned_increasing|done|]. intros j. by rewrite owned_elem.
Qed.

Lemma increasing_snoc ix j : StronglySorted lt ix → (∀ k, k ∈ ix → k < j) → StronglySorted lt (ix ++ [j]).
Proof.
  induction 1 as [|i ix _ IH HF]; intros Hj; cbn; [repeat constructor|]. constructor.
  - apply IH. intros k Hk. apply Hj. by right.
  - apply Forall_app. split; [done|]. apply Forall_singleton, Hj. by left.
Qed.

Lemma increasing_last ix j : StronglySorted lt (ix ++ [j]) → j ∉ ix.
Proof.
  induction ix as [|i ix IH]; intros Hs; [apply not_elem_of_nil|]. inversion_clear Hs as [|?? Hs' HF].
  rewrite not_elem_of_cons. split; [|by apply IH]. apply Forall_app in HF as [_ HF]. apply Forall_inv in HF. lia.
Qed.

(** ** Reserving the counters of a component *)

(** The counters [ix] have been added for [handle] with the given codes. *)
Record reserved (handle : ComponentHandle) (before after : list (option CounterSlot)) (ix : list nat)
    (codes : list BuiltinDiagnosticCode) : Prop := {
  rs_length : length after = length before;
  rs_old : ∀ j, j ∉ ix → slot_at after j = slot_at before j;
  rs_new : ∀ k j, ix !! k = Some j → before !! j = Some None
    ∧ ∃ cn code, slot_at after j = Some cn ∧ cn_component cn = handle ∧ codes !! k = Some code
        ∧ cn_code cn = CodeBuiltin code;
  rs_increasing : StronglySorted lt ix;
}.

Lemma slot_at_None {A} (l : list (option A)) j : j < length l → slot_at l j = None → l !! j = Some None.
Proof.
  intros Hlt. unfold slot_at. destruct (lookup_lt_is_Some_2 l j Hlt) as [[a|] ->]; [done|done].
Qed.

(** One more counter at [index], behind all others. *)
Lemma reserved_snoc handle before after after' ix codes code index :
  reserved handle before after ix codes → length ix = length codes →
  index < length before → slot_at after index = None → (∀ j, j ∈ ix → j < index) →
  length after' = length after →
  (∃ cn, slot_at after' index = Some cn ∧ cn_component cn = handle ∧ cn_code cn = CodeBuiltin code) →
  (∀ j, j ≠ index → ∀ cn, slot_at after j = Some cn → j ∈ ix → ∃ cn', slot_at after' j = Some cn'
    ∧ cn_component cn' = cn_component cn ∧ cn_code cn' = cn_code cn) →
  (∀ j, j ≠ index → j ∉ ix → slot_at after' j = slot_at after j) →
  reserved handle before after' (ix ++ [index]) (codes ++ [code]).
Proof.
  intros [L O N I] Hl Hlt Hfree Hbelow Hlen Hnew Hix Hold.
  assert (index ∉ ix) as Hni by (intros Hin%Hbelow; lia). split.
  - by rewrite Hlen.
  - intros j Hj. rewrite not_elem_of_app, list_elem_of_singleton in Hj. destruct Hj as [Hj1 Hj2].
    rewrite Hold by done. by apply O.
  - intros k j Hk. destruct (decide (k < length ix)) as [Hkl|Hkl].
    + rewrite lookup_app_l in Hk by done. destruct (N k j Hk) as (Hb & cn & code' & H1 & H2 & H3 & H4).
      split; [done|]. assert (j ∈ ix) as Hj by (by eapply list_elem_of_lookup_2).
      destruct (Hix j) with cn as (cn' & H1' & H2' & H3'); [by intros ->|done..|].
      exists cn', code'. rewrite lookup_app_l by (by rewrite <-Hl). split_and!; [done|congruence|done|congruence].
    + rewrite lookup_app_r in Hk by lia. apply list_lookup_singleton_Some in Hk as [Hk <-].
      split; [apply slot_at_None; [done|]; by rewrite <-O|].
      destruct Hnew as (cn & H1 & H2 & H3). exists cn, code. split_and!; [done..| |done].
      rewrite lookup_app_r by lia. by replace (k - length codes) with 0 by lia.
  - by apply increasing_snoc.
Qed.

Section Reserve.
Context {B : Type} `{!CircularBuffer StoredObservation B, !CircularLaws StoredObservation B}.
Implicit Types s : State B.

Lemma free_slots_drop {A} (l : list (option A)) i o :
  l !! i = Some o → free_slots (drop i l) = (if is_free o then 1 else 0) + free_slots (drop (S i) l).
Proof. intros Hi. by rewrite (drop_S _ _ _ Hi), free_slots_cons. Qed.

Lemma reserve_from_wp handle before todo index codes head tail s ix have E :
  reserved handle before (st_counters s) ix have → length ix = length have →
  index + todo = length before → (∀ j, j ∈ ix → j < index) →
  chain (st_counters s) head ix → tail = last ix → length codes ≤ free_slots (drop index before) →
  wp (reserve_from handle todo index codes head tail)
    (λ r s', ∃ after ix', s' = set_counters s after ∧ reserved handle before after ix' (have ++ codes)
      ∧ length ix' = length (have ++ codes) ∧ chain after r ix') E s.
Proof.
  revert index codes head tail s ix have. induction todo as [|todo IH];
    intros index codes head tail s ix have Hr Hl Hn Hb Hc Ht Hfr.
  { rewrite drop_ge in Hfr by lia. destruct codes; [|cbn in Hfr; lia]. cbn. wp_run.
    exists (st_counters s), ix. rewrite app_nil_r. split_and!; [by destruct s|done..]. }
  assert (index < length before) as Hlt by lia. destruct (lookup_lt_is_Some_2 before index Hlt) as [o Ho].
  assert (index ∉ ix) as Hni by (intros Hin%Hb; lia).
  assert (slot_at (st_counters s) index = o) as Hslot.
  { rewrite (rs_old _ _ _ _ _ Hr) by done. unfold slot_at. by rewrite Ho. }
  rewrite (free_slots_drop _ _ _ Ho) in Hfr. cbn [reserve_from]. wp_run. rewrite Hslot.
  destruct o as [cn|]; cbn [is_free] in Hfr.
  { apply (IH _ _ _ _ _ ix); [done|done|lia| |done|done|done]. intros j Hj%Hb. lia. }
  destruct codes as [|code codes].
  { wp_run. exists (st_counters s), ix. rewrite app_nil_r. split_and!; [by destruct s|done..]. }
  assert (index < length (st_counters s)) as Hlt' by (by rewrite (rs_length _ _ _ _ _ Hr)).
  set (fresh := <[index:=Some (new_counter handle (CodeBuiltin code))]> (st_counters s)).
  assert (∀ after next, length after = length (st_counters s) →
    (∃ cn, slot_at after index = Some cn ∧ cn_component cn = handle ∧ cn_code cn = CodeBuiltin code) →
    (∀ j, j ≠ index → ∀ cn, slot_at (st_counters s) j = Some cn → j ∈ ix → ∃ cn', slot_at after j = Some cn'
      ∧ cn_component cn' = cn_component cn ∧ cn_code cn' = cn_code cn) →
    (∀ j, j ≠ index → j ∉ ix → slot_at after j = slot_at (st_counters s) j) →
    chain after next (ix ++ [index]) →
    wp (reserve_from handle todo (S index) codes next (Some index))
      (λ r s', ∃ after ix', s' = set_counters s after ∧ reserved handle before after ix' (have ++ code :: codes)
        ∧ length ix' = length (have ++ code :: codes) ∧ chain after r ix') E (set_counters s after)) as Hgo.
  { intros after next Hlen Hnew Hix Hold Hch.
    eapply wp_mono; [apply (IH _ _ _ _ (set_counters s after) (ix ++ [index]) (have ++ [code]))| |done].
    - by eapply reserved_snoc.
    - rewrite !length_app. cbn. lia.
    - lia.
    - intros j. rewrite elem_of_app, list_elem_of_singleton. intros [Hj%Hb| ->]; lia.
    - done.
    - by rewrite last_snoc.
    - cbn in Hfr. lia.
    - cbv beta. intros r s' (after' & ix' & -> & H). exists after', ix'. split; [done|].
      by rewrite <-app_assoc in H. }
  wp_run. subst tail. destruct ix as [|t ix _] using rev_ind.
  - cbn [last]. apply Hgo.
    + apply length_insert.
    + exists (new_counter handle (CodeBuiltin code)). by rewrite slot_at_insert, decide_True.
    + intros j _ cn _ Hj. by apply not_elem_of_nil in Hj.
    + intros j Hj _. by rewrite slot_at_insert, decide_False.
    + split; [done|]. exists (new_counter handle (CodeBuiltin code)). by rewrite slot_at_insert, decide_True.
  - rewrite last_snoc. apply chain_seg, seg_snoc in Hc as [Hc (cn & Hcn & Hnext)].
    assert (t ≠ index ∧ t ∉ ix) as [Hti Htix].
    { split; [intros ->; apply Hni, elem_of_app; right; by left|].
      eapply increasing_last, (rs_increasing _ _ _ _ _ Hr). }
    pose proof (slot_at_lt _ _ _ Hcn) as Htlt.
    wp_run. apply wp_bind. eapply update_counter_wp.
    { cbn. rewrite slot_at_insert, decide_False; [exact Hcn|done|congruence]. }
    cbn [set_counters st_counters].
    assert (length (<[t:=Some (counter_with_next cn (Some index))]> fresh) = length (st_counters s)) as Hlen
      by (unfold fresh; by rewrite !length_insert).
    assert (∀ j, slot_at (<[t:=Some (counter_with_next cn (Some index))]> fresh) j
      = if decide (j = t) then Some (counter_with_next cn (Some index))
        else if decide (j = index) then Some (new_counter handle (CodeBuiltin code))
        else slot_at (st_counters s) j) as Hat.
    { intros j. unfold fresh. rewrite slot_at_insert by (by rewrite length_insert).
      case_decide; [done|]. by rewrite slot_at_insert. }
    apply (Hgo (<[t:=Some (counter_with_next cn (Some index))]> fresh) head); [done| | | |].
    + rewrite Hat, decide_False, decide_True by done. by eexists.
    + intros j Hj cn' Hcn' _. rewrite Hat. destruct (decide (j = t)) as [->|].
      * eexists. split; [done|]. by simplify_eq.
      * rewrite decide_False by done. by exists cn'.
    + intros j Hj Hj'. rewrite Hat, !decide_False; [done|done|]. intros ->. apply Hj', elem_of_app. right. by left.
    + apply chain_seg, seg_snoc. split.
      * apply seg_snoc. split.
        -- eapply seg_agree; [|exact Hc]. intros j Hj. rewrite Hat, !decide_False; [done| |by intros ->].
           intros ->. apply Hni, elem_of_app. by left.
        -- eexists. rewrite Hat, decide_True by done. done.
      * eexists. rewrite Hat, decide_False, decide_True by done. done.
Qed.

(** ** Linking one more counter *)

Lemma link_position_spec fuel counters index prev next ix :
  chain counters next ix → StronglySorted lt ix → index ∉ ix → length ix < fuel →
  ∃ l1 l2, ix = l1 ++ l2 ∧ (∀ j, j ∈ l1 → j < index) ∧ (∀ j, j ∈ l2 → index < j)
    ∧ link_position fuel counters index prev next
      = Some (match last l1 with Some t => Some t | None => prev end, head l2).
Proof.
  revert prev next ix. induction fuel as [|fuel IH]; intros prev next ix Hc Hs Hn Hf; [lia|]. cbn [link_position].
  destruct ix as [|j ix]; cbn in Hc.
  { subst next. exists [], []. split_and!; [done| | |done]; intros j Hj; by apply not_elem_of_nil in Hj. }
  destruct Hc as (-> & cn & Hcn & Hc). rewrite not_elem_of_cons in Hn. destruct Hn as [Hne Hn].
  inversion_clear Hs as [|?? Hs' HF]. rewrite Forall_forall in HF.
  destruct (Nat.ltb_spec index j) as [Hlt|Hge].
  - exists [], (j :: ix). split_and!; [done| | |done]; intros k Hk; [by apply not_elem_of_nil in Hk|].
    apply elem_of_cons in Hk as [->|Hk]; [done|]. specialize (HF k Hk). lia.
  - rewrite Hcn. cbn [mbind option_bind].
    destruct (IH (Some j) (cn_next cn) ix) as (l1 & l2 & -> & H1 & H2 & ->); [done|done|done|cbn in Hf; lia|].
    exists (j :: l1), l2. split_and!; [done| |done|].
    + intros k [->|Hk]%elem_of_cons; [lia|by apply H1].
    + destruct l1 as [|k l1 _] using rev_ind; [done|]. by rewrite app_comm_cons, !last_snoc.
Qed.

(** The counter at [index] has been linked between [l1] and [l2]. *)
Record linked_in (before after : list (option CounterSlot)) (index : nat) (ix : list nat) : Prop := {
  li_length : length after = length before;
  li_old : ∀ j, j ≠ index → j ∉ ix → slot_at after j = slot_at before j;
  li_same : ∀ j, (λ cn, (cn_component cn, cn_code cn)) <$> slot_at after j
                 = (λ cn, (cn_component cn, cn_code cn)) <$> slot_at before j;
}.

Lemma splice_chain counters index new l1 l2 next :
  chain counters next (l1 ++ l2) → NoDup (l1 ++ l2) → index ∉ l1 ++ l2 → slot_at counters index = Some new →
  let linked := <[index := Some (counter_with_next new (head l2))]> counters in
  ∃ after next',
    match last l1 with
    | Some t => ∃ cn, slot_at linked t = Some cn
                  ∧ after = <[t := Some (counter_with_next cn (Some index))]> linked ∧ next' = next
    | None => after = linked ∧ next' = Some index
    end
    ∧ linked_in counters after index (l1 ++ l2) ∧ chain after next' (l1 ++ index :: l2).
Proof.
  intros Hc Hnd Hni Hnew linked. pose proof (slot_at_lt _ _ _ Hnew) as Hlt.
  rewrite not_elem_of_app in Hni. destruct Hni as [Hn1 Hn2]. apply chain_seg, seg_app in Hc as (mid & Hc1 & Hc2).
  assert (mid = head l2) as -> by (destruct l2; [done|]; by destruct Hc2 as [-> _]).
  assert (∀ j, slot_at linked j = if decide (j = index) then Some (counter_with_next new (head l2))
    else slot_at counters j) as Hat by (intros j; by apply slot_at_insert).
  destruct l1 as [|t l1 _] using rev_ind.
  - exists linked, (Some index). split; [done|]. split; [split|].
    + apply length_insert.
    + intros j Hj _. by rewrite Hat, decide_False.
    + intros j. rewrite Hat. case_decide; [|done]. subst. by rewrite Hnew.
    + apply chain_seg. split; [done|]. eexists. rewrite Hat, decide_True by done. split; [done|].
      eapply seg_agree; [|exact Hc2]. intros j Hj. rewrite Hat, decide_False; [done|]. by intros ->.
  - rewrite last_snoc. apply seg_snoc in Hc1 as [Hc1 (cn & Hcn & Hnx)].
    rewrite not_elem_of_app, list_elem_of_singleton in Hn1. destruct Hn1 as [Hn1 Hti].
    apply NoDup_app in Hnd as (Hnd & Hd & _). apply NoDup_app in Hnd as (_ & Htl & _).
    pose proof (slot_at_lt _ _ _ Hcn) as Htlt.
    assert (slot_at linked t = Some cn) as Hlt' by (rewrite Hat, decide_False; [done|congruence]).
    set (after := <[t := Some (counter_with_next cn (Some index))]> linked).
    assert (∀ j, slot_at after j = if decide (j = t) then Some (counter_with_next cn (Some index))
      else slot_at linked j) as Hat'.
    { intros j. apply slot_at_insert. unfold linked. by rewrite length_insert. }
    exists after, next. split; [by exists cn|]. split; [split|].
    + unfold after, linked. by rewrite !length_insert.
    + intros j Hj Hj'. rewrite Hat', Hat, !decide_False; [done|done|]. intros ->. apply Hj'.
      rewrite !elem_of_app. left. right. by left.
    + intros j. rewrite Hat', Hat. case_decide; [subst; by rewrite Hcn|]. case_decide; [|done]. subst. by rewrite Hnew.
    + apply chain_seg, seg_app. exists (Some index). split.
      * apply seg_snoc. split; [|by eexists; rewrite Hat', decide_True].
        eapply seg_agree; [|exact Hc1]. intros j Hj. rewrite Hat', Hat, !decide_False; [done|by intros ->|].
        intros ->. apply (Htl t Hj). by left.
      * split; [done|]. eexists. rewrite Hat', Hat, decide_False, decide_True by congruence. split; [done|].
        eapply seg_agree; [|exact Hc2]. intros j Hj. rewrite Hat', Hat, !decide_False; [done|by intros ->|].
        intros ->. apply (Hd t); [|done]. rewrite elem_of_app. right. by left.
Qed.

Lemma link_counter_wp handle index s c new ix (Q : unit → State B → Prop) E :
  component s handle = Some c → slot_at (st_counters s) index = Some new →
  chain (st_counters s) (cs_counter_head c) ix → StronglySorted lt ix → index ∉ ix →
  length ix ≤ length (st_counters s) →
  (∀ after head ix', linked_in (st_counters s) after index ix → chain after head ix' → StronglySorted lt ix' →
     (∀ j, j ∈ ix' ↔ j = index ∨ j ∈ ix) →
     Q tt (set_components (set_counters s after)
             (<[ch_slot handle := Some (slot_with_head c head)]> (st_components s)))) →
  wp (link_counter handle index) Q E s.
Proof.
  intros Hc Hnew Hch Hs Hni Hlen HQ. apply find_slot_Some in Hc as Hc'. destruct Hc' as [Hslot Hh].
  assert (NoDup ix) as Hnd.
  { clear -Hs. induction Hs as [|j ix _ IH HF]; constructor; [|done]. intros Hin. rewrite Forall_forall in HF.
    specialize (HF j Hin). lia. }
  destruct (link_position_spec (S (length (st_counters s))) (st_counters s) index None (cs_counter_head c) ix)
    as (l1 & l2 & -> & H1 & H2 & Hpos); [done|done|done|lia|].
  destruct (splice_chain (st_counters s) index new l1 l2 (cs_counter_head c)) as (after & next' & Hlast & Hin & Hchain);
    [done..|].
  unfold link_counter. wp_run. rewrite Hc. wp_run. rewrite Hpos. wp_run.
  eapply update_counter_wp; [exact Hnew|]. cbn [set_counters st_counters].
  assert (StronglySorted lt (l1 ++ index :: l2)) as Hinc.
  { clear -Hs H1 H2. induction l1 as [|j l1 IH]; cbn in *.
    - constructor; [done|]. apply Forall_forall. intros k Hk. by apply H2.
    - inversion_clear Hs as [|?? Hs' HF]. constructor; [apply IH; [done|]; intros k Hk; apply H1; by right|].
      apply Forall_app in HF as [HF1 HF2]. apply Forall_app. split; [done|]. constructor; [apply H1; by left|done]. }
  assert (∀ j, j ∈ l1 ++ index :: l2 ↔ j = index ∨ j ∈ l1 ++ l2) as Hmem.
  { intros j. rewrite !elem_of_app, elem_of_cons. tauto. }
  specialize (HQ after next' _ Hin Hchain Hinc Hmem).
  destruct (last l1) as [t|]; cbn [option_map].
  - destruct Hlast as (cn & Hcn & -> & ->). eapply update_counter_wp; [exact Hcn|]. cbn.
    assert (<[ch_slot handle := Some (slot_with_head c (cs_counter_head c))]> (st_components s) = st_components s) as Heq.
    { apply list_insert_id. unfold slot_at in Hslot. destruct (_ !! _) as [o|]; [|done]. cbn in Hslot. subst o.
      by destruct c. }
    rewrite Heq in HQ. by destruct s.
  - destruct Hlast as [-> ->]. eapply update_component_wp; [exact Hslot|]. exact HQ.
Qed.
End Reserve.

(** ** A free run of windows *)

Lemma window_run_spec (l : list (option WindowSlot)) slots index free len start :
  slots = drop index l → free ≤ index → (∀ k, index - free ≤ k < index → l !! k = Some None) → free < len →
  window_run slots index free len = Some start →
  start + len ≤ length l ∧ ∀ k, start ≤ k < start + len → l !! k = Some None.
Proof.
  revert index free. induction slots as [|o slots IH]; intros index free Hd Hfi Hfree Hlen; cbn [window_run]; [done|].
  assert (l !! index = Some o) as Hi by (by rewrite <-(Nat.add_0_r index), <-lookup_drop, <-Hd).
  assert (slots = drop (S index) l) as Hd'.
  { rewrite (drop_S _ _ _ Hi) in Hd. by injection Hd. }
  pose proof (lookup_lt_Some _ _ _ Hi) as Hlt.
  destruct (_ =? len) eqn:Heq.
  - intros [= <-]. apply Nat.eqb_eq in Heq. destruct o as [w|]; [lia|].
    split; [lia|]. intros k Hk. destruct (decide (k = index)) as [->|]; [done|]. apply Hfree. lia.
  - apply Nat.eqb_neq in Heq. apply IH; [done| | |].
    + destruct o; lia.
    + intros k Hk. destruct o as [w|]; [lia|]. destruct (decide (k = index)) as [->|]; [done|]. apply Hfree. lia.
    + destruct o; lia.
Qed.

Lemma free_window_start_spec {B} (s : State B) len start :
  0 < len → free_window_start s len = Some start →
  start + len ≤ length (st_windows s) ∧ ∀ k, start ≤ k < start + len → slot_at (st_windows s) k = None.
Proof.
  intros Hpos. unfold free_window_start. destruct (Nat.eqb_spec len 0); [lia|].
  destruct (_ <? len); [done|]. intros Hw.
  destruct (window_run_spec (st_windows s) (st_windows s) 0 0 len start) as [H1 H2]; [done|done|intros; lia|lia|done|].
  split; [done|]. intros k Hk. unfold slot_at. by rewrite H2.
Qed.

(** ** The tables with a new component *)

Lemma find_slot_add comps i c h c' :
  comps !! i = Some None → find_slot comps h = Some c' → find_slot (<[i:=Some c]> comps) h = Some c'.
Proof.
  intros Hi [Hs Hh]%find_slot_Some. apply find_slot_Some. split; [|done].
  rewrite slot_at_insert by (by eapply lookup_lt_Some). rewrite decide_False; [done|].
  intros Heq. unfold slot_at in Hs. by rewrite Heq, Hi in Hs.
Qed.

Lemma slot_at_add {A} (l : list (option A)) i a j b :
  l !! i = Some None → slot_at (<[i:=Some a]> l) j = Some b ↔ (j = i ∧ b = a) ∨ slot_at l j = Some b.
Proof.
  intros Hi. rewrite slot_at_insert by (by eapply lookup_lt_Some). case_decide as Hj.
  - subst. unfold slot_at. rewrite Hi. cbn. naive_solver.
  - naive_solver.
Qed.

(** The counters with those of a new component. *)
Lemma owned_reserved comps counters windows exts g h counters' ix codes :
  tables_ok comps counters windows exts g → find_slot comps h = None →
  reserved h counters counters' ix codes →
  (∀ j cn, slot_at counters' j = Some cn → cn_component cn = h ∧ j ∈ ix ∨ slot_at counters j = Some cn ∧ cn_component cn ≠ h ∧ j ∉ ix)
  ∧ owned counters' h = ix
  ∧ ∀ h', h' ≠ h → owned counters' h' = owned counters h' ∧ ∀ j, j ∈ owned counters h' → slot_at counters' j = slot_at counters j.
Proof.
  intros T Hf [L O N I].
  assert (∀ j cn, slot_at counters j = Some cn → j ∉ ix ∧ cn_component cn ≠ h) as Hold.
  { intros j cn Hj. split.
    - intros (k & Hk)%list_elem_of_lookup. destruct (N k j Hk) as [Hb _]. unfold slot_at in Hj. by rewrite Hb in Hj.
    - intros Hh. destruct (tb_counter _ _ _ _ _ T j cn Hj) as [[c Hc] _]. by rewrite Hh, Hf in Hc. }
  assert (∀ j cn, slot_at counters' j = Some cn → cn_component cn = h ∧ j ∈ ix
    ∨ slot_at counters j = Some cn ∧ cn_component cn ≠ h ∧ j ∉ ix) as Hcases.
  { intros j cn Hj. destruct (decide (j ∈ ix)) as [Hin|Hin].
    - left. split; [|done]. apply list_elem_of_lookup in Hin as (k & Hk).
      destruct (N k j Hk) as (_ & cn' & code & H1 & H2 & _). congruence.
    - right. rewrite O in Hj by done. split; [done|]. split; [by apply (Hold j)|done]. }
  split; [done|]. split.
  - apply owned_is; [done|]. intros j. split.
    + intros (k & Hk)%list_elem_of_lookup. destruct (N k j Hk) as (_ & cn & code & H1 & H2 & _). by exists cn.
    + intros (cn & Hj & Hh). destruct (Hcases j cn Hj) as [[_ ?]|(_ & ? & _)]; done.
  - intros h' Hh'. split.
    + apply owned_agree; [done|]. intros j. split; intros (cn & Hj & Hh).
      * exists cn. destruct (Hcases j cn Hj) as [[? _]|(? & _ & _)]; [congruence|done].
      * exists cn. rewrite O; [done|]. by apply (Hold j cn).
    + intros j (cn & Hj & Hh)%owned_elem. apply O. by apply (Hold j cn).
Qed.

Lemma tables_add comps counters counters' windows windows' exts g i c ix codes :
  tables_ok comps counters windows exts g → comps !! i = Some None →
  cs_handle c = {| ch_slot := i; ch_generation := N.succ g |} →
  reserved (cs_handle c) counters counters' ix codes → NoDup codes →
  chain counters' (cs_counter_head c) ix →
  length windows' = length windows →
  (∀ k, slot_at windows k ≠ None → slot_at windows' k ≠ None) →
  (∀ w, cs_window c = Some w → 0 < wr_len w ∧ (0 < wr_resolution_millis w)%N
    ∧ wr_start w + wr_len w ≤ length windows
    ∧ ∀ k, in_window w k → slot_at windows k = None ∧ slot_at windows' k ≠ None) →
  tables_ok (<[i:=Some c]> comps) counters' windows' exts (N.succ g).
Proof.
  intros T Hi Hh Hres Hnd Hch Hlw Hkeep Hwin. set (h := cs_handle c) in *.
  assert (find_slot comps h = None) as Hnone.
  { unfold find_slot. rewrite Hh. cbn. unfold slot_at. by rewrite Hi. }
  destruct (owned_reserved _ _ _ _ _ h _ _ _ T Hnone Hres) as (Hcases & Hown & Hother).
  assert (∀ h' , is_Some (find_slot comps h') → is_Some (find_slot (<[i:=Some c]> comps) h')) as Hfind.
  { intros h' [c' Hc']. exists c'. by apply find_slot_add. }
  assert (∀ i' c', slot_at comps i' = Some c' → cs_handle c' ≠ h) as Hne.
  { intros i' c' Hc' Heq. destruct (tb_handle _ _ _ _ _ T i' c' Hc') as [Hs _].
    rewrite Heq, Hh in Hs. cbn in Hs. subst i'. unfold slot_at in Hc'. by rewrite Hi in Hc'. }
  split.
  - intros i' c' [[-> ->]|Hc']%slot_at_add; [|destruct (tb_handle _ _ _ _ _ T i' c' Hc'); split; [done|lia]|done].
    fold h. rewrite Hh. cbn. lia.
  - intros i' c' [[-> ->]|Hc']%slot_at_add; [by fold h; rewrite Hown| |done].
    destruct (Hother (cs_handle c')) as [-> Hag]; [by eapply Hne|].
    eapply chain_agree; [exact Hag|]. by eapply tb_chain.
  - intros j cn Hj. destruct (Hcases j cn Hj) as [[Hc Hin]|(Hold & _)].
    + split.
      * exists c. apply find_slot_Some. rewrite Hc, Hh. cbn. split; [|by fold h].
        apply slot_at_add; [done|]. by left.
      * intros k g' Hk. apply list_elem_of_lookup in Hin as (n & Hn).
        destruct (rs_new _ _ _ _ _ Hres n j Hn) as (_ & cn' & code & H1 & _ & _ & H2). congruence.
    + destruct (tb_counter _ _ _ _ _ T j cn Hold) as [H1 H2]. split; [by apply Hfind|].
      intros k g' Hk. specialize (H2 k g' Hk). lia.
  - intros j1 j2 cn1 cn2 H1 H2 Hcc Hco.
    destruct (Hcases j1 cn1 H1) as [[C1 I1]|(O1 & D1 & _)], (Hcases j2 cn2 H2) as [[C2 I2]|(O2 & D2 & _)];
      [|congruence|congruence|by eapply tb_codes].
    apply list_elem_of_lookup in I1 as (n1 & I1), I2 as (n2 & I2).
    destruct (rs_new _ _ _ _ _ Hres n1 j1 I1) as (_ & cn1' & code1 & A1 & _ & B1 & E1).
    destruct (rs_new _ _ _ _ _ Hres n2 j2 I2) as (_ & cn2' & code2 & A2 & _ & B2 & E2).
    assert (n1 = n2) as ->; [|congruence]. eapply NoDup_lookup; [exact Hnd|exact B1|]. congruence.
  - intros i' c' w Hc' Hw. apply slot_at_add in Hc' as [[-> ->]|Hc']; [| |done].
    + destruct (Hwin w Hw) as (? & ? & ? & Hk). split_and!; [done..|lia|]. intros k Hin%Hk.
      apply not_eq_None_Some, Hin.
    + destruct (tb_window _ _ _ _ _ T i' c' w Hc' Hw) as (? & ? & ? & Hk). split_and!; [done..|lia|].
      intros k Hin%Hk. apply not_eq_None_Some, Hkeep. by apply not_eq_None_Some.
  - intros i1 i2 c1 c2 w1 w2 k H1 H2 W1 W2 K1 K2. apply slot_at_add in H1, H2; [|done..].
    destruct H1 as [[-> ->]|H1], H2 as [[-> ->]|H2]; [done|exfalso|exfalso|by eapply tb_disjoint].
    + destruct (Hwin w1 W1) as (_ & _ & _ & Hk). destruct (tb_window _ _ _ _ _ T i2 c2 w2 H2 W2) as (_ & _ & _ & Hs).
      apply Hs in K2. apply Hk in K1 as [K1 _]. rewrite K1 in K2. by destruct K2.
    + destruct (Hwin w2 W2) as (_ & _ & _ & Hk). destruct (tb_window _ _ _ _ _ T i1 c1 w1 H1 W1) as (_ & _ & _ & Hs).
      apply Hs in K1. apply Hk in K2 as [K2 _]. rewrite K2 in K1. by destruct K1.
  - intros k e Hk. destruct (tb_extension _ _ _ _ _ T k e Hk) as (F & G & Ln & j & cn & Hj & Hc1 & Hc2).
    split_and!; [by apply Hfind|lia|done|]. exists j, cn. split_and!; [|done|done].
    rewrite (rs_old _ _ _ _ _ Hres); [done|]. intros (n & Hn)%list_elem_of_lookup.
    destruct (rs_new _ _ _ _ _ Hres n j Hn) as [Hb _]. unfold slot_at in Hj. by rewrite Hb in Hj.
Qed.

(** ** The tables with a new extension *)

Section Extend.
Context (comps : list (option ComponentSlot)) (counters : list (option CounterSlot))
  (windows : list (option WindowSlot)) (exts : list (option ExtensionSlot)) (g : N).
Context (i : nat) (c : ComponentSlot) (index k : nat) (e : ExtensionSlot).
Context (after : list (option CounterSlot)) (head : option nat) (ix : list nat).

Hypothesis tables : tables_ok comps counters windows exts g.
Hypothesis here : slot_at comps i = Some c.
Hypothesis free_counter : counters !! index = Some None.
Hypothesis free_extension : exts !! k = Some None.
Hypothesis owner : es_component e = cs_handle c.
Hypothesis fresh : es_generation e = N.succ g.
Hypothesis places : length (es_opaque_classes e) = 4.
Hypothesis spliced :
  linked_in (<[index := Some (new_counter (cs_handle c) (CodeExtension k (N.succ g)))]> counters) after index
    (owned counters (cs_handle c)).
Hypothesis chained : chain after head ix.
Hypothesis increasing : StronglySorted lt ix.
Hypothesis members : ∀ j, j ∈ ix ↔ j = index ∨ j ∈ owned counters (cs_handle c).

Lemma after_cases j cn :
  slot_at after j = Some cn →
  (j = index ∧ cn_component cn = cs_handle c ∧ cn_code cn = CodeExtension k (N.succ g))
  ∨ ∃ cn0, slot_at counters j = Some cn0 ∧ cn_component cn = cn_component cn0 ∧ cn_code cn = cn_code cn0.
Proof.
  intros Hj. pose proof (li_same _ _ _ _ spliced j) as Hs. rewrite Hj in Hs. cbn in Hs.
  destruct (slot_at (<[index:=_]> counters) j) as [cn0|] eqn:H0; [|done]. cbn in Hs. injection Hs as H1 H2.
  apply slot_at_add in H0 as [[-> ->]|H0]; [by left| |done]. right. by exists cn0.
Qed.

Lemma after_old j cn0 :
  slot_at counters j = Some cn0 →
  ∃ cn, slot_at after j = Some cn ∧ cn_component cn = cn_component cn0 ∧ cn_code cn = cn_code cn0.
Proof.
  intros Hj. pose proof (li_same _ _ _ _ spliced j) as Hs.
  assert (slot_at (<[index := Some (new_counter (cs_handle c) (CodeExtension k (N.succ g)))]> counters) j = Some cn0) as H0
    by (apply slot_at_add; [done|by right]).
  rewrite H0 in Hs. destruct (slot_at after j) as [cn|]; [|done]. injection Hs as H1 H2. by exists cn.
Qed.

Lemma after_new :
  ∃ cn, slot_at after index = Some cn ∧ cn_component cn = cs_handle c ∧ cn_code cn = CodeExtension k (N.succ g).
Proof.
  pose proof (li_same _ _ _ _ spliced index) as Hs. rewrite slot_at_insert, decide_True in Hs;
    [|done|by eapply lookup_lt_Some].
  destruct (slot_at after index) as [cn|]; [|done]. injection Hs as H1 H2. by exists cn.
Qed.

Lemma after_owned : owned after (cs_handle c) = ix.
Proof.
  apply owned_is; [done|]. intros j. rewrite members, owned_elem. split.
  - intros [->|(cn0 & Hj & Hh)].
    + destruct after_new as (cn & H1 & H2 & _). by exists cn.
    + destruct (after_old j cn0 Hj) as (cn & H1 & H2 & _). exists cn. split; [done|congruence].
  - intros (cn & Hj & Hh). destruct (after_cases j cn Hj) as [(-> & _)|(cn0 & H0 & H1 & _)]; [by left|].
    right. exists cn0. split; [done|congruence].
Qed.

Lemma after_other h j : h ≠ cs_handle c → owns after h j ↔ owns counters h j.
Proof.
  intros Hh. split.
  - intros (cn & Hj & Hc). destruct (after_cases j cn Hj) as [(_ & ? & _)|(cn0 & H0 & H1 & _)]; [congruence|].
    exists cn0. split; [done|congruence].
  - intros (cn0 & Hj & Hc). destruct (after_old j cn0 Hj) as (cn & H1 & H2 & _). exists cn. split; [done|congruence].
Qed.

Lemma comps_cases i' c' :
  slot_at (<[i:=Some (slot_with_head c head)]> comps) i' = Some c' →
  (i' = i ∧ c' = slot_with_head c head)
  ∨ (slot_at comps i' = Some c' ∧ cs_handle c' ≠ cs_handle c).
Proof.
  rewrite slot_at_insert by (by eapply slot_at_lt). case_decide as Hi; [intros [= <-]; by left|].
  intros Hc'. right. split; [done|]. intros Heq.
  destruct (tb_handle _ _ _ _ _ tables i' c' Hc') as [H1 _], (tb_handle _ _ _ _ _ tables i c here) as [H2 _]. congruence.
Qed.

Lemma comps_old i' c' :
  slot_at (<[i:=Some (slot_with_head c head)]> comps) i' = Some c' →
  ∃ c0, slot_at comps i' = Some c0 ∧ cs_handle c' = cs_handle c0 ∧ cs_window c' = cs_window c0.
Proof. intros [[-> ->]|[Hc' _]]%comps_cases; [by exists c|by exists c']. Qed.

Lemma comps_find h :
  is_Some (find_slot comps h) → is_Some (find_slot (<[i:=Some (slot_with_head c head)]> comps) h).
Proof.
  intros [c0 [H0 Hh]%find_slot_Some]. destruct (decide (ch_slot h = i)) as [<-|Hne].
  - exists (slot_with_head c head). apply find_slot_Some. rewrite slot_at_insert by (by eapply slot_at_lt).
    rewrite decide_True by done. split; [done|]. cbn. congruence.
  - exists c0. apply find_slot_Some. rewrite slot_at_insert by (by eapply slot_at_lt). by rewrite decide_False.
Qed.

Lemma tables_extend :
  tables_ok (<[i:=Some (slot_with_head c head)]> comps) after windows (<[k:=Some e]> exts) (N.succ g).
Proof.
  pose proof tables as T. split.
  - intros i' c' (c0 & H0 & -> & _)%comps_old. destruct (tb_handle _ _ _ _ _ T i' c0 H0). split; [done|lia].
  - intros i' c' [[-> ->]|[Hc' Hne]]%comps_cases; [by cbn; rewrite after_owned|].
    rewrite (owned_agree counters after); [| |intros j; by apply after_other].
    2:{ rewrite (li_length _ _ _ _ spliced). apply length_insert. }
    eapply chain_agree; [|by eapply tb_chain]. intros j Hj.
    rewrite (li_old _ _ _ _ spliced); [| |intros Hj'].
    + rewrite slot_at_insert, decide_False; [done| |by eapply lookup_lt_Some].
      intros ->. apply owned_elem in Hj as (cn & Hj & _). unfold slot_at in Hj. by rewrite free_counter in Hj.
    + intros ->. apply owned_elem in Hj as (cn & Hj & _). unfold slot_at in Hj. by rewrite free_counter in Hj.
    + apply owned_elem in Hj as (cn & Hj & H1), Hj' as (cn' & Hj' & H2). congruence.
  - intros j cn Hj. destruct (after_cases j cn Hj) as [(_ & -> & Hcode)|(cn0 & H0 & -> & Hcode)].
    + split; [apply comps_find; exists c; apply find_slot_Some|].
      * destruct (tb_handle _ _ _ _ _ T i c here) as [-> _]. done.
      * intros k' g'. rewrite Hcode. intros [= _ <-]. lia.
    + destruct (tb_counter _ _ _ _ _ T j cn0 H0) as [H1 H2]. split; [by apply comps_find|].
      intros k' g'. rewrite Hcode. intros Hk%H2. lia.
  - intros j1 j2 cn1 cn2 H1 H2 Hc Hco.
    assert (∀ j cn, slot_at counters j = Some cn → cn_code cn ≠ CodeExtension k (N.succ g)) as Hnew.
    { intros j cn Hj Heq. destruct (tb_counter _ _ _ _ _ T j cn Hj) as [_ Hg]. specialize (Hg _ _ Heq). lia. }
    destruct (after_cases j1 cn1 H1) as [(-> & _ & E1)|(c1 & O1 & A1 & B1)],
      (after_cases j2 cn2 H2) as [(-> & _ & E2)|(c2 & O2 & A2 & B2)]; [done| | |].
    + destruct (Hnew j2 c2 O2). congruence.
    + destruct (Hnew j1 c1 O1). congruence.
    + eapply (tb_codes _ _ _ _ _ T); [exact O1|exact O2|congruence|congruence].
  - intros i' c' w (c0 & H0 & _ & Hw)%comps_old. rewrite Hw. by eapply tb_window.
  - intros i1 i2 c1 c2 w1 w2 n (d1 & H1 & _ & ->)%comps_old (d2 & H2 & _ & ->)%comps_old. by eapply tb_disjoint.
  - intros k' e' [[-> ->]|He]%slot_at_add; [| |done].
    + rewrite owner, fresh. split_and!; [|lia|done|].
      * apply comps_find. exists c. apply find_slot_Some. destruct (tb_handle _ _ _ _ _ T i c here) as [-> _]. done.
      * destruct after_new as (cn & H1 & H2 & H3). by exists index, cn.
    + destruct (tb_extension _ _ _ _ _ T k' e' He) as (F & G & Ln & j & cn0 & Hj & Hc1 & Hc2).
      split_and!; [by apply comps_find|lia|done|]. destruct (after_old j cn0 Hj) as (cn & A1 & A2 & A3).
      exists j, cn. split_and!; [done|congruence|congruence].
Qed.
End Extend.
