(* ===== verification/DiagService.v ===== *)
(** * The operations of the service keep the invariant

    Registration, extension, class, closing, refresh, discarding and
    recording, each as a whole: none panics, each keeps the invariant of the
    store on success and on every error path, keeps the retained events in
    order, dropping some of them at most, and never makes a stale handle
    valid again. *)

From stdpp Require Import base numbers strings list sorting.
From S2P Require Import Prelude Text Utf8 DetailPool DetailPoolFacts DiagCatalogue DiagTypes DiagState DiagRecording DiagLifecycle DiagInvariant DiagHistory DiagTables DiagReclaim DiagInstall.

Section Service.
Context {B : Type} `{!CircularBuffer StoredObservation B, !CircularLaws StoredObservation B}.
Context (limits : DiagnosticLimits).
Implicit Types s : State B.

(** ** How the store evolves *)

(** A descriptor keeps its identity, its name and the classes it has. *)
Record extends (e e' : ExtensionSlot) : Prop := {
  xt_generation : es_generation e' = es_generation e;
  xt_component : es_component e' = es_component e;
  xt_name : es_name e' = es_name e;
  xt_classes : ∀ i n, slot_at (es_opaque_classes e) i = Some n → slot_at (es_opaque_classes e') i = Some n;
}.

#[global] Instance extends_refl : Reflexive extends.
Proof. by split. Qed.

#[global] Instance extends_trans : Transitive extends.
Proof. intros e1 e2 e3 [] []. split; [congruence..|eauto]. Qed.

Lemma extends_same exts k e : slot_at exts k = Some e → ∃ e', slot_at exts k = Some e' ∧ extends e e'.
Proof. intros He. by exists e. Qed.

#[local] Hint Resolve extends_same : core.

(** Handles stay valid or become stale, but a stale one stays stale; no open
    component is closed or lost, [touched] apart. *)
Record evolves (touched : option ComponentHandle) s s' : Prop := {
  vo_generation : (st_generation s ≤ st_generation s')%N;
  vo_sequence : (st_sequence s ≤ st_sequence s')%N;
  vo_from : ∀ h c', component s' h = Some c' → (st_generation s < ch_generation h)%N
    ∨ ∃ c, component s h = Some c ∧ cs_key c' = cs_key c
        ∧ (cs_closed_at c ≠ None → cs_closed_at c' = cs_closed_at c);
  vo_open : ∀ h c, component s h = Some c → cs_closed_at c = None → Some h ≠ touched →
    ∃ c', component s' h = Some c' ∧ cs_closed_at c' = None;
  vo_ext : ∀ k e, slot_at (st_extensions s) k = Some e → (ch_generation (es_component e) ≤ st_generation s)%N →
    is_Some (component s' (es_component e)) → ∃ e', slot_at (st_extensions s') k = Some e' ∧ extends e e';
}.

#[global] Instance evolves_refl t : Reflexive (evolves t).
Proof. split; eauto; done. Qed.

#[global] Instance evolves_trans t : Transitive (evolves t).
Proof.
  intros s1 s2 s3 [G1 Q1 F1 O1 X1] [G2 Q2 F2 O2 X2]. split; [by etrans|by etrans| | |].
  - intros h c3 H3. destruct (F2 h c3 H3) as [?|(c2 & H2 & K2 & L2)]; [left; lia|].
    destruct (F1 h c2 H2) as [?|(c1 & H1 & K1 & L1)]; [by left|]. right. exists c1.
    split_and!; [done|congruence|]. intros Hc. rewrite L2; [by apply L1|]. by rewrite L1.
  - intros h c Hc Ho Ht. destruct (O1 h c Hc Ho Ht) as (c2 & H2 & Ho2). by apply (O2 h c2).
  - intros k e He Hg [c3 H3]. destruct (F2 _ c3 H3) as [?|(c2 & H2 & _)]; [lia|].
    destruct (X1 k e He Hg) as (e2 & He2 & E2); [by exists c2|].
    destruct (X2 k e2 He2) as (e3 & He3 & E3); [rewrite (xt_component _ _ E2); lia|rewrite (xt_component _ _ E2); by exists c3|].
    exists e3. split; [done|by etrans].
Qed.

(** Shapes and closing times decide what a handle finds. *)
Lemma evolves_same t s s' :
  (st_generation s ≤ st_generation s')%N → (st_sequence s ≤ st_sequence s')%N →
  (∀ i c', slot_at (st_components s') i = Some c' →
    ∃ c, slot_at (st_components s) i = Some c ∧ shape c = shape c' ∧ status c = status c') →
  (∀ i c, slot_at (st_components s) i = Some c → cs_closed_at c = None →
    ∃ c', slot_at (st_components s') i = Some c' ∧ shape c' = shape c ∧ status c' = status c) →
  (∀ k e, slot_at (st_extensions s) k = Some e → is_Some (component s' (es_component e)) →
    ∃ e', slot_at (st_extensions s') k = Some e' ∧ extends e e') →
  evolves t s s'.
Proof.
  intros Hg Hq Hfrom Hopen Hext. split; [done..| | |by eauto].
  - intros h c' [Hi Hh]%find_slot_Some. destruct (Hfrom _ _ Hi) as (c & Hc & Hs & Ht).
    unfold shape, status in *. right. exists c. split_and!; [|congruence|congruence].
    apply find_slot_Some. split; [done|congruence].
  - intros h c [Hi Hh]%find_slot_Some Ho _. destruct (Hopen _ _ Hi Ho) as (c' & Hc & Hs & Ht).
    unfold shape, status in *. exists c'. split; [|congruence]. apply find_slot_Some. split; [done|congruence].
Qed.

Lemma evolves_reclaims t s s' : reclaims s s' → evolves t s s'.
Proof.
  intros []. apply evolves_same; [lia|done..|]. intros k e Hk He. exists e. split; [by apply rc_ext|done].
Qed.

Lemma evolves_tables t s s' :
  (st_generation s ≤ st_generation s')%N → (st_sequence s ≤ st_sequence s')%N →
  shapes (st_components s') = shapes (st_components s) → statuses (st_components s') = statuses (st_components s) →
  st_extensions s' = st_extensions s → evolves t s s'.
Proof.
  intros Hg Hq Hs Ht Hx. apply evolves_same; [done..| | |rewrite Hx; by eauto].
  - intros i c' Hc'. destruct (slot_at_same shape _ _ i c' Hs Hc') as (c1 & H1 & E1).
    destruct (slot_at_same status _ _ i c' Ht Hc') as (c2 & H2 & E2). exists c1. split_and!; [done|done|congruence].
  - intros i c Hc _. destruct (slot_at_same shape _ _ i c (eq_sym Hs) Hc) as (c1 & H1 & E1).
    destruct (slot_at_same status _ _ i c (eq_sym Ht) Hc) as (c2 & H2 & E2). exists c1. split_and!; [done|done|congruence].
Qed.

Lemma evolves_keeps t s s' : keeps s s' → evolves t s s'.
Proof. intros [G Q _ _ X _ S T _]. apply evolves_tables; [by rewrite G|by rewrite Q|done..]. Qed.

Lemma evolves_counts t s s' : same_but_counts s s' → evolves t s s'.
Proof. intros (seq & loss & Hq & ->). by apply evolves_tables. Qed.

(** The store is sound, its history is part of [hs], and it evolved from
    [s]. *)
Definition good (t : option ComponentHandle) (hs : list Held) s s' : Prop :=
  (∃ hs', store_ok limits s' hs' ∧ sublist hs' hs) ∧ evolves t s s'.

Lemma good_of t hs s s' : store_ok limits s' hs → evolves t s s' → good t hs s s'.
Proof. intros Hs Hv. split; [by exists hs|done]. Qed.

Lemma good_sublist t hs hs' s s' s'' :
  sublist hs' hs → evolves t s s' → good t hs' s' s'' → good t hs s s''.
Proof.
  intros Hsub Hv [(hs2 & H2 & H3) Hv']. split; [|by etrans]. exists hs2. split; [done|by etrans].
Qed.

Lemma counts_note s k n : same_but_counts s (set_loss s (loss_add (st_loss s) k n)).
Proof. exists (st_sequence s), (loss_add (st_loss s) k n). split; [lia|by destruct s]. Qed.

Lemma good_loss t hs s loss :
  store_ok limits s hs → ls_count loss EventsEvicted = ls_count (st_loss s) EventsEvicted →
  ls_count loss EventsOmitted = ls_count (st_loss s) EventsOmitted → good t hs s (set_loss s loss).
Proof.
  intros Hs H1 H2. apply good_of; [|by apply evolves_tables].
  apply (store_mid_loss limits 0 [] s hs (st_sequence s) loss) in Hs; [|done..]. by destruct s.
Qed.

Lemma good_note t hs s k n :
  store_ok limits s hs → k ≠ EventsEvicted → k ≠ EventsOmitted →
  good t hs s (set_loss s (loss_add (st_loss s) k n)).
Proof. intros Hs H1 H2. apply good_of; [by apply store_mid_note|apply evolves_counts, counts_note]. Qed.

Lemma good_refl t hs s : store_ok limits s hs → good t hs s s.
Proof. intros Hs. by apply good_of. Qed.

(** An error that is noted leaves the store sound. *)
Lemma reject_wp {A} t e hs s (Q : A → State B → Prop) (E : DiagnosticError → State B → Prop) :
  store_ok limits s hs → (∀ s', good t hs s s' → E e s') → wp (reject e) Q E s.
Proof.
  intros Hs HE. unfold reject. apply wp_bind.
  destruct e; wp_run; apply HE; first [by apply good_refl|by apply good_note].
Qed.

Lemma ensure_revision_wp t hs s (Q : unit → State B → Prop) E :
  store_ok limits s hs → (st_generation s ≠ max_u64 → st_sequence s ≠ max_u64 → Q tt s) →
  (∀ s', good t hs s s' → E SequenceExhausted s') → wp ensure_revision Q E s.
Proof.
  intros Hs HQ HE. unfold wp, ensure_revision.
  assert (good t hs s (set_loss s {| ls_count := ls_count (st_loss s); ls_sequence_saturated := true |})) as Hsat.
  { by apply good_loss. }
  destruct (N.eqb_spec (st_sequence s) max_u64), (N.eqb_spec (st_generation s) max_u64); cbn;
    [by apply HE..|by apply HQ].
Qed.

Lemma admit_when_wp t check hs s (Q : unit → State B → Prop) E :
  store_ok limits s hs →
  (∀ s' hs', store_ok limits s' hs' → sublist hs' hs → reclaims s s' → check s' = None → Q tt s') →
  (∀ e s', good t hs s s' → E e s') → wp (admit_when check) Q E s.
Proof.
  intros Hs HQ HE. unfold admit_when. wp_run. eapply wp_mono; [apply (admit_wp limits 0 []); [exact Hs|lia]| |]; cbv beta.
  - intros [] s' (Hc & Hr & hs' & Hs' & Hsub). by apply (HQ s' hs').
  - intros e s' (hs' & Hs' & Hsub & s1 & loss & Hr & ->). apply HE. split; [by exists hs'|].
    etrans; [by apply evolves_reclaims|]. by apply evolves_tables.
Qed.

(** ** Generations *)

Lemma store_generation x fl s hs g :
  store_mid limits x fl s hs → (st_generation s ≤ g ≤ max_u64)%N → store_mid limits x fl (set_generation s g) hs.
Proof.
  intros [T H Me Bu Ev Ca Ck] Hg. split; cbn; try done; [|lia]. eapply tables_same; [exact T|done..|lia].
Qed.

(** [next_generation] and [next_sequence] at the start of an installation. *)
Lemma next_revision_wp {A} t hs s (k : N → M B A) (Q : A → State B → Prop) E :
  store_ok limits s hs → st_generation s ≠ max_u64 →
  (∀ s', store_ok limits s' hs → same_but_counts (set_generation s (N.succ (st_generation s))) s' →
     evolves t s s' → wp (k (N.succ (st_generation s))) Q E s') →
  (∀ s', good t hs s s' → E SequenceExhausted s') →
  wp (generation ← next_generation; _ ← next_sequence; k generation) Q E s.
Proof.
  intros Hs Hg HQ HE. apply wp_bind. unfold next_generation at 1. unfold wp at 1.
  rewrite (proj2 (N.eqb_neq _ _) Hg). pose proof (sk_clock _ _ _ _ _ Hs) as Hck.
  set (s1 := set_generation s (N.succ (st_generation s))).
  assert (store_ok limits s1 hs) as Hs1 by (apply store_generation; [done|lia]).
  assert (∀ s', same_but_counts s1 s' → evolves t s s') as Hev.
  { intros s' Hc. transitivity s1; [|by apply evolves_counts]. apply evolves_tables; [cbn; lia|done..]. }
  apply wp_bind. eapply next_sequence_wp; [exact Hs1| |].
  - intros s' Hs' Hc _. apply HQ; auto.
  - intros s' Hs' Hc. apply HE, good_of; auto.
Qed.
(** ** Registration of a component *)

Lemma reserve_windows_wp w (Q : unit → State B → Prop) E s :
  wr_start w + wr_len w ≤ length (st_windows s) →
  Q tt (set_windows s (take (wr_start w) (st_windows s) ++ replicate (wr_len w) (Some empty_window)
                       ++ drop (wr_start w + wr_len w) (st_windows s))) → wp (reserve_windows w) Q E s.
Proof. intros Hw HQ. unfold wp, reserve_windows. by rewrite (proj2 (Nat.leb_le _ _) Hw). Qed.

Lemma has_duplicate_NoDup codes : has_duplicate codes = false → NoDup codes.
Proof.
  induction codes as [|code codes IH]; cbn; [constructor|]. intros [H1 H2]%orb_false_iff.
  apply bool_decide_eq_false in H1. constructor; [done|by apply IH].
Qed.

Lemma reserved_nil handle counters : reserved handle counters counters [] [].
Proof. by split; try constructor. Qed.

(** The store with one more component. *)
Lemma store_add s hs i c counters' windows' metadata :
  store_ok limits s hs → st_components s !! i = Some None →
  tables_ok (<[i:=Some c]> (st_components s)) counters' windows' (st_extensions s) (st_generation s) →
  component_bytes (Some c) = metadata →
  (st_metadata_used s + metadata ≤ lm_max_metadata_bytes limits)%N →
  store_ok limits
    (set_metadata_used (set_components (set_windows (set_counters s counters') windows')
       (<[i:=Some c]> (st_components s))) (st_metadata_used s + metadata)%N) hs.
Proof.
  intros [T [H1 H2 H3] Me Bu Ev Ca Ck] Hi Ht Hb Hm. split; cbn; try done.
  - split; [done| |done]. eapply Forall_impl; [exact H2|]. intros he [[c' Hc'] Hp]. split; [|done].
    exists c'. by apply find_slot_add.
  - rewrite Me. unfold metadata_bytes_of. rewrite (sum_N_add component_bytes _ i c) by done. lia.
Qed.

(** ** The counters of a component *)

Lemma counters_from_elem fuel counters h next p :
  p ∈ counters_from fuel counters h next → slot_at counters p.1 = Some p.2 ∧ cn_component p.2 = h.
Proof.
  revert next. induction fuel as [|fuel IH]; intros next; cbn [counters_from]; [by intros ?%not_elem_of_nil|].
  destruct next as [index|]; [|by intros ?%not_elem_of_nil].
  destruct (slot_at counters index) as [cn|] eqn:Hcn; [|by intros ?%not_elem_of_nil].
  case_decide; [|by intros ?%not_elem_of_nil]. intros [->|Hp]%elem_of_cons; [done|by eapply IH].
Qed.

Lemma counters_from_chain fuel counters h next ix :
  chain counters next ix → (∀ j, j ∈ ix → owns counters h j) → length ix ≤ fuel →
  (counters_from fuel counters h next).*1 = ix.
Proof.
  revert fuel next. induction ix as [|j ix IH]; intros fuel next Hc Ho Hf.
  { cbn in Hc. subst next. by destruct fuel. }
  destruct fuel as [|fuel]; [cbn in Hf; lia|]. destruct Hc as (-> & cn & Hcn & Hc). cbn [counters_from].
  rewrite Hcn. destruct (Ho j) as (cn' & Hcn' & Hh); [by left|]. rewrite decide_True by congruence.
  rewrite fmap_cons. cbn [fst]. f_equal. apply IH; [done| |cbn in Hf; lia]. intros k Hk. apply Ho. by right.
Qed.

(** The counters a component walks are the ones it owns, in pool order. *)
Lemma component_counters_owned s hs h c :
  store_ok limits s hs → component s h = Some c → (component_counters s h).*1 = owned (st_counters s) h.
Proof.
  intros Hs Hc. apply find_slot_Some in Hc as Hc'. destruct Hc' as [Hi Hh].
  unfold component_counters. rewrite Hc. cbn [mbind option_bind]. apply counters_from_chain.
  - rewrite <-Hh. by eapply tb_chain; [apply Hs|].
  - intros j. apply owned_elem.
  - apply owned_short.
Qed.

(** The codes a component has declared. *)
Definition component_codes s (h : ComponentHandle) : list StoredCode := cn_code ∘ snd <$> component_counters s h.

Lemma component_codes_reserved s hs h c before ix codes :
  store_ok limits s hs → component s h = Some c → owned (st_counters s) h = ix →
  reserved h before (st_counters s) ix codes → length ix = length codes →
  component_codes s h = CodeBuiltin <$> codes.
Proof.
  intros Hs Hc Hown Hres Hlen. pose proof (component_counters_owned _ _ _ _ Hs Hc) as Hfst. rewrite Hown in Hfst.
  unfold component_codes. apply list_eq_same_length with (length codes).
  - by rewrite length_fmap.
  - by rewrite length_fmap, <-(length_fmap fst), Hfst.
  - intros k x y Hk Hx Hy. apply list_lookup_fmap_Some in Hx as (p & -> & Hp), Hy as (code & -> & Hcode).
    destruct (counters_from_elem _ _ _ _ _ (list_elem_of_lookup_2 _ _ _ Hp)) as [Hslot _].
    destruct (rs_new _ _ _ _ _ Hres k p.1) as (_ & cn & code' & H1 & _ & H2 & H3).
    { by rewrite <-Hfst, list_lookup_fmap, Hp. }
    cbn. congruence.
Qed.

(** ** Installing a component *)

(** The component that a registration has made. *)
Record installed (registration : ComponentRegistration) (attribution : Ownership) (h : ComponentHandle) s s' :
    Prop := {
  in_fresh : (st_generation s < ch_generation h)%N;
  in_slot : ∃ c, component s' h = Some c ∧ cs_key c = cr_key registration ∧ cs_closed_at c = None
    ∧ rf_ownership (cs_refresh c) = attribution ∧ cs_lifetime c = zero_lifetime;
  in_codes : component_codes s' h = CodeBuiltin <$> cr_builtin_codes registration;
}.

Lemma admission_room inner s metadata codes windows :
  in_limits inner = limits → component_admission s inner metadata codes windows = None →
  free_slots (st_components s) ≠ 0 ∧ codes ≤ free_slots (st_counters s)
  ∧ is_Some (free_window_start s windows) ∧ (st_metadata_used s + metadata ≤ lm_max_metadata_bytes limits)%N.
Proof.
  intros <-. unfold component_admission, metadata_full.
  destruct (Nat.eqb_spec (free_slots (st_components s)) 0); [done|].
  destruct (Nat.ltb_spec (free_slots (st_counters s)) codes); [done|].
  destruct (free_window_start s windows); [|done]. cbn [is_free].
  destruct (N.ltb_spec usize_max (st_metadata_used s + metadata)); [done|].
  destruct (N.ltb_spec (lm_max_metadata_bytes (in_limits inner)) (st_metadata_used s + metadata)); [done|].
  intros _. split_and!; [done|done|by eexists|done].
Qed.

(** The settings a registration gives for its window. *)
Definition window_settings_ok (registration : ComponentRegistration) : Prop :=
  ∀ v, cr_window registration = Some v → 0 < wi_bucket_count v ∧ (0 < wi_resolution_millis v)%N.

(** Reserving the windows of a component, if it has any. *)
Lemma windows_wp {A} registration start s (k : M B A) (Q : A → State B → Prop) E :
  window_settings_ok registration →
  free_window_start s (from_option wi_bucket_count 0 (cr_window registration)) = Some start →
  let window := (λ v, {| wr_start := start; wr_len := wi_bucket_count v;
                         wr_resolution_millis := wi_resolution_millis v |}) <$> cr_window registration in
  (∀ windows', length windows' = length (st_windows s) →
     (∀ j, slot_at (st_windows s) j ≠ None → slot_at windows' j ≠ None) →
     (∀ w, window = Some w → 0 < wr_len w ∧ (0 < wr_resolution_millis w)%N
       ∧ wr_start w + wr_len w ≤ length (st_windows s)
       ∧ ∀ j, in_window w j → slot_at (st_windows s) j = None ∧ slot_at windows' j ≠ None) →
     wp k Q E (set_windows s windows')) →
  wp (match window with Some w => reserve_windows w | None => mret tt end;; k) Q E s.
Proof.
  intros Hset Hstart window Hk. apply wp_bind. destruct (cr_window registration) as [v|] eqn:Hv; cbn [fmap option_fmap option_map] in window.
  - destruct (Hset v Hv) as [Hb Hr]. destruct (free_window_start_spec s _ start Hb Hstart) as [Hlen Hfree].
    set (w := {| wr_start := start; wr_len := wi_bucket_count v; wr_resolution_millis := wi_resolution_millis v |}).
    apply (reserve_windows_wp w); [done|]. apply Hk.
    + by apply (length_range w).
    + intros j Hj. rewrite (slot_at_range w) by done. by case_decide.
    + intros w' [= <-]. split_and!; [done..|]. intros j Hj. split; [by apply Hfree|].
      rewrite (slot_at_range w) by done. by rewrite decide_True.
  - wp_run. replace s with (set_windows s (st_windows s)) by (by destruct s). by apply Hk.
Qed.

Lemma install_component_wp inner clock registration attribution hs s E :
  let codes := cr_builtin_codes registration in
  let metadata := (slen (cr_key registration) + ownership_bytes attribution)%N in
  let count := from_option wi_bucket_count 0 (cr_window registration) in
  store_ok limits s hs → st_generation s ≠ max_u64 → in_limits inner = limits → NoDup codes →
  window_settings_ok registration →
  component_admission s inner metadata (length codes) count = None →
  (∀ s', good None hs s s' → E SequenceExhausted s') →
  wp (install_component clock registration attribution metadata count)
    (λ r s', good None hs s s' ∧ installed registration attribution r.1 s s') E s.
Proof.
  intros codes metadata count Hs Hg Hlim Hnd Hset Hadm HE.
  destruct (admission_room _ _ _ _ _ Hlim Hadm) as (Hfree & Hcnt & [start Hstart] & Hroom).
  destruct (first_free_exists _ Hfree) as [i Hi]. unfold install_component. apply wp_bind, wp_gets. rewrite Hi.
  apply wp_bind, wp_expect, wp_bind, wp_gets. rewrite Hstart. apply wp_bind, wp_expect.
  apply (next_revision_wp None hs); [done|done| |done]. intros s1 Hs1 (seq & loss & Hq & ->) Hev. cbv zeta.
  set (s1 := set_loss _ loss) in *. set (h := {| ch_slot := i; ch_generation := N.succ (st_generation s) |}).
  apply first_free_Some in Hi. apply wp_bind. unfold reserve_builtin_counters. apply wp_bind, wp_gets.
  eapply wp_mono; [apply (reserve_from_wp h (st_counters s) _ 0 codes None None s1 [] []);
    [apply reserved_nil|done|done|by intros j Hj%not_elem_of_nil|done|done|done]| |done].
  cbv beta. intros head s2 (after & ix & -> & Hres & Hix & Hch). cbn [app] in Hres, Hix.
  eapply (windows_wp registration start); [done|exact Hstart|]. intros windows' Hwl Hkeep Hwin. wp_run.
  set (c := new_component _ _ _ _ _ _ _ _).
  assert (tables_ok (<[i:=Some c]> (st_components s)) after windows' (st_extensions s) (N.succ (st_generation s))) as Ht.
  { eapply (tables_add _ _ _ _ _ _ _ i c ix codes); [apply Hs|done..|exact Hwin]. }
  assert (store_ok limits (set_metadata_used (set_components (set_windows (set_counters s1 after) windows')
    (<[i:=Some c]> (st_components s1))) (st_metadata_used s1 + metadata)%N) hs) as Hs2 by (by apply store_add).
  assert (find_slot (<[i:=Some c]> (st_components s)) h = Some c) as Hfind.
  { apply find_slot_Some. split; [|done]. apply slot_at_add; [done|]. by left. }
  split; [apply good_of; [exact Hs2|]|split].
  - split; [apply Hev..| | |].
    + intros h' c' [Hc' Hh']%find_slot_Some. apply slot_at_add in Hc' as [[_ ->]|Hc']; [| |done].
      * left. rewrite <-Hh'. cbn. lia.
      * right. exists c'. split_and!; [|done..]. by apply find_slot_Some.
    + intros h' c' Hc' Ho _. exists c'. split; [|done]. by apply find_slot_add.
    + by eauto.
  - cbn. lia.
  - by exists c.
  - eapply component_codes_reserved; [exact Hs2|exact Hfind| |exact Hres|done].
    assert (find_slot (st_components s) h = None) as Hnone by (unfold find_slot; cbn; unfold slot_at; by rewrite Hi).
    by destruct (owned_reserved _ _ _ _ _ h _ _ _ (sk_tables _ _ _ _ _ Hs) Hnone Hres) as (_ & ? & _).
Qed.

Lemma register_component_wp inner clock registration hs s :
  store_ok limits s hs → in_limits inner = limits →
  wp (register_component inner clock registration)
    (λ r s', good None hs s s' ∧ ∃ attribution, checked_ownership (cr_ownership registration) limits = inr attribution
      ∧ installed registration attribution r.1 s s')
    (λ _ s', good None hs s s') s.
Proof.
  intros Hs Hlim. unfold register_component. rewrite Hlim.
  pose proof (good_refl None hs s Hs) as Hrefl.
  destruct (negb (valid_name _ _)); [by wp_run|]. wp_run.
  destruct (length (st_counters s) <? _); [by apply (reject_wp None _ hs)|].
  destruct (has_duplicate _) eqn:Hdup; [by wp_run|]. apply has_duplicate_NoDup in Hdup.
  destruct (negb (text_fits _ _)); [by wp_run|].
  destruct (checked_ownership _ _) as [e|attribution] eqn:Hown; [by apply (reject_wp None _ hs)|]. cbv zeta.
  destruct (usize_max <? _)%N; [by wp_run|].
  destruct (lm_max_metadata_bytes limits <? _)%N; [by apply (reject_wp None _ hs)|]. wp_run.
  destruct (_ || _) eqn:Hwin; [by apply (reject_wp None _ hs)|]. apply orb_false_iff in Hwin as [Hwin _]. wp_run.
  eapply (ensure_revision_wp None hs); [done| |done]. intros Hg _. wp_run.
  eapply (admit_when_wp None _ hs); [done| |done]. intros s1 hs1 Hs1 Hsub Hr Hadm.
  pose proof (rc_generation _ _ Hr) as Hgen. pose proof (evolves_reclaims None _ _ Hr) as Hev.
  eapply wp_mono; [apply (install_component_wp inner clock registration attribution hs1 s1
    (λ _ s', good None hs s s')); try done| |done].
  - by rewrite Hgen.
  - intros v Hv. rewrite Hv in Hwin. cbn in Hwin. apply orb_false_iff in Hwin as [H1 H2].
    apply Nat.eqb_neq in H1. apply N.eqb_neq in H2. lia.
  - intros s2 Hgood. by eapply good_sublist.
  - cbv beta. intros r s2 [Hgood [I1 I2 I3]]. split; [by eapply good_sublist|]. exists attribution. split; [done|].
    split; [by rewrite <-Hgen|done..].
Qed.

(** ** Closing, discarding and refresh *)

Lemma sum_N_update {A} (f : option A → N) (l : list (option A)) i a a' :
  f None = 0%N → slot_at l i = Some a → (sum_N (f <$> <[i:=Some a']> l) + f (Some a) = sum_N (f <$> l) + f (Some a'))%N.
Proof.
  intros Hf Ha. pose proof (slot_at_lt _ _ _ Ha) as Hlt. rewrite (sum_N_remove f l i a) by done.
  rewrite (sum_N_remove f (<[i:=Some a']> l) i a'); [rewrite list_insert_insert_eq; lia|done|].
  by rewrite slot_at_insert, decide_True.
Qed.

(** A component is replaced by one in the same place. *)
Lemma store_update x fl s hs i c c' used :
  store_mid limits x fl s hs → slot_at (st_components s) i = Some c → place c' = place c →
  (used + component_bytes (Some c) = st_metadata_used s + component_bytes (Some c'))%N →
  (used ≤ lm_max_metadata_bytes limits)%N →
  store_mid limits x fl (set_metadata_used (set_components s (<[i:=Some c']> (st_components s))) used) hs.
Proof.
  intros [T H Me Bu Ev Ca Ck] Hi Hp Hu Hb.
  assert (places (<[i:=Some c']> (st_components s)) = places (st_components s)) as Hpl by (by eapply same_insert).
  split; cbn; try done; [by eapply tables_same|by eapply history_same|].
  pose proof (sum_N_update component_bytes (st_components s) i c c' eq_refl Hi) as Hsum.
  unfold metadata_bytes_of in *. lia.
Qed.

Lemma evolves_update t s h c c' used :
  component s h = Some c → cs_handle c' = h → cs_key c' = cs_key c →
  cs_closed_at c' = cs_closed_at c ∨ cs_closed_at c = None ∧ t = Some h →
  evolves t s (set_metadata_used (set_components s (<[ch_slot h:=Some c']> (st_components s))) used).
Proof.
  intros [Hi Hh]%find_slot_Some Hh' Hk Hcl. pose proof (slot_at_lt _ _ _ Hi) as Hlt. split; [done..| | |by eauto].
  - intros g d [Hd Hg]%find_slot_Some. right. cbn in Hd. rewrite slot_at_insert in Hd by done.
    case_decide as Hj; [|exists d; split_and!; [by apply find_slot_Some|done..]].
    injection Hd as <-. exists c. split_and!; [|done|].
    + apply find_slot_Some. rewrite Hj. split; congruence.
    + intros Hne. by destruct Hcl as [?|[? _]].
  - intros g d [Hd Hg]%find_slot_Some Ho Hne. destruct (decide (g = h)) as [->|Hgh].
    + exists c'. split; [|destruct Hcl as [->|[_ ->]]; congruence]. apply find_slot_Some. cbn.
      by rewrite slot_at_insert, decide_True.
    + exists d. split; [|done]. apply find_slot_Some. split; [|done]. cbn.
      rewrite slot_at_insert, decide_False; [done| |done]. intros Heq. rewrite Heq in Hd. congruence.
Qed.

(** A component of a store is found by its handle after an update. *)
Lemma component_update s h c c' used :
  component s h = Some c → cs_handle c' = h →
  component (set_metadata_used (set_components s (<[ch_slot h:=Some c']> (st_components s))) used) h = Some c'.
Proof.
  intros [Hi Hh]%find_slot_Some Hh'. apply find_slot_Some. cbn. rewrite slot_at_insert, decide_True; [done|done|].
  by eapply slot_at_lt.
Qed.

Lemma counts_component s s' h : same_but_counts s s' → component s' h = component s h.
Proof. by intros (seq & loss & _ & ->). Qed.

Lemma close_component_wp clock h hs s :
  store_ok limits s hs →
  wp (close_component clock h)
    (λ b s', good (Some h) hs s s' ∧ ∃ c, component s' h = Some c ∧ cs_closed_at c ≠ None
      ∧ (b = true ↔ ∃ c0, component s h = Some c0 ∧ cs_closed_at c0 = None))
    (λ e s', good (Some h) hs s s'
      ∧ (e = ComponentClosed ∧ component s h = None ∧ s' = s ∨ e = SequenceExhausted)) s.
Proof.
  intros Hs. pose proof (good_refl (Some h) hs s Hs) as Hrefl. unfold close_component. wp_run.
  apply wp_ok_or; [|intros Hn; split; [done|by left]]. intros c Hc. destruct (cs_closed_at c) as [t|] eqn:Hcl.
  { wp_run. split; [done|]. exists c. split_and!; [done|by rewrite Hcl|]. split; [done|].
    intros (c0 & Hc0 & Ho). congruence. }
  apply find_slot_Some in Hc as Hc'. destruct Hc' as [Hi Hh]. wp_run.
  eapply next_sequence_wp; [exact Hs| |].
  2:{ intros s' Hs' Hcnt. split; [|by right]. apply good_of; [done|by apply evolves_counts]. }
  intros s1 Hs1 Hcnt _. wp_run. pose proof (counts_component _ _ h Hcnt) as Hsame. rewrite Hc in Hsame.
  apply find_slot_Some in Hsame as Hsame'. destruct Hsame' as [Hi1 _].
  eapply update_component_wp; [exact Hi1|]. wp_run.
  set (c' := slot_closed c (ck_now clock) (ck_tick clock)).
  replace (set_components s1 (<[ch_slot h:=Some c']> (st_components s1)))
    with (set_metadata_used (set_components s1 (<[ch_slot h:=Some c']> (st_components s1))) (st_metadata_used s1))
    by (by destruct s1).
  split.
  - apply good_of; [eapply store_update; [exact Hs1|exact Hi1|done|done|apply Hs1]|].
    transitivity s1; [by apply evolves_counts|]. eapply evolves_update; [exact Hsame|done|done|by right].
  - exists c'. split_and!; [by eapply component_update|done|]. split; [by exists c|done].
Qed.

(** A reclaimed component is gone, the others are not. *)
Lemma evolves_reclaimed s s' h c :
  component s h = Some c → reclaimed (ch_slot h) c s s' → evolves (Some h) s s'.
Proof.
  intros [Hi Hh]%find_slot_Some [R1 G Q [S T] X _ _ _]. split; [by rewrite G|done| | |by eauto].
  - intros g d' [Hd Hg]%find_slot_Some. right.
    assert (ch_slot g ≠ ch_slot h) as Hne by congruence.
    assert (slot_at (<[ch_slot h:=None]> (st_components s')) (ch_slot g) = Some d') as Hd'
      by (by rewrite slot_at_insert_None, decide_False).
    destruct (slot_at_same shape _ _ _ _ S Hd') as (d1 & H1 & E1).
    destruct (slot_at_same status _ _ _ _ T Hd') as (d2 & H2 & E2).
    rewrite slot_at_insert_None, decide_False in H1, H2 by done. unfold shape, status in *.
    exists d1. split_and!; [apply find_slot_Some; split; [done|congruence]|congruence|congruence].
  - intros g d [Hd Hg]%find_slot_Some Ho Hne'.
    assert (ch_slot g ≠ ch_slot h) as Hne by (intros Heq; rewrite Heq in Hd; congruence).
    assert (slot_at (<[ch_slot h:=None]> (st_components s)) (ch_slot g) = Some d) as Hd'
      by (by rewrite slot_at_insert_None, decide_False).
    destruct (slot_at_same shape _ _ _ _ (eq_sym S) Hd') as (d1 & H1 & E1).
    destruct (slot_at_same status _ _ _ _ (eq_sym T) Hd') as (d2 & H2 & E2).
    rewrite slot_at_insert_None, decide_False in H1, H2 by done. unfold shape, status in *.
    exists d1. split; [apply find_slot_Some; split; [done|congruence]|congruence].
Qed.

(** Discarding takes a component that has recorded nothing. *)
Lemma discard_wp h hs s :
  store_ok limits s hs →
  wp (discard_unobserved_component h)
    (λ b s', good (Some h) hs s s' ∧ (if b : bool then component s' h = None else s' = s))
    (λ _ _, False) s.
Proof.
  intros Hs. pose proof (good_refl (Some h) hs s Hs) as Hrefl. unfold discard_unobserved_component. wp_run.
  destruct (component s h) as [c|] eqn:Hc; [|by wp_run]. destruct (_ =? 0)%N; [|by wp_run].
  apply find_slot_Some in Hc as Hc'. destruct Hc' as [Hi Hh].
  eapply wp_mono; [by eapply reclaim_component_wp| |done]. cbv beta. intros r s' (-> & Hs' & Hr). split.
  - split; [|by eapply evolves_reclaimed]. exists (without (cs_handle c) hs). split; [done|]. apply sublist_filter.
  - unfold component. by rewrite (rd_slot _ _ _ _ Hr).
Qed.

Lemma refresh_component_wp inner clock h ownership hs s :
  store_ok limits s hs → in_limits inner = limits →
  wp (refresh_component inner clock h ownership)
    (λ g s', good None hs s s' ∧ ∃ attribution c c', checked_ownership ownership limits = inr attribution
      ∧ component s h = Some c ∧ component s' h = Some c' ∧ g = N.succ (rf_generation (cs_refresh c))
      ∧ rf_generation (cs_refresh c') = g ∧ rf_ownership (cs_refresh c') = attribution
      ∧ rf_totals (cs_refresh c') = zero_totals)
    (λ _ s', good None hs s s') s.
Proof.
  intros Hs Hlim. pose proof (good_refl None hs s Hs) as Hrefl. unfold refresh_component. rewrite Hlim.
  destruct (checked_ownership _ _) as [e|attribution]; [by apply (reject_wp None _ hs)|]. wp_run.
  apply wp_ok_or; [|done]. intros old Hold.
  unfold open_component in Hold. destruct (component s h) as [c|] eqn:Hc; [|done]. cbn in Hold.
  destruct (cs_closed_at c) as [?|] eqn:Hcl; [done|]. injection Hold as <-. wp_run.
  eapply (ensure_revision_wp None hs); [done| |done]. intros _ _. destruct (_ =? max_u64)%N; [by wp_run|]. wp_run. cbv zeta.
  wp_run. eapply (admit_when_wp None _ hs); [done| |done]. intros s1 hs1 Hs1 Hsub Hr Hadm.
  pose proof (evolves_reclaims None _ _ Hr) as Hev1. wp_run.
  eapply next_sequence_wp; [exact Hs1| |].
  2:{ intros s2 Hs2 Hcnt. eapply good_sublist; [done|done|]. apply good_of; [done|by apply evolves_counts]. }
  intros s2 Hs2 Hcnt _. wp_run.
  apply find_slot_Some in Hc as Hc'. destruct Hc' as [Hi Hh].
  destruct (rc_open _ _ Hr _ _ Hi Hcl) as (c1 & Hi1 & Hsh & Hst). unfold shape, status in Hsh, Hst.
  injection Hsh as Hs_h Hs_k Hs_hd Hs_w Hs_o. injection Hst as Hs_c Hs_t _ _.
  assert (slot_at (st_components s2) (ch_slot h) = Some c1) as Hi2 by (by destruct Hcnt as (? & ? & _ & ->)).
  assert (st_metadata_used s2 = st_metadata_used s1) as Hused by (by destruct Hcnt as (? & ? & _ & ->)).
  unfold refresh_admission, metadata_full in Hadm. rewrite Hlim in Hadm.
  destruct (N.ltb_spec usize_max (st_metadata_used s1 - ownership_bytes (rf_ownership (cs_refresh c)) + ownership_bytes attribution)%N); [done|].
  destruct (N.ltb_spec (lm_max_metadata_bytes limits) (st_metadata_used s1 - ownership_bytes (rf_ownership (cs_refresh c)) + ownership_bytes attribution)%N); [done|].
  assert (ownership_bytes (rf_ownership (cs_refresh c)) ≤ st_metadata_used s2)%N as Hge.
  { pose proof (sk_metadata _ _ _ _ _ Hs2) as ->. unfold metadata_bytes_of.
    rewrite (sum_N_remove component_bytes _ _ _ eq_refl Hi2). unfold component_bytes at 1. cbn. rewrite Hs_o. lia. }
  destruct (N.ltb_spec (st_metadata_used s2) (ownership_bytes (rf_ownership (cs_refresh c)))); [lia|]. wp_run.
  eapply update_component_wp; [exact Hi2|]. wp_run.
  set (c' := refreshed c1 _).
  set (used := (st_metadata_used s2 - ownership_bytes (rf_ownership (cs_refresh c)) + ownership_bytes attribution)%N).
  change (set_components (set_metadata_used s2 used) (<[ch_slot h:=Some c']> (st_components (set_metadata_used s2 used))))
    with (set_metadata_used (set_components s2 (<[ch_slot h:=Some c']> (st_components s2))) used).
  assert (component s2 h = Some c1) as Hc2 by (apply find_slot_Some; split; [done|congruence]).
  split.
  - eapply good_sublist; [exact Hsub|exact Hev1|]. apply good_of.
    + eapply store_update; [exact Hs2|exact Hi2|done| |].
      * unfold component_bytes, used, c'. cbn. rewrite Hs_o. lia.
      * unfold used. rewrite Hused. done.
    + transitivity s2; [by apply evolves_counts|]. eapply evolves_update; [exact Hc2|cbn; congruence|done|by left].
  - exists attribution, c, c'. split_and!; try done. eapply component_update; [exact Hc2|]. cbn. congruence.
Qed.
End Service.
