(* ===== verification/DiagExtension.v ===== *)
(** * Extensions keep the invariant

    [register_extension] and [register_extension_class]: a new descriptor
    comes with a counter linked into the chain of its component, and its
    bytes are charged to the metadata account. *)

From stdpp Require Import base numbers strings list sorting.
From S2P Require Import Prelude Text Utf8 DetailPool DetailPoolFacts DiagCatalogue DiagTypes DiagState DiagRecording DiagLifecycle DiagInvariant DiagHistory DiagTables DiagReclaim DiagInstall DiagService.

Section Extension.
Context {B : Type} `{!CircularBuffer StoredObservation B, !CircularLaws StoredObservation B}.
Context (limits : DiagnosticLimits).
Implicit Types s : State B.

#[local] Hint Resolve extends_same : core.

#[local] Notation good := (good limits).
#[local] Notation store_ok := (store_ok limits).

Lemma open_component_Some s h c :
  open_component s h = Some c ↔ component s h = Some c ∧ cs_closed_at c = None.
Proof.
  unfold open_component. destruct (component s h) as [d|]; cbn; [|naive_solver].
  destruct (cs_closed_at d) eqn:Hd; naive_solver.
Qed.

(** An open component stays open, with the same place, when others are
    reclaimed. *)
Lemma open_reclaims s s' h c :
  reclaims s s' → open_component s h = Some c → ∃ c', open_component s' h = Some c' ∧ shape c' = shape c.
Proof.
  intros Hr [Hc Ho]%open_component_Some. apply find_slot_Some in Hc as [Hi Hh].
  destruct (rc_open _ _ Hr _ _ Hi Ho) as (c' & Hi' & Hs & Ht). exists c'. split; [|done].
  unfold shape, status in *. apply open_component_Some. split; [|congruence].
  apply find_slot_Some. split; [done|congruence].
Qed.

Lemma extension_admission_room inner s metadata :
  in_limits inner = limits → extension_admission s inner metadata = None →
  free_slots (st_extensions s) ≠ 0 ∧ free_slots (st_counters s) ≠ 0
  ∧ (st_metadata_used s + metadata ≤ lm_max_metadata_bytes limits)%N.
Proof.
  intros <-. unfold extension_admission, metadata_full.
  destruct (Nat.eqb_spec (free_slots (st_extensions s)) 0); [done|].
  destruct (Nat.eqb_spec (free_slots (st_counters s)) 0); [done|]. cbn [orb].
  destruct (N.ltb_spec usize_max (st_metadata_used s + metadata)); [done|].
  by destruct (N.ltb_spec (lm_max_metadata_bytes (in_limits inner)) (st_metadata_used s + metadata)).
Qed.

(** The store with one more extension. *)
Lemma store_extend s hs i c head after k e metadata :
  store_ok s hs → slot_at (st_components s) i = Some c → st_extensions s !! k = Some None →
  tables_ok (<[i:=Some (slot_with_head c head)]> (st_components s)) after (st_windows s)
    (<[k:=Some e]> (st_extensions s)) (st_generation s) →
  es_component e = cs_handle c → extension_bytes e = metadata → (st_metadata_used s + metadata ≤ lm_max_metadata_bytes limits)%N →
  store_ok
    (set_metadata_used (set_components (set_counters (set_extensions s (<[k:=Some e]> (st_extensions s))) after)
       (<[i:=Some (slot_with_head c head)]> (st_components s))) (st_metadata_used s + metadata)%N) hs.
Proof.
  intros [T [H1 H2 H3] Me Bu Ev Ca Ck] Hi Hk Ht Hown Hb Hm. split; cbn; try done.
  - split; [done| |done]. eapply Forall_impl; [exact H2|]. intros he [Hf Hp]. split; [|done].
    by eapply (comps_find _ i c e).
  - rewrite Me. unfold metadata_bytes_of. rewrite (sum_N_add (from_option extension_bytes 0%N) _ k e) by done.
    pose proof (sum_N_update component_bytes (st_components s) i c (slot_with_head c head) eq_refl Hi) as Hsum.
    change (component_bytes (Some (slot_with_head c head))) with (component_bytes (Some c)) in Hsum. cbn [from_option].
    lia.
Qed.

(** The descriptor that a registration names. *)
Definition describes (registration : ExtensionRegistration) (classes : list FailureClass) (h : ComponentHandle)
    (r : ExtensionHandle) s : Prop :=
  ∃ e, extension_of s h r = Some e
    ∧ es_name e = er_namespace registration +:+ "." +:+ er_name registration
    ∧ es_description e = er_description registration ∧ es_outcome e = er_outcome registration
    ∧ es_allowed_classes e = classes.

Lemma install_extension_wp inner h registration name classes hs s c E :
  let metadata := (slen name + slen (er_description registration))%N in
  store_ok s hs → st_generation s ≠ max_u64 → in_limits inner = limits → open_component s h = Some c →
  extension_admission s inner metadata = None →
  name = er_namespace registration +:+ "." +:+ er_name registration →
  (∀ e s', good None hs s s' → E e s') →
  wp (install_extension inner h registration name classes metadata)
    (λ r s', good None hs s s' ∧ describes registration classes h r s'
      ∧ eh_component r = h ∧ eh_context_id r = in_context_id inner) E s.
Proof.
  intros metadata Hs Hg Hlim [Hc Ho]%open_component_Some Hadm Hname HE.
  destruct (extension_admission_room _ _ _ Hlim Hadm) as (Hfx & Hfc & Hroom).
  destruct (first_free_exists _ Hfx) as [k Hk], (first_free_exists _ Hfc) as [index Hindex].
  unfold install_extension. apply wp_bind, wp_gets. rewrite Hk.
  apply wp_bind, wp_expect, wp_bind, wp_gets. rewrite Hindex. apply wp_bind, wp_expect.
  apply (next_revision_wp limits None hs); [done|done| |by intros; apply HE].
  intros s1 Hs1 (seq & loss & Hq & ->) Hev. set (s1 := set_loss _ loss) in *.
  destruct (_ || _); [wp_run; apply HE; by apply good_of|]. wp_run.
  apply first_free_Some in Hk, Hindex.
  set (e := {| es_generation := _ |}). apply find_slot_Some in Hc as Hc'. destruct Hc' as [Hi Hh].
  pose proof (sk_tables _ _ _ _ _ Hs) as T. cbn [st_counters set_extensions set_counters s1].
  eapply (link_counter_wp h index _ c _ (owned (st_counters s) (cs_handle c))).
  - exact Hc.
  - cbn. apply slot_at_add; [done|]. by left.
  - cbn. eapply chain_agree; [|by eapply tb_chain]. intros j (cn & Hj & _)%owned_elem.
    rewrite slot_at_insert, decide_False; [done| |by eapply lookup_lt_Some].
    intros ->. unfold slot_at in Hj. by rewrite Hindex in Hj.
  - apply owned_increasing.
  - intros (cn & Hj & _)%owned_elem. unfold slot_at in Hj. by rewrite Hindex in Hj.
  - cbn. rewrite length_insert. apply owned_short.
  - intros after head ix Hin Hch Hinc Hmem. wp_run. cbn in Hin.
    assert (store_ok (set_metadata_used (set_components (set_counters (set_extensions s1 (<[k:=Some e]> (st_extensions s1))) after)
      (<[ch_slot h:=Some (slot_with_head c head)]> (st_components s1))) (st_metadata_used s1 + metadata)%N) hs) as Hs2.
    { apply store_extend; [done|done|done| |done| |done].
      - rewrite <-Hh in Hin at 1. eapply (tables_extend _ _ _ _ (st_generation s) _ c index k e after head ix); done.
      - unfold extension_bytes. cbn. unfold metadata. lia. }
    split_and!; [|exists e; split_and!; try done|done|done].
    + apply good_of; [exact Hs2|]. transitivity s1; [done|].
      eapply (evolves_update None s1 h c (slot_with_head c head) 0) in Hc as Hup; [|done|done|by left].
      destruct Hup as [U1 U2 U3 U4 _]. split; [done|done|exact U3|exact U4|]. intros k' e' He' _ _. exists e'.
      split; [|done]. apply slot_at_add; [done|by right].
    + unfold extension_of. cbn. rewrite slot_at_insert, decide_True; [|done|by eapply lookup_lt_Some]. cbn.
      by rewrite decide_True.
Qed.

Lemma find_extension_spec slots index h name i e :
  find_extension slots index h name = Some (i, e) →
  ∃ j, i = index + j ∧ slot_at slots j = Some e ∧ es_component e = h ∧ es_name e = name.
Proof.
  revert index. induction slots as [|[e0|] slots IH]; intros index; cbn [find_extension]; [done| |].
  - case_decide as Hd; [|intros (j & -> & Hj)%IH; exists (S j); split; [lia|done]].
    intros [= <- <-]. exists 0. split; [lia|]. by destruct Hd.
  - intros (j & -> & Hj)%IH. exists (S j). split; [lia|done].
Qed.

Lemma register_extension_wp inner h registration hs s :
  store_ok s hs → in_limits inner = limits → (lm_max_identity_bytes limits ≤ ID_BYTES)%N →
  wp (register_extension inner h registration)
    (λ r s', good None hs s s' ∧ (∃ classes, class_set (er_allowed_classes registration) [] = Some classes
        ∧ describes registration classes h r s')
      ∧ eh_component r = h ∧ eh_context_id r = in_context_id inner)
    (λ _ s', good None hs s s') s.
Proof.
  intros Hs Hlim Hid. pose proof (good_refl limits None hs s Hs) as Hrefl. unfold register_extension. rewrite Hlim.
  wp_run. apply wp_ok_or; [|done]. intros c Hc.
  destruct (_ || _); [by wp_run|]. destruct (reserved_namespace _); [by wp_run|]. cbv zeta.
  set (len := (slen (er_namespace registration) + 1 + slen (er_name registration))%N).
  destruct (usize_max <? len)%N; [by wp_run|].
  destruct (N.ltb_spec (lm_max_identity_bytes limits) len) as [|Hlen]; cbn [orb]; [by apply (reject_wp limits None _ hs)|].
  destruct (DESCRIPTION_BYTES <? _)%N; [by apply (reject_wp limits None _ hs)|].
  destruct (N.ltb_spec ID_BYTES len); [lia|]. destruct (from_canonical_name _); [by wp_run|].
  destruct (class_set _ _) as [classes|] eqn:Hclasses; [|by wp_run].
  destruct (_ && _); [by wp_run|]. wp_run.
  destruct (find_extension _ _ _ _) as [[k e]|] eqn:Hfind.
  { destruct (bool_decide_reflect (es_description e ≠ er_description registration)); [by wp_run|].
    destruct (bool_decide_reflect (es_allowed_classes e ≠ classes)); [by wp_run|].
    destruct (bool_decide_reflect (es_outcome e ≠ er_outcome registration)); [by wp_run|]. cbn [orb]. wp_run.
    destruct (find_extension_spec _ _ _ _ _ _ Hfind) as (j & -> & Hj & H1 & H2).
    split_and!; [done| |done|done]. exists classes. split; [done|]. exists e.
    split_and!; [|done|by apply dec_stable..]. unfold extension_of. cbn. by rewrite Hj; cbn; rewrite decide_True. }
  destruct (usize_max <? _)%N; [by wp_run|].
  destruct (lm_max_metadata_bytes limits <? _)%N; [by apply (reject_wp limits None _ hs)|]. wp_run.
  eapply (ensure_revision_wp limits None hs); [done| |done]. intros Hg _. wp_run.
  eapply (admit_when_wp limits None _ hs); [done| |done]. intros s1 hs1 Hs1 Hsub Hr Hadm.
  pose proof (evolves_reclaims None _ _ Hr) as Hev. destruct (open_reclaims _ _ _ _ Hr Hc) as (c1 & Hc1 & _).
  set (name := er_namespace registration +:+ "." +:+ er_name registration) in *.
  assert (len = slen name) as ->.
  { unfold len, name, slen. rewrite !append_length. cbn. lia. }
  eapply wp_mono; [eapply (install_extension_wp inner h registration name classes hs1 s1 c1 (λ _ s', good None hs s s')); try done| |done].
  - by rewrite (rc_generation _ _ Hr).
  - intros e s2 Hgood. by eapply good_sublist.
  - cbv beta. intros r s2 (Hgood & Hd & H1 & H2). split_and!; [by eapply good_sublist| |done|done]. by exists classes.
Qed.

(** ** Classes of an extension *)

Lemma class_index_Some slots name i : class_index slots name = Some i → slot_at slots i = Some name.
Proof.
  revert i. induction slots as [|[n|] slots IH]; intros i; cbn [class_index]; [done| |].
  - case_decide as Hn; [intros [= <-]; by subst|]. destruct (class_index slots name) as [j|]; [|done].
    intros [= <-]. by apply (IH j).
  - destruct (class_index slots name) as [j|]; [|done]. intros [= <-]. by apply (IH j).
Qed.

Lemma extension_bytes_class e index name :
  es_opaque_classes e !! index = Some None →
  extension_bytes (with_opaque e (<[index := Some name]> (es_opaque_classes e))) = (extension_bytes e + slen name)%N.
Proof.
  intros Hi. unfold extension_bytes. cbn.
  assert (∀ l, foldr (λ o n, from_option slen 0 o + n)%N 0%N l = sum_N (from_option slen 0%N <$> l)) as Hsum.
  { induction l as [|o l IH]; [done|]. rewrite fmap_cons, sum_N_cons, <-IH. done. }
  rewrite !Hsum. rewrite (sum_N_add (from_option slen 0%N) _ index name) by done. cbn [from_option]. lia.
Qed.

Lemma tables_class comps counters windows exts g k e classes :
  tables_ok comps counters windows exts g → slot_at exts k = Some e → length classes = 4 →
  tables_ok comps counters windows (<[k:=Some (with_opaque e classes)]> exts) g.
Proof.
  intros [T1 T2 T3 T4 T5 T6 T7] Hk Hl. split; try done. intros k' e'.
  rewrite slot_at_insert by (by eapply slot_at_lt). case_decide as Hd; [|apply T7]. intros [= <-]. subst k'.
  destruct (T7 k e Hk) as (F & G & _ & R). by split_and!.
Qed.

Lemma extension_of_Some s h r e :
  extension_of s h r = Some e ↔
  slot_at (st_extensions s) (eh_slot r) = Some e ∧ es_component e = h ∧ es_generation e = eh_generation r.
Proof.
  unfold extension_of. destruct (slot_at _ _) as [d|]; cbn; [|naive_solver]. case_decide; naive_solver.
Qed.

(** The extension of an open component survives admission. *)
Lemma extension_reclaims s s' h c r e :
  reclaims s s' → open_component s h = Some c → extension_of s h r = Some e → extension_of s' h r = Some e.
Proof.
  intros Hr [Hc Ho]%open_component_Some (He & Hh & Hg)%extension_of_Some. apply extension_of_Some.
  split; [|done]. eapply rc_kept; [exact Hr|exact He| |exact Ho]. by rewrite Hh.
Qed.

Lemma register_extension_class_wp inner h r name hs s :
  store_ok s hs → in_limits inner = limits →
  wp (register_extension_class inner h r name)
    (λ q s', good None hs s s' ∧ ec_extension q = r
      ∧ class_name s' (ClassExtension (eh_slot r) (eh_generation r) (N.of_nat (ec_index q))) = Some name)
    (λ _ s', good None hs s s') s.
Proof.
  intros Hs Hlim. pose proof (good_refl limits None hs s Hs) as Hrefl. unfold register_extension_class.
  destruct (_ || _); [by wp_run|]. wp_run. apply wp_ok_or; [|done]. intros c Hc.
  destruct (negb _); [by wp_run|]. wp_run. apply wp_ok_or; [|done]. intros d Hd.
  apply extension_of_Some in Hd as Hd'. destruct Hd' as (Hd1 & Hd2 & Hd3).
  destruct (decide (es_outcome d ≠ OutcomeFailure)); [by wp_run|].
  destruct (class_index _ _) as [index|] eqn:Hindex.
  { wp_run. split_and!; [done..|]. cbn. rewrite Hd1. cbn. rewrite decide_True, Nat2N.id by done.
    by apply class_index_Some. }
  destruct (failure_class_from_canonical_name _); [by wp_run|].
  destruct (first_free _) as [index|] eqn:Hfree; [|by apply (reject_wp limits None _ hs)]. apply first_free_Some in Hfree.
  wp_run. eapply (ensure_revision_wp limits None hs); [done| |done]. intros Hg _. wp_run.
  eapply (admit_when_wp limits None _ hs); [done| |done]. intros s1 hs1 Hs1 Hsub Hr Hadm.
  pose proof (evolves_reclaims None _ _ Hr) as Hev. wp_run.
  eapply next_sequence_wp; [exact Hs1| |].
  2:{ intros s2 Hs2 Hcnt. eapply good_sublist; [done|done|]. apply good_of; [done|by apply evolves_counts]. }
  intros s2 Hs2 Hcnt _. wp_run.
  pose proof (extension_reclaims _ _ _ _ _ _ Hr Hc Hd) as (He & _ & _)%extension_of_Some.
  assert (st_extensions s2 = st_extensions s1 ∧ st_metadata_used s2 = st_metadata_used s1) as [Hx Hu]
    by (by destruct Hcnt as (? & ? & _ & ->)).
  rewrite <-Hx in He. rewrite He. wp_run. set (e := with_opaque d _).
  set (s3 := set_metadata_used _ _). split_and!; [|done|].
  - eapply good_sublist; [exact Hsub|exact Hev|]. apply good_of.
    + destruct Hs2 as [T H Me Bu Ev Ca Ck]. unfold metadata_admission, metadata_full in Hadm. rewrite Hlim in Hadm.
      destruct (N.ltb_spec usize_max (st_metadata_used s1 + slen name)); [done|].
      destruct (N.ltb_spec (lm_max_metadata_bytes limits) (st_metadata_used s1 + slen name)); [done|].
      split; cbn; try done.
      * apply tables_class; [done|done|]. rewrite length_insert.
        by destruct (tb_extension _ _ _ _ _ T _ _ He) as (_ & _ & ? & _).
      * pose proof (sum_N_update (from_option extension_bytes 0%N) (st_extensions s2) (eh_slot r) d e eq_refl He) as Hsum.
        cbn [from_option] in Hsum. unfold e in Hsum at 2. rewrite extension_bytes_class in Hsum by done.
        unfold metadata_bytes_of in *. fold e. lia.
      * by rewrite Hu.
    + transitivity s2; [by apply evolves_counts|]. apply evolves_same; [done..|by eauto|by eauto|].
      intros k' e' He' _. cbn. rewrite slot_at_insert by (by eapply slot_at_lt). case_decide as Hk; [|by eauto].
      subst k'. rewrite He in He'. injection He' as <-. exists e. split; [done|]. split; [done..|]. intros j u Hj. cbn.
      rewrite slot_at_insert by (by eapply lookup_lt_Some). rewrite decide_False; [done|]. intros ->.
      unfold slot_at in Hj. by rewrite Hfree in Hj.
  - cbn. rewrite slot_at_insert, decide_True; [|done|by eapply slot_at_lt]. cbn. rewrite decide_True, Nat2N.id by done.
    rewrite slot_at_insert, decide_True; [done|done|by eapply lookup_lt_Some].
Qed.
End Extension.
