(* ===== verification/DiagObserve.v ===== *)
(** * Recording keeps the invariant

    [record_observation] as a whole.  A rejected observation changes no
    count but those of losses; an accepted one is counted exactly once, in
    the totals of the store and of its component, in the counter of its code
    and in a window bucket, and its evidence is retained, displacing only
    the oldest events, or counted as omitted. *)

From stdpp Require Import base numbers strings list.
From S2P Require Import Prelude Text Utf8 DetailPool DetailPoolFacts DiagCatalogue DiagTypes DiagState DiagRecording DiagLifecycle DiagInvariant DiagHistory DiagTables DiagReclaim DiagInstall DiagService DiagExtension.

(** ** Bounded text *)

(** A bounded text is the longest prefix that fits and ends at a character. *)
Lemma bounded_str_spec value max :
  utf8_valid value = true →
  utf8_valid (bounded_str value max) = true ∧ (slen (bounded_str value max) ≤ max)%N
  ∧ (∃ rest, value = bounded_str value max +:+ rest)
  ∧ ∀ n, is_char_boundary value n = true → n ≤ String.length value → (N.of_nat n ≤ max)%N →
      n ≤ String.length (bounded_str value max).
Proof.
  intros Hv. unfold bounded_str. set (m := min (String.length value) (N.to_nat max)).
  destruct (boundary_below_spec value m) as [Hb Hle]. destruct (utf8_cut value _ Hv Hb) as [H1 _].
  assert (String.length (str_take (boundary_below value m) value) = boundary_below value m) as Hlen
    by (apply str_take_length; lia).
  split_and!; [done|unfold slen; rewrite Hlen; lia| |].
  - exists (str_drop (boundary_below value m) value). by rewrite take_drop_str.
  - intros n Hn Hl Hmax. rewrite Hlen. apply boundary_below_greatest; [done|lia].
Qed.

Lemma bounded_opt_utf8 o max :
  (∀ v, o = Some v → utf8_valid v = true) → ∀ v, bounded_opt o max = Some v → utf8_valid v = true.
Proof. intros Ho v. destruct o as [u|]; [|done]. intros [= <-]. by apply bounded_str_spec, Ho. Qed.

Lemma bounded_whole o max :
  (∀ v, o = Some v → utf8_valid v = true) → was_truncated o (bounded_opt o max) = false → bounded_opt o max = o.
Proof.
  intros Ho. destruct o as [v|]; [|done]. cbn. destruct (bounded_str_spec v max (Ho v eq_refl)) as (_ & _ & [rest Hr] & _).
  intros Hlen%negb_false_iff%Nat.eqb_eq. f_equal. pose proof (f_equal String.length Hr) as Hl.
  rewrite append_length in Hl. destruct rest; [|cbn in Hl; lia]. by rewrite append_nil_r in Hr.
Qed.

(** Every write of the value is text, and it does not unwind. *)
Fixpoint display_utf8 (d : Display) : Prop :=
  match d with
  | Finish _ => True
  | Unwind => False
  | WriteStr text rest => utf8_valid text = true ∧ ∀ ok, display_utf8 (rest ok)
  end.

Lemma run_display_spec d max written truncated :
  display_utf8 d → utf8_valid written = true → (slen written ≤ max)%N →
  ∃ text cut failed, run_display d max written truncated = Some (text, cut, failed)
    ∧ utf8_valid text = true ∧ (slen text ≤ max)%N.
Proof.
  revert written truncated. induction d as [ok| |text rest IH]; intros written truncated Hd Hw Hl; [|done|].
  { cbn. by eexists _, _, _. }
  destruct Hd as [Ht Hr]. cbn [run_display]. destruct (bounded_str_spec text (max - slen written) Ht) as (H1 & H2 & _).
  apply IH; [apply Hr|by apply utf8_app|]. unfold slen in *. rewrite append_length. lia.
Qed.

Definition detail_utf8 (detail : DiagnosticDetailRef) : Prop :=
  match detail with
  | DetailNone => True
  | DetailText text => utf8_valid text = true
  | DetailDisplay d => display_utf8 d
  end.

(** Prepared detail is text within the bound; no writer makes it panic. *)
Lemma prepare_detail_spec detail max :
  detail_utf8 detail → (max ≤ MAX_DETAIL_BYTES)%N →
  ∃ o truncated, prepare_detail detail max = Some (o, truncated)
    ∧ ∀ v, o = Some v → utf8_valid v = true ∧ (slen v ≤ max)%N.
Proof.
  intros Hd Hmax. destruct detail as [|text|d]; cbn [prepare_detail].
  - by exists None, false.
  - eexists _, _. split; [done|]. intros v [= <-]. by destruct (bounded_str_spec text max Hd) as (? & ? & _).
  - destruct (N.ltb_spec MAX_DETAIL_BYTES max); [lia|].
    destruct (run_display_spec d max EmptyString false Hd) as (text & truncated & failed & -> & H1 & H2);
      [done|unfold slen; cbn; lia|]. cbn. rewrite H1.
    eexists _, _. split; [done|]. by intros v [= <-].
Qed.

(** What a value writes when no write fails. *)
Fixpoint display_text (d : Display) : string :=
  match d with
  | Finish _ | Unwind => EmptyString
  | WriteStr text rest => text +:+ display_text (rest true)
  end.

Lemma text_append_assoc u v w : (u +:+ v) +:+ w = u +:+ (v +:+ w).
Proof. induction u as [|a u IH]; [done|]. change (String a ((u +:+ v) +:+ w) = String a (u +:+ (v +:+ w))). by rewrite IH. Qed.

Lemma run_display_whole d max written truncated :
  display_utf8 d → ∀ text failed, run_display d max written truncated = Some (text, false, failed) →
  truncated = false ∧ text = written +:+ display_text d.
Proof.
  revert written truncated. induction d as [ok| |text rest IH]; intros written truncated Hd out failed;
    cbn [run_display display_text]; [|done|].
  - intros [= -> -> _]. split; [done|by rewrite append_nil_r].
  - destruct Hd as [Ht Hr]. intros Hf. apply IH in Hf as [[-> Hcut]%orb_false_iff ->]; [|apply Hr]. split; [done|].
    destruct (bounded_str_spec text (max - slen written) Ht) as (_ & _ & [tail Htail] & _).
    apply Nat.ltb_ge in Hcut. rewrite (proj2 (Nat.ltb_ge _ _) Hcut). cbn [negb].
    pose proof (f_equal String.length Htail) as Hl. rewrite append_length in Hl.
    assert (tail = EmptyString) as -> by (destruct tail; [done|cbn in Hl; lia]). rewrite append_nil_r in Htail.
    rewrite <-Htail. apply text_append_assoc.
Qed.

(** The text of a detail in full. *)
Definition detail_text (detail : DiagnosticDetailRef) : option string :=
  match detail with
  | DetailNone => None
  | DetailText text => Some text
  | DetailDisplay d => Some (display_text d)
  end.

(** Detail that is not marked as truncated is complete. *)
Lemma prepare_detail_whole detail max o :
  detail_utf8 detail → prepare_detail detail max = Some (o, false) → o = detail_text detail.
Proof.
  intros Hd. destruct detail as [|text|d]; cbn [prepare_detail detail_text]; [by intros [= <-]| |].
  - intros [= <- Hlen%negb_false_iff%Nat.eqb_eq]. f_equal.
    destruct (bounded_str_spec text max Hd) as (_ & _ & [tail Htail] & _).
    pose proof (f_equal String.length Htail) as Hl. rewrite append_length in Hl.
    assert (tail = EmptyString) as -> by (destruct tail; [done|cbn in Hl; lia]). by rewrite append_nil_r in Htail.
  - destruct (_ <? _)%N; [done|]. pose proof (run_display_whole d max EmptyString false Hd) as Hw.
    destruct (run_display d max EmptyString false) as [[[text truncated] failed]|]; cbn; [|done].
    destruct (utf8_valid text); [|done]. intros [= <- [-> _]%orb_false_iff]. f_equal. by destruct (Hw _ _ eq_refl) as [_ ->].
Qed.

Section Observe.
Context {B : Type} `{!CircularBuffer StoredObservation B, !CircularLaws StoredObservation B}.
Context (limits : DiagnosticLimits).
Implicit Types s : State B.

(** ** The numeric part *)

Lemma declared_counter_Some s h code i :
  declared_counter s h code = Some i →
  ∃ cn, slot_at (st_counters s) i = Some cn ∧ cn_component cn = h ∧ cn_code cn = code.
Proof.
  unfold declared_counter. destruct (filter _ _) as [|[j cn] l] eqn:Hf; [done|]. intros [= <-].
  assert ((j, cn) ∈ filter (λ ic : nat * CounterSlot, cn_code ic.2 = code) (component_counters s h)) as Hin
    by (rewrite Hf; by left).
  apply list_elem_of_filter in Hin as [Hcode Hin].
  destruct (counters_from_elem _ _ _ _ _ Hin) as [H1 H2]. by exists cn.
Qed.

(** The bucket of an observation is in the window of its component. *)
Lemma record_window_wp h c tick outcome count s (Q : unit → State B → Prop) E comps exts g :
  component s h = Some c → tables_ok comps (st_counters s) (st_windows s) exts g →
  (∃ i c0, slot_at comps i = Some c0 ∧ cs_window c0 = cs_window c) →
  (∀ windows', length windows' = length (st_windows s) →
     (∀ k, is_Some (slot_at (st_windows s) k) → is_Some (slot_at windows' k)) → Q tt (set_windows s windows')) →
  wp (record_window h tick outcome count) Q E s.
Proof.
  intros Hc T (i & c0 & Hi & Hw) HQ. unfold record_window. wp_run. rewrite Hc. cbn [mbind option_bind].
  destruct (cs_window c) as [w|]; cbn [fmap option_fmap option_map].
  2:{ wp_run. replace s with (set_windows s (st_windows s)) by (by destruct s). by apply HQ. }
  destruct (tb_window _ _ _ _ _ T i c0 w Hi Hw) as (H1 & H2 & H3 & H4).
  destruct (N.eqb_spec (wr_resolution_millis w) 0); [lia|]. destruct (Nat.eqb_spec (wr_len w) 0); [lia|]. cbn [orb].
  cbv zeta. wp_run. set (interval := (_ / _)%N). set (index := wr_start w + _).
  assert (in_window w index) as Hin.
  { unfold in_window, index. assert (interval mod N.of_nat (wr_len w) < N.of_nat (wr_len w))%N as Hmod
      by (apply N.mod_lt; lia).
    revert Hmod. generalize (interval mod N.of_nat (wr_len w))%N. lia. }
  destruct (H4 index Hin) as [slot Hslot]. rewrite Hslot. wp_run. apply HQ; [apply length_insert|].
  intros k Hk. rewrite slot_at_insert by (by eapply slot_at_lt). by case_decide.
Qed.

Definition observed_counters (index : option nat) (count now : N) (counters : list (option CounterSlot)) :
    list (option CounterSlot) :=
  match index ≫= λ i, (λ cn, (i, cn)) <$> slot_at counters i with
  | Some (i, cn) => <[i := Some (observe_counter count now cn)]> counters
  | None => counters
  end.

Lemma count_observation_wp h c ob now tick index s hs E :
  store_ok limits s hs → component s h = Some c →
  (∀ i, index = Some i → is_Some (slot_at (st_counters s) i)) →
  wp (count_observation h ob now tick index)
    (λ total s', ∃ windows', store_mid limits 1 [] s' hs
      ∧ s' = set_counters (set_windows (set_components
          (set_lifetime s (lifetime_record (st_lifetime s) (ob_outcome ob) (ob_count ob) now tick))
          (<[ch_slot h := Some (observe_totals ob now tick c)]> (st_components s))) windows')
          (observed_counters index (ob_count ob) now (st_counters s))
      ∧ total = (index ≫= λ i, cn_occurrences <$> slot_at (st_counters s') i)) E s.
Proof.
  intros Hs Hc Hindex. apply find_slot_Some in Hc as Hc'. destruct Hc' as [Hi Hh]. unfold count_observation. wp_run.
  eapply update_component_wp; [exact Hi|]. wp_run.
  set (c' := observe_totals ob now tick c). set (s1 := set_components _ _).
  assert (component s1 h = Some c') as Hc1.
  { apply find_slot_Some. cbn. rewrite slot_at_insert, decide_True; [done|done|by eapply slot_at_lt]. }
  eapply record_window_wp; [exact Hc1|apply (sk_tables _ _ _ _ _ Hs)|by exists (ch_slot h), c|].
  intros windows' Hlen Hsome. cbn [st_windows s1 set_components set_lifetime] in Hlen, Hsome.
  assert (∀ counters', counter_shapes counters' = counter_shapes (st_counters s) →
    store_mid limits 1 [] (set_counters (set_windows s1 windows') counters') hs) as Hok.
  { intros counters' Hn. destruct Hs as [T H Me Bu Ev Ca Ck].
    assert (shapes (st_components s1) = shapes (st_components s)) as Hshape by (by eapply same_insert).
    split; cbn; try done.
    - eapply tables_same; [exact T|by apply shapes_places|done..].
    - by eapply history_same, shapes_places.
    - rewrite Me. symmetry. by apply metadata_same.
    - by apply evidence_record. }
  destruct index as [i|].
  - destruct (Hindex i eq_refl) as [cn Hcn]. wp_run. eapply update_counter_wp; [exact Hcn|]. wp_run.
    exists windows'. unfold observed_counters. cbn [mbind option_bind]. rewrite Hcn. cbn [fmap option_fmap option_map].
    split_and!; [apply Hok; by eapply same_insert|done|done].
  - wp_run. exists windows'. unfold observed_counters. cbn [mbind option_bind].
    split_and!; [|done|done]. by apply (Hok (st_counters s)).
Qed.

(** ** The evidence *)

Lemma store_omit x fl s hs :
  store_mid limits (S x) fl s hs → store_mid limits x fl (set_loss s (loss_add (st_loss s) EventsOmitted 1)) hs.
Proof. intros [T H Me Bu Ev Ca Ck]. split; cbn; try done. by apply evidence_omit. Qed.

Lemma keeps_note s k n : keeps s (set_loss s (loss_add (st_loss s) k n)).
Proof. by split. Qed.

Lemma wp_note_when {A} (b : bool) k n (m : M B A) (Q : A → State B → Prop) E x fl s hs :
  store_mid limits x fl s hs → k ≠ EventsEvicted → k ≠ EventsOmitted →
  (∀ s', store_mid limits x fl s' hs → keeps s s' → st_detail s' = st_detail s → wp m Q E s') →
  wp ((if b then note k n else mret tt);; m) Q E s.
Proof.
  intros Hs H1 H2 Hm. destruct b; wp_run; [|by apply Hm]. apply Hm; [by apply store_mid_note|apply keeps_note|done].
Qed.

(** What the disposition says about the text of a retained event. *)
Definition complete (rt : RetainedText) (detail session request : option string) : Prop :=
  omitted detail (rt_detail rt) = false ∧ omitted session (rt_session_id rt) = false
  ∧ omitted request (rt_request_id rt) = false.

Lemma retained_held comps ev oe h detail session request :
  so_component ev = h → is_Some (find_slot comps h) → retained (so_text ev) oe detail session request →
  held_ok comps (ev, oe).
Proof.
  intros <- Hf Hr. split; [done|]. cbn. unfold retained in Hr. destruct (rt_payload (so_text ev)) as [p|] eqn:Hp.
  - destruct Hr as (text & Hst & F1 & F2 & F3). assert (held_text oe = text) as <-
      by (destruct oe as [e|]; cbn in Hst |- *; by destruct Hst).
    split; [destruct oe as [e|]; cbn in Hst; by destruct Hst as [-> _]|].
    assert (∀ r v, keeps_field (held_text oe) r v → range_in (so_text ev) oe r) as Hin.
    { intros [r|] v; [|done]. intros [H _]. split; [by rewrite Hp|done]. }
    split_and!; eauto.
  - destruct Hr as [-> Hno]. rewrite Hno. done.
Qed.

(** Appending an event displaces at most the oldest one. *)
Lemma append_event_wp {A} ev oe s hs (k : M B A) (Q : A → State B → Prop) E :
  store_mid limits 1 (option_list oe) s hs → held_ok (st_components s) (ev, oe) → (lm_max_events limits ≠ 0)%N →
  (∀ s' kept, kept `suffix_of` hs → keeps s s' → store_ok limits s' (kept ++ [(ev, oe)]) → wp k Q E s') →
  wp (displaced ← push_back ev; match displaced with Some evicted => evict_event evicted | None => mret tt end;; k) Q E s.
Proof.
  intros Hs Hh Hmax Hk. pose proof (history_room _ _ _ _ _ Hs) as Hroom. apply wp_bind.
  destruct (decide (length hs < N.to_nat (lm_max_events limits))) as [Hlt|Hge].
  - eapply wp_mono; [eapply (push_room_wp limits 0 [] s hs (ev, oe)); [by rewrite app_nil_r|done|done]| |done].
    cbv beta. intros o s1 (-> & Hs1 & Hk1). wp_run. by apply (Hk s1 hs).
  - destruct hs as [|he0 hs]; [cbn in Hge; lia|].
    eapply wp_mono; [eapply (push_full_wp limits 0 [] s he0 hs (ev, oe)); [by rewrite app_nil_r|done|lia]| |done].
    cbv beta. intros o s1 (-> & Hs1 & Hk1). apply wp_bind.
    pose proof (hi_held _ _ _ _ _ (sk_history _ _ _ _ _ Hs)) as Hheld. apply Forall_cons in Hheld as [Hh0 _].
    eapply wp_mono; [eapply evict_event_wp; [exact Hs1|by eapply held_holds]| |done].
    cbv beta. intros _ s2 (Hs2 & Hk2 & _). apply (Hk s2 hs); [by exists [he0]|by etrans|done].
Qed.

Lemma retain_event_wp event h truncated st rt_ detail session request s hs :
  store_mid limits 1 [] s hs → (∀ text, so_text (event text) = text ∧ so_component (event text) = h) →
  is_Some (component s h) → (lm_max_events limits ≠ 0)%N →
  Forall (λ f, ∀ v, f = Some v → utf8_valid v = true) [detail; session; request] →
  (opt_len detail + opt_len session + opt_len request ≤ u16_max)%N →
  wp (retain_event event truncated st rt_ detail session request)
    (λ evidence s', keeps s s' ∧ ∃ kept text oe, kept `suffix_of` hs ∧ store_ok limits s' (kept ++ [(event text, oe)])
      ∧ retained text oe detail session request
      ∧ chosen_texts text detail session request = retained_texts (st_detail s) detail session request
      ∧ evidence ≠ EvidenceDropped
      ∧ (evidence = EvidenceRetained ↔
         truncated = false ∧ st = false ∧ rt_ = false ∧ complete text detail session request))
    (λ _ _, False) s.
Proof.
  intros Hs Hev Hc Hmax Hu Hlen. unfold retain_event. apply wp_bind.
  eapply wp_mono; [by apply retain_event_text_wp| |done]. cbv beta.
  intros text s1 (dropped & hs1 & oe & -> & Hk1 & Hs1 & Hret & Htexts). destruct (Hev text) as [Htext Hcomp].
  apply (wp_note_when _ DetailsOmitted 1 _ _ _ 1 (option_list oe) s1 hs1); [done..|]. intros s2 Hs2 Hk2 _.
  cbv zeta. apply wp_bind, wp_note. set (n := (b2n _ + b2n _)%N). set (s3 := set_loss s2 _).
  assert (store_mid limits 1 (option_list oe) s3 hs1) as Hs3 by (by apply store_mid_note).
  assert (keeps s s3) as Hk3 by (etrans; [exact Hk1|etrans; [exact Hk2|apply keeps_note]]).
  apply (append_event_wp (event text) oe s3 hs1); [done| |done|].
  { eapply retained_held; [exact Hcomp| |by rewrite Htext]. eapply find_slot_same; [apply shapes_places, Hk3|done]. }
  intros s4 kept [d Hkept] Hk4 Hs4. wp_run. split; [by etrans|]. exists kept, text, oe. split_and!; [|done|done|done|by case_match|].
  - exists (dropped ++ d). by rewrite <-app_assoc, <-Hkept.
  - unfold n, complete.
    by destruct truncated, st, rt_, (omitted detail (rt_detail text)), (omitted session _), (omitted request _);
      cbn; split; intros H; try destruct H as (? & ? & ? & ? & ? & ?).
Qed.

(** ** The whole operation *)

(** What an accepted observation of an open component [c] has counted. *)
Record counted (h : ComponentHandle) (c : ComponentSlot) (ob : Observation) (now : N) (index : option nat) s s' :
    Prop := {
  ct_sequence : st_sequence s' = N.succ (st_sequence s);
  ct_store : tally (lt_totals (st_lifetime s'))
    = tally (totals_record (lt_totals (st_lifetime s)) (ob_outcome ob) (ob_count ob));
  ct_component : ∃ c', component s' h = Some c' ∧ cs_closed_at c' = None
    ∧ tally (lt_totals (cs_lifetime c')) = tally (totals_record (lt_totals (cs_lifetime c)) (ob_outcome ob) (ob_count ob))
    ∧ tally (rf_totals (cs_refresh c')) = tally (totals_record (rf_totals (cs_refresh c)) (ob_outcome ob) (ob_count ob));
  ct_others : ∀ g d, g ≠ h → component s g = Some d → ∃ d', component s' g = Some d' ∧ status d' = status d;
  ct_counters : st_counters s' = observed_counters index (ob_count ob) now (st_counters s);
}.

Lemma counted_keeps h c ob now index s s' s'' :
  counted h c ob now index s s' → keeps s' s'' → counted h c ob now index s s''.
Proof.
  intros [C1 C2 (c' & Hc' & Ho & T1 & T2) C4 C5] [_ K2 K3 _ _ _ K7 K8 K9].
  assert (∀ g d, component s' g = Some d → ∃ d', component s'' g = Some d' ∧ status d' = status d) as Hfind.
  { intros g d [Hd Hg]%find_slot_Some. destruct (slot_at_same shape _ _ _ d (eq_sym K7) Hd) as (d1 & H1 & E1).
    destruct (slot_at_same status _ _ _ d (eq_sym K8) Hd) as (d2 & H2 & E2). exists d1. unfold shape in E1.
    split; [apply find_slot_Some; split; congruence|congruence]. }
  split; [congruence|congruence| | |congruence].
  - destruct (Hfind h c' Hc') as (d & Hd & Hst). exists d. unfold status in Hst. injection Hst as S1 _ S3 S4 S5 S6 S7 S8 S9 S10 S11 S12.
    unfold tally in *. split_and!; [done|congruence..].
  - intros g d Hne Hd. destruct (C4 g d Hne Hd) as (d1 & H1 & S1). destruct (Hfind g d1 H1) as (d2 & H2 & S2).
    exists d2. split; [done|congruence].
Qed.

Lemma counted_now h c ob now tick index s windows' :
  component s h = Some c → cs_closed_at c = None →
  counted h c ob now index s
    (set_counters (set_windows (set_components
       (set_lifetime (set_sequence s (N.succ (st_sequence s)))
          (lifetime_record (st_lifetime s) (ob_outcome ob) (ob_count ob) now tick))
       (<[ch_slot h := Some (observe_totals ob now tick c)]> (st_components s))) windows')
       (observed_counters index (ob_count ob) now (st_counters s))).
Proof.
  intros Hc Ho. apply find_slot_Some in Hc as Hc'. destruct Hc' as [Hi Hh]. pose proof (slot_at_lt _ _ _ Hi) as Hlt.
  split; try done.
  - exists (observe_totals ob now tick c). split_and!; try done. apply find_slot_Some. cbn.
    by rewrite slot_at_insert, decide_True.
  - intros g d Hne [Hd Hg]%find_slot_Some. exists d. split; [|done]. apply find_slot_Some. split; [|done]. cbn.
    rewrite slot_at_insert, decide_False; [done| |done]. intros Heq. rewrite Heq in Hd. congruence.
Qed.

Lemma take_sequence_wp hs s (Q : N → State B → Prop) E :
  store_ok limits s hs →
  (store_ok limits (set_sequence s (N.succ (st_sequence s))) hs →
   Q (N.succ (st_sequence s)) (set_sequence s (N.succ (st_sequence s)))) →
  (∀ s', store_ok limits s' hs → same_but_counts s s' → E SequenceExhausted s') → wp next_sequence Q E s.
Proof.
  intros Hs HQ HE. unfold wp, next_sequence. destruct (_ =? _)%N.
  - apply HE; [by apply (store_mid_loss _ _ _ _ _ (st_sequence s))|eexists (st_sequence s), _; split; [|done]; lia].
  - apply HQ. by apply (store_mid_loss _ _ _ _ _ _ (st_loss s)).
Qed.

(** The descriptors an event refers to exist and belong to its component. *)
Definition refers (exts : list (option ExtensionSlot)) (h : ComponentHandle) (code : StoredCode)
    (class : option StoredFailureClass) : Prop :=
  match code with
  | CodeBuiltin _ => True
  | CodeExtension k g => ∃ e, slot_at exts k = Some e ∧ es_generation e = g ∧ es_component e = h
  end
  ∧ match class with
    | Some (ClassExtension k g i) =>
        ∃ e n, slot_at exts k = Some e ∧ es_generation e = g ∧ es_component e = h
          ∧ slot_at (es_opaque_classes e) (N.to_nat i) = Some n
    | _ => True
    end.

Lemma descriptor_Some s h r e :
  descriptor s h r = Some e →
  slot_at (st_extensions s) (eh_slot r) = Some e ∧ es_generation e = eh_generation r ∧ es_component e = h.
Proof.
  unfold descriptor. destruct (slot_at _ _) as [d|]; cbn; [|done]. case_decide as Hd; [|done]. intros [= <-].
  by destruct Hd.
Qed.

Lemma resolve_refers s inner h ob code class :
  resolve_observation_code s inner h ob = inr (Some code, class) → refers (st_extensions s) h code class.
Proof.
  unfold resolve_observation_code. destruct (ob_code ob) as [cl|r class0|r q|].
  - destruct (from_canonical_name _); [|done].
    destruct (cf_failure_class cl) as [name|]; [destruct (failure_class_from_canonical_name name); [|done]|]; cbn;
      (destruct (allows_class _ _); [|done]); by intros [= <- <-].
  - destruct (_ || _); [done|]. destruct (descriptor s h r) as [d|] eqn:Hd; [|done]. apply descriptor_Some in Hd.
    assert (inr (Some (CodeExtension (eh_slot r) (eh_generation r)), ClassBuiltin <$> class0)
      = @inr DiagnosticError _ (Some code, class) → refers (st_extensions s) h code class) as Hgo.
    { intros [= <- <-]. split; [by exists d|]. by destruct class0. }
    destruct (decide _); destruct class0; try done. by destruct (decide _).
  - destruct (_ || _); [done|]. destruct (descriptor s h r) as [d|] eqn:Hd; [|done]. apply descriptor_Some in Hd.
    destruct (u8_max <? _)%N; [done|]. destruct (decide _); [done|].
    destruct (class_name _ _) as [name|] eqn:Hn; [|done]. intros [= <- <-]. destruct Hd as (D1 & D2 & D3).
    split; [by exists d|]. cbn in Hn. rewrite D1 in Hn. cbn in Hn. rewrite decide_True in Hn by done. by exists d, name.
  - done.
Qed.

Lemma resolve_overflow s inner h ob class :
  resolve_observation_code s inner h ob = inr (None, class) → ob_code ob = ObsOverflow.
Proof. unfold resolve_observation_code. by repeat (case_match; simplify_eq/=). Qed.

Lemma resolved_code s inner h ob code class :
  resolve_observation_code s inner h ob = inr (Some code, class) → ob_code ob ≠ ObsOverflow.
Proof. unfold resolve_observation_code. by destruct (ob_code ob). Qed.

(** What became of the evidence of an accepted observation. *)
Definition evidence_kept (inner : Inner) (h : ComponentHandle) (ob : Observation) (detail : option string)
    (truncated : bool) (pool : DetailPool) (hs : list Held) (evidence : EvidenceDisposition) s' : Prop :=
  let limit := lm_max_correlation_bytes (in_limits inner) in
  match evidence with
  | EvidenceDropped => store_ok limits s' hs ∧ (lm_max_events limits = 0%N ∨ ob_code ob = ObsOverflow)
  | _ =>
      ∃ kept ev oe, kept `suffix_of` hs ∧ store_ok limits s' (kept ++ [(ev, oe)])
        ∧ so_component ev = h ∧ so_sequence ev = st_sequence s' ∧ so_count ev = ob_count ob
        ∧ so_outcome ev = ob_outcome ob ∧ ob_code ob ≠ ObsOverflow
        ∧ refers (st_extensions s') h (so_code ev) (so_failure_class ev)
        ∧ retained (so_text ev) oe detail (bounded_opt (ob_session_id ob) limit) (bounded_opt (ob_request_id ob) limit)
        ∧ chosen_texts (so_text ev) detail (bounded_opt (ob_session_id ob) limit) (bounded_opt (ob_request_id ob) limit)
          = retained_texts pool detail (bounded_opt (ob_session_id ob) limit) (bounded_opt (ob_request_id ob) limit)
        ∧ (evidence = EvidenceRetained ↔
           truncated = false ∧ bounded_opt (ob_session_id ob) limit = ob_session_id ob
           ∧ bounded_opt (ob_request_id ob) limit = ob_request_id ob
           ∧ complete (so_text ev) detail (ob_session_id ob) (ob_request_id ob))
  end.

(** Bounded texts and a bounded detail are short enough for their ranges. *)
Definition texts_bounded (inner : Inner) (detail : option string) : Prop :=
  (opt_len detail ≤ MAX_DETAIL_BYTES ∧ lm_max_correlation_bytes (in_limits inner) ≤ ID_BYTES)%N.

Lemma bounded_opt_len o max :
  (∀ v, o = Some v → utf8_valid v = true) → (opt_len (bounded_opt o max) ≤ max)%N.
Proof. intros Ho. destruct o as [v|]; cbn; [by apply bounded_str_spec, Ho|lia]. Qed.

Lemma bounded_untruncated o max :
  (∀ v, o = Some v → utf8_valid v = true) → was_truncated o (bounded_opt o max) = false ↔ bounded_opt o max = o.
Proof.
  intros Ho. split; [by apply bounded_whole|]. intros ->. destruct o as [v|]; [|done]. cbn. by rewrite Nat.eqb_refl.
Qed.

Lemma retain_evidence_wp {A} inner h ob detail truncated event s hs (k : EvidenceDisposition → M B A) (Q : A → State B → Prop) E :
  let limit := lm_max_correlation_bytes (in_limits inner) in
  let session := bounded_opt (ob_session_id ob) limit in
  let request := bounded_opt (ob_request_id ob) limit in
  let session_truncated := was_truncated (ob_session_id ob) session in
  let request_truncated := was_truncated (ob_request_id ob) request in
  in_limits inner = limits → ob_code ob ≠ ObsOverflow → store_mid limits 1 [] s hs → is_Some (component s h) →
  (∀ text, so_text (event text) = text ∧ so_component (event text) = h ∧ so_sequence (event text) = st_sequence s
     ∧ so_count (event text) = ob_count ob ∧ so_outcome (event text) = ob_outcome ob
     ∧ refers (st_extensions s) h (so_code (event text)) (so_failure_class (event text))) →
  (∀ v, detail = Some v → utf8_valid v = true) → (∀ v, ob_session_id ob = Some v → utf8_valid v = true) →
  (∀ v, ob_request_id ob = Some v → utf8_valid v = true) → texts_bounded inner detail →
  (∀ evidence s', evidence_kept inner h ob detail truncated (st_detail s) hs evidence s' → keeps s s' → wp (k evidence) Q E s') →
  wp (evidence ←
        (if (lm_max_events (in_limits inner) =? 0)%N then note EventsOmitted 1;; mret EvidenceDropped
         else retain_event event truncated session_truncated request_truncated detail session request);
      k evidence) Q E s.
Proof.
  intros limit session request st rt_ Hlim Hover Hs Hc Hev Hd Hss Hrq [Hb1 Hb2] Hk. rewrite Hlim.
  destruct (N.eqb_spec (lm_max_events limits) 0) as [H0|H0]; wp_run.
  - apply Hk; [|apply keeps_note]. split; [by apply store_omit|by left].
  - eapply wp_mono; [apply (retain_event_wp event h); try done| |done].
    + intros text. by destruct (Hev text) as (? & ? & _).
    + repeat constructor; [done|by apply bounded_opt_utf8..].
    + pose proof (bounded_opt_len _ limit Hss) as L1. pose proof (bounded_opt_len _ limit Hrq) as L2.
      unfold session, request, limit in *. unfold MAX_DETAIL_BYTES, ID_BYTES, u16_max in *. lia.
    + cbv beta. intros evidence s' (Hkeep & kept & text & oe & Hsuf & Hs' & Hret & Htexts & Hnd & Hfull).
      apply Hk; [|done]. destruct (Hev text) as (E1 & E2 & E3 & E4 & E5 & E6).
      assert (evidence = EvidenceRetained ↔
        truncated = false ∧ session = ob_session_id ob ∧ request = ob_request_id ob
        ∧ complete text detail (ob_session_id ob) (ob_request_id ob)) as Hiff.
      { rewrite Hfull. unfold st, rt_. unfold session at 1, request at 1. rewrite !bounded_untruncated by done.
        fold session request. split; intros (H1 & H2 & H3 & H4); split_and!; try done; by rewrite ?H2, ?H3 in *. }
      unfold evidence_kept. destruct evidence; [| |done]; exists kept, (event text), oe;
        rewrite E1, (kp_sequence _ _ Hkeep), (kp_extensions _ _ Hkeep); by split_and!.
Qed.

(** An accepted observation. *)
Record recorded (inner : Inner) (clock : Clock) (h : ComponentHandle) (ob : Observation) (detail : option string)
    (truncated : bool) (hs : list Held) s (receipt : RecordReceipt) s' : Prop := {
  rp_code : ∃ c code class, open_component s h = Some c ∧ resolve_observation_code s inner h ob = inr (code, class)
    ∧ (is_Some code → is_Some (code ≫= declared_counter s h))
    ∧ counted h c ob (ck_now clock) (code ≫= declared_counter s h) s s'
    ∧ rr_code_total receipt
      = ((code ≫= declared_counter s h) ≫= λ i, cn_occurrences <$> slot_at (st_counters s') i);
  rp_sequence : rr_sequence receipt = st_sequence s';
  rp_evidence : evidence_kept inner h ob detail truncated (st_detail s) hs (rr_evidence receipt) s';
  rp_evolves : evolves None s s';
}.

Lemma publication_wp {A} publication (summary : option DiagnosticOutputSummary) (k : M B A) (Q : A → State B → Prop) E x fl s hs :
  store_mid limits x fl s hs →
  (∀ s', store_mid limits x fl s' hs → keeps s s' → st_detail s' = st_detail s → wp k Q E s') →
  wp (match publication, summary with
      | Workspace, None => note ProjectionsSuppressed 1
      | Workspace, Some _ | NotRequested, _ => mret tt
      | NoWorkspace, _ => note ProjectionDeliveriesOmitted 1
      end;; k) Q E s.
Proof.
  intros Hs Hk. apply wp_bind.
  destruct publication, summary; wp_run; (apply Hk; [first [done|by apply store_mid_note]|first [done|apply keeps_note]|done]).
Qed.

(** The counting step, from the store before the sequence was taken. *)
Lemma counted_wp {A} h c ob clock index s hs (k : option DiagnosticCount → M B A) (Q : A → State B → Prop) E :
  store_ok limits s hs → component s h = Some c → cs_closed_at c = None →
  (∀ i, index = Some i → is_Some (slot_at (st_counters s) i)) →
  (∀ total s', store_mid limits 1 [] s' hs → counted h c ob (ck_now clock) index s s' → evolves None s s' →
     st_extensions s' = st_extensions s → st_detail s' = st_detail s → total = (index ≫= λ i, cn_occurrences <$> slot_at (st_counters s') i) → wp (k total) Q E s') →
  wp (total ← count_observation h ob (ck_now clock) (ck_tick clock) index; k total) Q E
    (set_sequence s (N.succ (st_sequence s))).
Proof.
  intros Hs Hc Ho Hindex Hk. apply wp_bind.
  assert (store_ok limits (set_sequence s (N.succ (st_sequence s))) hs) as Hs1
    by (by apply (store_mid_loss _ _ _ _ _ _ (st_loss s))).
  eapply wp_mono; [by apply (count_observation_wp h c)| |done]. cbv beta.
  intros total s' (windows' & Hs' & -> & Htot). apply Hk; [exact Hs'|exact (counted_now h c ob (ck_now clock) (ck_tick clock) index s windows' Hc Ho)| |done..].
  destruct (evolves_update None s h c (observe_totals ob (ck_now clock) (ck_tick clock) c) 0 Hc) as [U1 U2 U3 U4 U5];
    [by apply find_slot_Some in Hc as [_ ?]|done|by left|].
  split; [done|cbn; lia|exact U3|exact U4|exact U5].
Qed.

Lemma record_observation_wp inner clock h origin ob detail truncated publication hs s :
  store_ok limits s hs → in_limits inner = limits →
  (∀ v, detail = Some v → utf8_valid v = true) → (∀ v, ob_session_id ob = Some v → utf8_valid v = true) →
  (∀ v, ob_request_id ob = Some v → utf8_valid v = true) → texts_bounded inner detail →
  wp (record_observation inner clock h origin ob detail truncated publication)
    (λ r s', recorded inner clock h ob detail truncated hs s r.1 s')
    (λ _ s', store_ok limits s' hs ∧ same_but_counts s s') s.
Proof.
  intros Hs Hlim Hd Hss Hrq Hb. unfold record_observation. wp_run.
  assert (store_ok limits s hs ∧ same_but_counts s s) as Hrefl.
  { split; [done|]. exists (st_sequence s), (st_loss s). split; [lia|by destruct s]. }
  change (component s h ≫= _) with (open_component s h).
  destruct (open_component s h) as [c|] eqn:Hopen.
  2:{ wp_run. split; [by apply store_mid_note|apply counts_note]. }
  apply open_component_Some in Hopen as Hopen'. destruct Hopen' as [Hc Ho]. cbv zeta. wp_run.
  apply wp_ok_or; [|done]. intros context _. wp_run.
  destruct (resolve_observation_code s inner h ob) as [e|[code class]] eqn:Hcode; cbn [lift]; [by wp_run|]. wp_run.
  destruct code as [code|]; wp_run.
  - apply wp_ok_or; [|done]. intros i Hi. wp_run.
    assert (∀ j, Some i = Some j → is_Some (slot_at (st_counters s) j)) as Hslot.
    { intros j [= <-]. destruct (declared_counter_Some _ _ _ _ Hi) as (cn & Hcn & _). by exists cn. }
    eapply (take_sequence_wp hs); [done| |done]. intros _.
    apply (counted_wp h c ob clock (Some i) s hs); [done..|]. intros total s1 Hs1 Hcount Hev Hx1 Hd1 Htot.
    apply (wp_note_when _ MessagesTruncated 1 _ _ _ 1 [] s1 hs); [done..|]. intros s2 Hs2 Hk2 Hd2.
    apply (wp_note_when _ CorrelationsTruncated 1 _ _ _ 1 [] s2 hs); [done..|]. intros s3 Hs3 Hk3 Hd3.
    apply (wp_note_when _ CorrelationsTruncated 1 _ _ _ 1 [] s3 hs); [done..|]. intros s4 Hs4 Hk4 Hd4.
    eapply (publication_wp _ _ _ _ _ 1 [] s4 hs); [done..|]. intros s5 Hs5 Hk5 Hd5.
    assert (keeps s1 s5) as Hk by (etrans; [exact Hk2|etrans; [exact Hk3|by etrans]]).
    pose proof (counted_keeps _ _ _ _ _ _ _ _ Hcount Hk) as Hcount5.
    apply (retain_evidence_wp inner h ob detail truncated _ s5 hs); [done|by eapply resolved_code|done| | |done|done|done|done|].
    { destruct (ct_component _ _ _ _ _ _ _ Hcount5) as (c' & Hc' & _). by exists c'. }
    { intros text. split_and!; try done; [cbn; by rewrite (ct_sequence _ _ _ _ _ _ _ Hcount5)|].
      rewrite (kp_extensions _ _ Hk), Hx1. by apply resolve_refers in Hcode. }
    intros evidence s6 Hkept Hk6. wp_run. pose proof (counted_keeps _ _ _ _ _ _ _ _ Hcount5 Hk6) as Hcount6.
    split; cbn [fst rr_sequence rr_evidence rr_code_total].
    + exists c, (Some code), class. cbn [mbind option_bind]. rewrite Hi. split_and!; try done.
      rewrite Htot, (ct_counters _ _ _ _ _ _ _ Hcount6), (ct_counters _ _ _ _ _ _ _ Hcount). done.
    + by rewrite (ct_sequence _ _ _ _ _ _ _ Hcount6).
    + by rewrite Hd5, Hd4, Hd3, Hd2, Hd1 in Hkept.
    + etrans; [exact Hev|]. apply evolves_keeps. by etrans.
  - eapply (take_sequence_wp hs); [done| |done]. intros _.
    apply (counted_wp h c ob clock None s hs); [done..|]. intros total s1 Hs1 Hcount Hev Hx1 Hd1 Htot. wp_run.
    assert (keeps s1 (set_loss (set_loss s1 (loss_add (st_loss s1) ClassificationsOverflowed (ob_count ob)))
      (loss_add (loss_add (st_loss s1) ClassificationsOverflowed (ob_count ob)) EventsOmitted 1))) as Hk by (by split).
    pose proof (counted_keeps _ _ _ _ _ _ _ _ Hcount Hk) as Hcount2.
    split; cbn [fst rr_sequence rr_evidence rr_code_total].
    + exists c, None, class. by split_and!.
    + symmetry. apply (ct_sequence _ _ _ _ _ _ _ Hcount2).
    + split; [apply (store_omit 0), store_mid_note; done|right]. by eapply resolve_overflow.
    + etrans; [exact Hev|]. by apply evolves_keeps.
Qed.
End Observe.
