(* ===== verification/Diagnostics.v ===== *)
(** * The diagnostics service

    The facade of [src/crates/diagnostics/src/context.rs] over the store, and
    what it promises.  A service is driven by a sequence of operations, each
    under the lock of the store; the theorems hold after any sequence of
    operations on a store made by [State_new], for every ring buffer that
    meets [CircularLaws].

    Inputs that are text in the source are text here: [op_text]. *)

From stdpp Require Import base numbers strings list sorting.
From S2P Require Import Prelude Text Utf8 DetailPool DetailPoolFacts DiagCatalogue DiagTypes DiagState DiagRecording DiagLifecycle DiagInvariant DiagHistory DiagTables DiagReclaim DiagInstall DiagService DiagExtension DiagObserve.

(** ** Operations *)

Section Facade.
Context {B : Type} `{!CircularBuffer StoredObservation B}.
Implicit Types s : State B.

(** The error is noted and returned. *)
Definition noting {A : Type} (k : LossCounter) (m : M B A) : M B A := λ s,
  match m s with
  | (Err e, s') => (Err e, set_loss s' (loss_add (st_loss s') k 1))
  | r => r
  end.

(** [Diagnostics::register_owned_component] with collection enabled. *)
Definition register_owned_component (inner : Inner) (clock : Clock) (registration : ComponentRegistration) :
    M B (ComponentHandle * ComponentIdentity) :=
  noting ComponentsRejected (register_component inner clock registration).

(** [ComponentRecorder::record_inner_lazy] with collection enabled, up to
    the release of the lock. *)
Definition record_inner_lazy (inner : Inner) (clock : Clock) (handle : ComponentHandle)
    (origin : option CapturedOrigin) (observation : Observation) (publication : Publication) :
    M B (RecordReceipt * option DiagnosticOutputSummary) :=
  '(detail, truncated) ← expect (prepare_detail (ob_detail observation) (lm_max_detail_bytes (in_limits inner)));
  noting ObservationsRejected
    (record_observation inner clock handle origin observation detail truncated publication).

(** [ComponentRecorder::capture_origin] with collection enabled. *)
Definition capture_origin (handle : ComponentHandle) : M B CapturedOrigin :=
  c ← gets (λ s, open_component s handle);
  c ← ok_or c ComponentClosed;
  mret (origin c).

(** What a projection callback did: see [publish]. *)
Inductive Delivery : Type := Delivered | DeliveryFailed | DeliveryPanicked | DeliverySuppressed.

Definition note_delivery (d : Delivery) : M B unit :=
  match d with
  | Delivered => mret tt
  | DeliveryFailed => note ProjectionDeliveriesOmitted 1
  | DeliveryPanicked => note ProjectionsPanicked 1
  | DeliverySuppressed => note ProjectionsSuppressed 1
  end.

Inductive Op : Type :=
| OpRegister (clock : Clock) (registration : ComponentRegistration)
| OpExtension (handle : ComponentHandle) (registration : ExtensionRegistration)
| OpClass (handle : ComponentHandle) (extension : ExtensionHandle) (name : string)
| OpOrigin (handle : ComponentHandle)
| OpRecord (clock : Clock) (handle : ComponentHandle) (origin : option CapturedOrigin)
    (observation : Observation) (publication : Publication)
| OpDelivery (d : Delivery)
| OpRefresh (clock : Clock) (handle : ComponentHandle) (ownership : ComponentOwnership)
| OpClose (clock : Clock) (handle : ComponentHandle)
| OpDiscard (handle : ComponentHandle).

Inductive OpResult : Type :=
| RegisteredAs (handle : ComponentHandle) (identity : ComponentIdentity)
| ExtendedBy (handle : ExtensionHandle)
| ClassifiedBy (handle : ExtensionClassHandle)
| OriginIs (origin : CapturedOrigin)
| RecordedAs (receipt : RecordReceipt) (published : option DiagnosticOutputSummary)
| DeliveryNoted
| RefreshedTo (generation : N)
| ClosedNow (now : bool)
| DiscardedNow (now : bool).

Definition run_op (inner : Inner) (op : Op) : M B OpResult :=
  match op with
  | OpRegister clock registration =>
      '(handle, identity) ← register_owned_component inner clock registration;
      mret (RegisteredAs handle identity)
  | OpExtension handle registration =>
      r ← register_extension inner handle registration; mret (ExtendedBy r)
  | OpClass handle extension name =>
      r ← register_extension_class inner handle extension name; mret (ClassifiedBy r)
  | OpOrigin handle => r ← capture_origin handle; mret (OriginIs r)
  | OpRecord clock handle origin observation publication =>
      '(receipt, published) ← record_inner_lazy inner clock handle origin observation publication;
      mret (RecordedAs receipt published)
  | OpDelivery d => note_delivery d;; mret DeliveryNoted
  | OpRefresh clock handle ownership =>
      r ← refresh_component inner clock handle ownership; mret (RefreshedTo r)
  | OpClose clock handle => r ← close_component clock handle; mret (ClosedNow r)
  | OpDiscard handle => r ← discard_unobserved_component handle; mret (DiscardedNow r)
  end.

(** The texts of an operation are UTF-8, and formatting its detail does not
    unwind ([unwinding_detail] is that case). *)
Definition op_text (op : Op) : Prop :=
  match op with
  | OpRecord _ _ _ ob _ =>
      detail_utf8 (ob_detail ob)
      ∧ (∀ v, ob_session_id ob = Some v → utf8_valid v = true)
      ∧ (∀ v, ob_request_id ob = Some v → utf8_valid v = true)
  | _ => True
  end.

(** The component whose life an operation may end. *)
Definition ended (op : Op) : option ComponentHandle :=
  match op with OpClose _ h | OpDiscard h => Some h | _ => None end.

(** The stores that operations lead to. *)
Inductive reachable (inner : Inner) : State B → Prop :=
| reach_new reserve s : State_new reserve (in_limits inner) = Some s → reachable inner s
| reach_step s op r s' : reachable inner s → op_text op → run_op inner op s = (r, s') → reachable inner s'.

(** ** Reading a retained event *)

(** The text of the payload; [None] is a payload that does not resolve. *)
Definition read_payload s (event : StoredObservation) : option (option string) :=
  match rt_payload (so_text event) with
  | None => Some None
  | Some handle => Some <$> view (st_detail s) handle
  end.

(** A field in the payload; [None] is a range that does not fit. *)
Definition read_range (payload : option string) (range : option TextRange) : option (option string) :=
  match range with
  | None => Some None
  | Some r =>
      text ← payload;
      if (tr_start r + tr_len r <=? slen text)%N
      then Some (Some (str_take (N.to_nat (tr_len r)) (str_drop (N.to_nat (tr_start r)) text)))
      else None
  end.

Record EventText := {
  et_component : string;
  et_code : string;
  et_class : option string;
  et_detail : option string;
  et_session_id : option string;
  et_request_id : option string;
}.

(** What [copy_event] reads of an event; [None] is a failed lookup. *)
Definition read_event s (event : StoredObservation) : option EventText :=
  c ← component s (so_component event);
  code ← code_name s (so_code event);
  class ← match so_failure_class event with
          | None => Some None
          | Some class => Some <$> class_name s class
          end;
  payload ← read_payload s event;
  detail ← read_range payload (rt_detail (so_text event));
  session ← read_range payload (rt_session_id (so_text event));
  request ← read_range payload (rt_request_id (so_text event));
  Some {| et_component := cs_key c; et_code := code; et_class := class; et_detail := detail;
          et_session_id := session; et_request_id := request |}.
End Facade.

(** ** The invariant *)

Section Invariant.
Context {B : Type} `{!CircularBuffer StoredObservation B, !CircularLaws StoredObservation B}.
Context (inner : Inner).
Hypothesis valid : limits_in_range (in_limits inner) = true.
Implicit Types s : State B.

Notation limits := (in_limits inner).

Lemma valid_bounds : (lm_max_identity_bytes limits ≤ ID_BYTES)%N ∧ (lm_max_detail_bytes limits ≤ MAX_DETAIL_BYTES)%N.
Proof.
  revert valid. unfold limits_in_range. rewrite !negb_orb, !andb_true_iff, !negb_true_iff, !N.ltb_ge. lia.
Qed.

Lemma valid_correlation : (lm_max_correlation_bytes limits ≤ ID_BYTES)%N.
Proof.
  revert valid. unfold limits_in_range. rewrite !negb_orb, !andb_true_iff, !negb_true_iff, !N.ltb_ge. lia.
Qed.

(** What every operation does to the store. *)
Record steps (t : option ComponentHandle) (hs : list Held) s s' : Prop := {
  sp_history : ∃ kept new, store_ok limits s' (kept ++ new) ∧ sublist kept hs ∧ length new ≤ 1
    ∧ Forall (λ he : Held, so_sequence he.1 = st_sequence s' ∧ (st_sequence s < st_sequence s')%N
        ∧ refers (st_extensions s') (so_component he.1) (so_code he.1) (so_failure_class he.1)) new;
  sp_evolves : evolves t s s';
}.

Lemma steps_good t hs s s' : good limits t hs s s' → steps t hs s s'.
Proof.
  intros [(hs' & Hs & Hsub) Hv]. split; [|done]. exists hs', []. rewrite app_nil_r. split_and!; [done|done|cbn; lia|constructor].
Qed.

Lemma steps_note t hs s s' k n :
  steps t hs s s' → k ≠ EventsEvicted → k ≠ EventsOmitted →
  steps t hs s (set_loss s' (loss_add (st_loss s') k n)).
Proof.
  intros [(kept & new & Hs & Hsub & Hl & HF) Hv] H1 H2. split.
  - exists kept, new. split_and!; [by apply store_mid_note|done..].
  - etrans; [exact Hv|]. apply evolves_counts, counts_note.
Qed.

Lemma steps_counts t hs s s' : store_ok limits s' hs → same_but_counts s s' → steps t hs s s'.
Proof. intros Hs Hc. apply steps_good, good_of; [done|by apply evolves_counts]. Qed.

Lemma steps_recorded clock h ob detail truncated hs s receipt s' :
  recorded limits inner clock h ob detail truncated hs s receipt s' → steps None hs s s'.
Proof.
  intros [(c & code & class & _ & _ & _ & Hc & _) _ He Hv]. split; [|done].
  pose proof (ct_sequence _ _ _ _ _ _ _ Hc) as Hq. unfold evidence_kept in He.
  destruct (rr_evidence receipt).
  1,2: destruct He as (kept & ev & oe & [d ->] & Hs & H1 & H2 & _ & _ & _ & H3 & _); exists kept, [(ev, oe)];
       split_and!; [done|by apply sublist_inserts_l|done|]; apply Forall_singleton; cbn; rewrite H1; split_and!; [done|lia|done].
  destruct He as [He _]. exists hs, []. rewrite app_nil_r. split_and!; [done|done|cbn; lia|constructor].
Qed.

Lemma noting_wp {A} k (m : M B A) (Q : A → State B → Prop) E s :
  wp m Q (λ e s', E e (set_loss s' (loss_add (st_loss s') k 1))) s → wp (noting k m) Q E s.
Proof. unfold wp, noting. by destruct (m s) as [[a|e|] s']. Qed.

Lemma record_inner_wp clock h origin ob publication hs s :
  store_ok limits s hs → op_text (OpRecord clock h origin ob publication) →
  wp (record_inner_lazy inner clock h origin ob publication)
    (λ r s', ∃ detail truncated, prepare_detail (ob_detail ob) (lm_max_detail_bytes limits) = Some (detail, truncated)
      ∧ recorded limits inner clock h ob detail truncated hs s r.1 s')
    (λ _ s', store_ok limits s' hs ∧ same_but_counts s s') s.
Proof.
  intros Hs (Hd & Hss & Hrq). destruct valid_bounds as [_ Hmax].
  destruct (prepare_detail_spec (ob_detail ob) (lm_max_detail_bytes limits) Hd Hmax) as (detail & truncated & Hp & Hu).
  unfold record_inner_lazy. rewrite Hp. wp_run. apply noting_wp.
  assert (texts_bounded inner detail) as Hb.
  { split; [|exact valid_correlation]. destruct detail as [v|]; cbn; [|lia]. destruct (Hu v eq_refl) as [_ ?]. lia. }
  eapply wp_mono; [apply (record_observation_wp limits); try done; intros v Hv; by apply Hu| |]; cbv beta.
  - intros r s' Hr. by exists detail, truncated.
  - intros e s' [Hs' (seq & loss & Hq & ->)]. split; [by apply store_mid_note|]. by eexists seq, _.
Qed.

(** A detail whose formatting unwinds does so before the store is touched. *)
Lemma unwinding_detail clock h origin ob publication s :
  prepare_detail (ob_detail ob) (lm_max_detail_bytes limits) = None →
  record_inner_lazy inner clock h origin ob publication s = (Panic, s).
Proof. intros Hp. unfold record_inner_lazy. by rewrite Hp. Qed.

Lemma op_wp op hs s :
  store_ok limits s hs → op_text op →
  wp (run_op inner op) (λ _ s', steps (ended op) hs s s') (λ _ s', steps (ended op) hs s s') s.
Proof.
  intros Hs Ht. destruct valid_bounds as [Hid _]. destruct op; cbn [run_op ended]; apply wp_bind.
  - apply noting_wp. eapply wp_mono; [by apply (register_component_wp limits)| |]; cbv beta.
    + intros [h i] s' [Hg _]. wp_run. by apply steps_good.
    + intros e s' Hg. apply steps_note; [by apply steps_good|done..].
  - eapply wp_mono; [by apply (register_extension_wp limits)| |]; cbv beta.
    + intros r s' [Hg _]. wp_run. by apply steps_good.
    + intros e s' Hg. by apply steps_good.
  - eapply wp_mono; [by apply (register_extension_class_wp limits)| |]; cbv beta.
    + intros r s' [Hg _]. wp_run. by apply steps_good.
    + intros e s' Hg. by apply steps_good.
  - unfold capture_origin. wp_run. apply wp_ok_or; [intros c _; wp_run|intros _]; by apply steps_good, good_refl.
  - eapply wp_mono; [by apply record_inner_wp| |]; cbv beta.
    + intros [receipt published] s' (detail & truncated & _ & Hr). wp_run. by eapply steps_recorded.
    + intros e s' [Hs' Hc]. by apply steps_counts.
  - destruct d; cbn [note_delivery]; wp_run; [by apply steps_good, good_refl|..];
      (apply steps_note; [by apply steps_good, good_refl|done..]).
  - eapply wp_mono; [by apply (refresh_component_wp limits)| |]; cbv beta.
    + intros r s' [Hg _]. wp_run. by apply steps_good.
    + intros e s' Hg. by apply steps_good.
  - eapply wp_mono; [by apply (close_component_wp limits)| |]; cbv beta.
    + intros r s' [Hg _]. wp_run. by apply steps_good.
    + intros e s' [Hg _]. by apply steps_good.
  - eapply wp_mono; [by apply (discard_wp limits)| |done]; cbv beta.
    intros r s' [Hg _]. wp_run. by apply steps_good.
Qed.

(** The store with the order of its events and what they refer to. *)
Record service_ok s (hs : list Held) : Prop := {
  so_store : store_ok limits s hs;
  so_order : StronglySorted N.lt ((λ he : Held, so_sequence he.1) <$> hs);
  so_past : Forall (λ he : Held, (so_sequence he.1 ≤ st_sequence s)%N) hs;
  so_refers : Forall (λ he : Held, refers (st_extensions s) (so_component he.1) (so_code he.1) (so_failure_class he.1)) hs;
}.

Lemma refers_evolves t s s' hs h code class :
  store_ok limits s hs → evolves t s s' → is_Some (component s' h) → refers (st_extensions s) h code class →
  refers (st_extensions s') h code class.
Proof.
  intros Hs Hv Hc [H1 H2].
  assert (∀ k e, slot_at (st_extensions s) k = Some e → es_component e = h →
    ∃ e', slot_at (st_extensions s') k = Some e' ∧ extends e e') as Hext.
  { intros k e He Hh. apply (vo_ext _ _ _ Hv); [done| |by rewrite Hh].
    destruct (tb_extension _ _ _ _ _ (sk_tables _ _ _ _ _ Hs) k e He) as ([c [Hi Hhc]%find_slot_Some] & _ & _).
    destruct (tb_handle _ _ _ _ _ (sk_tables _ _ _ _ _ Hs) _ c Hi) as [_ Hg]. by rewrite <-Hhc. }
  split.
  - destruct code as [|k g]; [done|]. destruct H1 as (e & He & Hg & Hh).
    destruct (Hext k e He Hh) as (e' & He' & [X1 X2 _ _]). exists e'. split_and!; congruence.
  - destruct class as [[|k g i]|]; [done| |done]. destruct H2 as (e & n & He & Hg & Hh & Hn).
    destruct (Hext k e He Hh) as (e' & He' & [X1 X2 _ X4]). exists e', n. split_and!; [congruence..|by apply X4].
Qed.

Lemma Forall_within {A} (P : A → Prop) l l' : Forall P l → sublist l' l → Forall P l'.
Proof. rewrite !Forall_forall. intros HF Hsub x Hx. apply HF. by eapply elem_of_sublist. Qed.

Lemma sorted_sublist (l l' : list N) : sublist l' l → StronglySorted N.lt l → StronglySorted N.lt l'.
Proof.
  induction 1 as [|x l' l Hsub IH|x l' l _ IH]; intros Hs; [done| |].
  - inversion_clear Hs as [|?? Hs' HF]. constructor; [by apply IH|]. by eapply Forall_within.
  - inversion_clear Hs. by apply IH.
Qed.

Lemma sorted_snoc (l : list N) n : StronglySorted N.lt l → Forall (λ m, m < n)%N l → StronglySorted N.lt (l ++ [n]).
Proof.
  induction 1 as [|m l _ IH HF]; intros Hn; cbn; [repeat constructor|]. apply Forall_cons in Hn as [Hm Hn].
  constructor; [by apply IH|]. apply Forall_app. split; [done|by apply Forall_singleton].
Qed.

Lemma service_kept t s hs s' kept new :
  service_ok s hs → store_ok limits s' (kept ++ new) → sublist kept hs → length new ≤ 1 →
  Forall (λ he : Held, so_sequence he.1 = st_sequence s' ∧ (st_sequence s < st_sequence s')%N
    ∧ refers (st_extensions s') (so_component he.1) (so_code he.1) (so_failure_class he.1)) new →
  evolves t s s' → service_ok s' (kept ++ new).
Proof.
  intros [Hs Ho Hp Hr] Hs' Hsub Hl HF Hv.
  assert (Forall (λ he : Held, (so_sequence he.1 ≤ st_sequence s)%N) kept) as Hpk by (by eapply Forall_within).
  split; [done| | |].
  - rewrite fmap_app. pose proof (sorted_sublist _ _ (fmap_sublist (λ he : Held, so_sequence he.1) _ _ Hsub) Ho) as Hsk.
    destruct new as [|he [|]]; [by rewrite app_nil_r| |cbn in Hl; lia]. apply sorted_snoc; [done|].
    apply Forall_fmap. eapply Forall_impl; [exact Hpk|]. apply Forall_singleton in HF as (H1 & H2 & _). cbn. intros he' Hle. lia.
  - apply Forall_app. split; [|eapply Forall_impl; [exact HF|]; cbn; intros he (H1 & _); lia].
    eapply Forall_impl; [exact Hpk|]. cbn. intros he Hle. pose proof (vo_sequence _ _ _ Hv). lia.
  - pose proof (hi_held _ _ _ _ _ (sk_history _ _ _ _ _ Hs')) as Hh. apply Forall_app in Hh as [Hhk _].
    apply Forall_app. split; [|eapply Forall_impl; [exact HF|]; cbn; intros he (_ & _ & ?); done].
    apply Forall_forall. intros he Hhe. rewrite Forall_forall in Hhk. destruct (Hhk he Hhe) as [Hf _].
    eapply refers_evolves; [exact Hs|exact Hv|exact Hf|].
    rewrite Forall_forall in Hr. apply Hr. by eapply elem_of_sublist.
Qed.

Lemma service_step t s hs s' :
  service_ok s hs → steps t hs s s' →
  ∃ kept new, service_ok s' (kept ++ new) ∧ sublist kept hs ∧ length new ≤ 1.
Proof.
  intros Hs [(kept & new & Hs' & Hsub & Hl & HF) Hv]. exists kept, new. split; [|done]. by eapply service_kept.
Qed.

Lemma slot_at_empty {A} n i : slot_at (replicate n (@None A)) i = None.
Proof.
  unfold slot_at. destruct (replicate n (@None A) !! i) as [o|] eqn:H; [|done]. by apply lookup_replicate in H as [-> _].
Qed.

Lemma sum_N_empty {A} (f : option A → N) n : f None = 0%N → sum_N (f <$> replicate n None) = 0%N.
Proof. intros Hf. induction n as [|n IH]; [done|]. cbn [replicate]. rewrite fmap_cons, sum_N_cons, Hf, IH. done. Qed.

Lemma new_ok reserve s : State_new reserve limits = Some s → service_ok s [].
Proof.
  unfold State_new. destruct (_ && _); [|done].
  destruct (pool_new _ _ _) as [p|] eqn:Hp; [|done]. intros [= <-].
  destruct (pool_new_ok _ _ _ _ Hp) as (Hok & _).
  split; [|constructor..]. split; cbn.
  - split; intros *; rewrite ?slot_at_empty; done.
  - split; [apply cb_new_items|constructor|done].
  - unfold metadata_bytes_of. by rewrite !sum_N_empty.
  - lia.
  - split; [done|]. intros _ _ _. done.
  - apply cb_new_capacity.
  - unfold max_u64. lia.
Qed.

Lemma reachable_ok s : reachable inner s → ∃ hs, service_ok s hs.
Proof.
  induction 1 as [reserve s Hn|s op r s' _ [hs IH] Ht Hrun]; [exists []; by eapply new_ok|].
  pose proof (op_wp op hs s (so_store _ _ IH) Ht) as Hw. unfold wp in Hw. rewrite Hrun in Hw.
  destruct r as [a|e|]; [| |done]; destruct (service_step _ _ _ _ IH Hw) as (kept & new & Hk & _); by eexists.
Qed.

(** One operation from a reachable store. *)
Lemma reachable_step s op :
  reachable inner s → op_text op →
  ∃ hs r s' kept new, run_op inner op s = (r, s') ∧ r ≠ Panic ∧ service_ok s hs ∧ service_ok s' (kept ++ new)
    ∧ sublist kept hs ∧ length new ≤ 1 ∧ evolves (ended op) s s'.
Proof.
  intros [hs Hs]%reachable_ok Ht. pose proof (op_wp op hs s (so_store _ _ Hs) Ht) as Hw. unfold wp in Hw.
  destruct (run_op inner op s) as [r s'] eqn:Hrun. exists hs, r, s'.
  assert (r ≠ Panic ∧ steps (ended op) hs s s') as [Hr Hst] by (by destruct r).
  destruct (service_step _ _ _ _ Hs Hst) as (kept & new & Hk & Hsub & Hl). exists kept, new.
  split_and!; try done. apply Hst.
Qed.

(** ** Reading *)

Lemma payload_reads s hs he :
  store_ok limits s hs → he ∈ hs →
  read_payload s he.1 = Some ((λ _, held_text he.2) <$> rt_payload (so_text he.1)).
Proof.
  intros Hs Hin. pose proof (hi_held _ _ _ _ _ (sk_history _ _ _ _ _ Hs)) as HF. rewrite Forall_forall in HF.
  destruct (HF he Hin) as (_ & Hp & _). unfold read_payload. destruct (rt_payload (so_text he.1)) as [h|]; [|done].
  pose proof (hi_pool _ _ _ _ _ (sk_history _ _ _ _ _ Hs)) as Hpool. destruct he as [ev [e|]]; cbn in *; subst h; [|done].
  destruct (live_resolves (st_detail s) (held_entries hs) e Hpool) as [_ ->]; [|done].
  unfold held_entries. apply list_elem_of_omap. by exists (ev, Some e).
Qed.

Lemma range_reads rt oe r :
  range_in rt oe r → read_range ((λ _, held_text oe) <$> rt_payload rt) r = Some (text_at (held_text oe) r).
Proof.
  destruct r as [r|]; [|done]. intros [Hp Hle]. destruct (rt_payload rt); [|done]. cbn.
  by rewrite (proj2 (N.leb_le _ _) Hle).
Qed.

(** What a retained event reads. *)
Definition held_event s (he : Held) (et : EventText) : Prop :=
  (∃ c, component s (so_component he.1) = Some c ∧ et_component et = cs_key c)
  ∧ code_name s (so_code he.1) = Some (et_code et)
  ∧ match so_failure_class he.1 with
    | None => et_class et = None
    | Some class => class_name s class = et_class et ∧ et_class et ≠ None
    end
  ∧ et_detail et = text_at (held_text he.2) (rt_detail (so_text he.1))
  ∧ et_session_id et = text_at (held_text he.2) (rt_session_id (so_text he.1))
  ∧ et_request_id et = text_at (held_text he.2) (rt_request_id (so_text he.1)).

Lemma held_event_reads s hs he :
  service_ok s hs → he ∈ hs → ∃ et, read_event s he.1 = Some et ∧ held_event s he et.
Proof.
  intros [Hs _ _ Hr] Hin. rewrite Forall_forall in Hr. destruct (Hr he Hin) as [Hcode Hclass].
  pose proof (hi_held _ _ _ _ _ (sk_history _ _ _ _ _ Hs)) as HF. rewrite Forall_forall in HF.
  destruct (HF he Hin) as ([c Hc] & _ & R1 & R2 & R3).
  assert (∃ code, code_name s (so_code he.1) = Some code) as [code Hcn].
  { destruct (so_code he.1) as [|k g]; cbn; [by eexists|]. destruct Hcode as (e & -> & Hg & _). cbn.
    rewrite decide_True by done. by eexists. }
  assert (∃ class, match so_failure_class he.1 with None => Some None | Some class => Some <$> class_name s class end = Some class
    ∧ match so_failure_class he.1 with None => class = None | Some cl => class_name s cl = class ∧ class ≠ None end) as (class & Hcl1 & Hcl2).
  { destruct (so_failure_class he.1) as [[cl|k g i]|]; [by eexists|  |by eexists].
    destruct Hclass as (e & n & He & Hg & _ & Hn). exists (Some n). cbn. rewrite He. cbn.
    by rewrite decide_True, Hn by done. }
  eexists. split.
  - unfold read_event. change (component s (so_component he.1)) with (find_slot (st_components s) (so_component he.1)).
    rewrite Hc. cbn [mbind option_bind]. rewrite Hcn. cbn [mbind option_bind]. rewrite Hcl1. cbn [mbind option_bind].
    rewrite (payload_reads s hs) by done. cbn [mbind option_bind]. rewrite !range_reads by done. cbn [mbind option_bind]. done.
  - split_and!; [by exists c|done|done|done|done|done].
Qed.

(** An event reads the same in a store that it has survived into. *)
Lemma held_event_stable t s hs s' hs' he et et' :
  service_ok s hs → service_ok s' hs' → evolves t s s' → he ∈ hs → he ∈ hs' →
  held_event s he et → held_event s' he et' → et = et'.
Proof.
  intros [Hs _ _ Hr] [Hs' _ _ _] Hv Hin Hin' ((c & Hc & K) & N1 & C1 & D & S & R) ((c' & Hc' & K') & N2 & C2 & D' & S' & R').
  rewrite Forall_forall in Hr. destruct (Hr he Hin) as [Hcode Hclass].
  destruct et, et'; cbn in *. f_equal; [| | |congruence..].
  - destruct (vo_from _ _ _ Hv _ _ Hc') as [Hlt|(c0 & Hc0 & Hk & _)]; [|congruence].
    apply find_slot_Some in Hc as [Hi Hh]. destruct (tb_handle _ _ _ _ _ (sk_tables _ _ _ _ _ Hs) _ c Hi) as [_ Hg].
    rewrite <-Hh in Hlt. lia.
  - destruct (so_code he.1) as [|k g]; cbn in N1, N2; [congruence|]. destruct Hcode as (e & He & Hg & Hh).
    destruct (vo_ext _ _ _ Hv k e He) as (e' & He' & [X1 X2 X3 _]).
    { rewrite Hh. apply find_slot_Some in Hc as [Hi Hh'].
      destruct (tb_handle _ _ _ _ _ (sk_tables _ _ _ _ _ Hs) _ c Hi) as [_ Hg']. by rewrite <-Hh'. }
    { rewrite Hh. by exists c'. }
    rewrite He in N1. rewrite He' in N2. cbn in N1, N2. rewrite decide_True in N1 by congruence.
    rewrite decide_True in N2 by congruence. congruence.
  - destruct (so_failure_class he.1) as [[cl|k g i]|]; [cbn in C1, C2; by destruct C1, C2; congruence| |congruence].
    destruct Hclass as (e & n & He & Hg & Hh & Hn).
    destruct (vo_ext _ _ _ Hv k e He) as (e' & He' & [X1 X2 _ X4]).
    { rewrite Hh. apply find_slot_Some in Hc as [Hi Hh'].
      destruct (tb_handle _ _ _ _ _ (sk_tables _ _ _ _ _ Hs) _ c Hi) as [_ Hg']. by rewrite <-Hh'. }
    { rewrite Hh. by exists c'. }
    cbn in C1, C2. rewrite He in C1. rewrite He' in C2. cbn in C1, C2.
    rewrite decide_True in C1 by congruence. rewrite decide_True in C2 by congruence. rewrite Hn in C1. rewrite (X4 _ _ Hn) in C2. destruct C1, C2. congruence.
Qed.

(** Every handle of an open component survives, every stale one stays stale. *)
Lemma stale_step s s' t h :
  evolves t s s' → (ch_generation h ≤ st_generation s)%N → component s h = None →
  component s' h = None ∧ (ch_generation h ≤ st_generation s')%N.
Proof.
  intros Hv Hg Hn. pose proof (vo_generation _ _ _ Hv). split; [|lia].
  destruct (component s' h) as [c'|] eqn:Hc; [|done].
  destruct (vo_from _ _ _ Hv h c' Hc) as [|(c & Hc' & _)]; [lia|congruence].
Qed.

(** A handle that finds no component is refused by every operation on it. *)
Lemma stale_refused s h op r s' :
  op_text op → component s h = None → run_op inner op s = (r, s') →
  match op with
  | OpExtension g _ | OpOrigin g | OpRecord _ g _ _ _ | OpClose _ g => g = h → r = Err ComponentClosed
  | OpRefresh _ g _ | OpClass g _ _ => g = h → ∃ e, r = Err e
  | OpDiscard g => g = h → r = Ok (DiscardedNow false)
  | OpRegister _ _ | OpDelivery _ => True
  end.
Proof.
  intros Ht Hn Hrun. assert (open_component s h = None) as Ho by (unfold open_component; by rewrite Hn).
  destruct op; cbn [run_op] in Hrun; try done; intros ->.
  - unfold register_extension, mbind, M_bind, gets, ok_or, fail in Hrun. rewrite Ho in Hrun. by injection Hrun as <- _.
  - unfold register_extension_class in Hrun. destruct (_ || _); [injection Hrun as <- _; by eexists|].
    unfold mbind, M_bind, gets, ok_or, fail in Hrun. rewrite Ho in Hrun. injection Hrun as <- _. by eexists.
  - unfold capture_origin, mbind, M_bind, gets, ok_or, fail in Hrun. rewrite Ho in Hrun. by injection Hrun as <- _.
  - destruct Ht as (Hd & _). destruct valid_bounds as [_ Hmax].
    destruct (prepare_detail_spec _ _ Hd Hmax) as (detail & truncated & Hp & _).
    unfold record_inner_lazy, record_observation, noting, mbind, M_bind, gets, expect, mret, M_ret in Hrun.
    rewrite Hp in Hrun. cbn in Hrun. rewrite Hn in Hrun. cbn in Hrun. by injection Hrun as <- _.
  - unfold refresh_component in Hrun. destruct (checked_ownership _ _) as [e|o].
    + unfold reject, fail, mbind, M_bind in Hrun. destruct e; injection Hrun as <- _; by eexists.
    + unfold mbind, M_bind, gets, ok_or, fail in Hrun. rewrite Ho in Hrun. injection Hrun as <- _. by eexists.
  - unfold close_component, mbind, M_bind, gets, ok_or, fail in Hrun. rewrite Hn in Hrun. by injection Hrun as <- _.
  - unfold discard_unobserved_component, mbind, M_bind, gets in Hrun. rewrite Hn in Hrun. by injection Hrun as <- _.
Qed.

(** Further operations. *)
Inductive runs : State B → State B → Prop :=
| runs_done s : runs s s
| runs_op s op r s' s'' : op_text op → run_op inner op s = (r, s') → runs s' s'' → runs s s''.

Lemma runs_reachable s s' : reachable inner s → runs s s' → reachable inner s'.
Proof. intros Hr Hs. induction Hs as [|s op r s' s'' Ht Hrun _ IH]; [done|]. apply IH. by eapply reach_step. Qed.

Lemma stale_runs s s' h :
  reachable inner s → runs s s' → (ch_generation h ≤ st_generation s)%N → component s h = None →
  component s' h = None.
Proof.
  intros Hr Hs. revert Hr. induction Hs as [|s op r s' s'' Ht Hrun _ IH]; intros Hr Hg Hn; [done|].
  destruct (reachable_step s op Hr Ht) as (hs & r0 & s0 & kept & new & Hrun0 & _ & _ & _ & _ & _ & Hv).
  rewrite Hrun in Hrun0. injection Hrun0 as <- <-.
  destruct (stale_step s s' _ h Hv Hg Hn) as [Hn' Hg']. apply IH; [by eapply reach_step|done|done].
Qed.

(** The operation from a reachable store. *)
Lemma op_cases s op r s' :
  reachable inner s → op_text op → run_op inner op s = (r, s') →
  ∃ hs kept new, service_ok s hs ∧ service_ok s' (kept ++ new) ∧ sublist kept hs ∧ length new ≤ 1
    ∧ evolves (ended op) s s' ∧ r ≠ Panic.
Proof.
  intros Hr Ht Hrun. destruct (reachable_step s op Hr Ht) as (hs & r0 & s0 & kept & new & Hrun0 & Hp & H1 & H2 & H3 & H4 & H5).
  rewrite Hrun in Hrun0. injection Hrun0 as <- <-. exists hs, kept, new. by split_and!.
Qed.

(** What [wp] says of a run that ended well. *)
Lemma wp_ok {A} (m : M B A) Q E s a s' : wp m Q E s → m s = (Ok a, s') → Q a s'.
Proof. unfold wp. intros Hw Hm. by rewrite Hm in Hw. Qed.

Lemma wp_err {A} (m : M B A) Q E s e s' : wp m Q E s → m s = (Err e, s') → E e s'.
Proof. unfold wp. intros Hw Hm. by rewrite Hm in Hw. Qed.
End Invariant.

Section Properties.
Context {B : Type} `{!CircularBuffer StoredObservation B, !CircularLaws StoredObservation B}.
Implicit Types s : State B.

(** C7: no operation of the diagnostics service panics.  From any store that
    operations reach under validated limits, every operation with text
    arguments, the formatting of which does not unwind by itself, returns a
    value or an error: no index is out of range, no
    [expect] fails, no chain of counters or blocks is cyclic, and every loop
    ends. *)
Theorem diagnostics_never_panics (inner : Inner) s op :
  limits_in_range (in_limits inner) = true → reachable inner s → op_text op →
  ∃ r s', run_op inner op s = (r, s') ∧ r ≠ Panic ∧ reachable inner s'.
Proof.
  intros Hl Hr Ht. destruct (reachable_step inner Hl s op Hr Ht) as (hs & r & s' & kept & new & Hrun & Hp & _).
  exists r, s'. split_and!; [done..|]. by eapply reach_step.
Qed.

(** C5: evidence is conserved.  In every reachable store the accepted
    observations are exactly the retained, the evicted and the omitted ones,
    unless one of the three counts says that it has saturated; the history
    never exceeds its bound, and evictions are counted the same in the totals
    and in the loss report. *)
Theorem evidence_conserved (inner : Inner) s :
  limits_in_range (in_limits inner) = true → reachable inner s →
  let recorded := dt_recorded_events (lt_totals (st_lifetime s)) in
  let evicted := ls_count (st_loss s) EventsEvicted in
  let omitted := ls_count (st_loss s) EventsOmitted in
  (dc_saturated recorded = false → dc_saturated evicted = false → dc_saturated omitted = false →
   dc_value recorded = (N.of_nat (cb_len (st_recent s)) + dc_value evicted + dc_value omitted)%N)
  ∧ (N.of_nat (cb_len (st_recent s)) ≤ lm_max_events (in_limits inner))%N
  ∧ dt_history_evictions (lt_totals (st_lifetime s)) = evicted.
Proof.
  intros Hl [hs Hs]%reachable_ok; [|done]. destruct (so_store _ _ _ Hs) as [_ [He _ _] _ _ [E1 E2] Hc _].
  cbv zeta. rewrite cb_len_items, He, length_fmap. split_and!; [exact E2| |exact E1].
  pose proof (history_room _ _ _ _ _ (so_store _ _ _ Hs)). lia.
Qed.

(** C21: retained events stay readable.  After any operation the history is
    part of the history before it, in order, with at most one new event at
    its end; sequence numbers strictly increase along it; every event in it
    can be read - its component, its code and class, and its texts - and
    those that were there before read exactly as before. *)
Theorem retained_events_readable (inner : Inner) s op r s' :
  limits_in_range (in_limits inner) = true → reachable inner s → op_text op → run_op inner op s = (r, s') →
  StronglySorted N.lt (so_sequence <$> cb_items (st_recent s'))
  ∧ (∀ ev, ev ∈ cb_items (st_recent s') → is_Some (read_event s' ev))
  ∧ ∃ kept new, cb_items (st_recent s') = kept ++ new ∧ sublist kept (cb_items (st_recent s)) ∧ length new ≤ 1
      ∧ ∀ ev, ev ∈ kept → read_event s' ev = read_event s ev.
Proof.
  intros Hl Hr Ht Hrun. destruct (op_cases inner Hl s op r s' Hr Ht Hrun) as (hs & kept & new & Hs & Hs' & Hsub & Hlen & Hv & _).
  pose proof (hi_events _ _ _ _ _ (sk_history _ _ _ _ _ (so_store _ _ _ Hs))) as He.
  pose proof (hi_events _ _ _ _ _ (sk_history _ _ _ _ _ (so_store _ _ _ Hs'))) as He'.
  rewrite He, He'. split_and!.
  - rewrite <-list_fmap_compose. exact (so_order _ _ _ Hs').
  - intros ev (he & -> & Hin)%list_elem_of_fmap. destruct (held_event_reads _ _ _ _ Hs' Hin) as (et & -> & _). by eexists.
  - exists kept.*1, new.*1. rewrite fmap_app. split_and!; [done|by apply fmap_sublist|by rewrite length_fmap|].
    intros ev (he & -> & Hin)%list_elem_of_fmap.
    assert (he ∈ hs) as H1 by (by eapply elem_of_sublist). assert (he ∈ kept ++ new) as H2 by (apply elem_of_app; by left).
    destruct (held_event_reads _ _ _ _ Hs H1) as (et & -> & Het), (held_event_reads _ _ _ _ Hs' H2) as (et' & -> & Het').
    f_equal. symmetry. exact (held_event_stable inner _ s hs s' (kept ++ new) he et et' Hs Hs' Hv H1 H2 Het Het').
Qed.

(** C22: the metadata account is exact and within its budget.  The bytes
    charged are the bytes of the keys and owners of the registered
    components and of the names, descriptions and classes of the registered
    extensions, whatever was registered, refreshed, evicted or discarded. *)
Theorem metadata_exact (inner : Inner) s :
  limits_in_range (in_limits inner) = true → reachable inner s →
  st_metadata_used s
  = (sum_N ((λ c, slen (cs_key c) + ownership_bytes (rf_ownership (cs_refresh c)))%N <$> omap id (st_components s))
     + sum_N (extension_bytes <$> omap id (st_extensions s)))%N
  ∧ (st_metadata_used s ≤ lm_max_metadata_bytes (in_limits inner))%N.
Proof.
  intros Hl [hs Hs]%reachable_ok; [|done]. destruct (so_store _ _ _ Hs) as [_ _ Me Bu _ _ _]. split; [|done].
  assert (∀ {A} (f : A → N) (l : list (option A)), sum_N (from_option f 0%N <$> l) = sum_N (f <$> omap id l)) as Hsum.
  { intros A f l. induction l as [|[a|] l IH]; [done| |done]. cbn [omap list_omap id].
    rewrite !fmap_cons, !sum_N_cons, IH. done. }
  rewrite Me. unfold metadata_bytes_of. by rewrite <-!Hsum.
Qed.

(** C23: a stale handle stays stale.  Once an issued component handle finds no
    component - it was discarded, or evicted after it was closed - no
    sequence of operations makes it valid again, not even when its slot is
    reused: recording, closing, refreshing, extending and capturing an
    origin through it are all refused, and a new registration never returns
    it. *)
Theorem stale_handles_refused (inner : Inner) s s' h op r s'' :
  limits_in_range (in_limits inner) = true → reachable inner s →
  (ch_generation h ≤ st_generation s)%N → component s h = None → runs inner s s' →
  op_text op → run_op inner op s' = (r, s'') →
  match op with
  | OpExtension g _ | OpOrigin g | OpRecord _ g _ _ _ | OpClose _ g => g = h → r = Err ComponentClosed
  | OpRefresh _ g _ | OpClass g _ _ => g = h → ∃ e, r = Err e
  | OpDiscard g => g = h → r = Ok (DiscardedNow false)
  | OpRegister _ _ => ∀ g i, r = Ok (RegisteredAs g i) → g ≠ h
  | OpDelivery _ => True
  end.
Proof.
  intros Hl Hr Hg Hn Hruns Ht Hrun. pose proof (stale_runs inner Hl _ _ _ Hr Hruns Hg Hn) as Hn'.
  pose proof (stale_refused inner Hl _ _ _ _ _ Ht Hn' Hrun) as Href. destruct op; try exact Href. intros g i -> ->.
  assert (runs inner s s'') as Hall.
  { clear -Hruns Ht Hrun. induction Hruns as [s|s op r s1 s2 Ht' Hrun' _ IH]; [eapply runs_op; [exact Ht|exact Hrun|constructor]|].
    eapply runs_op; [exact Ht'|exact Hrun'|by apply IH]. }
  pose proof (stale_runs inner Hl _ _ _ Hr Hall Hg Hn) as Hgone.
  destruct (reachable_ok inner Hl s') as [hs Hs]; [by eapply runs_reachable|].
  cbn [run_op] in Hrun. unfold mbind, M_bind, register_owned_component, noting in Hrun.
  pose proof (register_component_wp (in_limits inner) inner clock registration hs s' (so_store _ _ _ Hs) eq_refl) as Hw.
  unfold wp in Hw. destruct (register_component inner clock registration s') as [[[g' i']|e|] s1]; [|done..].
  injection Hrun as -> -> ->. destruct Hw as (_ & a & _ & [_ (c & Hc & _) _]). cbn in Hc. congruence.
Qed.

(** C24: admission never displaces an open component.  An open component is
    still registered and open after any operation other than closing or
    discarding it, whatever had to be evicted to make room. *)
Theorem open_components_survive (inner : Inner) s op r s' h c :
  limits_in_range (in_limits inner) = true → reachable inner s → op_text op → run_op inner op s = (r, s') →
  component s h = Some c → cs_closed_at c = None → ended op ≠ Some h →
  ∃ c', component s' h = Some c' ∧ cs_closed_at c' = None ∧ cs_key c' = cs_key c.
Proof.
  intros Hl Hr Ht Hrun Hc Ho Hne. destruct (op_cases inner Hl s op r s' Hr Ht Hrun) as (hs & kept & new & Hs & _ & _ & _ & Hv & _).
  destruct (vo_open _ _ _ Hv h c Hc Ho) as (c' & Hc' & Ho'); [congruence|]. exists c'. split_and!; [done..|].
  destruct (vo_from _ _ _ Hv h c' Hc') as [Hlt|(c0 & Hc0 & Hk & _)]; [|congruence].
  apply find_slot_Some in Hc as [Hi Hh].
  destruct (tb_handle _ _ _ _ _ (sk_tables _ _ _ _ _ (so_store _ _ _ Hs)) _ c Hi) as [_ Hg]. rewrite Hh in Hg. lia.
Qed.

(** [c'] is [c] with [n] added in 64 bits; a count that does not fit stays at
    the maximum and is marked. *)
Definition grows (n : N) (c c' : DiagnosticCount) : Prop :=
  dc_value c' = N.min (dc_value c + n) max_u64
  ∧ dc_saturated c' = dc_saturated c || (max_u64 <? dc_value c + n)%N.

(** One more event of [n] occurrences, counted under its outcome alone. *)
Record totals_grow (outcome : DiagnosticOutcome) (n : N) (t t' : DiagnosticTotals) : Prop := {
  tg_events : grows 1 (dt_recorded_events t) (dt_recorded_events t');
  tg_occurrences : grows n (dt_occurrences t) (dt_occurrences t');
  tg_successes : if decide (outcome = OutcomeSuccess) then grows n (dt_successes t) (dt_successes t')
                 else dt_successes t' = dt_successes t;
  tg_failures : if decide (outcome = OutcomeFailure) then grows n (dt_failures t) (dt_failures t')
                else dt_failures t' = dt_failures t;
  tg_unspecified : if decide (outcome = OutcomeUnknown) then grows n (dt_unspecified t) (dt_unspecified t')
                   else dt_unspecified t' = dt_unspecified t;
}.

Lemma count_add_grows c n : grows n c (count_add c n).
Proof.
  unfold grows, count_add. destruct (N.ltb_spec max_u64 (dc_value c + n)); cbn.
  - split; [lia|by rewrite orb_true_r].
  - split; [lia|by rewrite orb_false_r].
Qed.

Lemma tally_grows t t' outcome n : tally t' = tally (totals_record t outcome n) → totals_grow outcome n t t'.
Proof.
  unfold tally, totals_record. intros Ht. injection Ht as H1 H2 H3 H4 H5.
  split; rewrite ?H1, ?H2, ?H3, ?H4, ?H5; destruct outcome; cbn; first [done|apply count_add_grows].
Qed.

(** C25: an accepted observation is counted exactly once.  Recording advances
    the sequence by one, and the receipt carries the new number; the totals of
    the store, and the lifetime and refresh totals of the component, each grow
    by one event and by the count of the observation, under its outcome and no
    other; the counts of every other component stay; of the counters exactly
    the one that the component declared for the code grows by the count of the
    observation, and the receipt carries its new value.  Every sum is the exact
    one, or the 64-bit maximum with its mark.  A rejected observation changes
    nothing but the loss report and the sequence. *)
Theorem observation_counted_once (inner : Inner) s clock h origin ob publication r s' :
  limits_in_range (in_limits inner) = true → reachable inner s → op_text (OpRecord clock h origin ob publication) →
  record_inner_lazy inner clock h origin ob publication s = (r, s') →
  match r with
  | Ok (receipt, _) =>
      ∃ c c' code class, open_component s h = Some c ∧ resolve_observation_code s inner h ob = inr (code, class)
        ∧ st_sequence s' = N.succ (st_sequence s) ∧ rr_sequence receipt = st_sequence s'
        ∧ totals_grow (ob_outcome ob) (ob_count ob) (lt_totals (st_lifetime s)) (lt_totals (st_lifetime s'))
        ∧ open_component s' h = Some c'
        ∧ totals_grow (ob_outcome ob) (ob_count ob) (lt_totals (cs_lifetime c)) (lt_totals (cs_lifetime c'))
        ∧ totals_grow (ob_outcome ob) (ob_count ob) (rf_totals (cs_refresh c)) (rf_totals (cs_refresh c'))
        ∧ (∀ g d, g ≠ h → component s g = Some d → ∃ d', component s' g = Some d' ∧ status d' = status d)
        ∧ match code with
          | None => st_counters s' = st_counters s ∧ rr_code_total receipt = None
          | Some code =>
              ∃ i cn cn', slot_at (st_counters s) i = Some cn ∧ cn_component cn = h ∧ cn_code cn = code
                ∧ slot_at (st_counters s') i = Some cn' ∧ cn_component cn' = h ∧ cn_code cn' = code
                ∧ grows (ob_count ob) (cn_occurrences cn) (cn_occurrences cn')
                ∧ cn_last_observed_at cn' = Some (ck_now clock)
                ∧ rr_code_total receipt = Some (cn_occurrences cn')
                ∧ ∀ j, j ≠ i → st_counters s' !! j = st_counters s !! j
          end
  | Err _ => ∃ seq loss, s' = set_loss (set_sequence s seq) loss
  | Panic => False
  end.
Proof.
  intros Hl [hs Hs]%reachable_ok Ht Hrun; [|done].
  pose proof (record_inner_wp inner Hl clock h origin ob publication hs s (so_store _ _ _ Hs) Ht) as Hw.
  unfold wp in Hw. rewrite Hrun in Hw. destruct r as [[receipt published]|e|]; [| |done].
  2:{ destruct Hw as [_ (seq & loss & _ & ->)]. by exists seq, loss. }
  destruct Hw as (detail & truncated & _ & [(c & code & class & H1 & H2 & H3 & [C1 C2 C3 C4 C5] & H5) H6 _ _]).
  destruct C3 as (c' & Hc' & Ho' & T1 & T2). exists c, c', code, class. cbn [fst] in *.
  split_and!; try done; [by apply tally_grows|by apply open_component_Some|by apply tally_grows..|].
  destruct code as [code|]; cbn [mbind option_bind] in *; [|by split].
  destruct (H3 (ex_intro _ _ eq_refl)) as [i Hi]. rewrite Hi in C5, H5. cbn [mbind option_bind] in H5.
  destruct (declared_counter_Some _ _ _ _ Hi) as (cn & Hcn & K1 & K2).
  unfold observed_counters in C5. cbn [mbind option_bind] in C5. rewrite Hcn in C5. cbn [fmap option_fmap option_map] in C5.
  assert (slot_at (st_counters s') i = Some (observe_counter (ob_count ob) (ck_now clock) cn)) as Hcn'.
  { rewrite C5, slot_at_insert by (by eapply slot_at_lt). by rewrite decide_True. }
  exists i, cn, (observe_counter (ob_count ob) (ck_now clock) cn). rewrite Hcn' in H5.
  split_and!; try done; [by apply count_add_grows|]. intros j Hj. rewrite C5. by apply list_lookup_insert_ne.
Qed.

Lemma keeps_field_chosen text r value : keeps_field text r value → text_at text r = chosen r value.
Proof. unfold keeps_field. by destruct r as [r|]; [intros [_ ?]|]. Qed.

Lemma omitted_chosen r value : omitted value r = false ↔ chosen r value = value.
Proof. by destruct r, value. Qed.

Lemma retained_fields rt oe detail session request :
  retained rt oe detail session request →
  keeps_field (held_text oe) (rt_detail rt) detail ∧ keeps_field (held_text oe) (rt_session_id rt) session
  ∧ keeps_field (held_text oe) (rt_request_id rt) request.
Proof.
  unfold retained. destruct (rt_payload rt) as [p|].
  - intros (text & Hst & H). assert (held_text oe = text) as ->; [|done].
    destruct oe as [e|]; cbn in Hst |- *; by destruct Hst.
  - by intros [_ ->].
Qed.

Lemma evidence_event (inner : Inner) h ob detail truncated pool hs evidence s' :
  evidence ≠ EvidenceDropped → evidence_kept (in_limits inner) inner h ob detail truncated pool hs evidence s' →
  let limit := lm_max_correlation_bytes (in_limits inner) in
  let session := bounded_opt (ob_session_id ob) limit in
  let request := bounded_opt (ob_request_id ob) limit in
  ∃ kept ev oe, kept `suffix_of` hs ∧ store_ok (in_limits inner) s' (kept ++ [(ev, oe)])
    ∧ so_component ev = h ∧ so_sequence ev = st_sequence s' ∧ so_count ev = ob_count ob
    ∧ ob_code ob ≠ ObsOverflow ∧ refers (st_extensions s') h (so_code ev) (so_failure_class ev)
    ∧ retained (so_text ev) oe detail session request
    ∧ chosen_texts (so_text ev) detail session request = retained_texts pool detail session request
    ∧ (evidence = EvidenceRetained ↔
       truncated = false ∧ chosen_texts (so_text ev) detail session request
         = (detail, ob_session_id ob, ob_request_id ob)).
Proof.
  intros Hd He limit session request.
  assert (∃ kept ev oe, kept `suffix_of` hs ∧ store_ok (in_limits inner) s' (kept ++ [(ev, oe)])
    ∧ so_component ev = h ∧ so_sequence ev = st_sequence s' ∧ so_count ev = ob_count ob
    ∧ so_outcome ev = ob_outcome ob
    ∧ ob_code ob ≠ ObsOverflow ∧ refers (st_extensions s') h (so_code ev) (so_failure_class ev)
    ∧ retained (so_text ev) oe detail session request
    ∧ chosen_texts (so_text ev) detail session request = retained_texts pool detail session request
    ∧ (evidence = EvidenceRetained ↔
       truncated = false ∧ session = ob_session_id ob ∧ request = ob_request_id ob
       ∧ complete (so_text ev) detail (ob_session_id ob) (ob_request_id ob)))
    as (kept & ev & oe & E1 & E2 & E3 & E4 & E5 & _ & E6 & E7 & E8 & E9 & E10) by (by destruct evidence).
  exists kept, ev, oe. split_and!; [done..|]. rewrite E10. unfold complete, chosen_texts. rewrite !omitted_chosen.
  split; [intros (-> & -> & -> & H1 & H2 & H3)|intros (-> & H)]; [by rewrite H1, H2, H3|].
  injection H as H1 H2 H3.
  assert (∀ r (o v : option string), bounded_opt o limit = v → chosen r v = o → v = o) as Hall.
  { intros [r|] o v Hv; cbn; [done|]. intros <-. by subst v. }
  pose proof (Hall _ _ session eq_refl H2) as S1. pose proof (Hall _ _ request eq_refl H3) as S2.
  rewrite S1 in H2. rewrite S2 in H3. by split_and!.
Qed.

(** C26: recorded text reads back.  The evidence of an accepted observation is
    dropped only when the history is disabled or the classification has
    overflowed, and then the history does not change.  Otherwise it is the
    newest event of the history, under the returned sequence number, and
    reading it gives exactly the texts that fit: of the prepared detail and the
    bounded session and request identifiers, in this order, each is there in
    full when the pool has blocks for it next to those before it, and absent
    when it has not, however full the pool was.  The receipt says [Retained]
    exactly when all three are complete; the detail then is every write of a
    formatted value. *)
Theorem recorded_text_reads_back (inner : Inner) s clock h origin ob publication receipt published s' :
  limits_in_range (in_limits inner) = true → reachable inner s → op_text (OpRecord clock h origin ob publication) →
  record_inner_lazy inner clock h origin ob publication s = (Ok (receipt, published), s') →
  let limit := lm_max_correlation_bytes (in_limits inner) in
  (rr_evidence receipt = EvidenceDropped ↔ lm_max_events (in_limits inner) = 0%N ∨ ob_code ob = ObsOverflow)
  ∧ (rr_evidence receipt = EvidenceDropped → cb_items (st_recent s') = cb_items (st_recent s))
  ∧ (rr_evidence receipt ≠ EvidenceDropped →
     ∃ event et detail truncated, last (cb_items (st_recent s')) = Some event
      ∧ so_component event = h ∧ so_sequence event = rr_sequence receipt ∧ so_count event = ob_count ob
      ∧ prepare_detail (ob_detail ob) (lm_max_detail_bytes (in_limits inner)) = Some (detail, truncated)
      ∧ read_event s' event = Some et
      ∧ (et_detail et, et_session_id et, et_request_id et)
        = retained_texts (st_detail s) detail (bounded_opt (ob_session_id ob) limit)
            (bounded_opt (ob_request_id ob) limit)
      ∧ (rr_evidence receipt = EvidenceRetained ↔
         truncated = false
         ∧ (et_detail et, et_session_id et, et_request_id et) = (detail, ob_session_id ob, ob_request_id ob))
      ∧ (rr_evidence receipt = EvidenceRetained → et_detail et = detail_text (ob_detail ob))).
Proof.
  intros Hl Hr Ht Hrun limit. destruct (reachable_ok inner Hl s Hr) as [hs Hs].
  pose proof (record_inner_wp inner Hl clock h origin ob publication hs s (so_store _ _ _ Hs) Ht) as Hw.
  eapply wp_ok in Hw; [|exact Hrun]. destruct Hw as (detail & truncated & Hp & [(c & code & class & _ & _ & _ & Hc & _) Hq He Hv]).
  cbn [fst] in Hq, He. pose proof (ct_sequence _ _ _ _ _ _ _ Hc) as Hseq.
  assert (rr_evidence receipt = EvidenceDropped ∨ rr_evidence receipt ≠ EvidenceDropped) as [Hd|Hd]
    by (destruct (rr_evidence receipt); auto).
  { rewrite Hd in He. destruct He as [He Hwhy]. rewrite Hd. split_and!; [done| |done]. intros _.
    by rewrite (hi_events _ _ _ _ _ (sk_history _ _ _ _ _ He)), (hi_events _ _ _ _ _ (sk_history _ _ _ _ _ (so_store _ _ _ Hs))). }
  destruct (evidence_event inner _ _ _ _ _ _ _ _ Hd He) as (kept & ev & oe & [d ->] & Hs' & E1 & E2 & E3 & E4 & E5 & E6 & E7 & E8).
  pose proof (history_room _ _ _ _ _ Hs') as Hroom. rewrite length_app in Hroom. cbn in Hroom.
  split_and!; [split; [done|intros [?|?]; [lia|done]]|done|]. intros _.
  assert (service_ok inner s' (kept ++ [(ev, oe)])) as Hsv.
  { eapply service_kept; [exact Hs|exact Hs'|by apply sublist_inserts_l|cbn; lia| |exact Hv].
    apply Forall_singleton. cbn. rewrite E1. split_and!; [done|lia|done]. }
  destruct (held_event_reads inner s' _ (ev, oe) Hsv) as (et & Het & _ & _ & _ & F1 & F2 & F3).
  { apply elem_of_app. right. by left. }
  cbn [fst snd] in Het, F1, F2, F3. exists ev, et, detail, truncated.
  destruct (retained_fields _ _ _ _ _ E6) as (K1 & K2 & K3).
  apply keeps_field_chosen in K1, K2, K3. rewrite K1 in F1. rewrite K2 in F2. rewrite K3 in F3.
  rewrite F1, F2, F3. fold (chosen_texts (so_text ev) detail (bounded_opt (ob_session_id ob) limit) (bounded_opt (ob_request_id ob) limit)).
  split_and!; try done.
  - rewrite (hi_events _ _ _ _ _ (sk_history _ _ _ _ _ Hs')), fmap_app. cbn. by rewrite last_snoc.
  - congruence.
  - rewrite E8. intros [-> H]. injection H as H1 _ _. rewrite H1. destruct Ht as (Hd' & _).
    by apply (prepare_detail_whole _ _ _ Hd' Hp).
Qed.

(** A counter of a component is found by its code. *)
Lemma declared_exists limits s hs h c j cn :
  store_ok limits s hs → component s h = Some c → slot_at (st_counters s) j = Some cn → cn_component cn = h →
  is_Some (declared_counter s h (cn_code cn)).
Proof.
  intros Hs Hc Hj Hh. unfold declared_counter.
  assert ((j, cn) ∈ component_counters s h) as Hin.
  { assert (j ∈ (component_counters s h).*1) as ([j' cn'] & -> & Hin)%list_elem_of_fmap.
    { rewrite (component_counters_owned _ _ _ _ _ Hs Hc). apply owned_elem. by exists cn. }
    destruct (counters_from_elem _ _ _ _ _ Hin) as [H _]. cbn in Hj, H |- *.
    by assert (cn' = cn) as <- by congruence. }
  destruct (filter _ _) as [|p l] eqn:Hf; [|by eexists].
  assert ((j, cn) ∈ filter (λ ic : nat * CounterSlot, cn_code ic.2 = cn_code cn) (component_counters s h)) as Hin'
    by (by apply list_elem_of_filter).
  rewrite Hf in Hin'. by apply not_elem_of_nil in Hin'.
Qed.

(** C27: an admitted registration is complete.  The new handle was never
    issued before; it finds an open component with the given key and owner
    and with empty totals, whose counters are those of the declared codes,
    in the order they were declared, each found by its code. *)
Theorem registration_complete (inner : Inner) s clock registration h identity s' :
  limits_in_range (in_limits inner) = true → reachable inner s →
  register_owned_component inner clock registration s = (Ok (h, identity), s') →
  (st_generation s < ch_generation h)%N
  ∧ (∃ c, open_component s' h = Some c ∧ cs_key c = cr_key registration
       ∧ checked_ownership (cr_ownership registration) (in_limits inner) = inr (rf_ownership (cs_refresh c))
       ∧ cs_lifetime c = zero_lifetime)
  ∧ component_codes s' h = CodeBuiltin <$> cr_builtin_codes registration
  ∧ ∀ code, code ∈ cr_builtin_codes registration → is_Some (declared_counter s' h (CodeBuiltin code)).
Proof.
  intros Hl [hs Hs]%reachable_ok Hrun; [|done].
  pose proof (register_component_wp (in_limits inner) inner clock registration hs s (so_store _ _ _ Hs) eq_refl) as Hw.
  unfold register_owned_component, noting in Hrun.
  destruct (register_component inner clock registration s) as [[[g i]|e|] s1] eqn:Hreg; [|done..].
  injection Hrun as -> -> ->. eapply wp_ok in Hw; [|exact Hreg].
  destruct Hw as ([(hs' & Hs' & _) _] & a & Ha & [I1 (c & Hc & K & O & A & L) I3]). cbn [fst] in *.
  split_and!; [done| |done|].
  - exists c. rewrite A. split_and!; [|done..]. by apply open_component_Some.
  - intros code Hcode. assert (CodeBuiltin code ∈ component_codes s' h) as Hin by (rewrite I3; by apply list_elem_of_fmap_2).
    apply list_elem_of_fmap in Hin as ([j cn] & Hcn & Hin). destruct (counters_from_elem _ _ _ _ _ Hin) as [H1 H2].
    cbn in *. rewrite Hcn. by eapply declared_exists.
Qed.

(** An admitted extension is usable.  The handle belongs to this context
    and component and resolves to a descriptor with the registered name,
    description, outcome and causes; its own counter is in the chain of the
    component, so that an observation of the extension finds it. *)
Theorem extension_usable (inner : Inner) s h registration r s' :
  limits_in_range (in_limits inner) = true → reachable inner s →
  register_extension inner h registration s = (Ok r, s') →
  eh_context_id r = in_context_id inner ∧ eh_component r = h
  ∧ (∃ e, extension_of s' h r = Some e ∧ descriptor s' h r = Some e
       ∧ es_name e = er_namespace registration +:+ "." +:+ er_name registration
       ∧ es_description e = er_description registration ∧ es_outcome e = er_outcome registration
       ∧ class_set (er_allowed_classes registration) [] = Some (es_allowed_classes e))
  ∧ is_Some (declared_counter s' h (CodeExtension (eh_slot r) (eh_generation r))).
Proof.
  intros Hl [hs Hs]%reachable_ok Hrun; [|done].
  destruct (valid_bounds inner Hl) as [Hid _].
  pose proof (register_extension_wp (in_limits inner) inner h registration hs s (so_store _ _ _ Hs) eq_refl Hid) as Hw.
  eapply wp_ok in Hw; [|exact Hrun].
  destruct Hw as ([(hs' & Hs' & _) _] & (classes & Hcl & e & He & E1 & E2 & E3 & E4) & H1 & H2).
  split_and!; [done..| |].
  - exists e. rewrite E4. split_and!; try done. apply extension_of_Some in He as (A1 & A2 & A3).
    unfold descriptor. rewrite A1. cbn. by rewrite decide_True.
  - apply extension_of_Some in He as (A1 & A2 & A3).
    destruct (tb_extension _ _ _ _ _ (sk_tables _ _ _ _ _ Hs') _ _ A1) as ([c Hc] & _ & _ & j & cn & Hj & C1 & C2).
    rewrite A2 in Hc, C1. rewrite A3 in C2. rewrite <-C2. by eapply declared_exists.
Qed.
End Properties.

(** ** A service at work *)

Section After.
Context {B : Type} `{!CircularBuffer StoredObservation B}.

(** The store after some operations. *)
Fixpoint after (inner : Inner) (ops : list Op) (s : State B) : State B :=
  match ops with
  | [] => s
  | op :: ops => after inner ops (run_op inner op s).2
  end.

Lemma after_reachable inner ops s : reachable inner s → Forall op_text ops → reachable inner (after inner ops s).
Proof.
  intros Hr HF. revert s Hr. induction HF as [|op ops Ht _ IH]; intros s Hr; [done|]. cbn [after]. apply IH.
  eapply reach_step; [exact Hr|exact Ht|apply surjective_pairing].
Qed.

Lemma after_runs inner ops s : Forall op_text ops → runs inner s (after inner ops s).
Proof.
  intros HF. revert s. induction HF as [|op ops Ht _ IH]; intros s; [constructor|]. cbn [after].
  eapply runs_op; [exact Ht|apply surjective_pairing|apply IH].
Qed.
End After.

Definition demo_limits : DiagnosticLimits :=
  {| lm_max_components := 2; lm_max_counters := 4; lm_max_events := 2; lm_max_window_buckets := 4;
     lm_max_extensions := 2; lm_max_metadata_bytes := 64; lm_max_identity_bytes := 32; lm_max_detail_bytes := 16;
     lm_max_correlation_bytes := 8; lm_detail_pool_bytes := 32; lm_detail_block_bytes := 4; lm_max_queries := 0;
     lm_max_query_components := 64; lm_max_query_events := 256; lm_max_query_counters := 256;
     lm_max_query_window_buckets := 512; lm_max_snapshot_bytes := 131072; lm_query_text_bytes := 65536;
     lm_max_projections := 16; lm_max_projection_workspaces := 4; lm_max_owned_bytes := 1048576 |}.

Definition demo_inner : Inner := {| in_context_id := 7; in_limits := demo_limits |}.

Definition demo_clock : Clock := {| ck_now := 100; ck_tick := 5; ck_uuid := 9 |}.

Definition demo_owner : ComponentOwnership :=
  {| co_subscriber_instance_id := None; co_plugin_instance_id := None; co_configuration_id := None;
     co_responsibility := Some "owner"%string |}.

Definition demo_registration : ComponentRegistration :=
  {| cr_key := "a.b"; cr_builtin_codes := [Failure (LoggingFailure LgSinkWriteFailed); Success ScSinkInitialized];
     cr_ownership := demo_owner; cr_window := Some {| wi_resolution_millis := 10; wi_bucket_count := 2 |} |}.

Definition demo_observation (text : string) : Observation :=
  let ob := Observation_new
    (default (from_opaque_names "" None) (Classification_new (Failure (LoggingFailure LgSinkWriteFailed)) (Some FcIo)))
    (DetailText text) 3 in
  {| ob_code := ob_code ob; ob_remote := None; ob_detail := ob_detail ob; ob_count := ob_count ob;
     ob_severity := ob_severity ob; ob_outcome := ob_outcome ob; ob_session_id := Some "s1"%string;
     ob_request_id := None; ob_context := ob_context ob |}.

Definition demo_handle : ComponentHandle := {| ch_slot := 0; ch_generation := 1 |}.

Definition demo_record (text : string) : Op :=
  OpRecord demo_clock demo_handle None (demo_observation text) NotRequested.

Definition demo_extension : ExtensionRegistration :=
  {| er_namespace := "acme"; er_name := "x"; er_description := "d"; er_allowed_classes := [FcIo];
     er_outcome := OutcomeFailure |}.

Definition demo_new : State (Ring StoredObservation) :=
  {| st_sequence := 0; st_generation := 0; st_components := replicate 2 None; st_lifetime := zero_lifetime;
     st_counters := replicate 4 None; st_windows := replicate 4 None; st_extensions := replicate 2 None;
     st_recent := cb_with_capacity 2;
     st_detail := default {| po_bytes := []; po_blocks := []; po_block_bytes := 0; po_free_head := None;
                             po_free_blocks := 0; po_generation := 0 |} (pool_new (λ _, true) 32 4);
     st_metadata_used := 0; st_loss := zero_loss |}.

Lemma demo_new_reachable : reachable demo_inner demo_new.
Proof. apply (reach_new _ (λ _, true)). reflexivity. Qed.

Lemma demo_record_text text : utf8_valid text = true → op_text (demo_record text).
Proof. intros Ht. split; [exact Ht|]. split; [by intros v [= <-]|by intros v [=]]. Qed.

(** A component registered and used until its history is full. *)
Definition demo_ops : list Op :=
  [OpRegister demo_clock demo_registration; demo_record "hello"; OpExtension demo_handle demo_extension;
   demo_record "world"; demo_record "again"].

Lemma demo_ops_text : Forall op_text demo_ops.
Proof. repeat constructor; by intros v [= <-]. Qed.

Definition demo_store : State (Ring StoredObservation) := after demo_inner demo_ops demo_new.

Lemma demo_store_reachable : reachable demo_inner demo_store.
Proof. apply after_reachable; [exact demo_new_reachable|exact demo_ops_text]. Qed.

Lemma diagnostics_never_panics_witness :
  ∃ r s', run_op demo_inner (demo_record "more") demo_store = (r, s') ∧ r ≠ Panic ∧ reachable demo_inner s'.
Proof.
  apply (diagnostics_never_panics demo_inner demo_store (demo_record "more"));
    [reflexivity|exact demo_store_reachable|apply demo_record_text; reflexivity].
Defined.

Lemma evidence_conserved_witness :
  dc_value (dt_recorded_events (lt_totals (st_lifetime demo_store))) = 3%N
  ∧ N.of_nat (cb_len (st_recent demo_store)) = 2%N
  ∧ dc_value (dt_recorded_events (lt_totals (st_lifetime demo_store)))
    = (N.of_nat (cb_len (st_recent demo_store)) + dc_value (ls_count (st_loss demo_store) EventsEvicted)
       + dc_value (ls_count (st_loss demo_store) EventsOmitted))%N.
Proof.
  split; [vm_compute; reflexivity|]. split; [vm_compute; reflexivity|].
  apply (evidence_conserved demo_inner demo_store); [reflexivity|exact demo_store_reachable|vm_compute; reflexivity..].
Defined.

Lemma retained_events_readable_witness :
  let s' := (run_op demo_inner (demo_record "more") demo_store).2 in
  StronglySorted N.lt (so_sequence <$> cb_items (st_recent s'))
  ∧ (∀ ev, ev ∈ cb_items (st_recent s') → is_Some (read_event s' ev))
  ∧ ∃ kept new, cb_items (st_recent s') = kept ++ new ∧ sublist kept (cb_items (st_recent demo_store)) ∧ length new ≤ 1
      ∧ ∀ ev, ev ∈ kept → read_event s' ev = read_event demo_store ev.
Proof.
  eapply (retained_events_readable demo_inner demo_store (demo_record "more"));
    [reflexivity|exact demo_store_reachable|apply demo_record_text; reflexivity|apply surjective_pairing].
Defined.

Lemma metadata_exact_witness :
  st_metadata_used demo_store = 15%N ∧ (st_metadata_used demo_store ≤ 64)%N.
Proof.
  split; [vm_compute; reflexivity|].
  apply (metadata_exact demo_inner demo_store); [reflexivity|exact demo_store_reachable].
Defined.

(** Closed, then evicted to make room for two others. *)
Definition demo_later : State (Ring StoredObservation) :=
  after demo_inner [OpClose demo_clock demo_handle; OpRegister demo_clock demo_registration;
                    OpRegister demo_clock demo_registration] demo_store.

Lemma demo_later_reachable : reachable demo_inner demo_later.
Proof. apply after_reachable; [exact demo_store_reachable|by repeat constructor]. Qed.

Lemma stale_handles_refused_witness :
  component demo_later demo_handle = None
  ∧ (run_op demo_inner (demo_record "late") (after demo_inner [OpDelivery Delivered] demo_later)).1 = Err ComponentClosed.
Proof.
  split; [vm_compute; reflexivity|].
  refine (stale_handles_refused demo_inner demo_later (after demo_inner [OpDelivery Delivered] demo_later) demo_handle
    (demo_record "late") _ _ eq_refl demo_later_reachable _ _ _ _ (surjective_pairing _) eq_refl).
  - vm_compute. discriminate.
  - vm_compute. reflexivity.
  - apply after_runs. by repeat constructor.
  - apply demo_record_text. reflexivity.
Defined.

Lemma open_components_survive_witness :
  let s' := (run_op demo_inner (OpRegister demo_clock demo_registration) demo_store).2 in
  ∃ c', component s' demo_handle = Some c' ∧ cs_closed_at c' = None ∧ cs_key c' = "a.b"%string.
Proof.
  assert (∃ c, component demo_store demo_handle = Some c ∧ cs_closed_at c = None ∧ cs_key c = "a.b"%string) as (c & Hc & Ho & Hk)
    by (vm_compute; eexists; split; [reflexivity|split; reflexivity]).
  cbv zeta. rewrite <-Hk.
  eapply (open_components_survive demo_inner demo_store (OpRegister demo_clock demo_registration));
    [reflexivity|exact demo_store_reachable|exact I|apply surjective_pairing|exact Hc|exact Ho|discriminate].
Defined.

Lemma observation_counted_once_witness :
  ∃ receipt published s', record_inner_lazy demo_inner demo_clock demo_handle None (demo_observation "more") NotRequested demo_store
      = (Ok (receipt, published), s')
    ∧ rr_code_total receipt = Some {| dc_value := 12; dc_saturated := false |}
    ∧ rr_sequence receipt = st_sequence s'
    ∧ totals_grow OutcomeFailure 3 (lt_totals (st_lifetime demo_store)) (lt_totals (st_lifetime s')).
Proof.
  destruct (record_inner_lazy demo_inner demo_clock demo_handle None (demo_observation "more") NotRequested demo_store)
    as [r s'] eqn:Hrun.
  pose proof (observation_counted_once demo_inner demo_store demo_clock demo_handle None (demo_observation "more") NotRequested r s'
    eq_refl demo_store_reachable (demo_record_text "more" eq_refl) Hrun) as H.
  pose proof (f_equal fst Hrun) as Hr. cbn [fst] in Hr. vm_compute in Hr. subst r.
  destruct H as (_ & _ & _ & _ & _ & _ & _ & Hseq & Htotals & _).
  eexists _, _, s'. split; [reflexivity|]. split; [reflexivity|]. split; [exact Hseq|exact Htotals].
Defined.

(** The observation with a request identifier too. *)
Definition demo_requested (text : string) : Observation :=
  let ob := demo_observation text in
  {| ob_code := ob_code ob; ob_remote := None; ob_detail := ob_detail ob; ob_count := ob_count ob;
     ob_severity := ob_severity ob; ob_outcome := ob_outcome ob; ob_session_id := ob_session_id ob;
     ob_request_id := Some "r9"%string; ob_context := ob_context ob |}.

Lemma demo_requested_text text :
  utf8_valid text = true → op_text (OpRecord demo_clock demo_handle None (demo_requested text) NotRequested).
Proof. intros Ht. split; [exact Ht|]. split; by intros v [= <-]. Qed.

Lemma recorded_text_reads_back_witness :
  let s' := (record_inner_lazy demo_inner demo_clock demo_handle None (demo_requested "more") NotRequested demo_store).2 in
  ∃ event et, last (cb_items (st_recent s')) = Some event ∧ read_event s' event = Some et
    ∧ (et_detail et, et_session_id et, et_request_id et) = (Some "more", Some "s1", Some "r9")%string.
Proof.
  destruct (record_inner_lazy demo_inner demo_clock demo_handle None (demo_requested "more") NotRequested demo_store)
    as [r s'] eqn:Hrun.
  pose proof (f_equal fst Hrun) as Hr. cbn [fst] in Hr. vm_compute in Hr. subst r.
  destruct (recorded_text_reads_back demo_inner demo_store demo_clock demo_handle None (demo_requested "more") NotRequested _ _ s'
    eq_refl demo_store_reachable (demo_requested_text "more" eq_refl) Hrun) as (_ & _ & H).
  destruct (H ltac:(discriminate)) as (event & et & detail & truncated & H1 & _ & _ & _ & Hp & H2 & Htexts & _ & _).
  vm_compute in Hp. injection Hp as <- <-. exists event, et. split; [exact H1|]. split; [exact H2|].
  rewrite Htexts. vm_compute. reflexivity.
Defined.

Lemma registration_complete_witness :
  ∃ s', (register_owned_component demo_inner demo_clock demo_registration demo_new).2 = s'
    ∧ component_codes s' demo_handle
      = [CodeBuiltin (Failure (LoggingFailure LgSinkWriteFailed)); CodeBuiltin (Success ScSinkInitialized)].
Proof.
  destruct (register_owned_component demo_inner demo_clock demo_registration demo_new) as [r s'] eqn:Hrun.
  pose proof (f_equal fst Hrun) as Hr. cbn [fst] in Hr. vm_compute in Hr. subst r. exists s'. split; [reflexivity|].
  apply (registration_complete demo_inner demo_new demo_clock demo_registration _ _ s' eq_refl demo_new_reachable Hrun).
Defined.

Lemma extension_usable_witness :
  let s := after demo_inner [OpRegister demo_clock demo_registration] demo_new in
  let s' := (register_extension demo_inner demo_handle demo_extension s).2 in
  is_Some (declared_counter s' demo_handle (CodeExtension 0 2)).
Proof.
  cbv zeta. set (s := after _ _ _).
  assert (reachable demo_inner s) as Hs by (apply after_reachable; [exact demo_new_reachable|by repeat constructor]).
  destruct (register_extension demo_inner demo_handle demo_extension s) as [r s'] eqn:Hrun.
  pose proof (f_equal fst Hrun) as Hr. cbn [fst] in Hr. vm_compute in Hr. subst r.
  apply (extension_usable demo_inner s demo_handle demo_extension _ s' eq_refl Hs Hrun).
Defined.

Lemma classification_roundtrip_witness :
  resolve_observation_code demo_store demo_inner demo_handle (demo_observation "x")
  = inr (Some (CodeBuiltin (Failure (LoggingFailure LgSinkWriteFailed))), Some (ClassBuiltin FcIo)).
Proof.
  apply (classification_roundtrip demo_store demo_inner demo_handle (demo_observation "x")
    {| cf_code := "logging.sink.write_failed"; cf_failure_class := Some "io"%string |} eq_refl) with (class := Some FcIo).
  vm_compute. reflexivity.
Defined.
